(** * Video frame reassembly core: packet buffer, assembler, reference finders

    A shallow embedding of package [videoframe] (sequence unwrapper, video
    packet buffer, frame assembler, and the SeqNumOnly / FrameIdOnly / VP8
    reference finders) together with the properties of its specification.

    Conventions.
    - Go's [int64] is [Z] with the two's-complement wrap-around [wrap64]
      written at every arithmetic operation that can leave the range.
    - A Go pointer that may be [nil] is an [option].
    - A method with a pointer receiver takes the receiver's state and returns
      the new state next to its result. *)

From Stdlib Require Import ZArith Lia Bool List Sorting.Permutation.
From stdpp Require Import base option list sorting gmap.

Local Open Scope Z_scope.

(** ** 64-bit signed integers *)

Module Int64.

Definition int64_min : Z := - 2 ^ 63.
Definition int64_max : Z := 2 ^ 63 - 1.

(** Two's-complement reduction of a mathematical integer to [int64]. *)
Definition wrap64 (z : Z) : Z := (z + 2 ^ 63) mod 2 ^ 64 - 2 ^ 63.

Definition in_int64 (z : Z) : Prop := int64_min <= z <= int64_max.

Lemma wrap64_id z : in_int64 z -> wrap64 z = z.
Proof.
  unfold in_int64, int64_min, int64_max, wrap64. intros H.
  rewrite Z.mod_small; lia.
Qed.

Lemma wrap64_range z : in_int64 (wrap64 z).
Proof.
  unfold in_int64, int64_min, int64_max, wrap64.
  pose proof (Z.mod_pos_bound (z + 2 ^ 63) (2 ^ 64)). lia.
Qed.

End Int64.

Export Int64.

(** ** The 16-bit sequence-number unwrapper (receiver_interceptor.go) *)

Module SeqUnwrapper.

Record sequenceUnwrapper : Type := mkUnwrapper {
  lastSeq : Z;
  started : bool
}.

(** The zero value [&sequenceUnwrapper{}] a stream starts with. *)
Definition new : sequenceUnwrapper := mkUnwrapper 0 false.

(** [unwrap]: the argument [seq] is a [uint16]; the result is the returned
    value and the receiver after the call. *)
Definition unwrap (u : sequenceUnwrapper) (seq : Z) : Z * sequenceUnwrapper :=
  if negb (started u) then
    (seq, mkUnwrapper seq true)
  else
    let diff := seq - Z.land (lastSeq u) 65535 in
    let diff :=
      if diff >? 32768 then diff - 65536
      else if diff <? -32768 then diff + 65536
      else diff in
    let last := wrap64 (lastSeq u + diff) in
    (last, mkUnwrapper last true).

(** Feeding a whole stream of wire values, collecting the outputs. *)
Fixpoint unwrap_all (u : sequenceUnwrapper) (wire : list Z) : list Z :=
  match wire with
  | [] => []
  | s :: rest => let '(o, u') := unwrap u s in o :: unwrap_all u' rest
  end.

(** The unwrapper as the specification words it: the difference is
    normalised into the half-open interval (-2^15, 2^15]. *)
Definition spec_normalize (diff : Z) : Z :=
  if diff >? 32768 then diff - 65536
  else if diff <=? -32768 then diff + 65536
  else diff.

Definition spec_unwrap (u : sequenceUnwrapper) (seq : Z) : Z * sequenceUnwrapper :=
  if negb (started u) then (seq, mkUnwrapper seq true)
  else
    let diff := spec_normalize (seq - (lastSeq u) mod 2 ^ 16) in
    (lastSeq u + diff, mkUnwrapper (lastSeq u + diff) true).

(** A state whose next step cannot leave [int64]. *)
Definition headroom (u : sequenceUnwrapper) : Prop :=
  int64_min + 2 ^ 15 <= lastSeq u <= int64_max - 2 ^ 15.

(** Consecutive elements of a list are related by [R]. *)
Fixpoint chain {A} (R : A -> A -> Prop) (a : A) (l : list A) : Prop :=
  match l with
  | [] => True
  | b :: rest => R a b /\ chain R b rest
  end.

Definition close_step (a b : Z) : Prop := Z.abs (b - a) < 2 ^ 15.

(** The wire value moves forward modulo 2^16 by less than half the range. *)
Definition wire_forward (s s' : Z) : Prop := 0 < (s' - s) mod 2 ^ 16 < 2 ^ 15.

Lemma land_low16 z : Z.land z 65535 = z mod 2 ^ 16.
Proof. change 65535 with (Z.ones 16). apply Z.land_ones. lia. Qed.

Lemma unwrap_first u s :
  started u = false -> unwrap u s = (s, mkUnwrapper s true).
Proof. intros H. unfold unwrap. now rewrite H. Qed.

(** One step on a stream whose true sequence numbers are [r_prev] then [r]:
    the state tracks the true number shifted by a multiple of 2^16. *)
Lemma unwrap_tracks base r_prev r :
  base mod 2 ^ 16 = 0 ->
  close_step r_prev r ->
  in_int64 (r - base) ->
  unwrap (mkUnwrapper (r_prev - base) true) (r mod 2 ^ 16)
  = (r - base, mkUnwrapper (r - base) true).
Proof.
  intros Hb Hc Hr. unfold unwrap, close_step in *. cbn [started lastSeq negb].
  rewrite land_low16.
  assert (Hm : (r_prev - base) mod 2 ^ 16 = r_prev mod 2 ^ 16).
  { rewrite Zminus_mod, Hb, Z.sub_0_r. apply Z.mod_mod. lia. }
  rewrite Hm.
  pose proof (Z.div_mod r (2 ^ 16) ltac:(lia)) as E1.
  pose proof (Z.div_mod r_prev (2 ^ 16) ltac:(lia)) as E2.
  pose proof (Z.mod_pos_bound r (2 ^ 16) ltac:(lia)) as B1.
  pose proof (Z.mod_pos_bound r_prev (2 ^ 16) ltac:(lia)) as B2.
  set (m1 := r mod 2 ^ 16) in *. set (m2 := r_prev mod 2 ^ 16) in *.
  set (q1 := r / 2 ^ 16) in *. set (q2 := r_prev / 2 ^ 16) in *.
  change (2 ^ 16) with 65536 in *. change (2 ^ 15) with 32768 in *.
  assert (Hd : (if m1 - m2 >? 32768 then m1 - m2 - 65536
                else if m1 - m2 <? -32768 then m1 - m2 + 65536
                else m1 - m2) = r - r_prev).
  { destruct (Z.gtb_spec (m1 - m2) 32768); [lia|].
    destruct (Z.ltb_spec (m1 - m2) (-32768)); lia. }
  rewrite Hd.
  replace (r_prev - base + (r - r_prev)) with (r - base) by lia.
  now rewrite wrap64_id.
Qed.

Lemma unwrap_all_tracks base r_prev rs :
  base mod 2 ^ 16 = 0 ->
  chain close_step r_prev rs ->
  Forall (fun r => in_int64 (r - base)) rs ->
  unwrap_all (mkUnwrapper (r_prev - base) true) (map (fun r => r mod 2 ^ 16) rs)
  = map (fun r => r - base) rs.
Proof.
  intros Hb. revert r_prev.
  induction rs as [|r rs IH]; intros r_prev Hc Hr; [reflexivity|].
  destruct Hc as [Hc1 Hc2]. inversion Hr as [|? ? Hr1 Hr2]; subst.
  cbn [map unwrap_all]. rewrite (unwrap_tracks base r_prev r Hb Hc1 Hr1).
  f_equal. now apply IH.
Qed.

Lemma chain_lookup {A} (R : A -> A -> Prop) (a : A) (l : list A) (i : nat) x y :
  chain R a l -> (a :: l) !! i = Some x -> (a :: l) !! S i = Some y -> R x y.
Proof.
  revert a i. induction l as [|b l IH]; intros a i Hc Hx Hy.
  - destruct i; cbn in Hy; discriminate.
  - destruct Hc as [Hab Hc]. destruct i as [|i].
    + cbn in Hx, Hy. now inversion Hx; inversion Hy; subst.
    + apply (IH b i); assumption.
Qed.

Lemma forward_step_positive r r' :
  close_step r r' -> wire_forward (r mod 2 ^ 16) (r' mod 2 ^ 16) -> r < r'.
Proof.
  unfold close_step, wire_forward. intros Hc Hw.
  rewrite <- Zminus_mod in Hw.
  destruct (Z_lt_le_dec r r') as [|Hle]; [assumption|exfalso].
  destruct (Z.eq_dec r r') as [->|Hne].
  - rewrite Z.sub_diag, Z.mod_0_l in Hw; lia.
  - assert (E : (r' - r) mod 2 ^ 16 = r' - r + 2 ^ 16).
    { symmetry. apply (Z.mod_unique_pos _ _ (-1)); lia. }
    lia.
Qed.

(** C6 (as amended): the first input is stored and returned; every later
    input moves [last] by the difference [s - last mod 2^16] brought into the
    closed interval [-2^15, 2^15] by adding or subtracting 2^16, and a
    difference that already lies in that interval, -2^15 included, is used
    as it is. *)
Theorem unwrap_closed_interval (u : sequenceUnwrapper) (s : Z) :
  0 <= s < 2 ^ 16 ->
  headroom u ->
  (started u = false -> unwrap u s = (s, mkUnwrapper s true)) /\
  (started u = true ->
   exists d,
     unwrap u s = (lastSeq u + d, mkUnwrapper (lastSeq u + d) true) /\
     - 2 ^ 15 <= d <= 2 ^ 15 /\
     (d = s - lastSeq u mod 2 ^ 16 \/
      d = s - lastSeq u mod 2 ^ 16 - 2 ^ 16 \/
      d = s - lastSeq u mod 2 ^ 16 + 2 ^ 16) /\
     (- 2 ^ 15 <= s - lastSeq u mod 2 ^ 16 <= 2 ^ 15 ->
      d = s - lastSeq u mod 2 ^ 16)).
Proof.
  intros Hs Hh. split; [apply unwrap_first|].
  intros St. unfold unwrap. rewrite St. cbn [negb]. rewrite land_low16.
  pose proof (Z.mod_pos_bound (lastSeq u) (2 ^ 16) ltac:(lia)) as Hm.
  set (raw := s - lastSeq u mod 2 ^ 16) in *.
  unfold headroom, int64_min, int64_max in Hh.
  change (2 ^ 16) with 65536 in *. change (2 ^ 15) with 32768 in *.
  assert (Hw : forall d, -32768 <= d <= 32768 ->
                         wrap64 (lastSeq u + d) = lastSeq u + d).
  { intros d Hd. apply wrap64_id. unfold in_int64, int64_min, int64_max. lia. }
  destruct (Z.gtb_spec raw 32768) as [Hgt|Hle].
  - exists (raw - 65536). rewrite Hw by lia. repeat split; lia.
  - destruct (Z.ltb_spec raw (-32768)) as [Hlt|Hge].
    + exists (raw + 65536). rewrite Hw by lia. repeat split; lia.
    + exists raw. rewrite Hw by lia. repeat split; lia.
Qed.

Lemma unwrap_closed_interval_witness :
  (0 <= 0 < 2 ^ 16 /\ headroom (mkUnwrapper 32768 true)) /\
  exists d,
    unwrap (mkUnwrapper 32768 true) 0
    = (32768 + d, mkUnwrapper (32768 + d) true) /\
    - 2 ^ 15 <= d <= 2 ^ 15 /\
    (d = 0 - 32768 mod 2 ^ 16 \/
     d = 0 - 32768 mod 2 ^ 16 - 2 ^ 16 \/
     d = 0 - 32768 mod 2 ^ 16 + 2 ^ 16) /\
    (- 2 ^ 15 <= 0 - 32768 mod 2 ^ 16 <= 2 ^ 15 -> d = 0 - 32768 mod 2 ^ 16).
Proof.
  assert (H1 : 0 <= 0 < 2 ^ 16) by lia.
  assert (H2 : headroom (mkUnwrapper 32768 true)).
  { unfold headroom, int64_min, int64_max. cbn [lastSeq]. lia. }
  split; [split; assumption|].
  exact (proj2 (unwrap_closed_interval (mkUnwrapper 32768 true) 0 H1 H2) eq_refl).
Defined.

(** C6 (as written) fails: after the inputs 32768 and 0 the difference is
    exactly -2^15; the code keeps it and returns 0, whereas normalising into
    (-2^15, 2^15] turns it into +2^15 and yields 65536. *)
Lemma unwrap_half_range_not_flipped :
  unwrap new 32768 = (32768, mkUnwrapper 32768 true) /\
  unwrap (mkUnwrapper 32768 true) 0 = (0, mkUnwrapper 0 true) /\
  spec_unwrap (mkUnwrapper 32768 true) 0 = (65536, mkUnwrapper 65536 true).
Proof. repeat split; vm_compute; reflexivity. Qed.

(** C7: let [r0 :: rs] be the true (unbounded) sequence numbers of a stream,
    consecutive ones less than 2^15 apart, and let the unwrapper be fed their
    wire values [r mod 2^16].  Then every output is the true number minus one
    constant (0 when the stream starts inside [0, 2^16)), and wherever the
    wire value steps forward modulo 2^16 the output strictly increases. *)
Theorem unwrap_stream_offset (r0 : Z) (rs : list Z) :
  chain close_step r0 rs ->
  Forall (fun r => in_int64 (r - (r0 - r0 mod 2 ^ 16))) rs ->
  let wire := map (fun r => r mod 2 ^ 16) (r0 :: rs) in
  let outs := unwrap_all new wire in
  outs = map (fun r => r - (r0 - r0 mod 2 ^ 16)) (r0 :: rs) /\
  (0 <= r0 < 2 ^ 16 -> outs = r0 :: rs) /\
  (forall (i : nat) a b s s',
      outs !! i = Some a -> outs !! S i = Some b ->
      wire !! i = Some s -> wire !! S i = Some s' ->
      wire_forward s s' -> a < b).
Proof.
  intros Hc Hr wire outs. set (base := r0 - r0 mod 2 ^ 16) in *.
  assert (Hb : base mod 2 ^ 16 = 0).
  { unfold base. rewrite Zminus_mod, Z.mod_mod, Z.sub_diag by lia.
    apply Z.mod_0_l. lia. }
  assert (E : outs = map (fun r => r - base) (r0 :: rs)).
  { unfold outs, wire. cbn [map unwrap_all].
    rewrite unwrap_first by reflexivity.
    replace (r0 mod 2 ^ 16) with (r0 - base) at 1 by (unfold base; lia).
    replace (r0 mod 2 ^ 16) with (r0 - base) at 1 by (unfold base; lia).
    f_equal. now apply unwrap_all_tracks. }
  split; [exact E|]. split.
  - intros H0. rewrite E. replace base with 0.
    + clear. induction (r0 :: rs) as [|x l IH]; cbn; [reflexivity|].
      rewrite Z.sub_0_r. now f_equal.
    + unfold base. rewrite Z.mod_small; lia.
  - intros i a b s s' Ha Hb' Hs Hs' Hw.
    rewrite E in Ha, Hb'. unfold wire in Hs, Hs'.
    rewrite list_lookup_fmap in Ha, Hb', Hs, Hs'.
    destruct ((r0 :: rs) !! i) as [x|] eqn:Ex; [|discriminate].
    destruct ((r0 :: rs) !! S i) as [y|] eqn:Ey; [|discriminate].
    cbn in Ha, Hb', Hs, Hs'.
    inversion Ha; inversion Hb'; inversion Hs; inversion Hs'; subst.
    pose proof (chain_lookup close_step r0 rs i x y Hc Ex Ey) as Hxy.
    pose proof (forward_step_positive x y Hxy Hw). lia.
Qed.

Lemma unwrap_stream_offset_witness :
  (chain close_step 65534 [65535; 65536; 65537; 65536] /\
   Forall (fun r => in_int64 (r - (65534 - 65534 mod 2 ^ 16)))
          [65535; 65536; 65537; 65536]) /\
  unwrap_all new [65534; 65535; 0; 1; 0] = [65534; 65535; 65536; 65537; 65536].
Proof.
  assert (H1 : chain close_step 65534 [65535; 65536; 65537; 65536]).
  { cbn; unfold close_step; repeat split; lia. }
  assert (H2 : Forall (fun r => in_int64 (r - (65534 - 65534 mod 2 ^ 16)))
                      [65535; 65536; 65537; 65536]).
  { repeat constructor; vm_compute; discriminate. }
  split; [split; assumption|].
  exact (proj1 (unwrap_stream_offset 65534 _ H1 H2)).
Defined.

(** *** Further properties of the unwrapper *)

(** The value the unwrapper returns always carries the wire sequence number
    in its low 16 bits, the state it leaves is that value, and a packet that
    arrives twice in a row gets the same number both times. *)
Theorem unwrap_keeps_wire_value (u : sequenceUnwrapper) (s : Z) :
  0 <= s < 2 ^ 16 ->
  (started u = true -> headroom u) ->
  fst (unwrap u s) mod 2 ^ 16 = s /\
  snd (unwrap u s) = mkUnwrapper (fst (unwrap u s)) true /\
  unwrap (snd (unwrap u s)) s = unwrap u s.
Proof.
  intros Hs Hh.
  assert (Hrep : forall r, in_int64 r -> r mod 2 ^ 16 = s ->
                           unwrap (mkUnwrapper r true) s
                           = (r, mkUnwrapper r true)).
  { intros r Hr Hm. unfold unwrap. cbn [started lastSeq negb].
    rewrite land_low16, Hm, Z.sub_diag. cbn [Z.gtb Z.ltb Z.compare].
    now rewrite Z.add_0_r, wrap64_id. }
  assert (E : exists r, unwrap u s = (r, mkUnwrapper r true) /\
                        in_int64 r /\ r mod 2 ^ 16 = s).
  { destruct (started u) eqn:St.
    - specialize (Hh eq_refl). unfold headroom, int64_min, int64_max in Hh.
      unfold unwrap. rewrite St. cbn [negb]. rewrite land_low16.
      pose proof (Z.mod_pos_bound (lastSeq u) (2 ^ 16) ltac:(lia)) as Hm.
      pose proof (Z.div_mod (lastSeq u) (2 ^ 16) ltac:(lia)) as Hq.
      set (m := lastSeq u mod 2 ^ 16) in *. set (q := lastSeq u / 2 ^ 16) in *.
      change (2 ^ 16) with 65536 in *. change (2 ^ 15) with 32768 in *.
      assert (Hd : exists k, -1 <= k <= 1 /\
                 (if s - m >? 32768 then s - m - 65536
                  else if s - m <? -32768 then s - m + 65536 else s - m)
                 = s - m + 65536 * k /\
                 -32768 <= s - m + 65536 * k <= 32768).
      { destruct (Z.gtb_spec (s - m) 32768); [exists (-1); lia|].
        destruct (Z.ltb_spec (s - m) (-32768)); [exists 1; lia|exists 0; lia]. }
      destruct Hd as (k & Hk & -> & Hb).
      assert (Hin : in_int64 (lastSeq u + (s - m + 65536 * k)))
        by (unfold in_int64, int64_min, int64_max; lia).
      rewrite (wrap64_id _ Hin).
      exists (lastSeq u + (s - m + 65536 * k)).
      split; [reflexivity|]. split; [exact Hin|].
      symmetry. apply (Z.mod_unique_pos _ _ (q + k)); lia.
    - rewrite unwrap_first by exact St. exists s. split; [reflexivity|].
      split; [unfold in_int64, int64_min, int64_max; lia|].
      apply Z.mod_small; lia. }
  destruct E as (r & -> & Hr & Hm). cbn [fst snd].
  split; [exact Hm|]. split; [reflexivity|]. now apply Hrep.
Qed.

Lemma unwrap_keeps_wire_value_witness :
  (0 <= 3 < 2 ^ 16 /\
   (started (mkUnwrapper 131070 true) = true ->
    headroom (mkUnwrapper 131070 true))) /\
  fst (unwrap (mkUnwrapper 131070 true) 3) mod 2 ^ 16 = 3 /\
  snd (unwrap (mkUnwrapper 131070 true) 3)
  = mkUnwrapper (fst (unwrap (mkUnwrapper 131070 true) 3)) true /\
  unwrap (snd (unwrap (mkUnwrapper 131070 true) 3)) 3
  = unwrap (mkUnwrapper 131070 true) 3.
Proof.
  assert (H1 : 0 <= 3 < 2 ^ 16) by lia.
  assert (H2 : started (mkUnwrapper 131070 true) = true ->
               headroom (mkUnwrapper 131070 true)).
  { intros _. unfold headroom, int64_min, int64_max. cbn [lastSeq]. lia. }
  split; [split; assumption|].
  exact (unwrap_keeps_wire_value (mkUnwrapper 131070 true) 3 H1 H2).
Defined.

End SeqUnwrapper.

(** ** Data model (rtp_video_header.go, video_packet_buffer.go,
       video_frame_assembler.go) *)

Inductive FrameType : Type :=
| FrameTypeKey
| FrameTypeDelta.

Definition FrameType_eqb (a b : FrameType) : bool :=
  match a, b with
  | FrameTypeKey, FrameTypeKey | FrameTypeDelta, FrameTypeDelta => true
  | _, _ => false
  end.

Definition NoPictureID : Z := -1.
Definition NoTemporalIdx : Z := -1.
Definition NoTL0PicIdx : Z := -1.

(** [RTPVideoHeader]; the field [FrameType] is [hdrFrameType] here, the type
    already bearing that name. *)
Record RTPVideoHeader : Type := mkHeader {
  hdrFrameType : FrameType;
  IsFirstPacketInFrame : bool;
  IsLastPacketInFrame : bool;
  PictureID : Z;      (* int32 *)
  TemporalIdx : Z;    (* int8 *)
  TL0PicIdx : Z       (* int16 *)
}.

Record BufferedPacket : Type := mkPacket {
  SequenceNumber : Z;                    (* int64, unwrapped *)
  Timestamp : Z;                         (* uint32 *)
  Payload : list Byte.byte;
  VideoHeader : option RTPVideoHeader;   (* *RTPVideoHeader *)
  Continuous : bool;
  MarkerBit : bool
}.

Definition setContinuous (c : bool) (p : BufferedPacket) : BufferedPacket :=
  mkPacket (SequenceNumber p) (Timestamp p) (Payload p) (VideoHeader p) c
           (MarkerBit p).

(** [pkt.VideoHeader != nil && pkt.VideoHeader.IsFirstPacketInFrame] *)
Definition isFirst (p : BufferedPacket) : bool :=
  match VideoHeader p with
  | Some h => IsFirstPacketInFrame h
  | None => false
  end.

(** [pkt.VideoHeader != nil && pkt.VideoHeader.IsLastPacketInFrame] *)
Definition isLast (p : BufferedPacket) : bool :=
  match VideoHeader p with
  | Some h => IsLastPacketInFrame h
  | None => false
  end.

(** Two packet values that are the same packet object up to the transient
    [Continuous] mark the buffer writes into it. *)
Definition same_packet (p q : BufferedPacket) : Prop :=
  setContinuous false p = setContinuous false q.

(** ** Video headers from VP8 descriptors and the choice of the reference
       finder (rtp_video_header.go, ref_finder.go) *)

Module RtpHeader.

(** The fields of pion's [codecs.VP8Packet] that the package reads: the
    descriptor bits [S], [PID], [I], [L], [T] ([uint8]), [PictureID]
    ([uint16]), [TL0PICIDX] and [TID] ([uint8]), and the payload. *)
Module VP8Packet.
Record t : Type := mk {
  S : Z;
  PID : Z;
  I : Z;
  L : Z;
  T : Z;
  PictureID : Z;
  TL0PICIDX : Z;
  TID : Z;
  Payload : list Byte.byte
}.
End VP8Packet.

(** The fields lie in the ranges of their Go types. *)
Definition well_typed (pkt : VP8Packet.t) : Prop :=
  0 <= VP8Packet.PictureID pkt < 2 ^ 16 /\
  0 <= VP8Packet.TL0PICIDX pkt < 2 ^ 8 /\
  0 <= VP8Packet.TID pkt < 2 ^ 8.

(** The conversion [int8(x)] of a [uint8]. *)
Definition int8_of_uint8 (x : Z) : Z := (x + 2 ^ 7) mod 2 ^ 8 - 2 ^ 7.

(** [DetectVP8FrameType] *)
Definition DetectVP8FrameType (vp8Payload : list Byte.byte) : FrameType :=
  match vp8Payload with
  | [] => FrameTypeDelta
  | b :: _ =>
    if Z.land (Z.of_N (Byte.to_N b)) 1 =? 0 then FrameTypeKey
    else FrameTypeDelta
  end.

(** [NewRTPVideoHeaderFromVP8]; a field the code does not assign keeps its
    zero value ([FrameTypeKey] for the frame type). *)
Definition NewRTPVideoHeaderFromVP8 (pkt : VP8Packet.t) (marker : bool)
  : RTPVideoHeader :=
  let first := (VP8Packet.S pkt =? 1) && (VP8Packet.PID pkt =? 0) in
  mkHeader
    (if first then DetectVP8FrameType (VP8Packet.Payload pkt) else FrameTypeKey)
    first
    marker
    (if VP8Packet.I pkt =? 1 then VP8Packet.PictureID pkt else NoPictureID)
    (if VP8Packet.T pkt =? 1 then int8_of_uint8 (VP8Packet.TID pkt)
     else NoTemporalIdx)
    (if VP8Packet.L pkt =? 1 then VP8Packet.TL0PICIDX pkt else NoTL0PicIdx).

Inductive RefFinderType : Type :=
| RefFinderSeqNumOnly
| RefFinderFrameIDOnly
| RefFinderVP8.

(** [SelectRefFinderType] *)
Definition SelectRefFinderType (header : option RTPVideoHeader) : RefFinderType :=
  match header with
  | None => RefFinderSeqNumOnly
  | Some header =>
    let hasFullTemporalInfo :=
      negb (TemporalIdx header =? NoTemporalIdx)
      && negb (TL0PicIdx header =? NoTL0PicIdx)
      && negb (PictureID header =? NoPictureID) in
    if hasFullTemporalInfo then RefFinderVP8
    else if negb (PictureID header =? NoPictureID) then RefFinderFrameIDOnly
    else RefFinderSeqNumOnly
  end.

(** The packet that [BindRemoteStream] hands to the packet buffer for a
    parsed RTP packet: unwrapped sequence number, RTP timestamp and marker,
    the depacketized VP8 payload and the header made from the descriptor. *)
Definition bufferedPacketOf (unwrappedSeq timestamp : Z) (marker : bool)
           (vp8 : VP8Packet.t) : BufferedPacket :=
  mkPacket unwrappedSeq timestamp (VP8Packet.Payload vp8)
           (Some (NewRTPVideoHeaderFromVP8 vp8 marker)) false marker.

(** A descriptor with picture id 300, TL0PICIDX 7 and temporal layer [tid],
    all three flagged present, in front of a key-frame payload. *)
Definition descriptor (tid : Z) : VP8Packet.t :=
  VP8Packet.mk 1 0 1 1 1 300 7 tid [Byte.x10; Byte.x00].

Lemma int8_of_uint8_small x : 0 <= x < 2 ^ 7 -> int8_of_uint8 x = x.
Proof.
  intros Hx. unfold int8_of_uint8. rewrite Z.mod_small; lia.
Qed.

Lemma int8_of_uint8_absent x :
  0 <= x < 2 ^ 8 -> (int8_of_uint8 x =? NoTemporalIdx) = (x =? 255).
Proof.
  intros Hx. unfold int8_of_uint8, NoTemporalIdx.
  change (2 ^ 8) with 256 in *. change (2 ^ 7) with 128.
  destruct (Z_lt_le_dec x 128).
  - rewrite Z.mod_small by lia.
    destruct (Z.eqb_spec (x + 128 - 128) (-1)), (Z.eqb_spec x 255);
      try reflexivity; lia.
  - replace ((x + 128) mod 256) with (x - 128).
    + destruct (Z.eqb_spec (x - 128 - 128) (-1)), (Z.eqb_spec x 255);
        try reflexivity; lia.
    + apply (Z.mod_unique_pos _ _ 1); lia.
Qed.

(** Which reference finder a packet's descriptor selects: the sequence-number
    finder without the picture-id flag [I]; with it, the VP8 finder when the
    flags [T] and [L] are both set, else the picture-id finder.  A present
    picture id or TL0PICIDX is never mistaken for the absent value; a present
    temporal layer id is, when it is 255 ([int8(255)] is -1).  Without a
    header the sequence-number finder is selected. *)
Theorem finder_selected_by_descriptor_flags (pkt : VP8Packet.t) (marker : bool) :
  well_typed pkt ->
  SelectRefFinderType (Some (NewRTPVideoHeaderFromVP8 pkt marker))
  = (if VP8Packet.I pkt =? 1 then
       if (VP8Packet.T pkt =? 1) && negb (VP8Packet.TID pkt =? 255)
          && (VP8Packet.L pkt =? 1)
       then RefFinderVP8 else RefFinderFrameIDOnly
     else RefFinderSeqNumOnly) /\
  SelectRefFinderType None = RefFinderSeqNumOnly.
Proof.
  intros (Hp & Hl & Ht). split; [|reflexivity].
  unfold SelectRefFinderType, NewRTPVideoHeaderFromVP8.
  cbn [TemporalIdx TL0PicIdx PictureID].
  assert (Epid : (VP8Packet.PictureID pkt =? NoPictureID) = false)
    by (apply Z.eqb_neq; unfold NoPictureID; lia).
  assert (Etl0 : (VP8Packet.TL0PICIDX pkt =? NoTL0PicIdx) = false)
    by (apply Z.eqb_neq; unfold NoTL0PicIdx; lia).
  destruct (VP8Packet.I pkt =? 1), (VP8Packet.T pkt =? 1),
    (VP8Packet.L pkt =? 1);
    rewrite ?int8_of_uint8_absent by exact Ht;
    rewrite ?Epid, ?Etl0; cbn;
    try destruct (VP8Packet.TID pkt =? 255); reflexivity.
Qed.

Lemma finder_selected_by_descriptor_flags_witness :
  well_typed (descriptor 2) /\
  SelectRefFinderType (Some (NewRTPVideoHeaderFromVP8 (descriptor 2) true))
  = RefFinderVP8.
Proof.
  assert (H : well_typed (descriptor 2)) by (unfold well_typed; cbn; lia).
  split; [exact H|].
  exact (proj1 (finder_selected_by_descriptor_flags (descriptor 2) true H)).
Defined.

(** The temporal index of a header is the descriptor's [TID] when the flag
    [T] is set and [TID] is below 128, as the two-bit field of a VP8
    descriptor always is, and -1 without the flag: never below -1. *)
Lemma header_temporal_index (pkt : VP8Packet.t) (marker : bool) :
  0 <= VP8Packet.TID pkt < 2 ^ 7 ->
  TemporalIdx (NewRTPVideoHeaderFromVP8 pkt marker)
  = (if VP8Packet.T pkt =? 1 then VP8Packet.TID pkt else -1) /\
  -1 <= TemporalIdx (NewRTPVideoHeaderFromVP8 pkt marker).
Proof.
  intros Ht. unfold NewRTPVideoHeaderFromVP8. cbn [TemporalIdx].
  rewrite int8_of_uint8_small by exact Ht. unfold NoTemporalIdx.
  split; [reflexivity|]. destruct (_ =? 1); lia.
Qed.

End RtpHeader.

(** ** The video packet buffer (video_packet_buffer.go) *)

Module PacketBuffer.

Record VideoPacketBuffer : Type := mkBuffer {
  buffer : list (option BufferedPacket);
  size : Z                                (* uint16 *)
}.

Record InsertResult : Type := mkResult {
  Frames : list (list BufferedPacket)
}.

(** [NewVideoPacketBuffer]; [None] is the error return. *)
Definition NewVideoPacketBuffer (sz : Z) : option VideoPacketBuffer :=
  if (sz =? 0) || negb (Z.land sz (sz - 1) =? 0) || (sz <? 64) || (sz >? 2048)
  then None
  else Some (mkBuffer (replicate (Z.to_nat sz) None) sz).

(** Go's [%] truncates towards zero: [Z.rem]. *)
Definition seqNumToIndex (b : VideoPacketBuffer) (seqNum : Z) : nat :=
  let idx := Z.rem seqNum (size b) in
  let idx := if idx <? 0 then idx + size b else idx in
  Z.to_nat idx.

(** [b.buffer[i]]; the index is always within the slice for a buffer built by
    [NewVideoPacketBuffer] (see [well_formed]), so the out-of-range reading
    chosen here never shows. *)
Definition slotAt (b : VideoPacketBuffer) (i : nat) : option BufferedPacket :=
  default None (buffer b !! i).

(** [b.buffer[i] = v] *)
Definition setSlot (b : VideoPacketBuffer) (i : nat) (v : option BufferedPacket)
  : VideoPacketBuffer :=
  mkBuffer (<[i := v]> (buffer b)) (size b).

Definition potentialNewFrame (b : VideoPacketBuffer) (seqNum : Z) : bool :=
  match slotAt b (seqNumToIndex b seqNum) with
  | None => false
  | Some pkt =>
    if negb (SequenceNumber pkt =? seqNum) then false
    else if isFirst pkt then true
    else
      match slotAt b (seqNumToIndex b (wrap64 (seqNum - 1))) with
      | None => false
      | Some prevPkt =>
        if negb (SequenceNumber prevPkt =? wrap64 (seqNum - 1)) then false
        else if negb (Timestamp prevPkt =? Timestamp pkt) then false
        else Continuous prevPkt
      end
  end.

(** The backward walk of [extractFrame]: [None] is [return nil], [Some s] is
    the [break] with [startSeqNum = s].  The walk stops by itself after at
    most [size] decrements; [fuel] makes that bound structural. *)
Fixpoint findFrameStart (fuel : nat) (b : VideoPacketBuffer)
         (endSeqNum startSeqNum : Z) : option Z :=
  match slotAt b (seqNumToIndex b startSeqNum) with
  | None => None
  | Some pkt =>
    if negb (SequenceNumber pkt =? startSeqNum) then None
    else if isFirst pkt then Some startSeqNum
    else
      let startSeqNum := wrap64 (startSeqNum - 1) in
      if wrap64 (endSeqNum - startSeqNum) >? size b then None
      else
        match fuel with
        | O => None
        | S fuel => findFrameStart fuel b endSeqNum startSeqNum
        end
  end.

(** The forward loop [for seq := startSeqNum; seq <= endSeqNum; seq++]:
    [None] is [return nil]. *)
Fixpoint collectFrame (fuel : nat) (b : VideoPacketBuffer)
         (seq endSeqNum : Z) : option (list BufferedPacket) :=
  if seq <=? endSeqNum then
    match fuel with
    | O => None
    | S fuel =>
      match slotAt b (seqNumToIndex b seq) with
      | None => None
      | Some pkt =>
        if negb (SequenceNumber pkt =? seq) then None
        else if negb (Continuous pkt) then None
        else
          match collectFrame fuel b (wrap64 (seq + 1)) endSeqNum with
          | None => None
          | Some rest => Some (pkt :: rest)
          end
      end
    end
  else Some [].

Definition extractFrame_fuel (f1 f2 : nat) (b : VideoPacketBuffer)
           (endSeqNum : Z) : list BufferedPacket :=
  match findFrameStart f1 b endSeqNum endSeqNum with
  | None => []
  | Some startSeqNum =>
    match collectFrame f2 b startSeqNum endSeqNum with
    | None => []
    | Some packets => packets
    end
  end.

(** [extractFrame]; a nil slice is the empty list. *)
Definition extractFrame (b : VideoPacketBuffer) (endSeqNum : Z)
  : list BufferedPacket :=
  extractFrame_fuel (Z.to_nat (size b)) (S (Z.to_nat (size b))) b endSeqNum.

(** [for _, pkt := range frame { b.buffer[seqNumToIndex(pkt.SequenceNumber)] = nil }] *)
Definition clearFrame (b : VideoPacketBuffer) (frame : list BufferedPacket)
  : VideoPacketBuffer :=
  fold_left (fun b pkt => setSlot b (seqNumToIndex b (SequenceNumber pkt)) None)
            frame b.

(** One iteration of the scan of [findFrames], at loop index [i]. *)
Definition findFrames_step (seqNum : Z)
           (acc : list (list BufferedPacket) * VideoPacketBuffer) (i : Z)
  : list (list BufferedPacket) * VideoPacketBuffer :=
  let '(result, b) := acc in
  let currentSeq := wrap64 (seqNum - size b / 2 + i) in
  if negb (potentialNewFrame b currentSeq) then acc
  else
    let index := seqNumToIndex b currentSeq in
    match slotAt b index with
    | None => acc
    | Some pkt =>
      let pkt := setContinuous true pkt in
      let b := setSlot b index (Some pkt) in
      if isLast pkt then
        let frame := extractFrame b currentSeq in
        match frame with
        | [] => (result, b)
        | _ :: _ => (result ++ [frame], clearFrame b frame)
        end
      else (result, b)
    end.

Definition findFrames (b : VideoPacketBuffer) (seqNum : Z)
  : list (list BufferedPacket) * VideoPacketBuffer :=
  fold_left (findFrames_step seqNum) (seqZ 0 (size b)) ([], b).

Definition InsertPacket (b : VideoPacketBuffer) (pkt : BufferedPacket)
  : InsertResult * VideoPacketBuffer :=
  let seqNum := SequenceNumber pkt in
  let index := seqNumToIndex b seqNum in
  match slotAt b index with
  | Some old =>
    if SequenceNumber old =? seqNum then (mkResult [], b)
    else
      let b := setSlot b index None in
      let b := setSlot b index (Some (setContinuous false pkt)) in
      let '(frames, b) := findFrames b seqNum in
      (mkResult frames, b)
  | None =>
    let b := setSlot b index (Some (setContinuous false pkt)) in
    let '(frames, b) := findFrames b seqNum in
    (mkResult frames, b)
  end.

(** Delivering packets one after the other: the frame lists returned by the
    successive calls, and the buffer left behind. *)
Fixpoint insertAll (b : VideoPacketBuffer) (pkts : list BufferedPacket)
  : list (list (list BufferedPacket)) * VideoPacketBuffer :=
  match pkts with
  | [] => ([], b)
  | p :: rest =>
    let '(r, b1) := InsertPacket b p in
    let '(rs, b2) := insertAll b1 rest in
    (Frames r :: rs, b2)
  end.

(** All frames emitted while delivering [pkts], in emission order. *)
Definition emitted (b : VideoPacketBuffer) (pkts : list BufferedPacket)
  : list (list BufferedPacket) :=
  concat (fst (insertAll b pkts)).

(** A buffer as [NewVideoPacketBuffer] builds it and [InsertPacket] keeps it. *)
Definition well_formed (b : VideoPacketBuffer) : Prop :=
  0 < size b <= 2048 /\ length (buffer b) = Z.to_nat (size b).

(** A small helper to write test packets. *)
Definition packet (seq ts : Z) (first last : bool) : BufferedPacket :=
  mkPacket seq ts [] (Some (mkHeader FrameTypeDelta first last (-1) (-1) (-1)))
           false last.

Definition empty64 : VideoPacketBuffer := mkBuffer (replicate 64 None) 64.

(** *** Predicates of the statements *)

(** Sequence numbers for which the arithmetic of the scan stays inside
    [int64]: every number an unwrapper can produce in practice. *)
Definition safe_seq (s : Z) : Prop :=
  int64_min + 2 ^ 16 <= s <= int64_max - 2 ^ 16.

Inductive step_outcome (seqNum : Z) (i : Z)
          (result : list (list BufferedPacket)) (b : VideoPacketBuffer)
  : list (list BufferedPacket) * VideoPacketBuffer -> Prop :=
| step_skip : step_outcome seqNum i result b (result, b)
| step_mark pkt :
    slotAt b (seqNumToIndex b (wrap64 (seqNum - size b / 2 + i))) = Some pkt ->
    step_outcome seqNum i result b
      (result,
       setSlot b (seqNumToIndex b (wrap64 (seqNum - size b / 2 + i)))
               (Some (setContinuous true pkt)))
| step_extract pkt :
    let c := wrap64 (seqNum - size b / 2 + i) in
    let b1 := setSlot b (seqNumToIndex b c) (Some (setContinuous true pkt)) in
    slotAt b (seqNumToIndex b c) = Some pkt ->
    SequenceNumber pkt = c ->
    isLast pkt = true ->
    extractFrame b1 c <> [] ->
    step_outcome seqNum i result b
      (result ++ [extractFrame b1 c], clearFrame b1 (extractFrame b1 c)).

Definition kept_or_consumed (q : BufferedPacket) (j : nat)
           (acc : list (list BufferedPacket) * VideoPacketBuffer) : Prop :=
  (exists q', slotAt (snd acc) j = Some q' /\ same_packet q q') \/
  (exists fr q', In fr (fst acc) /\ In q' fr /\ same_packet q q').

Definition frame_before (f1 f2 : list BufferedPacket) : Prop :=
  forall p q, In p f1 -> In q f2 -> SequenceNumber p < SequenceNumber q.

Definition frames_ascending (l : list (list BufferedPacket)) : Prop :=
  forall (i j : nat) f1 f2,
    (i < j)%nat -> l !! i = Some f1 -> l !! j = Some f2 -> frame_before f1 f2.

(** Sequence numbers around which the whole scan window stays safe. *)
Definition insertable_seq (s : Z) : Prop :=
  int64_min + 2 ^ 17 <= s <= int64_max - 2 ^ 17.

(** The scan invariant at loop index [i]: the frames found so far are in
    ascending order, lie wholly below the scan position, and their slots
    are empty. *)
Definition scan_inv (sz seqNum i : Z)
           (acc : list (list BufferedPacket) * VideoPacketBuffer) : Prop :=
  well_formed (snd acc) /\ size (snd acc) = sz /\
  frames_ascending (fst acc) /\
  forall fr q, In fr (fst acc) -> In q fr ->
    SequenceNumber q < seqNum - sz / 2 + i /\
    slotAt (snd acc) (seqNumToIndex (snd acc) (SequenceNumber q)) = None.

(** Contiguous ascending sequence numbers, a first packet flagged as first
    and a last packet flagged as last. *)
Definition frame_well_shaped (fr : list BufferedPacket) : Prop :=
  (exists st, map SequenceNumber fr = seqZ st (Z.of_nat (length fr))) /\
  (exists q, head fr = Some q /\ isFirst q = true) /\
  (exists q, last fr = Some q /\ isLast q = true).

(** *** Scenarios *)

(** Packets 10 and 11 of one frame arrive, packet 74 takes the slot of 10,
    a different packet numbered 10 (another timestamp) takes it back. *)
Definition stale_mark_stream : list BufferedPacket :=
  [packet 10 1 true false; packet 11 1 false false;
   packet 74 5 false false; packet 10 2 true false].

Definition stale_mark_last : BufferedPacket := packet 12 1 false true.

(** A 33-packet frame 0..32 whose first packet arrives last, and a frame
    33..34 whose packet 34 is already waiting. *)
Definition gap_stream : list BufferedPacket :=
  map (fun i => packet i 7 false (i =? 32)) (seqZ 1 32)
  ++ [packet 34 9 false true; packet 0 7 true false].

Definition gap_filler : BufferedPacket := packet 33 9 true false.

(** What an observer of a frame sees for this property. *)
Definition frame_view (fr : list BufferedPacket)
  : list (Z * Z * bool * bool) :=
  map (fun p => (SequenceNumber p, Timestamp p, isFirst p, isLast p)) fr.

(** The packets [s, ..., e-1] of a frame wait in the buffer: each in its
    slot, marked continuous, none of them the last of a frame, all of one
    timestamp, the one numbered [s] starting the frame; and the slot of [e]
    holds the packet [p]. *)
Definition run_waiting (sz s e ts : Z) (p : BufferedPacket)
           (b : VideoPacketBuffer) : Prop :=
  well_formed b /\ size b = sz /\
  (forall j, s <= j < e ->
     exists q, slotAt b (seqNumToIndex b j) = Some q /\
               SequenceNumber q = j /\ Continuous q = true /\
               isLast q = false /\ Timestamp q = ts /\
               (j = s -> isFirst q = true)) /\
  (exists q, slotAt b (seqNumToIndex b e) = Some q /\ same_packet p q).

(** A buffer in which the first packet of a two-packet frame waits. *)
Definition first_waiting : VideoPacketBuffer :=
  snd (InsertPacket empty64 (packet 5 100 true false)).

(** A buffer with no packet in it. *)
Definition empty_buffer (b : VideoPacketBuffer) : Prop :=
  well_formed b /\ forall i, slotAt b i = None.

(** The packets of one frame in sending order: consecutive sequence numbers
    from [s], one timestamp, the first packet and no other flagged as the
    first of the frame, the last packet and no other flagged as the last. *)
Definition in_order_frame (s : Z) (pkts : list BufferedPacket) : Prop :=
  pkts <> [] /\
  forall (i : nat) p,
    pkts !! i = Some p ->
    SequenceNumber p = s + Z.of_nat i /\
    isFirst p = Nat.eqb i 0 /\
    isLast p = Nat.eqb (S i) (length pkts) /\
    (forall q, pkts !! 0%nat = Some q -> Timestamp p = Timestamp q).

(** The buffer holds the first [n] packets of [pkts], each in its slot and
    marked continuous, and nothing else. *)
Definition holds_prefix (s : Z) (pkts : list BufferedPacket) (n : nat)
           (b : VideoPacketBuffer) : Prop :=
  well_formed b /\
  (forall (j : nat) q,
      (j < n)%nat -> pkts !! j = Some q ->
      slotAt b (seqNumToIndex b (s + Z.of_nat j)) = Some (setContinuous true q)) /\
  (forall i x,
      slotAt b i = Some x ->
      exists (j : nat) q,
        (j < n)%nat /\ pkts !! j = Some q /\
        i = seqNumToIndex b (s + Z.of_nat j) /\ x = setContinuous true q).

(** What the calls of [InsertPacket] return while the packets of a frame
    arrive in order: nothing until the last packet, then the frame. *)
Definition in_order_results (pkts : list BufferedPacket)
  : list (list (list BufferedPacket)) :=
  replicate (length pkts - 1) [] ++ [[map (setContinuous true) pkts]].

(** A two-packet frame followed by a one-packet frame. *)
Definition two_frames : list (list BufferedPacket) :=
  [[packet 10 100 true false; packet 11 100 false true];
   [packet 12 200 true true]].

(** The buffer holds the packets of [D], each in its slot and up to the
    continuity mark, and nothing else. *)
Definition holds_set (D : list BufferedPacket) (b : VideoPacketBuffer) : Prop :=
  well_formed b /\
  (forall q, In q D ->
     exists x, slotAt b (seqNumToIndex b (SequenceNumber q)) = Some x /\
               same_packet q x) /\
  (forall i x, slotAt b i = Some x ->
     exists q, In q D /\ i = seqNumToIndex b (SequenceNumber q) /\
               same_packet q x).

(** The packets of the frame numbered below [c] are marked continuous. *)
Definition marked_below (s : Z) (pkts : list BufferedPacket) (c : Z)
           (b : VideoPacketBuffer) : Prop :=
  forall (j : nat) q,
    pkts !! j = Some q -> s + Z.of_nat j < c ->
    slotAt b (seqNumToIndex b (s + Z.of_nat j)) = Some (setContinuous true q).

(** The buffer holds every packet of the frame, each in its slot and up to
    the continuity mark, and nothing else. *)
Definition holds_all (s : Z) (pkts : list BufferedPacket)
           (b : VideoPacketBuffer) : Prop :=
  well_formed b /\
  (forall (j : nat) q,
      pkts !! j = Some q ->
      exists x, slotAt b (seqNumToIndex b (s + Z.of_nat j)) = Some x /\
                same_packet q x) /\
  (forall i x,
      slotAt b i = Some x ->
      exists (j : nat) q,
        pkts !! j = Some q /\ i = seqNumToIndex b (s + Z.of_nat j) /\
        same_packet q x).

(** A three-packet frame, and its packets with the last one first. *)
Definition three_packets : list BufferedPacket :=
  [packet 10 100 true false; packet 11 100 false false;
   packet 12 100 false true].

Definition three_packets_reordered : list BufferedPacket :=
  [packet 12 100 false true; packet 10 100 true false;
   packet 11 100 false false].

(** *** Slots *)

Lemma setSlot_size b i v : size (setSlot b i v) = size b.
Proof. reflexivity. Qed.

Lemma setSlot_length b i v :
  length (buffer (setSlot b i v)) = length (buffer b).
Proof. apply length_insert. Qed.

Lemma setSlot_well_formed b i v : well_formed b -> well_formed (setSlot b i v).
Proof. unfold well_formed. rewrite setSlot_length, setSlot_size. tauto. Qed.

Lemma seqNumToIndex_size b b' s :
  size b = size b' -> seqNumToIndex b s = seqNumToIndex b' s.
Proof. unfold seqNumToIndex. now intros ->. Qed.

Lemma seqNumToIndex_lt b s :
  well_formed b -> (seqNumToIndex b s < length (buffer b))%nat.
Proof.
  intros [Hs Hl]. rewrite Hl. unfold seqNumToIndex.
  pose proof (Z.rem_bound_abs s (size b) ltac:(lia)) as Hr.
  destruct (Z.ltb_spec (Z.rem s (size b)) 0); lia.
Qed.

Lemma slotAt_setSlot b i v j :
  (i < length (buffer b))%nat ->
  slotAt (setSlot b i v) j = if decide (i = j) then v else slotAt b j.
Proof.
  intros Hi. unfold slotAt, setSlot. cbn [buffer].
  destruct (decide (i = j)) as [->|Hne].
  - now rewrite list_lookup_insert_eq.
  - now rewrite list_lookup_insert_ne.
Qed.

Lemma slotAt_setSlot_None b i j :
  slotAt b j = None -> slotAt (setSlot b i None) j = None.
Proof.
  intros Hj. unfold slotAt, setSlot in *. cbn [buffer].
  destruct (decide (i = j)) as [->|Hne].
  - destruct (decide (j < length (buffer b))%nat).
    + now rewrite list_lookup_insert_eq.
    + rewrite list_insert_ge by lia. assumption.
  - now rewrite list_lookup_insert_ne.
Qed.

Lemma same_packet_refl p : same_packet p p.
Proof. reflexivity. Qed.

Lemma same_packet_trans p q r :
  same_packet p q -> same_packet q r -> same_packet p r.
Proof. unfold same_packet. congruence. Qed.

Lemma same_packet_setContinuous c p : same_packet p (setContinuous c p).
Proof. reflexivity. Qed.

(** *** Clearing an extracted frame *)

Lemma clearFrame_size b fr : size (clearFrame b fr) = size b.
Proof.
  unfold clearFrame. revert b. induction fr as [|x fr IH]; intros b; cbn.
  - reflexivity.
  - now rewrite IH.
Qed.

Lemma clearFrame_well_formed b fr :
  well_formed b -> well_formed (clearFrame b fr).
Proof.
  unfold clearFrame. revert b. induction fr as [|x fr IH]; intros b Hb; cbn.
  - assumption.
  - apply IH. now apply setSlot_well_formed.
Qed.

Lemma clearFrame_None b fr j :
  slotAt b j = None -> slotAt (clearFrame b fr) j = None.
Proof.
  unfold clearFrame. revert b. induction fr as [|x fr IH]; intros b Hj; cbn.
  - assumption.
  - apply IH. now apply slotAt_setSlot_None.
Qed.

Lemma clearFrame_cleared b fr x :
  well_formed b -> In x fr ->
  slotAt (clearFrame b fr) (seqNumToIndex b (SequenceNumber x)) = None.
Proof.
  unfold clearFrame. revert b. induction fr as [|y fr IH]; intros b Hb Hin.
  - destruct Hin.
  - cbn. destruct Hin as [->|Hin].
    + apply (clearFrame_None _ fr). rewrite slotAt_setSlot.
      * now rewrite decide_True.
      * now apply seqNumToIndex_lt.
    + set (b1 := setSlot b (seqNumToIndex b (SequenceNumber y)) None).
      change (seqNumToIndex b (SequenceNumber x))
        with (seqNumToIndex b1 (SequenceNumber x)).
      apply IH; [now apply setSlot_well_formed | assumption].
Qed.

(** A slot changed by clearing either keeps its content or is emptied on
    behalf of one of the frame's packets. *)
Lemma clearFrame_slot b fr j :
  well_formed b ->
  slotAt (clearFrame b fr) j = slotAt b j \/
  (slotAt (clearFrame b fr) j = None /\
   exists x, In x fr /\ j = seqNumToIndex b (SequenceNumber x)).
Proof.
  unfold clearFrame. revert b. induction fr as [|y fr IH]; intros b Hb.
  - now left.
  - cbn.
    set (b1 := setSlot b (seqNumToIndex b (SequenceNumber y)) None).
    assert (Hb1 : well_formed b1) by now apply setSlot_well_formed.
    destruct (IH b1 Hb1) as [E|[E (x & Hx & Hj)]].
    + rewrite E. unfold b1. rewrite slotAt_setSlot by now apply seqNumToIndex_lt.
      destruct (decide (seqNumToIndex b (SequenceNumber y) = j)) as [Ej|].
      * right. split; [reflexivity|]. exists y. split; [now left | now symmetry].
      * now left.
    + right. split; [exact E|]. exists x. split; [now right|].
      rewrite Hj. now apply seqNumToIndex_size.
Qed.

(** *** What [extractFrame] returns *)

(** Every collected packet sits in the slot of its own sequence number and
    carries the [Continuous] mark. *)
Lemma collectFrame_stored fuel b s e l :
  collectFrame fuel b s e = Some l ->
  Forall (fun q => slotAt b (seqNumToIndex b (SequenceNumber q)) = Some q /\
                   Continuous q = true) l.
Proof.
  revert s l. induction fuel as [|fuel IH]; intros s l; cbn.
  - destruct (s <=? e); [discriminate|]. intros [= <-]. constructor.
  - destruct (s <=? e); [|intros [= <-]; constructor].
    destruct (slotAt b (seqNumToIndex b s)) as [pkt|] eqn:Es; [|discriminate].
    destruct (Z.eqb_spec (SequenceNumber pkt) s) as [Eq|]; [|discriminate].
    cbn [negb]. destruct (Continuous pkt) eqn:Ec; [|discriminate]. cbn [negb].
    destruct (collectFrame fuel b (wrap64 (s + 1)) e) as [rest|] eqn:Er;
      [|discriminate].
    intros [= <-]. constructor.
    + rewrite Eq. now split.
    + now apply (IH _ _ Er).
Qed.

Lemma collectFrame_contiguous fuel b s e l :
  in_int64 s -> e < int64_max -> s <= e + 1 ->
  collectFrame fuel b s e = Some l ->
  map SequenceNumber l = seqZ s (e + 1 - s).
Proof.
  revert s l. induction fuel as [|fuel IH]; intros s l Hs He Hse; cbn.
  - destruct (Z.leb_spec s e); [discriminate|]. intros [= <-].
    rewrite seqZ_nil by lia. reflexivity.
  - destruct (Z.leb_spec s e);
      [|intros [= <-]; rewrite seqZ_nil by lia; reflexivity].
    destruct (slotAt b (seqNumToIndex b s)) as [pkt|] eqn:Es; [|discriminate].
    destruct (Z.eqb_spec (SequenceNumber pkt) s) as [Eq|]; [|discriminate].
    cbn [negb]. destruct (Continuous pkt) eqn:Ec; [|discriminate]. cbn [negb].
    assert (Hw : wrap64 (s + 1) = s + 1).
    { apply wrap64_id. unfold in_int64 in *. lia. }
    rewrite Hw.
    destruct (collectFrame fuel b (s + 1) e) as [rest|] eqn:Er; [|discriminate].
    intros [= <-]. cbn [map]. rewrite seqZ_cons by lia. f_equal; [exact Eq|].
    assert (Hs1 : in_int64 (s + 1)) by (unfold in_int64 in *; lia).
    rewrite (IH _ _ Hs1 He ltac:(lia) Er).
    f_equal; lia.
Qed.

Lemma findFrameStart_spec fuel b e s st :
  well_formed b -> safe_seq e -> e - size b <= s <= e ->
  findFrameStart fuel b e s = Some st ->
  e - size b <= st <= s /\
  exists q, slotAt b (seqNumToIndex b st) = Some q /\
            SequenceNumber q = st /\ isFirst q = true.
Proof.
  intros Hb He. revert s. induction fuel as [|fuel IH]; intros s Hs; cbn.
  all: destruct (slotAt b (seqNumToIndex b s)) as [pkt|] eqn:Es; [|discriminate].
  all: destruct (Z.eqb_spec (SequenceNumber pkt) s) as [Eq|]; [|discriminate].
  all: cbn [negb]; destruct (isFirst pkt) eqn:Ef.
  all: try (intros [= <-]; split; [lia|]; exists pkt; now repeat split).
  all: destruct Hb as [Hsz _]; unfold safe_seq, int64_min, int64_max in He.
  all: assert (Hw1 : wrap64 (s - 1) = s - 1)
    by (apply wrap64_id; unfold in_int64, int64_min, int64_max; lia).
  all: rewrite Hw1.
  all: assert (Hw2 : wrap64 (e - (s - 1)) = e - (s - 1))
    by (apply wrap64_id; unfold in_int64, int64_min, int64_max; lia).
  all: rewrite Hw2.
  all: destruct (Z.gtb_spec (e - (s - 1)) (size b)) as [|Hle]; [discriminate|].
  - discriminate.
  - intros Hst. destruct (IH (s - 1) ltac:(lia) Hst) as [Hr Hq].
    split; [lia|exact Hq].
Qed.

Lemma extractFrame_stored b e :
  Forall (fun q => slotAt b (seqNumToIndex b (SequenceNumber q)) = Some q /\
                   Continuous q = true) (extractFrame b e).
Proof.
  unfold extractFrame, extractFrame_fuel.
  destruct (findFrameStart _ b e e) as [st|]; [|constructor].
  destruct (collectFrame _ b st e) as [l|] eqn:El; [|constructor].
  exact (collectFrame_stored _ _ _ _ _ El).
Qed.

(** A frame that [extractFrame] returns is the run [st, st+1, ..., e] of
    stored packets, and the packet stored at [st] starts a frame. *)
Lemma extractFrame_run b e :
  well_formed b -> safe_seq e -> extractFrame b e <> [] ->
  exists st q,
    e - size b <= st <= e /\
    map SequenceNumber (extractFrame b e) = seqZ st (e + 1 - st) /\
    head (extractFrame b e) = Some q /\ isFirst q = true.
Proof.
  intros Hb He. unfold extractFrame, extractFrame_fuel.
  destruct (findFrameStart _ b e e) as [st|] eqn:Est; [|congruence].
  destruct (collectFrame _ b st e) as [l|] eqn:El; [|congruence].
  intros Hne.
  assert (Hsz : 0 < size b <= 2048) by apply Hb.
  assert (Hee : e - size b <= e <= e) by lia.
  destruct (findFrameStart_spec _ _ _ _ _ Hb He Hee Est)
    as [Hst (q & Hq & Hqs & Hqf)].
  assert (Hrun : map SequenceNumber l = seqZ st (e + 1 - st)).
  { unfold safe_seq, int64_min, int64_max in He.
    apply (collectFrame_contiguous _ _ _ _ _) in El; [exact El| | |lia].
    - unfold in_int64, int64_min, int64_max; lia.
    - unfold int64_max; lia. }
  exists st, q. repeat split; try lia; try assumption.
  destruct l as [|x l]; [congruence|]. cbn [head].
  pose proof (collectFrame_stored _ _ _ _ _ El) as Hf.
  inversion Hf as [|? ? [Hx _] _]; subst.
  rewrite seqZ_cons in Hrun by lia. cbn [map] in Hrun.
  injection Hrun as Hx1 _. rewrite Hx1 in Hx. congruence.
Qed.

(** *** One step of the scan *)

Lemma findFrames_step_outcome seqNum i result b :
  step_outcome seqNum i result b (findFrames_step seqNum (result, b) i).
Proof.
  unfold findFrames_step.
  set (c := wrap64 (seqNum - size b / 2 + i)).
  destruct (potentialNewFrame b c) eqn:Ep; cbn [negb]; [|constructor].
  destruct (slotAt b (seqNumToIndex b c)) as [pkt|] eqn:Es; [|constructor].
  assert (Hseq : SequenceNumber pkt = c).
  { unfold potentialNewFrame in Ep. rewrite Es in Ep.
    destruct (Z.eqb_spec (SequenceNumber pkt) c); [assumption|discriminate]. }
  destruct (isLast (setContinuous true pkt)) eqn:El.
  - destruct (extractFrame _ c) as [|x l] eqn:Ef.
    + now apply step_mark.
    + rewrite <- Ef. apply step_extract; try assumption. fold c. now rewrite Ef.
  - now apply step_mark.
Qed.

Lemma step_outcome_well_formed seqNum i result b acc :
  well_formed b -> step_outcome seqNum i result b acc ->
  well_formed (snd acc) /\ size (snd acc) = size b.
Proof.
  intros Hb [|pkt Hs|pkt c b1 Hs Hq Hl Hne]; cbn [snd].
  - now split.
  - split; [now apply setSlot_well_formed | reflexivity].
  - split.
    + apply clearFrame_well_formed. now apply setSlot_well_formed.
    + now rewrite clearFrame_size.
Qed.

(** Induction over the scan [for i := 0; i < size; i++] with an invariant
    that may mention the loop index. *)
Lemma scan_invariant
      (P : Z -> list (list BufferedPacket) * VideoPacketBuffer -> Prop)
      (step : list (list BufferedPacket) * VideoPacketBuffer -> Z ->
              list (list BufferedPacket) * VideoPacketBuffer) :
  (forall i acc, 0 <= i -> P i acc -> P (i + 1) (step acc i)) ->
  forall n k acc, 0 <= k -> P k acc -> 0 <= n ->
                  P (k + n) (fold_left step (seqZ k n) acc).
Proof.
  intros Hstep n k acc Hk HP Hn. revert k acc Hk HP.
  pattern n. apply natlike_ind; [| |exact Hn].
  - intros k acc Hk HP. rewrite seqZ_nil by lia. cbn. now rewrite Z.add_0_r.
  - intros m Hm IH k acc Hk HP. rewrite seqZ_cons by lia. cbn [fold_left].
    replace (Z.pred (Z.succ m)) with m by lia.
    replace (k + Z.succ m) with (Z.succ k + m) by lia.
    apply IH; [lia|]. replace (Z.succ k) with (k + 1) by lia.
    now apply Hstep.
Qed.

Lemma scan_invariant_bounded
      (P : Z -> list (list BufferedPacket) * VideoPacketBuffer -> Prop)
      (step : list (list BufferedPacket) * VideoPacketBuffer -> Z ->
              list (list BufferedPacket) * VideoPacketBuffer) (N : Z) :
  (forall i acc, 0 <= i < N -> P i acc -> P (i + 1) (step acc i)) ->
  forall acc, P 0 acc -> 0 <= N -> P N (fold_left step (seqZ 0 N) acc).
Proof.
  intros Hstep acc HP HN.
  pose (Q := fun i a => i <= N -> P i a).
  assert (HQ : Q (0 + N) (fold_left step (seqZ 0 N) acc)).
  { apply scan_invariant; try lia.
    - intros i a Hi Ha Hle. apply Hstep; [lia|]. apply Ha. lia.
    - intros _. exact HP. }
  apply HQ. lia.
Qed.

(** *** Where a stored packet can go (C9) *)

Lemma step_outcome_kept_or_consumed seqNum i result b acc q j :
  well_formed b ->
  kept_or_consumed q j (result, b) ->
  step_outcome seqNum i result b acc ->
  kept_or_consumed q j acc.
Proof.
  intros Hb Hk Hstep. unfold kept_or_consumed in *.
  destruct Hstep as [|pkt Hs|pkt c b1 Hs Hq Hl Hne].
  - exact Hk.
  - destruct Hk as [(q' & Hq' & Hsame)|Hc]; [|now right].
    left. cbn [snd] in *. rewrite slotAt_setSlot by now apply seqNumToIndex_lt.
    destruct (decide _) as [<-|]; [|eauto].
    exists (setContinuous true pkt). split; [reflexivity|].
    rewrite Hs in Hq'. injection Hq' as ->.
    eapply same_packet_trans; [exact Hsame|apply same_packet_setContinuous].
  - assert (Hb1 : well_formed b1) by now apply setSlot_well_formed.
    destruct Hk as [(q' & Hq' & Hsame)|(fr & q' & Hfr & Hin & Hsame)].
    2:{ right. exists fr, q'. repeat split; try assumption.
        apply in_or_app. now left. }
    cbn [snd fst] in *.
    assert (Hq1 : exists q1, slotAt b1 j = Some q1 /\ same_packet q q1).
    { unfold b1. rewrite slotAt_setSlot by now apply seqNumToIndex_lt.
      destruct (decide _) as [<-|]; [|eauto].
      exists (setContinuous true pkt). split; [reflexivity|].
      rewrite Hs in Hq'. injection Hq' as ->.
      eapply same_packet_trans; [exact Hsame|apply same_packet_setContinuous]. }
    destruct Hq1 as (q1 & Hq1 & Hsame1).
    destruct (clearFrame_slot b1 (extractFrame b1 c) j Hb1)
      as [E|[_ (x & Hx & Hj)]].
    + left. exists q1. now rewrite E.
    + right. exists (extractFrame b1 c), x. split; [|split].
      * apply in_or_app. right. now left.
      * exact Hx.
      * pose proof (extractFrame_stored b1 c) as Hst.
        rewrite Forall_forall in Hst. destruct (Hst x) as [Hxs _].
        { now apply list_elem_of_In. }
        rewrite <- Hj, Hq1 in Hxs. now injection Hxs as <-.
Qed.

Lemma findFrames_kept_or_consumed b seqNum q j :
  well_formed b -> slotAt b j = Some q ->
  well_formed (snd (findFrames b seqNum)) /\
  size (snd (findFrames b seqNum)) = size b /\
  kept_or_consumed q j (findFrames b seqNum).
Proof.
  intros Hb Hq. unfold findFrames.
  apply (scan_invariant_bounded
           (fun _ acc => well_formed (snd acc) /\ size (snd acc) = size b /\
                         kept_or_consumed q j acc)).
  - intros i [result b'] _ (Hw & Hs & Hk). cbn [snd] in *.
    pose proof (findFrames_step_outcome seqNum i result b') as Ho.
    destruct (step_outcome_well_formed _ _ _ _ _ Hw Ho) as [Hw' Hs'].
    split; [exact Hw'|]. split; [congruence|].
    now apply (step_outcome_kept_or_consumed seqNum i result b').
  - cbn. split; [assumption|]. split; [reflexivity|].
    left. exists q. split; [assumption|reflexivity].
  - destruct Hb. lia.
Qed.

(** The scan never brings a packet of another sequence number into a slot. *)
Lemma findFrames_slot_number b seqNum (j : nat) (s : Z) :
  well_formed b ->
  (forall q, slotAt b j = Some q -> SequenceNumber q = s) ->
  forall q, slotAt (snd (findFrames b seqNum)) j = Some q ->
            SequenceNumber q = s.
Proof.
  intros Hb Hj. unfold findFrames.
  enough (Hboth : well_formed (snd (fold_left (findFrames_step seqNum)
                                              (seqZ 0 (size b)) ([], b))) /\
                  forall q, slotAt (snd (fold_left (findFrames_step seqNum)
                                                   (seqZ 0 (size b)) ([], b))) j
                            = Some q -> SequenceNumber q = s)
    by apply Hboth.
  apply (scan_invariant_bounded
           (fun _ acc => well_formed (snd acc) /\
                         forall q, slotAt (snd acc) j = Some q ->
                                   SequenceNumber q = s)).
  - intros i [result b'] _ [Hw Hs]. cbn [snd] in *.
    pose proof (findFrames_step_outcome seqNum i result b') as Ho.
    destruct (step_outcome_well_formed _ _ _ _ _ Hw Ho) as [Hw' _].
    split; [exact Hw'|].
    destruct Ho as [|pkt Hp|pkt c b1 Hp Hq Hl Hne]; cbn [snd].
    + exact Hs.
    + intros q. rewrite slotAt_setSlot by now apply seqNumToIndex_lt.
      destruct (decide _) as [<-|]; [|apply Hs].
      intros [= <-]. cbn. now apply Hs.
    + intros q Hq1.
      assert (Hb1 : well_formed b1) by now apply setSlot_well_formed.
      destruct (clearFrame_slot b1 (extractFrame b1 c) j Hb1) as [E|[E _]];
        [|congruence].
      rewrite E in Hq1. unfold b1 in Hq1.
      rewrite slotAt_setSlot in Hq1 by now apply seqNumToIndex_lt.
      destruct (decide _) as [<-|]; [|now apply Hs].
      injection Hq1 as <-. cbn. now apply Hs.
  - now split.
  - destruct Hb. lia.
Qed.

(** C9 (as amended): a packet stored in the buffer leaves it only by being
    overwritten by a packet of a different sequence number that maps to the
    same slot, or by being handed out in a frame; otherwise it is still
    stored in its slot after the call.  The overwriting does not look at the
    order of the two numbers: after the call the slot of the inserted packet
    holds no packet of any other sequence number, larger or smaller. *)
Theorem stored_packet_overwritten_or_extracted
        (b : VideoPacketBuffer) (p : BufferedPacket) (i : nat)
        (q : BufferedPacket) :
  well_formed b ->
  slotAt b i = Some q ->
  ((exists q', slotAt (snd (InsertPacket b p)) i = Some q' /\ same_packet q q') \/
   (i = seqNumToIndex b (SequenceNumber p) /\
    SequenceNumber q <> SequenceNumber p) \/
   (exists fr q', In fr (Frames (fst (InsertPacket b p))) /\ In q' fr /\
                  same_packet q q')) /\
  (forall q', slotAt (snd (InsertPacket b p))
                     (seqNumToIndex b (SequenceNumber p)) = Some q' ->
              SequenceNumber q' = SequenceNumber p).
Proof.
  intros Hb Hq. split; [|clear i q Hq].
  2:{ unfold InsertPacket.
      set (idx := seqNumToIndex b (SequenceNumber p)).
      assert (Hidx : (idx < length (buffer b))%nat) by now apply seqNumToIndex_lt.
      assert (Hfin : forall b2, well_formed b2 ->
                (forall q, slotAt b2 idx = Some q ->
                           SequenceNumber q = SequenceNumber p) ->
                forall q', slotAt (snd (let '(frames, b3) :=
                                          findFrames b2 (SequenceNumber p) in
                                        (mkResult frames, b3))) idx = Some q' ->
                           SequenceNumber q' = SequenceNumber p).
      { intros b2 Hb2 H2 q'.
        pose proof (findFrames_slot_number b2 (SequenceNumber p) idx
                      (SequenceNumber p) Hb2 H2 q') as Hf.
        destruct (findFrames b2 (SequenceNumber p)) as [frames b3]. exact Hf. }
      destruct (slotAt b idx) as [old|] eqn:Eold.
      - destruct (Z.eqb_spec (SequenceNumber old) (SequenceNumber p)) as [Eq|Hne].
        + cbn [snd]. intros q'. rewrite Eold. now intros [= <-].
        + apply Hfin; [now do 2 apply setSlot_well_formed|].
          intros q. rewrite slotAt_setSlot by now rewrite setSlot_length.
          rewrite decide_True by reflexivity. now intros [= <-].
      - apply Hfin; [now apply setSlot_well_formed|].
        intros q. rewrite slotAt_setSlot by assumption.
        rewrite decide_True by reflexivity. now intros [= <-]. }
  unfold InsertPacket.
  set (idx := seqNumToIndex b (SequenceNumber p)).
  assert (Hidx : (idx < length (buffer b))%nat) by now apply seqNumToIndex_lt.
  assert (Hfin : forall b2, well_formed b2 -> slotAt b2 i = Some q ->
            let r := let '(frames, b3) := findFrames b2 (SequenceNumber p) in
                     (mkResult frames, b3) in
            (exists q', slotAt (snd r) i = Some q' /\ same_packet q q') \/
            (exists fr q', In fr (Frames (fst r)) /\ In q' fr /\ same_packet q q')).
  { intros b2 Hb2 Hq2.
    destruct (findFrames_kept_or_consumed b2 (SequenceNumber p) q i Hb2 Hq2)
      as (_ & _ & Hk).
    destruct (findFrames b2 (SequenceNumber p)) as [frames b3]. exact Hk. }
  destruct (slotAt b idx) as [old|] eqn:Eold.
  - destruct (Z.eqb_spec (SequenceNumber old) (SequenceNumber p)) as [Eq|Hne].
    + left. exists q. split; [assumption|reflexivity].
    + destruct (decide (i = idx)) as [->|Hi].
      * right; left. split; [reflexivity|]. congruence.
      * set (b2 := setSlot (setSlot b idx None) idx (Some (setContinuous false p))).
        assert (Hb2 : well_formed b2) by (do 2 apply setSlot_well_formed; exact Hb).
        assert (Hq2 : slotAt b2 i = Some q).
        { unfold b2. rewrite slotAt_setSlot by now rewrite setSlot_length.
          rewrite decide_False by congruence.
          rewrite slotAt_setSlot by assumption.
          now rewrite decide_False by congruence. }
        destruct (Hfin b2 Hb2 Hq2) as [H|H]; [now left|now right; right].
  - assert (Hi : i <> idx) by congruence.
    set (b2 := setSlot b idx (Some (setContinuous false p))).
    assert (Hb2 : well_formed b2) by (apply setSlot_well_formed; exact Hb).
    assert (Hq2 : slotAt b2 i = Some q).
    { unfold b2. rewrite slotAt_setSlot by assumption.
      now rewrite decide_False by congruence. }
    destruct (Hfin b2 Hb2 Hq2) as [H|H]; [now left|now right; right].
Qed.

Lemma seqNumToIndex_setSlot b i v s :
  seqNumToIndex (setSlot b i v) s = seqNumToIndex b s.
Proof. reflexivity. Qed.

Lemma seqNumToIndex_clearFrame b fr s :
  seqNumToIndex (clearFrame b fr) s = seqNumToIndex b s.
Proof. apply seqNumToIndex_size, clearFrame_size. Qed.

(** *** Frames of one call come out in ascending order (C2) *)

Lemma run_members (fr : list BufferedPacket) st n :
  map SequenceNumber fr = seqZ st n ->
  (forall x, In x fr -> st <= SequenceNumber x < st + n) /\
  (forall v, st <= v < st + n -> exists x, In x fr /\ SequenceNumber x = v).
Proof.
  intros E. split.
  - intros x Hx. apply elem_of_seqZ. rewrite <- E.
    apply list_elem_of_In. now apply in_map.
  - intros v Hv. apply elem_of_seqZ in Hv. rewrite <- E in Hv.
    apply list_elem_of_In, in_map_iff in Hv. destruct Hv as (x & Hx & Hin).
    now exists x.
Qed.

Lemma frames_ascending_snoc l fr :
  frames_ascending l ->
  (forall f1, In f1 l -> frame_before f1 fr) ->
  frames_ascending (l ++ [fr]).
Proof.
  intros Hl Hfr i j f1 f2 Hij H1 H2.
  apply lookup_snoc_Some in H2. destruct H2 as [[Hj H2]|[Hj <-]].
  - rewrite lookup_app_l in H1 by lia. now apply (Hl i j).
  - rewrite lookup_app_l in H1 by lia. apply Hfr.
    apply list_elem_of_In. now apply list_elem_of_lookup_2 in H1.
Qed.

Lemma scan_window_safe sz seqNum i :
  0 < sz <= 2048 -> insertable_seq seqNum -> 0 <= i < sz ->
  wrap64 (seqNum - sz / 2 + i) = seqNum - sz / 2 + i /\
  safe_seq (seqNum - sz / 2 + i).
Proof.
  unfold insertable_seq, safe_seq, int64_min, int64_max. intros Hsz Hs Hi.
  assert (0 <= sz / 2 <= 1024).
  { split; [apply Z.div_pos; lia|]. apply Z.div_le_upper_bound; lia. }
  split; [|lia]. apply wrap64_id. unfold in_int64, int64_min, int64_max. lia.
Qed.

Lemma step_outcome_scan_inv sz seqNum i result b acc :
  0 <= i < sz -> insertable_seq seqNum ->
  scan_inv sz seqNum i (result, b) ->
  step_outcome seqNum i result b acc ->
  scan_inv sz seqNum (i + 1) acc.
Proof.
  intros Hi Hsafe (Hb & Hsz & Hasc & Hold) Hstep. cbn [fst snd] in *.
  assert (Hsz' : 0 < sz <= 2048) by (rewrite <- Hsz; apply Hb).
  rewrite <- Hsz in Hi.
  destruct (scan_window_safe (size b) seqNum i ltac:(lia) Hsafe Hi) as [Hw Hc].
  destruct Hstep as [|pkt Hs|pkt c b1 Hs Hq Hl Hne]; unfold scan_inv; cbn [fst snd].
  - split; [assumption|]. split; [assumption|]. split; [assumption|].
    intros fr q Hfr Hin. destruct (Hold fr q Hfr Hin). split; [lia|assumption].
  - split; [now apply setSlot_well_formed|]. split; [assumption|].
    split; [assumption|]. intros fr q Hfr Hin.
    destruct (Hold fr q Hfr Hin) as [Hlt Hnone]. split; [lia|].
    rewrite seqNumToIndex_setSlot.
    rewrite slotAt_setSlot by now apply seqNumToIndex_lt.
    destruct (decide _) as [E|]; [|assumption]. rewrite E in Hs. congruence.
  - assert (Hb1 : well_formed b1) by now apply setSlot_well_formed.
    assert (Ec : c = seqNum - size b / 2 + i) by exact Hw.
    assert (Hc1 : safe_seq c) by now rewrite Ec.
    destruct (extractFrame_run b1 c Hb1 Hc1 Hne)
      as (st & q0 & Hst & Hrun & _ & _).
    destruct (run_members _ _ _ Hrun) as [Hmem Hcov].
    pose proof (extractFrame_stored b1 c) as Hstored.
    rewrite Forall_forall in Hstored.
    assert (Hold1 : forall fr q, In fr result -> In q fr ->
              slotAt b1 (seqNumToIndex b1 (SequenceNumber q)) = None).
    { intros fr q Hfr Hin. destruct (Hold fr q Hfr Hin) as [_ Hnone].
      unfold b1. rewrite seqNumToIndex_setSlot.
      rewrite slotAt_setSlot by now apply seqNumToIndex_lt.
      destruct (decide _) as [E|]; [|assumption]. rewrite E in Hs. congruence. }
    assert (Hbefore : forall f1, In f1 result ->
              frame_before f1 (extractFrame b1 c)).
    { intros f1 Hf1 p x Hp Hx.
      destruct (Hold f1 p Hf1 Hp) as [Hlt _].
      specialize (Hold1 f1 p Hf1 Hp).
      destruct (Z_lt_le_dec (SequenceNumber p) st) as [|Hge].
      - specialize (Hmem x Hx). lia.
      - exfalso. rewrite <- Hsz, <- Ec in Hlt.
        assert (Hrange : st <= SequenceNumber p < st + (c + 1 - st)) by lia.
        destruct (Hcov (SequenceNumber p) Hrange) as (y & Hy & Ey).
        destruct (Hstored y) as [Hys _]; [now apply list_elem_of_In|].
        rewrite Ey, Hold1 in Hys. discriminate. }
    split; [now apply clearFrame_well_formed|].
    split; [now rewrite clearFrame_size|].
    split; [now apply frames_ascending_snoc|].
    intros fr q Hfr Hin. apply in_app_or in Hfr.
    rewrite seqNumToIndex_clearFrame.
    destruct Hfr as [Hfr|[<-|[]]].
    + destruct (Hold fr q Hfr Hin) as [Hlt _]. split; [lia|].
      apply clearFrame_None. now apply (Hold1 fr).
    + specialize (Hmem q Hin). rewrite <- Hsz. split; [lia|].
      now apply clearFrame_cleared.
Qed.

Lemma findFrames_ascending b seqNum :
  well_formed b -> insertable_seq seqNum ->
  frames_ascending (fst (findFrames b seqNum)).
Proof.
  intros Hb Hs. unfold findFrames.
  apply (scan_invariant_bounded (scan_inv (size b) seqNum)).
  - intros i [result b'] Hi Hinv.
    apply (step_outcome_scan_inv _ _ _ result b'); try assumption.
    apply findFrames_step_outcome.
  - split; [assumption|]. split; [reflexivity|]. split.
    + intros i j f1 f2 _ H1. cbn in H1. destruct i; discriminate.
    + intros fr q [].
  - destruct Hb. lia.
Qed.

(** *** Shape of the frames of one call *)

Lemma last_of_run (fr : list BufferedPacket) st n y :
  0 < n -> map SequenceNumber fr = seqZ st n -> last fr = Some y ->
  SequenceNumber y = st + n - 1.
Proof.
  intros Hn E Hy.
  assert (Hl : last (map SequenceNumber fr) = Some (SequenceNumber y)).
  { change (map SequenceNumber fr) with (SequenceNumber <$> fr).
    rewrite fmap_last, Hy. reflexivity. }
  rewrite E, last_lookup, length_seqZ in Hl.
  rewrite lookup_seqZ in Hl. destruct Hl as [Hl _]. lia.
Qed.

Lemma step_outcome_well_shaped seqNum i result b acc :
  well_formed b -> 0 <= i < size b -> insertable_seq seqNum ->
  Forall frame_well_shaped result ->
  step_outcome seqNum i result b acc ->
  Forall frame_well_shaped (fst acc).
Proof.
  intros Hb Hi Hsafe Hres Hstep.
  assert (Hsz : 0 < size b <= 2048) by apply Hb.
  destruct (scan_window_safe (size b) seqNum i Hsz Hsafe Hi) as [Hw Hc].
  destruct Hstep as [|pkt Hs|pkt c b1 Hs Hq Hl Hne]; cbn [fst]; try assumption.
  apply Forall_app. split; [assumption|]. constructor; [|constructor].
  assert (Hb1 : well_formed b1) by now apply setSlot_well_formed.
  assert (Ec : c = seqNum - size b / 2 + i) by exact Hw.
  assert (Hc1 : safe_seq c) by now rewrite Ec.
  destruct (extractFrame_run b1 c Hb1 Hc1 Hne) as (st & q0 & Hst & Hrun & Hhd & Hf).
  assert (Hlen : Z.of_nat (length (extractFrame b1 c)) = c + 1 - st).
  { rewrite <- (length_map SequenceNumber), Hrun, length_seqZ. lia. }
  split; [exists st; now rewrite Hlen|]. split; [now exists q0|].
  destruct (last (extractFrame b1 c)) as [y|] eqn:Ey.
  2:{ apply last_None in Ey. contradiction. }
  exists y. split; [reflexivity|].
  assert (Hpos : 0 < c + 1 - st) by lia.
  pose proof (last_of_run _ _ _ _ Hpos Hrun Ey) as Hy.
  pose proof (extractFrame_stored b1 c) as Hstored.
  rewrite Forall_forall in Hstored.
  destruct (Hstored y) as [Hys _].
  { apply list_elem_of_lookup. exists (pred (length (extractFrame b1 c))).
    now rewrite <- last_lookup. }
  replace (SequenceNumber y) with c in Hys by lia.
  unfold b1 in Hys at 2. rewrite seqNumToIndex_setSlot in Hys.
  unfold b1 in Hys. rewrite slotAt_setSlot in Hys by now apply seqNumToIndex_lt.
  rewrite decide_True in Hys by reflexivity. injection Hys as <-. exact Hl.
Qed.

(** Every frame that one call returns has contiguous ascending sequence
    numbers, starts with a first-packet-in-frame and ends with a
    last-packet-in-frame. *)
Lemma InsertPacket_frames_well_shaped b p :
  well_formed b -> insertable_seq (SequenceNumber p) ->
  Forall frame_well_shaped (Frames (fst (InsertPacket b p))).
Proof.
  intros Hb Hp.
  assert (Hfin : forall b2, well_formed b2 ->
            Forall frame_well_shaped (fst (findFrames b2 (SequenceNumber p)))).
  { intros b2 Hb2. unfold findFrames.
    enough (H : (well_formed (snd (fold_left (findFrames_step (SequenceNumber p))
                                             (seqZ 0 (size b2)) ([], b2))) /\
                 size (snd (fold_left (findFrames_step (SequenceNumber p))
                                      (seqZ 0 (size b2)) ([], b2))) = size b2) /\
                Forall frame_well_shaped
                       (fst (fold_left (findFrames_step (SequenceNumber p))
                                       (seqZ 0 (size b2)) ([], b2))))
      by apply H.
    apply (scan_invariant_bounded
             (fun _ acc => (well_formed (snd acc) /\ size (snd acc) = size b2) /\
                           Forall frame_well_shaped (fst acc))).
    - intros i [result b'] Hi [[Hw Hs] Hres]. cbn [fst snd] in *.
      pose proof (findFrames_step_outcome (SequenceNumber p) i result b') as Ho.
      destruct (step_outcome_well_formed _ _ _ _ _ Hw Ho) as [Hw' Hs'].
      split; [split; [exact Hw'|congruence]|].
      apply (step_outcome_well_shaped (SequenceNumber p) i result b');
        try assumption. now rewrite Hs.
    - repeat split; try apply Hb2. constructor.
    - destruct Hb2. lia. }
  unfold InsertPacket. destruct (slotAt b _) as [old|].
  - destruct (_ =? _); [constructor|].
    match goal with |- context [findFrames ?b2 ?s] =>
      pose proof (Hfin b2) as Hf; destruct (findFrames b2 s) end.
    apply Hf. now do 2 apply setSlot_well_formed.
  - match goal with |- context [findFrames ?b2 ?s] =>
      pose proof (Hfin b2) as Hf; destruct (findFrames b2 s) end.
    apply Hf. now apply setSlot_well_formed.
Qed.

(** *** Duplicates (C3) *)

Lemma InsertPacket_duplicate b p old :
  slotAt b (seqNumToIndex b (SequenceNumber p)) = Some old ->
  SequenceNumber old = SequenceNumber p ->
  InsertPacket b p = (mkResult [], b).
Proof.
  intros Hs Heq. unfold InsertPacket. rewrite Hs.
  now rewrite (proj2 (Z.eqb_eq _ _) Heq).
Qed.

(** *** The fuel of the two loops of [extractFrame] is never the reason
        for a [nil] result *)

Lemma findFrameStart_fuel b e s fuel m :
  well_formed b -> safe_seq e -> e - size b <= s <= e ->
  (Z.to_nat (size b - (e - s)) <= fuel)%nat ->
  findFrameStart (fuel + m) b e s = findFrameStart fuel b e s.
Proof.
  intros Hb He. revert s.
  assert (Hsz : 0 < size b <= 2048) by apply Hb.
  unfold safe_seq, int64_min, int64_max in He.
  induction fuel as [|fuel IH]; intros s Hs Hf.
  - destruct m as [|m]; [reflexivity|]. cbn.
    destruct (slotAt b (seqNumToIndex b s)) as [pkt|]; [|reflexivity].
    destruct (negb _); [reflexivity|]. destruct (isFirst pkt); [reflexivity|].
    rewrite (wrap64_id (s - 1))
      by (unfold in_int64, int64_min, int64_max; lia).
    rewrite (wrap64_id (e - (s - 1)))
      by (unfold in_int64, int64_min, int64_max; lia).
    destruct (Z.gtb_spec (e - (s - 1)) (size b)); [reflexivity|exfalso; lia].
  - cbn.
    destruct (slotAt b (seqNumToIndex b s)) as [pkt|]; [|reflexivity].
    destruct (negb _); [reflexivity|]. destruct (isFirst pkt); [reflexivity|].
    rewrite (wrap64_id (s - 1))
      by (unfold in_int64, int64_min, int64_max; lia).
    rewrite (wrap64_id (e - (s - 1)))
      by (unfold in_int64, int64_min, int64_max; lia).
    destruct (Z.gtb_spec (e - (s - 1)) (size b)); [reflexivity|].
    apply IH; lia.
Qed.

Lemma collectFrame_fuel b s e fuel m :
  in_int64 s -> e < int64_max -> s <= e + 1 ->
  (Z.to_nat (e + 1 - s) <= fuel)%nat ->
  collectFrame (fuel + m) b s e = collectFrame fuel b s e.
Proof.
  revert s. induction fuel as [|fuel IH]; intros s Hs He Hse Hf.
  - destruct m as [|m]; [reflexivity|]. cbn.
    destruct (Z.leb_spec s e); [exfalso; lia|reflexivity].
  - cbn. destruct (Z.leb_spec s e); [|reflexivity].
    destruct (slotAt b (seqNumToIndex b s)) as [pkt|]; [|reflexivity].
    destruct (negb _); [reflexivity|]. destruct (negb _); [reflexivity|].
    assert (Hs1 : in_int64 (s + 1)) by (unfold in_int64 in *; lia).
    rewrite (wrap64_id _ Hs1). rewrite IH by (assumption || lia). reflexivity.
Qed.

Lemma extractFrame_fuel_enough b e m1 m2 :
  well_formed b -> safe_seq e ->
  extractFrame_fuel (Z.to_nat (size b) + m1) (S (Z.to_nat (size b)) + m2) b e
  = extractFrame b e.
Proof.
  intros Hb He. assert (Hsz : 0 < size b <= 2048) by apply Hb.
  unfold extractFrame, extractFrame_fuel.
  rewrite findFrameStart_fuel by (assumption || lia).
  destruct (findFrameStart _ b e e) as [st|] eqn:Est; [|reflexivity].
  assert (Hee : e - size b <= e <= e) by lia.
  destruct (findFrameStart_spec _ _ _ _ _ Hb He Hee Est) as [Hst _].
  unfold safe_seq, int64_min, int64_max in He.
  rewrite collectFrame_fuel; [reflexivity| | |lia|lia].
  - unfold in_int64, int64_min, int64_max. lia.
  - unfold int64_max. lia.
Qed.

(** *** The buffer stays well formed *)

Lemma NewVideoPacketBuffer_well_formed sz b :
  NewVideoPacketBuffer sz = Some b -> well_formed b /\ size b = sz.
Proof.
  unfold NewVideoPacketBuffer.
  destruct (Z.eqb_spec sz 0); [discriminate|]. cbn [orb].
  destruct (negb _); [discriminate|]. cbn [orb].
  destruct (Z.ltb_spec sz 64); [discriminate|]. cbn [orb].
  destruct (Z.gtb_spec sz 2048); [discriminate|].
  intros [= <-]. unfold well_formed. cbn [size buffer].
  rewrite length_replicate. repeat split; lia.
Qed.

Lemma findFrames_well_formed b seqNum :
  well_formed b -> well_formed (snd (findFrames b seqNum)).
Proof.
  intros Hb. unfold findFrames.
  apply (scan_invariant_bounded (fun _ acc => well_formed (snd acc))).
  - intros i [result b'] _ Hw.
    now apply (step_outcome_well_formed seqNum i result b' _ Hw),
              findFrames_step_outcome.
  - exact Hb.
  - destruct Hb. lia.
Qed.

Lemma InsertPacket_well_formed b p :
  well_formed b -> well_formed (snd (InsertPacket b p)).
Proof.
  intros Hb. unfold InsertPacket.
  destruct (slotAt b _) as [old|].
  - destruct (_ =? _); [exact Hb|].
    match goal with |- context [findFrames ?b2 ?s] =>
      pose proof (findFrames_well_formed b2 s) as Hf;
      destruct (findFrames b2 s) end.
    apply Hf. now do 2 apply setSlot_well_formed.
  - match goal with |- context [findFrames ?b2 ?s] =>
      pose proof (findFrames_well_formed b2 s) as Hf;
      destruct (findFrames b2 s) end.
    apply Hf. now apply setSlot_well_formed.
Qed.

Lemma insertAll_well_formed pkts b :
  well_formed b -> well_formed (snd (insertAll b pkts)).
Proof.
  revert b. induction pkts as [|p pkts IH]; intros b Hb; cbn; [exact Hb|].
  pose proof (InsertPacket_well_formed b p Hb) as H1.
  destruct (InsertPacket b p) as [r b1]. cbn [snd] in H1.
  specialize (IH b1 H1). destruct (insertAll b1 pkts). exact IH.
Qed.

Lemma empty64_well_formed : well_formed empty64.
Proof. unfold well_formed, empty64. cbn. split; [lia|reflexivity]. Qed.

Lemma empty64_is_new : NewVideoPacketBuffer 64 = Some empty64.
Proof. reflexivity. Qed.

(** *** Theorems *)

(** C1: on the deliveries 10, 11 (timestamp 1), 74, 10 again with timestamp
    2, then 12 (timestamp 1, last), [InsertPacket] returns the frame
    10, 11, 12: contiguous, first and last flagged, but with two different
    timestamps.  Packet 11 kept the [Continuous] mark it earned next to the
    first packet 10, and [extractFrame] trusts the mark. *)
Theorem stale_continuous_mark_mixes_timestamps :
  map frame_view
      (Frames (fst (InsertPacket (snd (insertAll empty64 stale_mark_stream))
                                 stale_mark_last)))
  = [[(10, 2, true, false); (11, 1, false, false); (12, 1, false, true)]].
Proof. vm_compute. reflexivity. Qed.

(** C2: one call can return several frames (here the packet 33 fills the gap
    between 32 and 34 and the call returns the frames 0..32 and 33..34), and
    the frames one call returns are in ascending sequence-number order:
    every packet of an earlier frame is numbered below every packet of a
    later one. *)
Theorem several_frames_in_ascending_order :
  map (map SequenceNumber)
      (Frames (fst (InsertPacket (snd (insertAll empty64 gap_stream))
                                 gap_filler)))
  = [seqZ 0 33; [33; 34]] /\
  (forall b p,
      well_formed b -> insertable_seq (SequenceNumber p) ->
      frames_ascending (Frames (fst (InsertPacket b p)))).
Proof.
  split; [vm_compute; reflexivity|].
  intros b p Hb Hp. unfold InsertPacket.
  assert (Hnil : frames_ascending []).
  { intros i j f1 f2 _ H1. destruct i; discriminate. }
  destruct (slotAt b _) as [old|].
  - destruct (_ =? _); [exact Hnil|].
    match goal with |- context [findFrames ?b2 ?s] =>
      pose proof (findFrames_ascending b2 s) as Hf;
      destruct (findFrames b2 s) end.
    apply Hf; [now do 2 apply setSlot_well_formed|exact Hp].
  - match goal with |- context [findFrames ?b2 ?s] =>
      pose proof (findFrames_ascending b2 s) as Hf;
      destruct (findFrames b2 s) end.
    apply Hf; [now apply setSlot_well_formed|exact Hp].
Qed.

Lemma several_frames_in_ascending_order_witness :
  (well_formed (snd (insertAll empty64 gap_stream)) /\
   insertable_seq (SequenceNumber gap_filler)) /\
  frames_ascending
    (Frames (fst (InsertPacket (snd (insertAll empty64 gap_stream)) gap_filler))).
Proof.
  assert (H1 : well_formed (snd (insertAll empty64 gap_stream))).
  { apply insertAll_well_formed, empty64_well_formed. }
  assert (H2 : insertable_seq (SequenceNumber gap_filler)).
  { unfold insertable_seq, int64_min, int64_max. cbn. lia. }
  split; [split; assumption|].
  exact (proj2 several_frames_in_ascending_order _ _ H1 H2).
Defined.

(** C3 (as amended): a packet whose slot already holds a packet of the same
    sequence number is ignored: the call returns no frame and leaves the
    buffer as it was, so the deliveries that follow emit exactly what they
    would have emitted without it. *)
Theorem duplicate_of_stored_packet_ignored
        (b : VideoPacketBuffer) (p old : BufferedPacket) :
  slotAt b (seqNumToIndex b (SequenceNumber p)) = Some old ->
  SequenceNumber old = SequenceNumber p ->
  InsertPacket b p = (mkResult [], b) /\
  forall rest,
    emitted b (p :: rest) = emitted b rest /\
    snd (insertAll b (p :: rest)) = snd (insertAll b rest).
Proof.
  intros Hs Heq. pose proof (InsertPacket_duplicate b p old Hs Heq) as E.
  split; [exact E|]. intros rest. unfold emitted. cbn [insertAll].
  rewrite E. destruct (insertAll b rest) as [rs b2]. now cbn.
Qed.

Lemma duplicate_of_stored_packet_ignored_witness :
  let b := snd (InsertPacket empty64 (packet 1000 90000 true false)) in
  let p := packet 1000 90000 true false in
  (slotAt b (seqNumToIndex b (SequenceNumber p))
   = Some (setContinuous true p) /\
   SequenceNumber (setContinuous true p) = SequenceNumber p) /\
  InsertPacket b p = (mkResult [], b).
Proof.
  cbv zeta.
  assert (H1 : slotAt (snd (InsertPacket empty64 (packet 1000 90000 true false)))
                 (seqNumToIndex
                    (snd (InsertPacket empty64 (packet 1000 90000 true false)))
                    (SequenceNumber (packet 1000 90000 true false)))
               = Some (setContinuous true (packet 1000 90000 true false)))
    by (vm_compute; reflexivity).
  assert (H2 : SequenceNumber (setContinuous true (packet 1000 90000 true false))
               = SequenceNumber (packet 1000 90000 true false))
    by reflexivity.
  split; [split; assumption|].
  exact (proj1 (duplicate_of_stored_packet_ignored _ _ _ H1 H2)).
Defined.

(** C3 (as written) fails: a repeated delivery is not always without effect
    on what is emitted.  A second copy of packet 10 arriving after packet 74
    took its slot throws 74 out, and the frame 74..75 is never emitted; and a
    single-packet frame delivered twice is emitted twice, its slot having been
    emptied by the first extraction. *)
Lemma repeated_delivery_changes_emissions :
  map (map SequenceNumber)
      (emitted empty64 [packet 10 1 false false; packet 74 5 true false;
                        packet 75 5 false true]) = [[74; 75]] /\
  emitted empty64 [packet 10 1 false false; packet 74 5 true false;
                   packet 10 1 false false; packet 75 5 false true] = [] /\
  map (map SequenceNumber) (emitted empty64 [packet 10 1 true true])
  = [[10]] /\
  map (map SequenceNumber)
      (emitted empty64 [packet 10 1 true true; packet 10 1 true true])
  = [[10]; [10]].
Proof. repeat split; vm_compute; reflexivity. Qed.

Lemma stored_packet_overwritten_or_extracted_witness :
  let b := snd (InsertPacket empty64 (packet 74 5 false false)) in
  let p := packet 10 1 false false in
  (well_formed b /\ slotAt b 10 = Some (packet 74 5 false false)) /\
  ((exists q', slotAt (snd (InsertPacket b p)) 10 = Some q' /\
               same_packet (packet 74 5 false false) q') \/
   (10%nat = seqNumToIndex b (SequenceNumber p) /\
    SequenceNumber (packet 74 5 false false) <> SequenceNumber p) \/
   (exists fr q', In fr (Frames (fst (InsertPacket b p))) /\ In q' fr /\
                  same_packet (packet 74 5 false false) q')).
Proof.
  cbv zeta.
  assert (H1 : well_formed (snd (InsertPacket empty64 (packet 74 5 false false)))).
  { apply InsertPacket_well_formed, empty64_well_formed. }
  assert (H2 : slotAt (snd (InsertPacket empty64 (packet 74 5 false false))) 10
               = Some (packet 74 5 false false))
    by (vm_compute; reflexivity).
  split; [split; assumption|].
  exact (proj1 (stored_packet_overwritten_or_extracted _
                  (packet 10 1 false false) 10%nat _ H1 H2)).
Defined.

(** C9 (as written) fails: packet 74 occupies slot 10; inserting the older
    packet 10 puts 10 into the slot, returns no frame, and 74 is gone. *)
Lemma older_packet_evicts_newer :
  slotAt (snd (InsertPacket empty64 (packet 74 5 false false))) 10
  = Some (packet 74 5 false false) /\
  InsertPacket (snd (InsertPacket empty64 (packet 74 5 false false)))
               (packet 10 1 false false)
  = (mkResult [],
     mkBuffer (<[10%nat := Some (packet 10 1 false false)]> (replicate 64 None))
              64).
Proof. split; vm_compute; reflexivity. Qed.

(** *** Further properties of the buffer *)

(** [NewVideoPacketBuffer] accepts exactly the sizes 64, 128, ..., 2048 and
    then builds a buffer of that many empty slots; every other size is the
    error. *)
Theorem NewVideoPacketBuffer_accepted_sizes (sz : Z) :
  NewVideoPacketBuffer sz
  = if bool_decide (sz ∈ [64; 128; 256; 512; 1024; 2048])
    then Some (mkBuffer (replicate (Z.to_nat sz) None) sz)
    else None.
Proof.
  unfold NewVideoPacketBuffer.
  destruct (Z.eqb_spec sz 0) as [->|H0]; [reflexivity|]. cbn [orb].
  destruct (Z.ltb_spec sz 64) as [Hlo|Hlo].
  { rewrite orb_true_r. cbn [orb]. case_bool_decide as Hin; [|reflexivity].
    rewrite !elem_of_cons, elem_of_nil in Hin. lia. }
  destruct (Z.gtb_spec sz 2048) as [Hhi|Hhi].
  { rewrite !orb_true_r. case_bool_decide as Hin; [|reflexivity].
    rewrite !elem_of_cons, elem_of_nil in Hin. lia. }
  rewrite !orb_false_r.
  assert (Hall : Forall (fun z => negb (Z.land z (z - 1) =? 0)
                                  = negb (bool_decide
                                            (z ∈ [64; 128; 256; 512; 1024; 2048])))
                        (seqZ 64 1985)).
  { apply (bool_decide_unpack _). vm_compute. exact I. }
  rewrite Forall_seqZ in Hall. rewrite (Hall sz) by lia.
  now destruct (bool_decide _).
Qed.

Lemma seqNumToIndex_mod b s :
  0 < size b -> Z.of_nat (seqNumToIndex b s) = s mod size b.
Proof.
  intros Hsz. unfold seqNumToIndex.
  pose proof (Z.rem_bound_abs s (size b) ltac:(lia)) as Hr.
  pose proof (Z.quot_rem' s (size b)) as Hq.
  destruct (Z.ltb_spec (Z.rem s (size b)) 0) as [Hneg|Hpos].
  - rewrite Z2Nat.id by lia.
    apply (Z.mod_unique s (size b) (Z.quot s (size b) - 1)); lia.
  - rewrite Z2Nat.id by lia.
    apply (Z.mod_unique s (size b) (Z.quot s (size b))); lia.
Qed.

(** The slot of a sequence number is its non-negative remainder modulo the
    buffer size, also for negative numbers: an index inside the buffer, and
    two sequence numbers share a slot exactly when they differ by a multiple
    of the size. *)
Theorem seqNumToIndex_is_modulo (b : VideoPacketBuffer) (s : Z) :
  0 < size b ->
  Z.of_nat (seqNumToIndex b s) = s mod size b /\
  0 <= Z.of_nat (seqNumToIndex b s) < size b /\
  forall t, seqNumToIndex b s = seqNumToIndex b t <-> (s - t) mod size b = 0.
Proof.
  intros Hsz. split; [now apply seqNumToIndex_mod|].
  split; [rewrite seqNumToIndex_mod by assumption; apply Z.mod_pos_bound; lia|].
  intros t. split.
  - intros E. rewrite Zminus_mod.
    rewrite <- (seqNumToIndex_mod b s), <- (seqNumToIndex_mod b t) by assumption.
    rewrite E, Z.sub_diag. apply Z.mod_0_l. lia.
  - intros E. apply Nat2Z.inj. rewrite !seqNumToIndex_mod by assumption.
    replace s with (t + (s - t)) at 1 by lia.
    rewrite Zplus_mod, E, Z.add_0_r. apply Zmod_mod.
Qed.

Lemma seqNumToIndex_is_modulo_witness :
  0 < size empty64 /\
  (Z.of_nat (seqNumToIndex empty64 (-3)) = (-3) mod size empty64 /\
   0 <= Z.of_nat (seqNumToIndex empty64 (-3)) < size empty64 /\
   forall t, seqNumToIndex empty64 (-3) = seqNumToIndex empty64 t <->
             (-3 - t) mod size empty64 = 0).
Proof.
  assert (H : 0 < size empty64) by (cbn; lia).
  split; [exact H|]. exact (seqNumToIndex_is_modulo empty64 (-3) H).
Defined.

Lemma findFrames_size b seqNum :
  well_formed b -> size (snd (findFrames b seqNum)) = size b.
Proof.
  intros Hb. unfold findFrames.
  enough (H : well_formed (snd (fold_left (findFrames_step seqNum)
                                          (seqZ 0 (size b)) ([], b))) /\
              size (snd (fold_left (findFrames_step seqNum)
                                   (seqZ 0 (size b)) ([], b))) = size b)
    by apply H.
  apply (scan_invariant_bounded
           (fun _ acc => well_formed (snd acc) /\ size (snd acc) = size b)).
  - intros i [result b'] _ [Hw Hs]. cbn [snd] in *.
    pose proof (findFrames_step_outcome seqNum i result b') as Ho.
    destruct (step_outcome_well_formed _ _ _ _ _ Hw Ho) as [Hw' Hs'].
    split; [exact Hw'|congruence].
  - now split.
  - destruct Hb. lia.
Qed.

Lemma InsertPacket_size b p :
  well_formed b -> size (snd (InsertPacket b p)) = size b.
Proof.
  intros Hb. unfold InsertPacket. destruct (slotAt b _) as [old|].
  - destruct (_ =? _); [reflexivity|].
    match goal with |- context [findFrames ?b2 ?s] =>
      pose proof (findFrames_size b2 s) as Hf; destruct (findFrames b2 s) end.
    apply Hf. now do 2 apply setSlot_well_formed.
  - match goal with |- context [findFrames ?b2 ?s] =>
      pose proof (findFrames_size b2 s) as Hf; destruct (findFrames b2 s) end.
    apply Hf. now apply setSlot_well_formed.
Qed.

(** [InsertPacket] never changes the capacity of the buffer: the size and
    the number of slots stay what they were. *)
Theorem InsertPacket_keeps_capacity (b : VideoPacketBuffer) (p : BufferedPacket) :
  well_formed b ->
  size (snd (InsertPacket b p)) = size b /\
  length (buffer (snd (InsertPacket b p))) = length (buffer b).
Proof.
  intros Hb.
  assert (Hw : well_formed (snd (InsertPacket b p)))
    by now apply InsertPacket_well_formed.
  assert (Hs : size (snd (InsertPacket b p)) = size b)
    by now apply InsertPacket_size.
  split; [exact Hs|]. destruct Hw as [_ Hl], Hb as [_ Hl']. congruence.
Qed.

Lemma InsertPacket_keeps_capacity_witness :
  well_formed empty64 /\
  size (snd (InsertPacket empty64 (packet 10 1 true true))) = size empty64 /\
  length (buffer (snd (InsertPacket empty64 (packet 10 1 true true))))
  = length (buffer empty64).
Proof.
  split; [exact empty64_well_formed|].
  exact (InsertPacket_keeps_capacity empty64 (packet 10 1 true true)
           empty64_well_formed).
Defined.

Lemma InsertPacket_frames_well_shaped_witness :
  (well_formed (snd (insertAll empty64 gap_stream)) /\
   insertable_seq (SequenceNumber gap_filler)) /\
  Forall frame_well_shaped
         (Frames (fst (InsertPacket (snd (insertAll empty64 gap_stream))
                                    gap_filler))).
Proof.
  assert (H1 : well_formed (snd (insertAll empty64 gap_stream))).
  { apply insertAll_well_formed, empty64_well_formed. }
  assert (H2 : insertable_seq (SequenceNumber gap_filler)).
  { unfold insertable_seq, int64_min, int64_max. cbn. lia. }
  split; [split; assumption|].
  exact (InsertPacket_frames_well_shaped _ _ H1 H2).
Defined.

Lemma findFrames_scan_inv b seqNum :
  well_formed b -> insertable_seq seqNum ->
  scan_inv (size b) seqNum (size b) (findFrames b seqNum).
Proof.
  intros Hb Hs. unfold findFrames.
  apply (scan_invariant_bounded (scan_inv (size b) seqNum)).
  - intros i [result b'] Hi Hinv.
    apply (step_outcome_scan_inv _ _ _ result b'); try assumption.
    apply findFrames_step_outcome.
  - split; [assumption|]. split; [reflexivity|]. split.
    + intros i j f1 f2 _ H1. cbn in H1. destruct i; discriminate.
    + intros fr q [].
  - destruct Hb. lia.
Qed.

(** The scan hands out and keeps only packets it found: a property of
    packets that survives the [Continuous] mark and holds for every stored
    packet holds for every packet stored or returned afterwards. *)
Lemma findFrames_packets_preserved (O : BufferedPacket -> Prop) b seqNum :
  (forall q, O q -> O (setContinuous true q)) ->
  well_formed b ->
  (forall j q, slotAt b j = Some q -> O q) ->
  (forall j q, slotAt (snd (findFrames b seqNum)) j = Some q -> O q) /\
  (forall fr q, In fr (fst (findFrames b seqNum)) -> In q fr -> O q).
Proof.
  intros Hmark Hb Hstored. unfold findFrames.
  enough (H : well_formed (snd (fold_left (findFrames_step seqNum)
                                          (seqZ 0 (size b)) ([], b))) /\
              (forall j q, slotAt (snd (fold_left (findFrames_step seqNum)
                                                  (seqZ 0 (size b)) ([], b))) j
                           = Some q -> O q) /\
              (forall fr q, In fr (fst (fold_left (findFrames_step seqNum)
                                                  (seqZ 0 (size b)) ([], b))) ->
                            In q fr -> O q))
    by apply H.
  apply (scan_invariant_bounded
           (fun _ acc => well_formed (snd acc) /\
                         (forall j q, slotAt (snd acc) j = Some q -> O q) /\
                         (forall fr q, In fr (fst acc) -> In q fr -> O q))).
  - intros i [result b'] _ (Hw & Hs & Hf). cbn [fst snd] in *.
    pose proof (findFrames_step_outcome seqNum i result b') as Ho.
    destruct (step_outcome_well_formed _ _ _ _ _ Hw Ho) as [Hw' _].
    split; [exact Hw'|].
    destruct Ho as [|pkt Hp|pkt c b1 Hp Hq Hl Hne]; cbn [fst snd].
    + now split.
    + split; [|exact Hf]. intros j q.
      rewrite slotAt_setSlot by now apply seqNumToIndex_lt.
      destruct (decide _) as [<-|]; [|apply Hs].
      intros [= <-]. apply Hmark. now apply (Hs _ _ Hp).
    + assert (Hb1 : well_formed b1) by now apply setSlot_well_formed.
      assert (Hs1 : forall j q, slotAt b1 j = Some q -> O q).
      { intros j q. unfold b1.
        rewrite slotAt_setSlot by now apply seqNumToIndex_lt.
        destruct (decide _) as [<-|]; [|apply Hs].
        intros [= <-]. apply Hmark. now apply (Hs _ _ Hp). }
      split.
      * intros j q Hj.
        destruct (clearFrame_slot b1 (extractFrame b1 c) j Hb1) as [E|[E _]];
          [|congruence].
        rewrite E in Hj. now apply (Hs1 j).
      * intros fr q Hfr Hin. apply in_app_or in Hfr.
        destruct Hfr as [Hfr|[<-|[]]]; [now apply (Hf fr)|].
        pose proof (extractFrame_stored b1 c) as Hst.
        rewrite Forall_forall in Hst.
        destruct (Hst q) as [Hqs _]; [now apply list_elem_of_In|].
        now apply (Hs1 _ _ Hqs).
  - split; [assumption|]. split; [assumption|]. intros fr q [].
  - destruct Hb. lia.
Qed.

Lemma findFrames_frames_marked b seqNum :
  well_formed b ->
  forall fr q, In fr (fst (findFrames b seqNum)) -> In q fr ->
               Continuous q = true.
Proof.
  intros Hb. unfold findFrames.
  enough (H : well_formed (snd (fold_left (findFrames_step seqNum)
                                          (seqZ 0 (size b)) ([], b))) /\
              (forall fr q, In fr (fst (fold_left (findFrames_step seqNum)
                                                  (seqZ 0 (size b)) ([], b))) ->
                            In q fr -> Continuous q = true))
    by apply H.
  apply (scan_invariant_bounded
           (fun _ acc => well_formed (snd acc) /\
                         (forall fr q, In fr (fst acc) -> In q fr ->
                                       Continuous q = true))).
  - intros i [result b'] _ (Hw & Hf). cbn [fst snd] in *.
    pose proof (findFrames_step_outcome seqNum i result b') as Ho.
    destruct (step_outcome_well_formed _ _ _ _ _ Hw Ho) as [Hw' _].
    split; [exact Hw'|].
    destruct Ho as [|pkt Hp|pkt c b1 Hp Hq Hl Hne]; cbn [fst snd]; try exact Hf.
    intros fr q Hfr Hin. apply in_app_or in Hfr.
    destruct Hfr as [Hfr|[<-|[]]]; [now apply (Hf fr)|].
    pose proof (extractFrame_stored b1 c) as Hst.
    rewrite Forall_forall in Hst.
    now destruct (Hst q) as [_ Hc]; [apply list_elem_of_In|].
  - split; [assumption|]. intros fr q [].
  - destruct Hb. lia.
Qed.

(** The packets of a returned frame have left the buffer, the slot of each
    of them is empty after the call, and each carries the [Continuous]
    mark. *)
Theorem returned_packets_leave_the_buffer
        (b : VideoPacketBuffer) (p : BufferedPacket) :
  well_formed b -> insertable_seq (SequenceNumber p) ->
  forall fr q,
    In fr (Frames (fst (InsertPacket b p))) -> In q fr ->
    slotAt (snd (InsertPacket b p)) (seqNumToIndex b (SequenceNumber q)) = None /\
    Continuous q = true.
Proof.
  intros Hb Hp.
  assert (Hfin : forall b2, well_formed b2 -> size b2 = size b ->
            forall fr q,
              In fr (fst (findFrames b2 (SequenceNumber p))) -> In q fr ->
              slotAt (snd (findFrames b2 (SequenceNumber p)))
                     (seqNumToIndex b (SequenceNumber q)) = None /\
              Continuous q = true).
  { intros b2 Hb2 Hsz fr q Hfr Hin. split.
    - destruct (findFrames_scan_inv b2 (SequenceNumber p) Hb2 Hp)
        as (_ & Hs & _ & Hold).
      destruct (Hold fr q Hfr Hin) as [_ Hnone].
      rewrite (seqNumToIndex_size b (snd (findFrames b2 (SequenceNumber p))))
        by congruence.
      exact Hnone.
    - exact (findFrames_frames_marked b2 _ Hb2 fr q Hfr Hin). }
  unfold InsertPacket. destruct (slotAt b _) as [old|].
  - destruct (_ =? _); [intros fr q []|].
    match goal with |- context [findFrames ?b2 ?s] =>
      pose proof (Hfin b2) as Hf; destruct (findFrames b2 s) end.
    apply Hf; [now do 2 apply setSlot_well_formed|reflexivity].
  - match goal with |- context [findFrames ?b2 ?s] =>
      pose proof (Hfin b2) as Hf; destruct (findFrames b2 s) end.
    apply Hf; [now apply setSlot_well_formed|reflexivity].
Qed.

Lemma returned_packets_leave_the_buffer_witness :
  (well_formed empty64 /\ insertable_seq (SequenceNumber (packet 10 1 true true))) /\
  slotAt (snd (InsertPacket empty64 (packet 10 1 true true)))
         (seqNumToIndex empty64
            (SequenceNumber (setContinuous true (packet 10 1 true true))))
  = None /\
  Continuous (setContinuous true (packet 10 1 true true)) = true.
Proof.
  assert (H2 : insertable_seq (SequenceNumber (packet 10 1 true true))).
  { unfold insertable_seq, int64_min, int64_max. cbn. lia. }
  split; [split; [exact empty64_well_formed|exact H2]|].
  apply (returned_packets_leave_the_buffer empty64 (packet 10 1 true true)
           empty64_well_formed H2
           [setContinuous true (packet 10 1 true true)]).
  - vm_compute. left. reflexivity.
  - left. reflexivity.
Defined.

(** A property of packets that the continuity mark does not touch holds of
    everything stored or returned after [InsertPacket] when it holds of the
    inserted packet and of everything stored before. *)
Lemma InsertPacket_packets_preserved (O : BufferedPacket -> Prop) b p :
  (forall c q, O q -> O (setContinuous c q)) ->
  well_formed b -> O p ->
  (forall j q, slotAt b j = Some q -> O q) ->
  (forall j q, slotAt (snd (InsertPacket b p)) j = Some q -> O q) /\
  (forall fr q, In fr (Frames (fst (InsertPacket b p))) -> In q fr -> O q).
Proof.
  intros Hmark Hb Hp Hold.
  assert (Hidx : (seqNumToIndex b (SequenceNumber p) < length (buffer b))%nat)
    by now apply seqNumToIndex_lt.
  unfold InsertPacket. destruct (slotAt b _) as [old|] eqn:Eold.
  - destruct (_ =? _).
    + cbn [fst snd Frames]. split; [exact Hold|]. intros fr q [].
    + match goal with |- context [findFrames ?b2 ?s] =>
        pose proof (findFrames_packets_preserved O b2 s (Hmark true)) as Hf;
        destruct (findFrames b2 s) end.
      apply Hf; [now do 2 apply setSlot_well_formed|].
      intros j x. rewrite slotAt_setSlot by now rewrite setSlot_length.
      destruct (decide _) as [<-|].
      * intros [= <-]. now apply Hmark.
      * rewrite slotAt_setSlot by assumption.
        destruct (decide _); [discriminate|]. apply Hold.
  - match goal with |- context [findFrames ?b2 ?s] =>
      pose proof (findFrames_packets_preserved O b2 s (Hmark true)) as Hf;
      destruct (findFrames b2 s) end.
    apply Hf; [now apply setSlot_well_formed|].
    intros j x. rewrite slotAt_setSlot by assumption.
    destruct (decide _) as [<-|]; [|apply Hold].
    intros [= <-]. now apply Hmark.
Qed.

(** [InsertPacket] makes up no packet: whatever is stored in the buffer or
    returned in a frame after the call is the inserted packet or a packet
    that was stored before (up to the [Continuous] mark). *)
Theorem no_packet_from_nowhere
        (b : VideoPacketBuffer) (p : BufferedPacket) (q : BufferedPacket) :
  well_formed b ->
  (exists j, slotAt (snd (InsertPacket b p)) j = Some q) \/
  (exists fr, In fr (Frames (fst (InsertPacket b p))) /\ In q fr) ->
  same_packet p q \/ exists j q0, slotAt b j = Some q0 /\ same_packet q0 q.
Proof.
  intros Hb.
  set (O := fun x => same_packet p x \/
                     exists j q0, slotAt b j = Some q0 /\ same_packet q0 x).
  assert (Hmark : forall x, O x -> O (setContinuous true x)).
  { intros x [Hx|(j & q0 & Hj & Hx)]; [left|right; exists j, q0; split; [exact Hj|]];
      (eapply same_packet_trans; [exact Hx|apply same_packet_setContinuous]). }
  assert (Hold : forall j x, slotAt b j = Some x -> O x).
  { intros j x Hx. right. exists j, x. split; [exact Hx|reflexivity]. }
  assert (Hfin : forall b2, well_formed b2 ->
            (forall j x, slotAt b2 j = Some x -> O x) ->
            (exists j, slotAt (snd (findFrames b2 (SequenceNumber p))) j = Some q) \/
            (exists fr, In fr (fst (findFrames b2 (SequenceNumber p))) /\ In q fr) ->
            O q).
  { intros b2 Hb2 H2 Hq.
    destruct (findFrames_packets_preserved O b2 (SequenceNumber p) Hmark Hb2 H2)
      as [Hs Hf].
    destruct Hq as [[j Hj]|(fr & Hfr & Hin)]; [now apply (Hs j)|now apply (Hf fr)]. }
  assert (Hidx : (seqNumToIndex b (SequenceNumber p) < length (buffer b))%nat)
    by now apply seqNumToIndex_lt.
  unfold InsertPacket. destruct (slotAt b _) as [old|] eqn:Eold.
  - destruct (_ =? _).
    + cbn [fst snd Frames]. intros [[j Hj]|(fr & [] & _)]. now apply (Hold j).
    + match goal with |- context [findFrames ?b2 ?s] =>
        pose proof (Hfin b2) as Hf; destruct (findFrames b2 s) end.
      apply Hf; [now do 2 apply setSlot_well_formed|].
      intros j x. rewrite slotAt_setSlot by now rewrite setSlot_length.
      destruct (decide _) as [<-|].
      * intros [= <-]. left. apply same_packet_setContinuous.
      * rewrite slotAt_setSlot by assumption.
        destruct (decide _); [discriminate|]. apply Hold.
  - match goal with |- context [findFrames ?b2 ?s] =>
      pose proof (Hfin b2) as Hf; destruct (findFrames b2 s) end.
    apply Hf; [now apply setSlot_well_formed|].
    intros j x. rewrite slotAt_setSlot by assumption.
    destruct (decide _) as [<-|]; [|apply Hold].
    intros [= <-]. left. apply same_packet_setContinuous.
Qed.

Lemma no_packet_from_nowhere_witness :
  (well_formed empty64 /\
   ((exists j, slotAt (snd (InsertPacket empty64 (packet 10 1 true false))) j
               = Some (setContinuous true (packet 10 1 true false))) \/
    (exists fr, In fr (Frames (fst (InsertPacket empty64 (packet 10 1 true false))))
                /\ In (setContinuous true (packet 10 1 true false)) fr))) /\
  (same_packet (packet 10 1 true false)
               (setContinuous true (packet 10 1 true false)) \/
   exists j q0, slotAt empty64 j = Some q0 /\
                same_packet q0 (setContinuous true (packet 10 1 true false))).
Proof.
  assert (H : (exists j, slotAt (snd (InsertPacket empty64 (packet 10 1 true false))) j
                         = Some (setContinuous true (packet 10 1 true false))) \/
              (exists fr, In fr (Frames (fst (InsertPacket empty64
                                                (packet 10 1 true false))))
                          /\ In (setContinuous true (packet 10 1 true false)) fr)).
  { left. exists 10%nat. vm_compute. reflexivity. }
  split; [split; [exact empty64_well_formed|exact H]|].
  exact (no_packet_from_nowhere empty64 (packet 10 1 true false) _
           empty64_well_formed H).
Defined.

(** A packet that is not a duplicate is taken in: after the call it sits in
    its slot, or it has been returned in a frame. *)
Theorem inserted_packet_stored_or_returned
        (b : VideoPacketBuffer) (p : BufferedPacket) :
  well_formed b ->
  (forall old, slotAt b (seqNumToIndex b (SequenceNumber p)) = Some old ->
               SequenceNumber old <> SequenceNumber p) ->
  (exists q, slotAt (snd (InsertPacket b p))
                    (seqNumToIndex b (SequenceNumber p)) = Some q /\
             same_packet p q) \/
  (exists fr q, In fr (Frames (fst (InsertPacket b p))) /\ In q fr /\
                same_packet p q).
Proof.
  intros Hb Hnew.
  assert (Hidx : (seqNumToIndex b (SequenceNumber p) < length (buffer b))%nat)
    by now apply seqNumToIndex_lt.
  assert (Hfin : forall b2, well_formed b2 ->
            slotAt b2 (seqNumToIndex b (SequenceNumber p))
            = Some (setContinuous false p) ->
            kept_or_consumed (setContinuous false p)
                             (seqNumToIndex b (SequenceNumber p))
                             (findFrames b2 (SequenceNumber p))).
  { intros b2 Hb2 H2.
    now destruct (findFrames_kept_or_consumed b2 (SequenceNumber p) _ _ Hb2 H2)
      as (_ & _ & Hk). }
  assert (Hout : forall acc,
            kept_or_consumed (setContinuous false p)
                             (seqNumToIndex b (SequenceNumber p)) acc ->
            (exists q, slotAt (snd acc) (seqNumToIndex b (SequenceNumber p))
                       = Some q /\ same_packet p q) \/
            (exists fr q, In fr (fst acc) /\ In q fr /\ same_packet p q)).
  { intros acc [(q & Hq & Hs)|(fr & q & Hfr & Hin & Hs)].
    - left. exists q. split; [exact Hq|].
      eapply same_packet_trans; [apply (same_packet_setContinuous false)|exact Hs].
    - right. exists fr, q. split; [exact Hfr|]. split; [exact Hin|].
      eapply same_packet_trans; [apply (same_packet_setContinuous false)|exact Hs]. }
  unfold InsertPacket. destruct (slotAt b _) as [old|] eqn:Eold.
  - destruct (Z.eqb_spec (SequenceNumber old) (SequenceNumber p)) as [E|_].
    { now destruct (Hnew old eq_refl). }
    match goal with |- context [findFrames ?b2 ?s] =>
      pose proof (Hfin b2) as Hf; destruct (findFrames b2 s) as [frames b3] end.
    apply (Hout (frames, b3)), Hf; [now do 2 apply setSlot_well_formed|].
    rewrite slotAt_setSlot by now rewrite setSlot_length.
    now rewrite decide_True.
  - match goal with |- context [findFrames ?b2 ?s] =>
      pose proof (Hfin b2) as Hf; destruct (findFrames b2 s) as [frames b3] end.
    apply (Hout (frames, b3)), Hf; [now apply setSlot_well_formed|].
    rewrite slotAt_setSlot by assumption. now rewrite decide_True.
Qed.

Lemma inserted_packet_stored_or_returned_witness :
  (well_formed empty64 /\
   (forall old, slotAt empty64 (seqNumToIndex empty64
                                  (SequenceNumber (packet 11 1 false false)))
                = Some old ->
                SequenceNumber old <> SequenceNumber (packet 11 1 false false))) /\
  ((exists q, slotAt (snd (InsertPacket empty64 (packet 11 1 false false)))
                     (seqNumToIndex empty64
                        (SequenceNumber (packet 11 1 false false))) = Some q /\
              same_packet (packet 11 1 false false) q) \/
   (exists fr q, In fr (Frames (fst (InsertPacket empty64 (packet 11 1 false false))))
                 /\ In q fr /\ same_packet (packet 11 1 false false) q)).
Proof.
  assert (H : forall old,
             slotAt empty64 (seqNumToIndex empty64
                               (SequenceNumber (packet 11 1 false false)))
             = Some old ->
             SequenceNumber old <> SequenceNumber (packet 11 1 false false)).
  { intros old Hold. vm_compute in Hold. discriminate Hold. }
  split; [split; [exact empty64_well_formed|exact H]|].
  exact (inserted_packet_stored_or_returned empty64 (packet 11 1 false false)
           empty64_well_formed H).
Defined.

(** *** A frame is returned when its last packet arrives *)

Lemma same_packet_fields p q :
  same_packet p q ->
  SequenceNumber p = SequenceNumber q /\ Timestamp p = Timestamp q /\
  isFirst p = isFirst q /\ isLast p = isLast q /\
  setContinuous true p = setContinuous true q.
Proof.
  unfold same_packet, setContinuous, isFirst, isLast.
  intros [= H1 H2 H3 H4 H5]. rewrite H1, H2, H3, H4, H5. now repeat split.
Qed.

(** Two sequence numbers less than [size] apart have different slots. *)
Lemma seqNumToIndex_apart b j e :
  0 < size b -> j < e -> e - j < size b ->
  seqNumToIndex b j <> seqNumToIndex b e.
Proof.
  intros Hsz Hlt Hd Heq.
  assert (E : j mod size b = e mod size b).
  { rewrite <- !seqNumToIndex_mod by assumption. now rewrite Heq. }
  assert (Hz : (e - j) mod size b = 0).
  { rewrite Zminus_mod, E, Z.sub_diag. apply Z.mod_0_l. lia. }
  rewrite Z.mod_small in Hz; lia.
Qed.

(** Before the scan reaches [e], it leaves a waiting run alone. *)
Lemma step_outcome_run_waiting sz s e ts p seqNum i result b acc :
  insertable_seq seqNum -> 0 <= i < sz ->
  seqNum - sz / 2 + i < e -> SequenceNumber p = e ->
  run_waiting sz s e ts p b ->
  step_outcome seqNum i result b acc ->
  run_waiting sz s e ts p (snd acc).
Proof.
  intros Hsafe Hi Hce Hpe (Hb & Hsz & Hrun & Hlast) Hstep.
  assert (Hsz' : 0 < size b <= 2048) by apply Hb.
  rewrite <- Hsz in Hi, Hce.
  destruct (scan_window_safe (size b) seqNum i Hsz' Hsafe Hi) as [Hw Hc].
  assert (Hkeep : forall pkt,
            slotAt b (seqNumToIndex b (wrap64 (seqNum - size b / 2 + i)))
            = Some pkt ->
            run_waiting sz s e ts p
              (setSlot b (seqNumToIndex b (wrap64 (seqNum - size b / 2 + i)))
                       (Some (setContinuous true pkt)))).
  { intros pkt Hp. split; [now apply setSlot_well_formed|].
    split; [exact Hsz|]. split.
    - intros j Hj. destruct (Hrun j Hj) as (q & Hq & Hq1 & Hq2 & Hq3 & Hq4 & Hq5).
      rewrite seqNumToIndex_setSlot.
      rewrite slotAt_setSlot by now apply seqNumToIndex_lt.
      destruct (decide _) as [E|]; [|now exists q].
      rewrite E, Hq in Hp. injection Hp as <-.
      exists (setContinuous true q). now repeat split.
    - destruct Hlast as (q & Hq & Hs). rewrite seqNumToIndex_setSlot.
      rewrite slotAt_setSlot by now apply seqNumToIndex_lt.
      destruct (decide _) as [E|]; [|now exists q].
      rewrite E, Hq in Hp. injection Hp as <-.
      exists (setContinuous true q). split; [reflexivity|].
      eapply same_packet_trans; [exact Hs|apply same_packet_setContinuous]. }
  destruct Hstep as [|pkt Hp|pkt c b1 Hp Hq Hl Hne]; cbn [snd].
  - exact (conj Hb (conj Hsz (conj Hrun Hlast))).
  - now apply Hkeep.
  - assert (Ec : c = seqNum - size b / 2 + i) by exact Hw.
    assert (Hcs : c < s).
    { destruct (Z_lt_le_dec c s) as [|Hge]; [assumption|exfalso].
      destruct (Hrun c ltac:(lia)) as (q & Hq' & _ & _ & Hnl & _).
      fold c in Hp. rewrite Hq' in Hp. injection Hp as <-. congruence. }
    assert (Hb1 : well_formed b1) by now apply setSlot_well_formed.
    destruct (Hkeep pkt Hp) as (_ & _ & Hrun1 & Hlast1). fold c b1 in Hrun1, Hlast1.
    assert (Hc1 : safe_seq c) by now rewrite Ec.
    destruct (extractFrame_run b1 c Hb1 Hc1 Hne) as (st & q0 & Hst & Hmap & _ & _).
    destruct (run_members _ _ _ Hmap) as [Hmem _].
    pose proof (extractFrame_stored b1 c) as Hstored.
    rewrite Forall_forall in Hstored.
    assert (Hsame : forall k y, slotAt b1 k = Some y -> c < SequenceNumber y ->
                                slotAt (clearFrame b1 (extractFrame b1 c)) k = Some y).
    { intros k y Hy Hcy.
      destruct (clearFrame_slot b1 (extractFrame b1 c) k Hb1)
        as [E|[_ (x & Hx & Hk)]]; [now rewrite E|exfalso].
      destruct (Hstored x) as [Hxs _]; [now apply list_elem_of_In|].
      rewrite <- Hk, Hy in Hxs. injection Hxs as <-.
      specialize (Hmem y Hx). lia. }
    split; [now apply clearFrame_well_formed|].
    split; [now rewrite clearFrame_size|]. split.
    + intros j Hj. destruct (Hrun1 j Hj) as (q & Hq' & Hq1 & Hrest).
      exists q. rewrite seqNumToIndex_clearFrame.
      split; [apply Hsame; [exact Hq'|lia]|]. now split.
    + destruct Hlast1 as (q & Hq' & Hs). exists q.
      rewrite seqNumToIndex_clearFrame. split; [|exact Hs].
      apply Hsame; [exact Hq'|].
      destruct (same_packet_fields _ _ Hs) as [Hseq _]. lia.
Qed.

Lemma findFrameStart_total fuel b s e k :
  well_formed b -> safe_seq e -> s <= k <= e -> e - s < size b ->
  (Z.to_nat (k - s) <= fuel)%nat ->
  (forall j, s <= j <= e ->
     exists q, slotAt b (seqNumToIndex b j) = Some q /\
               SequenceNumber q = j /\ (j = s -> isFirst q = true)) ->
  exists st, findFrameStart fuel b e k = Some st /\ s <= st <= k.
Proof.
  intros Hb He. assert (Hsz : 0 < size b <= 2048) by apply Hb.
  unfold safe_seq, int64_min, int64_max in He.
  revert k. induction fuel as [|fuel IH]; intros k Hk Hd Hf Hrun.
  all: destruct (Hrun k ltac:(lia)) as (q & Hq & Hq1 & Hq2); cbn; rewrite Hq.
  all: rewrite (proj2 (Z.eqb_eq _ _) Hq1); cbn [negb].
  all: destruct (isFirst q) eqn:Ef; [exists k; split; [reflexivity|lia]|].
  all: assert (Hks : k <> s) by (intros ->; specialize (Hq2 eq_refl); congruence).
  - exfalso. lia.
  - rewrite (wrap64_id (k - 1))
      by (unfold in_int64, int64_min, int64_max; lia).
    rewrite (wrap64_id (e - (k - 1)))
      by (unfold in_int64, int64_min, int64_max; lia).
    destruct (Z.gtb_spec (e - (k - 1)) (size b)); [exfalso; lia|].
    destruct (IH (k - 1)) as (st & Est & Hst); try assumption; try lia.
    exists st. split; [exact Est|lia].
Qed.

Lemma collectFrame_total fuel b k e :
  in_int64 k -> e < int64_max -> k <= e + 1 ->
  (Z.to_nat (e + 1 - k) <= fuel)%nat ->
  (forall j, k <= j <= e ->
     exists q, slotAt b (seqNumToIndex b j) = Some q /\
               SequenceNumber q = j /\ Continuous q = true) ->
  exists l, collectFrame fuel b k e = Some l /\ (k <= e -> l <> []).
Proof.
  revert k. induction fuel as [|fuel IH]; intros k Hk He Hke Hf Hrun; cbn.
  - destruct (Z.leb_spec k e); [exfalso; lia|]. exists []. split; [reflexivity|lia].
  - destruct (Z.leb_spec k e); [|exists []; split; [reflexivity|lia]].
    destruct (Hrun k ltac:(lia)) as (q & Hq & Hq1 & Hq2). rewrite Hq.
    rewrite (proj2 (Z.eqb_eq _ _) Hq1), Hq2. cbn [negb].
    assert (Hk1 : in_int64 (k + 1)) by (unfold in_int64 in *; lia).
    rewrite (wrap64_id _ Hk1).
    destruct (IH (k + 1)) as (l & El & _); try assumption; try lia.
    { intros j Hj. apply Hrun. lia. }
    rewrite El. exists (q :: l). split; [reflexivity|discriminate].
Qed.

Lemma extractFrame_total b s e :
  well_formed b -> safe_seq e -> s <= e -> e - s < size b ->
  (forall j, s <= j <= e ->
     exists q, slotAt b (seqNumToIndex b j) = Some q /\
               SequenceNumber q = j /\ Continuous q = true /\
               (j = s -> isFirst q = true)) ->
  exists st, s <= st <= e /\ extractFrame b e <> [] /\
             map SequenceNumber (extractFrame b e) = seqZ st (e + 1 - st).
Proof.
  intros Hb He Hse Hd Hrun. assert (Hsz : 0 < size b <= 2048) by apply Hb.
  unfold extractFrame, extractFrame_fuel.
  destruct (findFrameStart_total (Z.to_nat (size b)) b s e e Hb He)
    as (st & Est & Hst); try lia.
  { intros j Hj. destruct (Hrun j Hj) as (q & Hq & Hq1 & _ & Hq3).
    now exists q. }
  rewrite Est. unfold safe_seq, int64_min, int64_max in He.
  assert (Hin : in_int64 st) by (unfold in_int64, int64_min, int64_max; lia).
  assert (Hmax : e < int64_max) by (unfold int64_max; lia).
  destruct (collectFrame_total (S (Z.to_nat (size b))) b st e Hin Hmax)
    as (l & El & Hl); try lia.
  { intros j Hj. destruct (Hrun j ltac:(lia)) as (q & Hq & Hq1 & Hq2 & _).
    now exists q. }
  rewrite El. exists st. split; [lia|]. split; [apply Hl; lia|].
  eapply collectFrame_contiguous; [exact Hin|exact Hmax|lia|exact El].
Qed.

(** When the scan reaches [e] it returns the frame that [p] completes. *)
Lemma findFrames_step_completes_at sz s e p seqNum i result b :
  insertable_seq seqNum -> 0 <= i < sz -> e = seqNum - sz / 2 + i ->
  SequenceNumber p = e -> isLast p = true ->
  s <= e -> e - s < sz -> (s = e -> isFirst p = true) ->
  run_waiting sz s e (Timestamp p) p b ->
  exists fr,
    findFrames_step seqNum (result, b) i =
      (result ++ [fr], clearFrame
         (setSlot b (seqNumToIndex b e) (Some (setContinuous true p))) fr) /\
    last fr = Some (setContinuous true p) /\
    Forall (fun q =>
              slotAt (setSlot b (seqNumToIndex b e) (Some (setContinuous true p)))
                     (seqNumToIndex b (SequenceNumber q)) = Some q) fr /\
    (exists q0, head fr = Some q0 /\ isFirst q0 = true) /\
    exists st, s <= st <= e /\ map SequenceNumber fr = seqZ st (e + 1 - st).
Proof.
  intros Hsafe Hi He Hpe Hlastp Hse Hd Hfirst
         (Hb & Hsz & Hrun & (qe & Hqe & Hsame)).
  assert (Hsz' : 0 < size b <= 2048) by apply Hb.
  destruct (same_packet_fields _ _ Hsame) as (Hf1 & Hf2 & Hf3 & Hf4 & Hf5).
  subst sz.
  destruct (scan_window_safe (size b) seqNum i Hsz' Hsafe Hi) as [Hw Hc].
  unfold findFrames_step. rewrite Hw. rewrite <- He in Hc |- *. clear Hw.
  assert (Hpot : potentialNewFrame b e = true).
  { unfold potentialNewFrame. rewrite Hqe.
    rewrite (proj2 (Z.eqb_eq _ _) (eq_trans (eq_sym Hf1) Hpe)). cbn [negb].
    destruct (isFirst qe) eqn:Efq; [reflexivity|].
    assert (Hlt : s < e).
    { destruct (Z.eq_dec s e) as [E|]; [|lia].
      specialize (Hfirst E). congruence. }
    unfold safe_seq, int64_min, int64_max in Hc.
    rewrite (wrap64_id (e - 1)) by (unfold in_int64, int64_min, int64_max; lia).
    destruct (Hrun (e - 1) ltac:(lia)) as (q' & Hq' & Hs' & Hc' & _ & Ht' & _).
    rewrite Hq', (proj2 (Z.eqb_eq _ _) Hs'). cbn [negb].
    rewrite (proj2 (Z.eqb_eq _ _) (eq_trans Ht' Hf2)). cbn [negb]. exact Hc'. }
  rewrite Hpot. cbn [negb]. rewrite Hqe. rewrite <- Hf5.
  set (b1 := setSlot b (seqNumToIndex b e) (Some (setContinuous true p))).
  assert (Hb1 : well_formed b1) by now apply setSlot_well_formed.
  change (isLast (setContinuous true p)) with (isLast p). rewrite Hlastp.
  assert (Hrun1 : forall j, s <= j <= e ->
            exists q, slotAt b1 (seqNumToIndex b1 j) = Some q /\
                      SequenceNumber q = j /\ Continuous q = true /\
                      (j = s -> isFirst q = true)).
  { intros j Hj. unfold b1. rewrite seqNumToIndex_setSlot.
    rewrite slotAt_setSlot by now apply seqNumToIndex_lt.
    destruct (Z.eq_dec j e) as [->|Hne].
    - rewrite decide_True by reflexivity. exists (setContinuous true p).
      split; [reflexivity|]. split; [exact Hpe|]. split; [reflexivity|].
      intros E. now apply Hfirst.
    - rewrite decide_False
        by (apply not_eq_sym, seqNumToIndex_apart; lia).
      destruct (Hrun j ltac:(lia)) as (q & Hq & Hq1 & Hq2 & _ & _ & Hq5).
      exists q. now repeat split. }
  destruct (extractFrame_total b1 s e Hb1 Hc Hse ltac:(cbn; lia) Hrun1)
    as (st & Hst & Hne & Hmap).
  destruct (extractFrame b1 e) as [|x l] eqn:Ef; [congruence|].
  rewrite <- Ef in *.
  exists (extractFrame b1 e). split; [reflexivity|].
  split; [|split; [|split; [|now exists st]]].
  2:{ eapply Forall_impl; [apply extractFrame_stored|].
      intros q [Hq _]. exact Hq. }
  2:{ destruct (extractFrame_run b1 e Hb1 Hc Hne) as (st' & q0 & _ & _ & Hhd & Hq0).
      now exists q0. }
  destruct (last (extractFrame b1 e)) as [y|] eqn:Ely;
    [|apply last_None in Ely; congruence].
  assert (Hn : 0 < e + 1 - st) by lia.
  pose proof (last_of_run _ _ _ _ Hn Hmap Ely) as Hy.
  pose proof (extractFrame_stored b1 e) as Hstored.
  rewrite Forall_forall in Hstored.
  destruct (Hstored y (last_Some_elem_of _ _ Ely)) as [Hys _].
  replace (SequenceNumber y) with e in Hys by lia.
  unfold b1 in Hys. rewrite seqNumToIndex_setSlot in Hys.
  rewrite slotAt_setSlot in Hys by now apply seqNumToIndex_lt.
  rewrite decide_True in Hys by reflexivity. now rewrite Hys.
Qed.

Lemma findFrames_step_completes sz s e p result b :
  insertable_seq e -> SequenceNumber p = e -> isLast p = true ->
  s <= e -> e - s < sz -> (s = e -> isFirst p = true) ->
  run_waiting sz s e (Timestamp p) p b ->
  exists fr,
    findFrames_step e (result, b) (sz / 2) =
      (result ++ [fr], clearFrame
         (setSlot b (seqNumToIndex b e) (Some (setContinuous true p))) fr) /\
    last fr = Some (setContinuous true p) /\
    Forall (fun q =>
              slotAt (setSlot b (seqNumToIndex b e) (Some (setContinuous true p)))
                     (seqNumToIndex b (SequenceNumber q)) = Some q) fr /\
    (exists q0, head fr = Some q0 /\ isFirst q0 = true) /\
    exists st, s <= st <= e /\ map SequenceNumber fr = seqZ st (e + 1 - st).
Proof.
  intros Hsafe Hpe Hlastp Hse Hd Hfirst Hrun.
  assert (Hsz : 0 < sz <= 2048).
  { destruct Hrun as (Hb & <- & _). apply Hb. }
  apply (findFrames_step_completes_at sz s e p e (sz / 2)); try assumption.
  - split; [apply Z.div_pos; lia|apply Z.div_lt_upper_bound; lia].
  - lia.
Qed.

Lemma fold_findFrames_step_grows seqNum l acc fr :
  In fr (fst acc) -> In fr (fst (fold_left (findFrames_step seqNum) l acc)).
Proof.
  revert acc. induction l as [|i l IH]; intros acc Hin; [exact Hin|].
  cbn [fold_left]. apply IH. destruct acc as [result b].
  destruct (findFrames_step_outcome seqNum i result b)
    as [| |]; cbn [fst] in *; try assumption.
  apply in_or_app. now left.
Qed.

(** A complete frame whose earlier packets wait in the buffer is returned
    by the insertion of its last packet. *)
Lemma InsertPacket_completes_run b p s :
  well_formed b -> insertable_seq (SequenceNumber p) -> isLast p = true ->
  s <= SequenceNumber p -> SequenceNumber p - s < size b ->
  (s = SequenceNumber p -> isFirst p = true) ->
  (forall j, s <= j < SequenceNumber p ->
     exists q, slotAt b (seqNumToIndex b j) = Some q /\
               SequenceNumber q = j /\ Continuous q = true /\
               isLast q = false /\ Timestamp q = Timestamp p /\
               (j = s -> isFirst q = true)) ->
  (forall old, slotAt b (seqNumToIndex b (SequenceNumber p)) = Some old ->
               SequenceNumber old <> SequenceNumber p) ->
  exists fr st,
    In fr (Frames (fst (InsertPacket b p))) /\
    last fr = Some (setContinuous true p) /\
    s <= st <= SequenceNumber p /\
    map SequenceNumber fr = seqZ st (SequenceNumber p + 1 - st).
Proof.
  intros Hb Hsafe Hl Hse Hd Hfirst Hrun Hnodup.
  assert (Hsz : 0 < size b <= 2048) by apply Hb.
  assert (Hidx : (seqNumToIndex b (SequenceNumber p) < length (buffer b))%nat)
    by now apply seqNumToIndex_lt.
  assert (Hh : 0 <= size b / 2 < size b).
  { split; [apply Z.div_pos; lia|apply Z.div_lt_upper_bound; lia]. }
  assert (Hgen : forall b2,
            well_formed b2 -> size b2 = size b ->
            (forall k, slotAt b2 k =
                       if decide (seqNumToIndex b (SequenceNumber p) = k)
                       then Some (setContinuous false p) else slotAt b k) ->
            exists fr st,
              In fr (fst (findFrames b2 (SequenceNumber p))) /\
              last fr = Some (setContinuous true p) /\
              s <= st <= SequenceNumber p /\
              map SequenceNumber fr = seqZ st (SequenceNumber p + 1 - st)).
  { intros b2 Hb2 Hsz2 Hslot.
    assert (Hw : run_waiting (size b) s (SequenceNumber p) (Timestamp p) p b2).
    { split; [exact Hb2|]. split; [exact Hsz2|]. split.
      - intros j Hj. destruct (Hrun j Hj) as (q & Hq & Hrest).
        exists q. split; [|exact Hrest].
        rewrite (seqNumToIndex_size b2 b) by exact Hsz2.
        rewrite Hslot, decide_False; [exact Hq|].
        apply not_eq_sym, seqNumToIndex_apart; lia.
      - exists (setContinuous false p).
        rewrite (seqNumToIndex_size b2 b) by exact Hsz2.
        rewrite Hslot, decide_True by reflexivity.
        split; [reflexivity|apply same_packet_setContinuous]. }
    unfold findFrames. rewrite Hsz2.
    assert (Esplit : seqZ 0 (size b) =
                     seqZ 0 (size b / 2) ++
                     size b / 2 ::
                     seqZ (Z.succ (size b / 2)) (Z.pred (size b - size b / 2))).
    { transitivity (seqZ 0 (size b / 2 + (size b - size b / 2)));
        [f_equal; lia|].
      rewrite seqZ_app by lia. rewrite Z.add_0_l.
      now rewrite (seqZ_cons (size b / 2)) by lia. }
    rewrite Esplit, fold_left_app. cbn [fold_left].
    pose proof (scan_invariant_bounded
                  (fun _ acc => run_waiting (size b) s (SequenceNumber p)
                                            (Timestamp p) p (snd acc))
                  (findFrames_step (SequenceNumber p)) (size b / 2)) as Hscan.
    cbv beta in Hscan.
    specialize (Hscan ltac:(
      intros i [r bb] Hi Hacc;
      apply (step_outcome_run_waiting (size b) s (SequenceNumber p)
               (Timestamp p) p (SequenceNumber p) i r bb);
      [exact Hsafe|lia|lia|reflexivity|exact Hacc|
       apply findFrames_step_outcome]) ([], b2) Hw ltac:(lia)).
    destruct (fold_left _ (seqZ 0 (size b / 2)) ([], b2)) as [r1 bb1].
    cbn [snd] in Hscan.
    destruct (findFrames_step_completes (size b) s (SequenceNumber p) p r1 bb1
                Hsafe eq_refl Hl Hse Hd Hfirst Hscan)
      as (fr & Estep & Hlast & _ & _ & st & Hst & Hmap).
    rewrite Estep. exists fr, st.
    split; [|now repeat split].
    apply fold_findFrames_step_grows. cbn [fst].
    apply in_or_app. right. now left. }
  unfold InsertPacket. destruct (slotAt b _) as [old|] eqn:Eold.
  - destruct (Z.eqb_spec (SequenceNumber old) (SequenceNumber p)) as [E|_].
    { now destruct (Hnodup old eq_refl). }
    match goal with |- context [findFrames ?b2 ?s] =>
      pose proof (Hgen b2) as Hf; destruct (findFrames b2 s) as [frames b3] end.
    cbn [fst Frames] in *. apply Hf.
    + now do 2 apply setSlot_well_formed.
    + reflexivity.
    + intros k. rewrite slotAt_setSlot by now rewrite setSlot_length.
      destruct (decide _) as [Ek|Ek]; [reflexivity|].
      rewrite slotAt_setSlot by assumption. now rewrite decide_False.
  - match goal with |- context [findFrames ?b2 ?s] =>
      pose proof (Hgen b2) as Hf; destruct (findFrames b2 s) as [frames b3] end.
    cbn [fst Frames] in *. apply Hf.
    + now apply setSlot_well_formed.
    + reflexivity.
    + intros k. now rewrite slotAt_setSlot by assumption.
Qed.

(** A complete frame is returned as soon as its last packet arrives: when
    the packets [s, ..., e-1] of the frame wait in the buffer (each marked
    continuous, of the timestamp of [p], the one numbered [s] flagged as the
    first of the frame and none flagged as the last), the insertion of the
    last packet [p], numbered [e], returns a frame that ends with [p] and
    is a run of consecutive sequence numbers starting at or after [s]. *)
Theorem frame_returned_when_last_packet_arrives
        (b : VideoPacketBuffer) (p : BufferedPacket) (s : Z) :
  well_formed b -> insertable_seq (SequenceNumber p) -> isLast p = true ->
  s < SequenceNumber p -> SequenceNumber p - s < size b ->
  (forall j, s <= j < SequenceNumber p ->
     exists q, slotAt b (seqNumToIndex b j) = Some q /\
               SequenceNumber q = j /\ Continuous q = true /\
               isLast q = false /\ Timestamp q = Timestamp p /\
               (j = s -> isFirst q = true)) ->
  (forall old, slotAt b (seqNumToIndex b (SequenceNumber p)) = Some old ->
               SequenceNumber old <> SequenceNumber p) ->
  exists fr st,
    In fr (Frames (fst (InsertPacket b p))) /\
    last fr = Some (setContinuous true p) /\
    s <= st <= SequenceNumber p /\
    map SequenceNumber fr = seqZ st (SequenceNumber p + 1 - st).
Proof.
  intros Hb Hsafe Hl Hse Hd Hrun Hnodup.
  apply (InsertPacket_completes_run b p s); try assumption; lia.
Qed.

Lemma frame_returned_when_last_packet_arrives_witness :
  (well_formed first_waiting /\
   insertable_seq (SequenceNumber (packet 6 100 false true)) /\
   isLast (packet 6 100 false true) = true /\
   5 < SequenceNumber (packet 6 100 false true) /\
   SequenceNumber (packet 6 100 false true) - 5 < size first_waiting /\
   (forall j, 5 <= j < SequenceNumber (packet 6 100 false true) ->
      exists q, slotAt first_waiting (seqNumToIndex first_waiting j) = Some q /\
                SequenceNumber q = j /\ Continuous q = true /\
                isLast q = false /\
                Timestamp q = Timestamp (packet 6 100 false true) /\
                (j = 5 -> isFirst q = true)) /\
   (forall old,
      slotAt first_waiting
             (seqNumToIndex first_waiting
                            (SequenceNumber (packet 6 100 false true)))
      = Some old ->
      SequenceNumber old <> SequenceNumber (packet 6 100 false true))) /\
  (exists fr st,
     In fr (Frames (fst (InsertPacket first_waiting
                                      (packet 6 100 false true)))) /\
     last fr = Some (setContinuous true (packet 6 100 false true)) /\
     5 <= st <= SequenceNumber (packet 6 100 false true) /\
     map SequenceNumber fr =
       seqZ st (SequenceNumber (packet 6 100 false true) + 1 - st)).
Proof.
  assert (H1 : well_formed first_waiting).
  { apply InsertPacket_well_formed. exact empty64_well_formed. }
  assert (H2 : insertable_seq (SequenceNumber (packet 6 100 false true))).
  { unfold insertable_seq, int64_min, int64_max. cbn. lia. }
  assert (H3 : 5 < SequenceNumber (packet 6 100 false true)) by (cbn; lia).
  assert (H4 : SequenceNumber (packet 6 100 false true) - 5
               < size first_waiting) by (vm_compute; reflexivity).
  assert (H5 : forall j, 5 <= j < SequenceNumber (packet 6 100 false true) ->
      exists q, slotAt first_waiting (seqNumToIndex first_waiting j) = Some q /\
                SequenceNumber q = j /\ Continuous q = true /\
                isLast q = false /\
                Timestamp q = Timestamp (packet 6 100 false true) /\
                (j = 5 -> isFirst q = true)).
  { intros j Hj. cbn in Hj. assert (j = 5) as -> by lia.
    exists (setContinuous true (packet 5 100 true false)).
    split; [vm_compute; reflexivity|].
    split; [reflexivity|]. split; [reflexivity|]. split; [reflexivity|].
    split; reflexivity. }
  assert (H6 : forall old,
      slotAt first_waiting
             (seqNumToIndex first_waiting
                            (SequenceNumber (packet 6 100 false true)))
      = Some old ->
      SequenceNumber old <> SequenceNumber (packet 6 100 false true)).
  { intros old Hold. vm_compute in Hold. discriminate Hold. }
  split; [exact (conj H1 (conj H2 (conj eq_refl (conj H3 (conj H4 (conj H5 H6))))))|].
  exact (frame_returned_when_last_packet_arrives first_waiting
           (packet 6 100 false true) 5 H1 H2 eq_refl H3 H4 H5 H6).
Defined.

(** A frame of one packet (flagged both first and last of its frame) is
    returned by the very call that inserts it, marked continuous. *)
Theorem single_packet_frame_returned_at_once
        (b : VideoPacketBuffer) (p : BufferedPacket) :
  well_formed b -> insertable_seq (SequenceNumber p) ->
  isFirst p = true -> isLast p = true ->
  (forall old, slotAt b (seqNumToIndex b (SequenceNumber p)) = Some old ->
               SequenceNumber old <> SequenceNumber p) ->
  In [setContinuous true p] (Frames (fst (InsertPacket b p))).
Proof.
  intros Hb Hsafe Hf Hl Hnodup.
  destruct (InsertPacket_completes_run b p (SequenceNumber p) Hb Hsafe Hl)
    as (fr & st & Hin & Hlast & Hst & Hmap);
    [lia|destruct Hb as [Hsz _]; lia|intros _; exact Hf|intros j Hj; lia|
     exact Hnodup|].
  assert (st = SequenceNumber p) as -> by lia.
  replace (SequenceNumber p + 1 - SequenceNumber p) with 1 in Hmap by lia.
  destruct fr as [|x [|y fr]]; try discriminate Hmap.
  cbn in Hlast. injection Hlast as ->. exact Hin.
Qed.

Lemma single_packet_frame_returned_at_once_witness :
  (well_formed empty64 /\
   insertable_seq (SequenceNumber (packet 7 100 true true)) /\
   isFirst (packet 7 100 true true) = true /\
   isLast (packet 7 100 true true) = true /\
   (forall old,
      slotAt empty64 (seqNumToIndex empty64
                        (SequenceNumber (packet 7 100 true true))) = Some old ->
      SequenceNumber old <> SequenceNumber (packet 7 100 true true))) /\
  In [setContinuous true (packet 7 100 true true)]
     (Frames (fst (InsertPacket empty64 (packet 7 100 true true)))).
Proof.
  assert (H2 : insertable_seq (SequenceNumber (packet 7 100 true true))).
  { unfold insertable_seq, int64_min, int64_max. cbn. lia. }
  assert (H5 : forall old,
      slotAt empty64 (seqNumToIndex empty64
                        (SequenceNumber (packet 7 100 true true))) = Some old ->
      SequenceNumber old <> SequenceNumber (packet 7 100 true true)).
  { intros old Hold. vm_compute in Hold. discriminate Hold. }
  split; [split; [exact empty64_well_formed|];
          split; [exact H2|]; split; [reflexivity|];
          split; [reflexivity|exact H5]|].
  exact (single_packet_frame_returned_at_once empty64 (packet 7 100 true true)
           empty64_well_formed H2 eq_refl eq_refl H5).
Defined.

(** *** Frames delivered in order *)

Lemma setSlot_same b i x : slotAt b i = Some x -> setSlot b i (Some x) = b.
Proof.
  destruct b as [l sz]. unfold slotAt, setSlot. cbn [buffer size].
  intros H. f_equal. apply list_insert_id.
  destruct (l !! i) as [v|]; cbn in H; congruence.
Qed.

(** Away from the inserted sequence number the scan changes nothing when
    every stored packet is already marked continuous and is not the last of
    a frame, the inserted packet's slot apart. *)
Lemma findFrames_step_identity seqNum i result b :
  well_formed b -> insertable_seq seqNum ->
  0 <= i < size b -> i <> size b / 2 ->
  (forall j x, slotAt b j = Some x ->
               (Continuous x = true /\ isLast x = false) \/
               j = seqNumToIndex b seqNum) ->
  findFrames_step seqNum (result, b) i = (result, b).
Proof.
  intros Hb Hsafe Hi Hne Hslots.
  assert (Hsz : 0 < size b <= 2048) by apply Hb.
  destruct (scan_window_safe (size b) seqNum i Hsz Hsafe Hi) as [Hw _].
  assert (Hh : 0 <= size b / 2 < size b).
  { split; [apply Z.div_pos; lia|apply Z.div_lt_upper_bound; lia]. }
  assert (Hidx : seqNumToIndex b (wrap64 (seqNum - size b / 2 + i))
                 <> seqNumToIndex b seqNum).
  { rewrite Hw. destruct (Z_lt_le_dec i (size b / 2)).
    - apply seqNumToIndex_apart; lia.
    - apply not_eq_sym, seqNumToIndex_apart; lia. }
  pose proof (findFrames_step_outcome seqNum i result b) as Hstep.
  remember (findFrames_step seqNum (result, b) i) as r eqn:Er. clear Er.
  destruct Hstep as [|pkt Hp|pkt c b1 Hp Hq Hl Hne'].
  - reflexivity.
  - destruct (Hslots _ _ Hp) as [[Hc _]|E]; [|contradiction].
    f_equal. apply setSlot_same. rewrite Hp. f_equal.
    destruct pkt; cbn in *; now subst.
  - destruct (Hslots _ _ Hp) as [[_ Hnl]|E]; [congruence|contradiction].
Qed.

Lemma fold_findFrames_step_identity seqNum l result b :
  well_formed b -> insertable_seq seqNum ->
  Forall (fun i => 0 <= i < size b /\ i <> size b / 2) l ->
  (forall j x, slotAt b j = Some x ->
               (Continuous x = true /\ isLast x = false) \/
               j = seqNumToIndex b seqNum) ->
  fold_left (findFrames_step seqNum) l (result, b) = (result, b).
Proof.
  intros Hb Hsafe Hl Hslots. induction l as [|i l IH]; [reflexivity|].
  inversion Hl as [|? ? [Hi Hne] Hl']; subst. cbn [fold_left].
  rewrite findFrames_step_identity by assumption. now apply IH.
Qed.

(** The scan as three phases: before, at and after the inserted number. *)
Lemma findFrames_phases b seqNum :
  well_formed b ->
  findFrames b seqNum
  = fold_left (findFrames_step seqNum)
      (seqZ (Z.succ (size b / 2)) (Z.pred (size b - size b / 2)))
      (findFrames_step seqNum
         (fold_left (findFrames_step seqNum) (seqZ 0 (size b / 2)) ([], b))
         (size b / 2)) /\
  Forall (fun i => 0 <= i < size b /\ i <> size b / 2) (seqZ 0 (size b / 2)) /\
  Forall (fun i => 0 <= i < size b /\ i <> size b / 2)
         (seqZ (Z.succ (size b / 2)) (Z.pred (size b - size b / 2))).
Proof.
  intros Hb. assert (Hsz : 0 < size b <= 2048) by apply Hb.
  assert (Hh : 0 <= size b / 2 < size b).
  { split; [apply Z.div_pos; lia|apply Z.div_lt_upper_bound; lia]. }
  split; [|split].
  - unfold findFrames.
    assert (Esplit : seqZ 0 (size b) =
                     seqZ 0 (size b / 2) ++
                     size b / 2 ::
                     seqZ (Z.succ (size b / 2)) (Z.pred (size b - size b / 2))).
    { transitivity (seqZ 0 (size b / 2 + (size b - size b / 2)));
        [f_equal; lia|].
      rewrite seqZ_app by lia. rewrite Z.add_0_l.
      now rewrite (seqZ_cons (size b / 2)) by lia. }
    rewrite Esplit, fold_left_app. reflexivity.
  - apply Forall_forall. intros i Hi. apply elem_of_seqZ in Hi. lia.
  - apply Forall_forall. intros i Hi. apply elem_of_seqZ in Hi. lia.
Qed.

(** At the inserted number the scan marks a packet that continues the
    stored run and is not the last of its frame. *)
Lemma findFrames_step_marks e p result b :
  well_formed b -> insertable_seq e ->
  slotAt b (seqNumToIndex b e) = Some (setContinuous false p) ->
  SequenceNumber p = e -> isLast p = false ->
  (isFirst p = true \/
   exists prev, slotAt b (seqNumToIndex b (e - 1)) = Some prev /\
                SequenceNumber prev = e - 1 /\
                Timestamp prev = Timestamp p /\ Continuous prev = true) ->
  findFrames_step e (result, b) (size b / 2)
  = (result, setSlot b (seqNumToIndex b e) (Some (setContinuous true p))).
Proof.
  intros Hb Hsafe Hslot Hseq Hnl Hprev.
  assert (Hsz : 0 < size b <= 2048) by apply Hb.
  unfold findFrames_step.
  replace (e - size b / 2 + size b / 2) with e by lia.
  rewrite (wrap64_id e)
    by (unfold insertable_seq, in_int64, int64_min, int64_max in *; lia).
  assert (Hpot : potentialNewFrame b e = true).
  { unfold potentialNewFrame. rewrite Hslot.
    change (SequenceNumber (setContinuous false p)) with (SequenceNumber p).
    rewrite (proj2 (Z.eqb_eq _ _) Hseq). cbn [negb].
    change (isFirst (setContinuous false p)) with (isFirst p).
    destruct (isFirst p) eqn:Ef; [reflexivity|].
    destruct Hprev as [|(prev & Hp & Hps & Hpt & Hpc)]; [discriminate|].
    rewrite (wrap64_id (e - 1))
      by (unfold insertable_seq, in_int64, int64_min, int64_max in *; lia).
    rewrite Hp, (proj2 (Z.eqb_eq _ _) Hps). cbn [negb].
    change (Timestamp (setContinuous false p)) with (Timestamp p).
    rewrite (proj2 (Z.eqb_eq _ _) Hpt). cbn [negb]. exact Hpc. }
  rewrite Hpot. cbn [negb]. rewrite Hslot.
  change (isLast (setContinuous true (setContinuous false p))) with (isLast p).
  rewrite Hnl. reflexivity.
Qed.

(** Two lists with the same sequence numbers whose elements are the ones
    stored under these numbers are equal. *)
Lemma stored_lists_equal (g : Z -> option BufferedPacket) l1 l2 :
  map SequenceNumber l1 = map SequenceNumber l2 ->
  (forall x, In x l1 -> g (SequenceNumber x) = Some x) ->
  (forall y, In y l2 -> g (SequenceNumber y) = Some y) ->
  l1 = l2.
Proof.
  revert l2. induction l1 as [|x l1 IH]; intros [|y l2] E H1 H2;
    try discriminate; [reflexivity|].
  injection E as Exy E.
  assert (x = y).
  { pose proof (H1 x (or_introl eq_refl)) as Hx.
    pose proof (H2 y (or_introl eq_refl)) as Hy.
    rewrite Exy, Hy in Hx. now injection Hx. }
  subst y. f_equal. apply IH; [exact E| |].
  - intros z Hz. apply H1. now right.
  - intros z Hz. apply H2. now right.
Qed.

Lemma in_order_frame_numbers s pkts :
  in_order_frame s pkts ->
  map SequenceNumber pkts = seqZ s (Z.of_nat (length pkts)).
Proof.
  intros [_ Hp]. apply list_eq. intros i.
  change (map SequenceNumber pkts) with (SequenceNumber <$> pkts).
  rewrite list_lookup_fmap.
  destruct (pkts !! i) as [p|] eqn:Ei; cbn.
  - destruct (Hp i p Ei) as [Hs _]. symmetry. apply lookup_seqZ.
    apply lookup_lt_Some in Ei. split; [lia|lia].
  - symmetry. apply lookup_seqZ_ge. apply lookup_ge_None in Ei. lia.
Qed.

(** The facts about the packet at position [n] of an in-order frame that is
    delivered into a buffer holding the [n] packets before it. *)
Lemma holds_prefix_slot_free s pkts n b p :
  in_order_frame s pkts -> Z.of_nat (length pkts) <= size b ->
  holds_prefix s pkts n b -> pkts !! n = Some p ->
  slotAt b (seqNumToIndex b (SequenceNumber p)) = None.
Proof.
  intros [_ Hp] Hlen (Hb & _ & Hinv) Hn.
  destruct (Hp n p Hn) as [Hs _]. apply lookup_lt_Some in Hn.
  destruct (slotAt b _) as [x|] eqn:Ex; [exfalso|reflexivity].
  destruct (Hinv _ _ Ex) as (j & q & Hj & _ & Hi & _).
  symmetry in Hi. revert Hi. rewrite Hs.
  apply seqNumToIndex_apart; [apply Hb|lia|lia].
Qed.

(** What the buffer holds once the packet at position [n] sits in its slot
    with the mark [c]. *)
Lemma holds_prefix_stored s pkts n b p c :
  in_order_frame s pkts -> Z.of_nat (length pkts) <= size b ->
  holds_prefix s pkts n b -> pkts !! n = Some p ->
  let b2 := setSlot b (seqNumToIndex b (s + Z.of_nat n))
                    (Some (setContinuous c p)) in
  well_formed b2 /\
  slotAt b2 (seqNumToIndex b (s + Z.of_nat n)) = Some (setContinuous c p) /\
  (forall (j : nat) q, (j < n)%nat -> pkts !! j = Some q ->
     slotAt b2 (seqNumToIndex b (s + Z.of_nat j)) = Some (setContinuous true q)) /\
  (forall i x, slotAt b2 i = Some x ->
     i = seqNumToIndex b (s + Z.of_nat n) /\ x = setContinuous c p \/
     exists (j : nat) q, (j < n)%nat /\ pkts !! j = Some q /\
                         i = seqNumToIndex b (s + Z.of_nat j) /\
                         x = setContinuous true q).
Proof.
  intros [_ Hp] Hlen (Hb & Hfwd & Hinv) Hn b2.
  assert (Hidx : (seqNumToIndex b (s + Z.of_nat n) < length (buffer b))%nat)
    by now apply seqNumToIndex_lt.
  pose proof (lookup_lt_Some _ _ _ Hn) as Hnl.
  split; [now apply setSlot_well_formed|]. split; [|split].
  - unfold b2. rewrite slotAt_setSlot by exact Hidx. now rewrite decide_True.
  - intros j q Hj Hq. unfold b2. rewrite slotAt_setSlot by exact Hidx.
    rewrite decide_False; [now apply Hfwd|].
    apply not_eq_sym, seqNumToIndex_apart; [apply Hb|lia|lia].
  - intros i x. unfold b2. rewrite slotAt_setSlot by exact Hidx.
    destruct (decide _) as [E|E].
    + intros [= <-]. left. now split.
    + intros Hx. right. now apply Hinv.
Qed.

Lemma InsertPacket_in_order_next s pkts n b p :
  in_order_frame s pkts ->
  int64_min + 2 ^ 17 <= s -> s + Z.of_nat (length pkts) <= int64_max - 2 ^ 17 ->
  Z.of_nat (length pkts) <= size b ->
  holds_prefix s pkts n b -> pkts !! n = Some p -> (S n < length pkts)%nat ->
  exists b', InsertPacket b p = (mkResult [], b') /\
             size b' = size b /\ holds_prefix s pkts (S n) b'.
Proof.
  intros Hframe Hlo Hhi Hlen Hhold Hn Hnl.
  pose proof (holds_prefix_slot_free s pkts n b p Hframe Hlen Hhold Hn) as Hfree.
  destruct Hframe as [Hne Hp]. destruct (Hp n p Hn) as (Hs & Hf & Hl & Ht).
  assert (Hb : well_formed b) by apply Hhold.
  assert (Hsz : 0 < size b <= 2048) by apply Hb.
  assert (Hsafe : insertable_seq (s + Z.of_nat n))
    by (unfold insertable_seq; lia).
  assert (Hnotlast : isLast p = false).
  { rewrite Hl. apply Nat.eqb_neq. lia. }
  assert (Hdone : forall (j : nat) q, (j < S n)%nat -> pkts !! j = Some q ->
                    Continuous (setContinuous true q) = true /\
                    isLast (setContinuous true q) = false).
  { intros j q Hj Hq. split; [reflexivity|].
    change (isLast (setContinuous true q)) with (isLast q).
    destruct (Hp j q Hq) as (_ & _ & -> & _). apply Nat.eqb_neq. lia. }
  unfold InsertPacket. rewrite Hfree, Hs.
  destruct (holds_prefix_stored s pkts n b p false (conj Hne Hp) Hlen Hhold Hn)
    as (Hb2 & Hself2 & Hfwd2 & Hinv2).
  set (b2 := setSlot b (seqNumToIndex b (s + Z.of_nat n))
                     (Some (setContinuous false p))) in *.
  destruct (findFrames_phases b2 (s + Z.of_nat n) Hb2) as (E & F1 & F2).
  rewrite E. clear E.
  rewrite (fold_findFrames_step_identity _ _ [] b2 Hb2 Hsafe F1).
  2:{ intros i x Hx. destruct (Hinv2 _ _ Hx) as [[-> _]|(j & q & Hj & Hq & _ & ->)].
      - now right.
      - left. apply (Hdone j q); [lia|exact Hq]. }
  rewrite (findFrames_step_marks (s + Z.of_nat n) p [] b2 Hb2 Hsafe Hself2 Hs
             Hnotlast).
  2:{ destruct n as [|m]; [left; now rewrite Hf|right].
      assert (Hm : is_Some (pkts !! m)) by (apply lookup_lt_is_Some; lia).
      destruct Hm as [q Hq].
      assert (H0 : is_Some (pkts !! 0%nat)) by (apply lookup_lt_is_Some; lia).
      destruct H0 as [q0 Hq0].
      exists (setContinuous true q).
      replace (s + Z.of_nat (S m) - 1) with (s + Z.of_nat m) by lia.
      split; [apply Hfwd2; [lia|exact Hq]|].
      destruct (Hp m q Hq) as (Hqs & _ & _ & Hqt).
      split; [exact Hqs|]. split; [|reflexivity].
      change (Timestamp (setContinuous true q)) with (Timestamp q).
      now rewrite (Hqt q0 Hq0), (Ht q0 Hq0). }
  destruct (holds_prefix_stored s pkts n b p true (conj Hne Hp) Hlen Hhold Hn)
    as (Hb3 & Hself3 & Hfwd3 & Hinv3).
  assert (E3 : setSlot b2 (seqNumToIndex b2 (s + Z.of_nat n))
                       (Some (setContinuous true p))
               = setSlot b (seqNumToIndex b (s + Z.of_nat n))
                         (Some (setContinuous true p))).
  { unfold b2, setSlot. cbn [buffer size]. f_equal.
    apply list_insert_insert_eq. }
  rewrite E3.
  set (b3 := setSlot b (seqNumToIndex b (s + Z.of_nat n))
                     (Some (setContinuous true p))) in *.
  rewrite (fold_findFrames_step_identity _ _ [] b3 Hb3 Hsafe F2).
  2:{ intros i x Hx. left.
      destruct (Hinv3 _ _ Hx) as [[_ ->]|(j & q & Hj & Hq & _ & ->)].
      - apply (Hdone n p); [lia|exact Hn].
      - apply (Hdone j q); [lia|exact Hq]. }
  exists b3. split; [reflexivity|]. split; [reflexivity|].
  split; [exact Hb3|]. split.
  - intros j q Hj Hq. change (seqNumToIndex b3) with (seqNumToIndex b).
    destruct (Nat.eq_dec j n) as [->|Hjn].
    + rewrite Hn in Hq. injection Hq as <-. exact Hself3.
    + apply Hfwd3; [lia|exact Hq].
  - intros i x Hx. change (seqNumToIndex b3) with (seqNumToIndex b).
    destruct (Hinv3 _ _ Hx) as [[-> ->]|(j & q & Hj & Hq & -> & ->)].
    + exists n, p. repeat split; [lia|exact Hn].
    + exists j, q. repeat split; [lia|exact Hq].
Qed.

Lemma InsertPacket_in_order_last s pkts n b p :
  in_order_frame s pkts ->
  int64_min + 2 ^ 17 <= s -> s + Z.of_nat (length pkts) <= int64_max - 2 ^ 17 ->
  Z.of_nat (length pkts) <= size b ->
  holds_prefix s pkts n b -> pkts !! n = Some p -> S n = length pkts ->
  exists b', InsertPacket b p
             = (mkResult [map (setContinuous true) pkts], b') /\
             size b' = size b /\ empty_buffer b'.
Proof.
  intros Hframe Hlo Hhi Hlen Hhold Hn Hnl.
  pose proof (holds_prefix_slot_free s pkts n b p Hframe Hlen Hhold Hn) as Hfree.
  pose proof (in_order_frame_numbers s pkts Hframe) as Hnums.
  destruct Hframe as [Hne Hp]. destruct (Hp n p Hn) as (Hs & Hf & Hl & Ht).
  assert (Hb : well_formed b) by apply Hhold.
  assert (Hsz : 0 < size b <= 2048) by apply Hb.
  set (e := s + Z.of_nat n) in *.
  assert (Hsafe : insertable_seq e) by (unfold insertable_seq, e; lia).
  assert (Hlast : isLast p = true).
  { rewrite Hl. apply Nat.eqb_eq. exact Hnl. }
  assert (Hdone : forall (j : nat) q, (j < n)%nat -> pkts !! j = Some q ->
                    Continuous (setContinuous true q) = true /\
                    isLast (setContinuous true q) = false).
  { intros j q Hj Hq. split; [reflexivity|].
    change (isLast (setContinuous true q)) with (isLast q).
    destruct (Hp j q Hq) as (_ & _ & -> & _). apply Nat.eqb_neq. lia. }
  assert (H0 : is_Some (pkts !! 0%nat)) by (apply lookup_lt_is_Some; lia).
  destruct H0 as [q0 Hq0].
  unfold InsertPacket. rewrite Hfree, Hs.
  destruct (holds_prefix_stored s pkts n b p false (conj Hne Hp) Hlen Hhold Hn)
    as (Hb2 & Hself2 & Hfwd2 & Hinv2).
  fold e in Hself2, Hfwd2, Hinv2.
  set (b2 := setSlot b (seqNumToIndex b e) (Some (setContinuous false p))) in *.
  destruct (findFrames_phases b2 e Hb2) as (E & F1 & F2).
  rewrite E. clear E.
  rewrite (fold_findFrames_step_identity _ _ [] b2 Hb2 Hsafe F1).
  2:{ intros i x Hx. destruct (Hinv2 _ _ Hx) as [[-> _]|(j & q & Hj & Hq & _ & ->)].
      - now right.
      - left. now apply (Hdone j q). }
  destruct (findFrames_step_completes (size b2) s e p [] b2 Hsafe Hs Hlast)
    as (fr & Estep & _ & Hstored & (h0 & Hhd & Hh0) & st & Hst & Hmap).
  { unfold e. lia. }
  { change (size b2) with (size b). unfold e. lia. }
  { intros E. rewrite Hf. apply Nat.eqb_eq. unfold e in E. lia. }
  { split; [exact Hb2|]. split; [reflexivity|]. split.
    - intros j Hj.
      assert (Hjn : exists m : nat, j = s + Z.of_nat m /\ (m < n)%nat).
      { exists (Z.to_nat (j - s)). unfold e in Hj. lia. }
      destruct Hjn as (m & -> & Hm).
      assert (Hq : is_Some (pkts !! m)) by (apply lookup_lt_is_Some; lia).
      destruct Hq as [q Hq]. exists (setContinuous true q).
      destruct (Hp m q Hq) as (Hqs & Hqf & _ & Hqt).
      split; [now apply Hfwd2|]. split; [exact Hqs|].
      split; [reflexivity|]. split; [now apply (Hdone m q)|].
      split; [now rewrite (Ht q0 Hq0); apply Hqt|].
      intros E. change (isFirst (setContinuous true q)) with (isFirst q).
      rewrite Hqf. apply Nat.eqb_eq. lia.
    - exists (setContinuous false p). split; [exact Hself2|].
      apply same_packet_setContinuous. }
  cbn [app] in Estep. rewrite Estep. clear Estep.
  destruct (holds_prefix_stored s pkts n b p true (conj Hne Hp) Hlen Hhold Hn)
    as (Hb3 & Hself3 & Hfwd3 & Hinv3).
  fold e in Hself3, Hfwd3, Hinv3.
  assert (E3 : setSlot b2 (seqNumToIndex b2 e) (Some (setContinuous true p))
               = setSlot b (seqNumToIndex b e) (Some (setContinuous true p))).
  { unfold b2, setSlot. cbn [buffer size]. f_equal.
    apply list_insert_insert_eq. }
  rewrite E3 in *.
  set (b3 := setSlot b (seqNumToIndex b e) (Some (setContinuous true p))) in *.
  change (seqNumToIndex b2) with (seqNumToIndex b) in Hstored.
  (* every packet of the frame, marked, sits in its slot of [b3] *)
  assert (Hall : forall (j : nat) q, pkts !! j = Some q ->
            slotAt b3 (seqNumToIndex b (s + Z.of_nat j))
            = Some (setContinuous true q)).
  { intros j q Hq. pose proof (lookup_lt_Some _ _ _ Hq) as Hj.
    destruct (Nat.eq_dec j n) as [->|Hjn].
    - rewrite Hn in Hq. injection Hq as <-. exact Hself3.
    - apply Hfwd3; [lia|exact Hq]. }
  (* the frame starts at [s] *)
  assert (Est : st = s).
  { destruct fr as [|x fr']; [discriminate|]. injection Hhd as ->.
    rewrite (seqZ_cons st) in Hmap by lia. injection Hmap as Hx _.
    inversion Hstored as [|? ? Hxs _]; subst.
    assert (Hm : exists m : nat, SequenceNumber h0 = s + Z.of_nat m /\
                                 (m < length pkts)%nat).
    { exists (Z.to_nat (SequenceNumber h0 - s)). unfold e in Hst. lia. }
    destruct Hm as (m & Em & Hm).
    assert (Hq : is_Some (pkts !! m)) by now apply lookup_lt_is_Some.
    destruct Hq as [q Hq]. rewrite Em, (Hall m q Hq) in Hxs.
    injection Hxs as <-.
    change (isFirst (setContinuous true q)) with (isFirst q) in Hh0.
    destruct (Hp m q Hq) as (_ & Hqf & _). rewrite Hqf in Hh0.
    apply Nat.eqb_eq in Hh0. lia. }
  subst st.
  assert (Efr : fr = map (setContinuous true) pkts).
  { apply (stored_lists_equal
             (fun z => slotAt b3 (seqNumToIndex b z))).
    - rewrite Hmap, map_map.
      change (map (fun x => SequenceNumber (setContinuous true x)) pkts)
        with (map SequenceNumber pkts).
      rewrite Hnums. f_equal. unfold e. lia.
    - rewrite Forall_forall in Hstored. intros x Hx.
      apply Hstored. now apply list_elem_of_In.
    - intros y Hy. apply in_map_iff in Hy. destruct Hy as (q & <- & Hq).
      apply list_elem_of_In, list_elem_of_lookup in Hq. destruct Hq as [j Hq].
      change (SequenceNumber (setContinuous true q)) with (SequenceNumber q).
      destruct (Hp j q Hq) as (-> & _). now apply Hall. }
  subst fr.
  set (b4 := clearFrame b3 (map (setContinuous true) pkts)).
  assert (Hb4 : well_formed b4) by now apply clearFrame_well_formed.
  assert (Hempty : forall i, slotAt b4 i = None).
  { intros i. unfold b4.
    destruct (slotAt b3 i) as [x|] eqn:Ex; [|now apply clearFrame_None].
    assert (Hx : exists (j : nat) q, pkts !! j = Some q /\
                   i = seqNumToIndex b (s + Z.of_nat j) /\
                   x = setContinuous true q).
    { destruct (Hinv3 _ _ Ex) as [[-> ->]|(j & q & Hj & Hq & -> & ->)].
      - now exists n, p.
      - now exists j, q. }
    destruct Hx as (j & q & Hq & -> & ->).
    destruct (Hp j q Hq) as (Hqs & _).
    rewrite <- Hqs.
    change (SequenceNumber q) with (SequenceNumber (setContinuous true q)).
    change (seqNumToIndex b) with (seqNumToIndex b3).
    apply clearFrame_cleared; [exact Hb3|].
    apply in_map. apply list_elem_of_In, list_elem_of_lookup. now exists j. }
  assert (Esz4 : size b4 = size b2)
    by (unfold b4; rewrite clearFrame_size; reflexivity).
  rewrite <- Esz4 in F2 |- *.
  rewrite (fold_findFrames_step_identity _ _ _ b4 Hb4 Hsafe F2).
  2:{ intros i x Hx. rewrite Hempty in Hx. discriminate. }
  exists b4. split; [reflexivity|].
  split; [unfold b4; now rewrite clearFrame_size|]. now split.
Qed.

Lemma insertAll_in_order_from s pkts (k : nat) :
  in_order_frame s pkts ->
  int64_min + 2 ^ 17 <= s -> s + Z.of_nat (length pkts) <= int64_max - 2 ^ 17 ->
  forall n b,
    Z.of_nat (length pkts) <= size b ->
    length pkts = (n + S k)%nat -> holds_prefix s pkts n b ->
    exists b',
      insertAll b (drop n pkts)
      = (replicate k [] ++ [[map (setContinuous true) pkts]], b') /\
      size b' = size b /\ empty_buffer b'.
Proof.
  intros Hframe Hlo Hhi. induction k as [|k IH]; intros n b Hlen Hn Hhold.
  - assert (Hp : is_Some (pkts !! n)) by (apply lookup_lt_is_Some; lia).
    destruct Hp as [p Hp]. rewrite (drop_S _ _ _ Hp).
    rewrite drop_ge by lia. cbn [insertAll replicate app].
    destruct (InsertPacket_in_order_last s pkts n b p Hframe Hlo Hhi Hlen
                Hhold Hp ltac:(lia)) as (b' & -> & Hsz & Hempty).
    exists b'. split; [reflexivity|]. split; [exact Hsz|exact Hempty].
  - assert (Hp : is_Some (pkts !! n)) by (apply lookup_lt_is_Some; lia).
    destruct Hp as [p Hp]. rewrite (drop_S _ _ _ Hp). cbn [insertAll].
    destruct (InsertPacket_in_order_next s pkts n b p Hframe Hlo Hhi Hlen
                Hhold Hp ltac:(lia)) as (b1 & -> & Hsz1 & Hhold1).
    destruct (IH (S n) b1) as (b' & -> & Hsz & Hempty);
      [lia|lia|exact Hhold1|].
    exists b'. cbn [Frames replicate app]. split; [reflexivity|].
    split; [lia|exact Hempty].
Qed.

(** One frame delivered in order into an empty buffer. *)
Lemma insertAll_in_order_frame s pkts b :
  empty_buffer b -> in_order_frame s pkts ->
  int64_min + 2 ^ 17 <= s -> s + Z.of_nat (length pkts) <= int64_max - 2 ^ 17 ->
  Z.of_nat (length pkts) <= size b ->
  exists b',
    insertAll b pkts = (in_order_results pkts, b') /\
    size b' = size b /\ empty_buffer b'.
Proof.
  intros [Hb Hnone] Hframe Hlo Hhi Hlen.
  assert (Hpos : (0 < length pkts)%nat).
  { destruct Hframe as [Hne _]. destruct pkts; [congruence|cbn; lia]. }
  destruct (insertAll_in_order_from s pkts (length pkts - 1) Hframe Hlo Hhi
              0%nat b Hlen ltac:(lia)) as (b' & E & H');
    [|exists b'; split; [exact E|exact H']].
  split; [exact Hb|]. split.
  - intros j q Hj. lia.
  - intros i x Hx. rewrite Hnone in Hx. discriminate.
Qed.

Lemma insertAll_app b l1 l2 :
  insertAll b (l1 ++ l2)
  = (fst (insertAll b l1) ++ fst (insertAll (snd (insertAll b l1)) l2),
     snd (insertAll (snd (insertAll b l1)) l2)).
Proof.
  revert b. induction l1 as [|p l1 IH]; intros b; cbn [app insertAll].
  - cbn. now destruct (insertAll b l2).
  - destruct (InsertPacket b p) as [r b1]. rewrite IH.
    destruct (insertAll b1 l1) as [rs b2]. cbn [fst snd].
    destruct (insertAll b2 l2) as [rs2 b3]. reflexivity.
Qed.

Lemma insertAll_in_order_stream frames b :
  empty_buffer b ->
  Forall (fun pkts =>
            exists s, in_order_frame s pkts /\
                      int64_min + 2 ^ 17 <= s /\
                      s + Z.of_nat (length pkts) <= int64_max - 2 ^ 17 /\
                      Z.of_nat (length pkts) <= size b) frames ->
  exists b',
    insertAll b (concat frames) = (concat (map in_order_results frames), b') /\
    size b' = size b /\ empty_buffer b'.
Proof.
  revert b. induction frames as [|pkts frames IH]; intros b Hb Hall.
  - exists b. split; [reflexivity|]. split; [reflexivity|exact Hb].
  - inversion Hall as [|? ? (s & Hf & Hlo & Hhi & Hlen) Hrest]; subst.
    destruct (insertAll_in_order_frame s pkts b Hb Hf Hlo Hhi Hlen)
      as (b1 & E1 & Hsz1 & Hb1).
    destruct (IH b1 Hb1) as (b' & E' & Hsz' & Hb').
    { eapply Forall_impl; [exact Hrest|]. intros l (s' & H1 & H2 & H3 & H4).
      exists s'. rewrite Hsz1. exact (conj H1 (conj H2 (conj H3 H4))). }
    exists b'. cbn [concat map]. rewrite insertAll_app, E1. cbn [fst snd].
    rewrite E'. cbn [fst snd]. split; [reflexivity|]. split; [lia|exact Hb'].
Qed.

Lemma concat_in_order_results frames :
  concat (concat (map in_order_results frames))
  = map (map (setContinuous true)) frames.
Proof.
  induction frames as [|pkts frames IH]; [reflexivity|].
  cbn [map concat]. rewrite concat_app, IH. unfold in_order_results.
  rewrite concat_app. cbn [concat]. rewrite app_nil_r.
  assert (E : forall k, concat (replicate k ([] : list (list BufferedPacket))) = []).
  { intros k. induction k as [|k IHk]; [reflexivity|exact IHk]. }
  now rewrite E.
Qed.

(** A stream of frames delivered without loss and in order comes out as it
    went in.  Start from an empty buffer and insert, frame after frame, the
    packets of each frame in sequence order (consecutive sequence numbers,
    one timestamp, the first packet and no other flagged first, the last
    packet and no other flagged last, no more packets than the buffer has
    slots).  Then every call for a packet that is not the last of its frame
    returns nothing, the call for the last packet returns exactly that
    frame, its packets in order and marked continuous, and the buffer is
    empty again at the end. *)
Theorem in_order_stream_is_returned
        (b : VideoPacketBuffer) (frames : list (list BufferedPacket)) :
  empty_buffer b ->
  Forall (fun pkts =>
            exists s, in_order_frame s pkts /\
                      int64_min + 2 ^ 17 <= s /\
                      s + Z.of_nat (length pkts) <= int64_max - 2 ^ 17 /\
                      Z.of_nat (length pkts) <= size b) frames ->
  fst (insertAll b (concat frames)) = concat (map in_order_results frames) /\
  emitted b (concat frames) = map (map (setContinuous true)) frames /\
  empty_buffer (snd (insertAll b (concat frames))).
Proof.
  intros Hb Hall.
  destruct (insertAll_in_order_stream frames b Hb Hall) as (b' & E & _ & Hb').
  unfold emitted. rewrite E. cbn [fst snd].
  split; [reflexivity|]. split; [apply concat_in_order_results|exact Hb'].
Qed.

Lemma empty64_empty : empty_buffer empty64.
Proof.
  split; [exact empty64_well_formed|]. intros i. unfold slotAt, empty64.
  cbn [buffer]. destruct (replicate 64 None !! i) as [v|] eqn:E; [|reflexivity].
  apply lookup_replicate in E. now destruct E as [-> _].
Qed.

Lemma in_order_stream_is_returned_witness :
  (empty_buffer empty64 /\
   Forall (fun pkts =>
             exists s, in_order_frame s pkts /\
                       int64_min + 2 ^ 17 <= s /\
                       s + Z.of_nat (length pkts) <= int64_max - 2 ^ 17 /\
                       Z.of_nat (length pkts) <= size empty64) two_frames) /\
  emitted empty64 (concat two_frames)
  = map (map (setContinuous true)) two_frames.
Proof.
  assert (H2 : Forall (fun pkts =>
             exists s, in_order_frame s pkts /\
                       int64_min + 2 ^ 17 <= s /\
                       s + Z.of_nat (length pkts) <= int64_max - 2 ^ 17 /\
                       Z.of_nat (length pkts) <= size empty64) two_frames).
  { unfold two_frames, int64_min, int64_max. constructor; [|constructor];
      [| |constructor].
    - exists 10. split; [|cbn; lia]. split; [discriminate|].
      intros [|[|i]] p; cbn; intros [= <-];
        (split; [reflexivity|split; [reflexivity|split; [reflexivity|]]]);
        intros q [= <-]; reflexivity.
    - exists 12. split; [|cbn; lia]. split; [discriminate|].
      intros [|i] p; cbn; intros [= <-];
        (split; [reflexivity|split; [reflexivity|split; [reflexivity|]]]);
        intros q [= <-]; reflexivity. }
  split; [exact (conj empty64_empty H2)|].
  exact (proj1 (proj2 (in_order_stream_is_returned empty64 two_frames
                         empty64_empty H2))).
Defined.

(** *** A frame whose packets arrive in any order *)

Lemma findFrames_step_idle seqNum i result b :
  (forall x, slotAt b (seqNumToIndex b (wrap64 (seqNum - size b / 2 + i)))
             = Some x ->
             SequenceNumber x <> wrap64 (seqNum - size b / 2 + i)) ->
  findFrames_step seqNum (result, b) i = (result, b).
Proof.
  intros Hidle. unfold findFrames_step.
  assert (Hpot : potentialNewFrame b (wrap64 (seqNum - size b / 2 + i)) = false).
  { unfold potentialNewFrame.
    destruct (slotAt b _) as [x|] eqn:Ex; [|reflexivity].
    now rewrite (proj2 (Z.eqb_neq _ _) (Hidle x eq_refl)). }
  now rewrite Hpot.
Qed.

Lemma findFrames_step_marks_at seqNum i c x result b :
  well_formed b -> insertable_seq seqNum ->
  0 <= i < size b -> c = seqNum - size b / 2 + i ->
  slotAt b (seqNumToIndex b c) = Some x ->
  SequenceNumber x = c -> isLast x = false ->
  (isFirst x = true \/
   exists prev, slotAt b (seqNumToIndex b (c - 1)) = Some prev /\
                SequenceNumber prev = c - 1 /\
                Timestamp prev = Timestamp x /\ Continuous prev = true) ->
  findFrames_step seqNum (result, b) i
  = (result, setSlot b (seqNumToIndex b c) (Some (setContinuous true x))).
Proof.
  intros Hb Hsafe Hi Hc Hslot Hseq Hnl Hprev.
  assert (Hsz : 0 < size b <= 2048) by apply Hb.
  destruct (scan_window_safe (size b) seqNum i Hsz Hsafe Hi) as [Hw Hs].
  unfold findFrames_step. rewrite Hw. rewrite <- Hc in Hs |- *. clear Hw.
  assert (Hpot : potentialNewFrame b c = true).
  { unfold potentialNewFrame. rewrite Hslot.
    rewrite (proj2 (Z.eqb_eq _ _) Hseq). cbn [negb].
    destruct (isFirst x) eqn:Ef; [reflexivity|].
    destruct Hprev as [|(prev & Hp & Hps & Hpt & Hpc)]; [discriminate|].
    rewrite (wrap64_id (c - 1))
      by (unfold safe_seq, in_int64, int64_min, int64_max in *; lia).
    rewrite Hp, (proj2 (Z.eqb_eq _ _) Hps). cbn [negb].
    rewrite (proj2 (Z.eqb_eq _ _) Hpt). cbn [negb]. exact Hpc. }
  rewrite Hpot. cbn [negb]. rewrite Hslot.
  change (isLast (setContinuous true x)) with (isLast x).
  rewrite Hnl. reflexivity.
Qed.

Lemma in_order_frame_member s pkts q :
  in_order_frame s pkts -> In q pkts ->
  exists j : nat, pkts !! j = Some q /\
                  SequenceNumber q = s + Z.of_nat j /\
                  (j < length pkts)%nat.
Proof.
  intros [_ Hp] Hq. apply list_elem_of_In, list_elem_of_lookup in Hq.
  destruct Hq as [j Hj]. exists j. split; [exact Hj|].
  split; [apply (Hp j q Hj)|]. now apply lookup_lt_Some in Hj.
Qed.

Lemma in_order_frame_inj s pkts q q' :
  in_order_frame s pkts -> In q pkts -> In q' pkts ->
  SequenceNumber q = SequenceNumber q' -> q = q'.
Proof.
  intros Hf Hq Hq' E.
  destruct (in_order_frame_member s pkts q Hf Hq) as (j & Hj & Hs & _).
  destruct (in_order_frame_member s pkts q' Hf Hq') as (j' & Hj' & Hs' & _).
  assert (j = j') as -> by lia. congruence.
Qed.

Lemma in_order_frame_NoDup s pkts : in_order_frame s pkts -> NoDup pkts.
Proof.
  intros Hf. apply (NoDup_fmap_1 SequenceNumber).
  change (SequenceNumber <$> pkts) with (map SequenceNumber pkts).
  rewrite (in_order_frame_numbers s pkts Hf). apply NoDup_seqZ.
Qed.

Lemma holds_set_mark D b i pkt :
  holds_set D b -> slotAt b i = Some pkt ->
  holds_set D (setSlot b i (Some (setContinuous true pkt))).
Proof.
  intros (Hb & Hfwd & Hinv) Hp.
  assert (Hi : (i < length (buffer b))%nat).
  { unfold slotAt in Hp. destruct (buffer b !! i) eqn:E; [|discriminate].
    now apply lookup_lt_Some in E. }
  split; [now apply setSlot_well_formed|]. split.
  - intros q Hq. rewrite seqNumToIndex_setSlot, slotAt_setSlot by exact Hi.
    destruct (Hfwd q Hq) as (x & Hx & Hs).
    destruct (decide _) as [E|E]; [|now exists x].
    exists (setContinuous true pkt). split; [reflexivity|].
    rewrite E, Hx in Hp. injection Hp as <-.
    eapply same_packet_trans; [exact Hs|apply same_packet_setContinuous].
  - intros k x. rewrite slotAt_setSlot by exact Hi.
    destruct (decide _) as [E|E].
    + intros [= <-]. subst k. destruct (Hinv _ _ Hp) as (q & Hq & Hk & Hs).
      exists q. split; [exact Hq|]. split; [exact Hk|].
      eapply same_packet_trans; [exact Hs|apply same_packet_setContinuous].
    + intros Hx. now apply Hinv.
Qed.

Lemma holds_set_free s pkts D b p :
  in_order_frame s pkts -> Z.of_nat (length pkts) <= size b ->
  holds_set D b -> incl D pkts -> In p pkts -> ~ In p D ->
  slotAt b (seqNumToIndex b (SequenceNumber p)) = None.
Proof.
  intros Hf Hlen (Hb & _ & Hinv) Hincl Hp Hnp.
  destruct (slotAt b _) as [x|] eqn:Ex; [exfalso|reflexivity].
  destruct (Hinv _ _ Ex) as (q & Hq & Hi & _).
  destruct (in_order_frame_member s pkts p Hf Hp) as (j & _ & Hs & Hj).
  destruct (in_order_frame_member s pkts q Hf (Hincl q Hq)) as (j' & _ & Hs' & Hj').
  assert (Hsz : 0 < size b) by apply Hb.
  destruct (Z.lt_trichotomy (SequenceNumber p) (SequenceNumber q)) as [Hlt|[E|Hgt]].
  - revert Hi. apply seqNumToIndex_apart; lia.
  - apply Hnp. now rewrite (in_order_frame_inj s pkts p q Hf Hp (Hincl q Hq) E).
  - symmetry in Hi. revert Hi. apply seqNumToIndex_apart; lia.
Qed.

Lemma holds_set_insert D b p :
  holds_set D b ->
  slotAt b (seqNumToIndex b (SequenceNumber p)) = None ->
  holds_set (p :: D)
            (setSlot b (seqNumToIndex b (SequenceNumber p))
                     (Some (setContinuous false p))).
Proof.
  intros (Hb & Hfwd & Hinv) Hfree.
  assert (Hi : (seqNumToIndex b (SequenceNumber p) < length (buffer b))%nat)
    by now apply seqNumToIndex_lt.
  split; [now apply setSlot_well_formed|]. split.
  - intros q [<-|Hq]; rewrite seqNumToIndex_setSlot, slotAt_setSlot by exact Hi.
    + rewrite decide_True by reflexivity. eexists. split; [reflexivity|].
      apply same_packet_setContinuous.
    + destruct (Hfwd q Hq) as (x & Hx & Hs).
      destruct (decide _) as [E|E]; [|now exists x].
      rewrite E, Hx in Hfree. discriminate.
  - intros k x. rewrite slotAt_setSlot by exact Hi.
    destruct (decide _) as [E|E].
    + intros [= <-]. exists p. split; [now left|]. split; [now symmetry|].
      apply same_packet_setContinuous.
    + intros Hx. destruct (Hinv _ _ Hx) as (q & Hq & Hk & Hs).
      exists q. split; [now right|]. now split.
Qed.

(** While a packet of the frame is missing the scan returns nothing and
    keeps what is stored. *)
Lemma findFrames_waiting s pkts D m b seqNum :
  in_order_frame s pkts -> Z.of_nat (length pkts) <= size b ->
  insertable_seq seqNum ->
  holds_set D b -> incl D pkts -> In m pkts -> ~ In m D ->
  fst (findFrames b seqNum) = [] /\ holds_set D (snd (findFrames b seqNum)) /\
  size (snd (findFrames b seqNum)) = size b.
Proof.
  intros Hf Hlen Hsafe Hhold Hincl Hm Hnm. unfold findFrames.
  assert (Hb : well_formed b) by apply Hhold.
  assert (Hsz : 0 < size b <= 2048) by apply Hb.
  apply (scan_invariant_bounded
           (fun _ acc => fst acc = [] /\ holds_set D (snd acc) /\
                         size (snd acc) = size b)
           (findFrames_step seqNum) (size b));
    [|exact (conj eq_refl (conj Hhold eq_refl))|lia].
  intros i [result bb] Hi (Hres & Hbb & Hsize). cbn [fst snd] in *. subst result.
  rewrite <- Hsize in Hi.
  assert (Hwf : well_formed bb) by apply Hbb.
  destruct (scan_window_safe (size bb) seqNum i ltac:(lia) Hsafe Hi) as [Hw Hc].
  pose proof (findFrames_step_outcome seqNum i [] bb) as Hstep.
  remember (findFrames_step seqNum ([], bb) i) as r eqn:Er. clear Er.
  destruct Hstep as [|pkt Hp|pkt c b1 Hp Hq Hl Hne]; cbn [fst snd].
  - exact (conj eq_refl (conj Hbb Hsize)).
  - split; [reflexivity|]. split; [now apply holds_set_mark|exact Hsize].
  - exfalso.
    assert (Hb1 : holds_set D b1) by now apply holds_set_mark.
    assert (Hwf1 : well_formed b1) by apply Hb1.
    assert (Hc1 : safe_seq c) by (unfold c; now rewrite Hw).
    destruct (extractFrame_run b1 c Hwf1 Hc1 Hne) as (st & q0 & Hst & Hmap & Hhd & Hq0).
    pose proof (extractFrame_stored b1 c) as Hstored.
    rewrite Forall_forall in Hstored.
    destruct (run_members _ _ _ Hmap) as [Hmem1 Hmem2].
    (* a packet of the frame found in [b1] under its own number is a
       delivered packet *)
    assert (Hdel : forall x, In x (extractFrame b1 c) ->
                     exists q, In q D /\ same_packet q x).
    { intros x Hx. destruct (Hstored x) as [Hxs _]; [now apply list_elem_of_In|].
      destruct Hb1 as (_ & _ & Hinv1).
      destruct (Hinv1 _ _ Hxs) as (q & Hq' & _ & Hs). now exists q. }
    (* the last packet *)
    destruct Hbb as (_ & _ & Hinv).
    destruct (Hinv _ _ Hp) as (ql & Hql & _ & Hsl).
    destruct (same_packet_fields _ _ Hsl) as (Hl1 & _ & _ & Hl4 & _).
    destruct (in_order_frame_member s pkts ql Hf (Hincl ql Hql))
      as (jl & Hjl & Hsl' & Hjl').
    destruct Hf as [Hne' Hfp].
    destruct (Hfp jl ql Hjl) as (_ & _ & Hlast & _).
    rewrite Hl4, Hl in Hlast. symmetry in Hlast. apply Nat.eqb_eq in Hlast.
    (* the first packet *)
    assert (Hin0 : In q0 (extractFrame b1 c)).
    { destruct (extractFrame b1 c); [discriminate|]. injection Hhd as ->. now left. }
    destruct (Hdel q0 Hin0) as (qf & Hqf & Hsf).
    destruct (same_packet_fields _ _ Hsf) as (Hf1 & _ & Hf3 & _ & _).
    destruct (in_order_frame_member s pkts qf (conj Hne' Hfp) (Hincl qf Hqf))
      as (jf & Hjf & Hsf' & _).
    destruct (Hfp jf qf Hjf) as (_ & Hfirst & _).
    rewrite Hf3, Hq0 in Hfirst. symmetry in Hfirst. apply Nat.eqb_eq in Hfirst.
    assert (Est : st = s).
    { assert (Hq0s : SequenceNumber q0 = st).
      { destruct (extractFrame b1 c) as [|y l]; [discriminate|].
        injection Hhd as ->. rewrite (seqZ_cons st) in Hmap by lia.
        now injection Hmap. }
      lia. }
    (* the missing packet would be in the frame *)
    destruct (in_order_frame_member s pkts m (conj Hne' Hfp) Hm)
      as (jm & Hjm & Hsm & Hjm').
    destruct (Hmem2 (SequenceNumber m)) as (x & Hx & Hxs); [lia|].
    destruct (Hdel x Hx) as (q & Hq' & Hs).
    destruct (same_packet_fields _ _ Hs) as (Hs1 & _).
    apply Hnm.
    rewrite (in_order_frame_inj s pkts m q (conj Hne' Hfp) Hm (Hincl q Hq'));
      [exact Hq'|lia].
Qed.

Lemma InsertPacket_reordered_waiting s pkts D m b p :
  in_order_frame s pkts ->
  int64_min + 2 ^ 17 <= s -> s + Z.of_nat (length pkts) <= int64_max - 2 ^ 17 ->
  Z.of_nat (length pkts) <= size b ->
  holds_set D b -> incl D pkts -> In p pkts -> ~ In p D ->
  In m pkts -> ~ In m (p :: D) ->
  exists b', InsertPacket b p = (mkResult [], b') /\
             size b' = size b /\ holds_set (p :: D) b'.
Proof.
  intros Hf Hlo Hhi Hlen Hhold Hincl Hp Hnp Hm Hnm.
  pose proof (holds_set_free s pkts D b p Hf Hlen Hhold Hincl Hp Hnp) as Hfree.
  destruct (in_order_frame_member s pkts p Hf Hp) as (j & _ & Hs & Hj).
  unfold InsertPacket. rewrite Hfree.
  pose proof (holds_set_insert D b p Hhold Hfree) as H2.
  set (b2 := setSlot b (seqNumToIndex b (SequenceNumber p))
                     (Some (setContinuous false p))) in *.
  destruct (findFrames_waiting s pkts (p :: D) m b2 (SequenceNumber p) Hf)
    as (E1 & E2 & E3); try assumption.
  - unfold insertable_seq. lia.
  - intros q [<-|Hq]; [exact Hp|now apply Hincl].
  - destruct (findFrames b2 (SequenceNumber p)) as [frames b3].
    cbn [fst snd] in *. subst frames. exists b3.
    split; [reflexivity|]. split; [exact E3|exact E2].
Qed.

(** The frame extracted from a buffer that holds exactly the marked packets
    of an in-order frame is that frame, and clearing it empties the buffer. *)
Lemma whole_frame_extracted s pkts b1 fr st :
  in_order_frame s pkts -> Z.of_nat (length pkts) <= size b1 ->
  well_formed b1 ->
  (forall (j : nat) q, pkts !! j = Some q ->
     slotAt b1 (seqNumToIndex b1 (s + Z.of_nat j)) = Some (setContinuous true q)) ->
  (forall i x, slotAt b1 i = Some x ->
     exists (j : nat) q, pkts !! j = Some q /\
                         i = seqNumToIndex b1 (s + Z.of_nat j) /\
                         x = setContinuous true q) ->
  Forall (fun q => slotAt b1 (seqNumToIndex b1 (SequenceNumber q)) = Some q) fr ->
  (exists q0, head fr = Some q0 /\ isFirst q0 = true) ->
  s <= st <= s + Z.of_nat (length pkts) - 1 ->
  map SequenceNumber fr = seqZ st (s + Z.of_nat (length pkts) - st) ->
  fr = map (setContinuous true) pkts /\ empty_buffer (clearFrame b1 fr).
Proof.
  intros Hframe Hlen Hb1 Hall Hinv Hstored (h0 & Hhd & Hh0) Hst Hmap.
  pose proof (in_order_frame_numbers s pkts Hframe) as Hnums.
  destruct Hframe as [Hne Hp].
  assert (Est : st = s).
  { destruct fr as [|x fr']; [discriminate|]. injection Hhd as ->.
    rewrite (seqZ_cons st) in Hmap by lia. injection Hmap as Hx _.
    inversion Hstored as [|? ? Hxs _]; subst.
    assert (Hm : exists m : nat, SequenceNumber h0 = s + Z.of_nat m /\
                                 (m < length pkts)%nat).
    { exists (Z.to_nat (SequenceNumber h0 - s)). lia. }
    destruct Hm as (m & Em & Hm).
    assert (Hq : is_Some (pkts !! m)) by now apply lookup_lt_is_Some.
    destruct Hq as [q Hq]. rewrite Em, (Hall m q Hq) in Hxs.
    injection Hxs as <-.
    change (isFirst (setContinuous true q)) with (isFirst q) in Hh0.
    destruct (Hp m q Hq) as (_ & Hqf & _). rewrite Hqf in Hh0.
    apply Nat.eqb_eq in Hh0. lia. }
  subst st.
  assert (Efr : fr = map (setContinuous true) pkts).
  { apply (stored_lists_equal
             (fun z => slotAt b1 (seqNumToIndex b1 z))).
    - rewrite Hmap, map_map.
      change (map (fun x => SequenceNumber (setContinuous true x)) pkts)
        with (map SequenceNumber pkts).
      rewrite Hnums. f_equal. lia.
    - rewrite Forall_forall in Hstored. intros x Hx.
      apply Hstored. now apply list_elem_of_In.
    - intros y Hy. apply in_map_iff in Hy. destruct Hy as (q & <- & Hq).
      apply list_elem_of_In, list_elem_of_lookup in Hq. destruct Hq as [j Hq].
      change (SequenceNumber (setContinuous true q)) with (SequenceNumber q).
      destruct (Hp j q Hq) as (-> & _). now apply Hall. }
  split; [exact Efr|]. subst fr.
  split; [now apply clearFrame_well_formed|].
  intros i.
  destruct (slotAt b1 i) as [x|] eqn:Ex; [|now apply clearFrame_None].
  destruct (Hinv _ _ Ex) as (j & q & Hq & -> & ->).
  destruct (Hp j q Hq) as (Hqs & _).
  rewrite <- Hqs.
  change (SequenceNumber q) with (SequenceNumber (setContinuous true q)).
  apply clearFrame_cleared; [exact Hb1|].
  apply in_map. apply list_elem_of_In, list_elem_of_lookup. now exists j.
Qed.

(** Marking the packet numbered [c] keeps the packets of the frame in the
    buffer and extends the marked run. *)
Lemma holds_all_mark s pkts b (j : nat) q x :
  in_order_frame s pkts -> Z.of_nat (length pkts) <= size b ->
  holds_all s pkts b -> marked_below s pkts (s + Z.of_nat j) b ->
  pkts !! j = Some q ->
  slotAt b (seqNumToIndex b (s + Z.of_nat j)) = Some x -> same_packet q x ->
  let b' := setSlot b (seqNumToIndex b (s + Z.of_nat j))
                    (Some (setContinuous true x)) in
  holds_all s pkts b' /\ marked_below s pkts (s + Z.of_nat j + 1) b' /\
  size b' = size b.
Proof.
  intros Hf Hlen (Hb & Hfwd & Hinv) Hmarked Hq Hx Hs b'.
  assert (Hi : (seqNumToIndex b (s + Z.of_nat j) < length (buffer b))%nat)
    by now apply seqNumToIndex_lt.
  assert (Hsz : 0 < size b) by apply Hb.
  pose proof (lookup_lt_Some _ _ _ Hq) as Hj.
  assert (Hapart : forall j' : nat, (j' < length pkts)%nat -> j' <> j ->
            seqNumToIndex b (s + Z.of_nat j) <> seqNumToIndex b (s + Z.of_nat j')).
  { intros j' Hj' Hne.
    destruct (Nat.lt_ge_cases j j').
    - apply seqNumToIndex_apart; lia.
    - apply not_eq_sym, seqNumToIndex_apart; lia. }
  destruct (same_packet_fields _ _ Hs) as (_ & _ & _ & _ & Hmark).
  split; [|split; [|reflexivity]].
  - split; [now apply setSlot_well_formed|]. split.
    + intros j' q' Hq'. unfold b'.
      rewrite seqNumToIndex_setSlot, slotAt_setSlot by exact Hi.
      destruct (Nat.eq_dec j' j) as [->|Hne].
      * rewrite decide_True by reflexivity. rewrite Hq in Hq'.
        injection Hq' as <-. eexists. split; [reflexivity|].
        eapply same_packet_trans; [exact Hs|apply same_packet_setContinuous].
      * rewrite decide_False
          by (apply Hapart; [now apply lookup_lt_Some in Hq'|exact Hne]).
        now apply Hfwd.
    + intros i y. unfold b'. rewrite slotAt_setSlot by exact Hi.
      destruct (decide _) as [E|E].
      * intros [= <-]. exists j, q. split; [exact Hq|]. split; [now symmetry|].
        eapply same_packet_trans; [exact Hs|apply same_packet_setContinuous].
      * intros Hy. now apply Hinv.
  - intros j' q' Hq' Hlt. unfold b'.
    rewrite seqNumToIndex_setSlot, slotAt_setSlot by exact Hi.
    destruct (Nat.eq_dec j' j) as [->|Hne].
    + rewrite decide_True by reflexivity. rewrite Hq in Hq'.
      injection Hq' as <-. now rewrite Hmark.
    + rewrite decide_False
        by (apply Hapart; [now apply lookup_lt_Some in Hq'|exact Hne]).
      apply Hmarked; [exact Hq'|lia].
Qed.

Lemma holds_set_all s pkts D b :
  in_order_frame s pkts -> holds_set D b -> Permutation D pkts ->
  holds_all s pkts b.
Proof.
  intros Hf (Hb & Hfwd & Hinv) Hperm. split; [exact Hb|]. split.
  - intros j q Hq.
    assert (Hin : In q pkts)
      by (apply list_elem_of_In, list_elem_of_lookup; now exists j).
    destruct Hf as [_ Hp]. destruct (Hp j q Hq) as (<- & _).
    apply Hfwd. eapply Permutation_in; [symmetry; exact Hperm|exact Hin].
  - intros i x Hx. destruct (Hinv _ _ Hx) as (q & Hq & Hi & Hs).
    destruct (in_order_frame_member s pkts q Hf)
      as (j & Hj & Hsq & _); [eapply Permutation_in; eassumption|].
    exists j, q. rewrite <- Hsq. now repeat split.
Qed.

(** One step of the scan that follows the arrival of the frame's last
    missing packet, at a position [c] up to the frame's last number. *)
Lemma scan_reordered_step s pkts seqNum i bb :
  in_order_frame s pkts ->
  Z.of_nat (length pkts) <= size bb ->
  insertable_seq seqNum -> 0 <= i < size bb ->
  seqNum - size bb / 2 + i <= s + Z.of_nat (length pkts) - 1 ->
  holds_all s pkts bb ->
  marked_below s pkts (seqNum - size bb / 2 + i) bb ->
  size (snd (findFrames_step seqNum ([], bb) i)) = size bb /\
  (seqNum - size bb / 2 + i < s + Z.of_nat (length pkts) - 1 ->
   fst (findFrames_step seqNum ([], bb) i) = [] /\
   holds_all s pkts (snd (findFrames_step seqNum ([], bb) i)) /\
   marked_below s pkts (seqNum - size bb / 2 + i + 1)
                (snd (findFrames_step seqNum ([], bb) i))) /\
  (seqNum - size bb / 2 + i = s + Z.of_nat (length pkts) - 1 ->
   fst (findFrames_step seqNum ([], bb) i) = [map (setContinuous true) pkts] /\
   empty_buffer (snd (findFrames_step seqNum ([], bb) i))).
Proof.
  intros Hf Hlen Hsafe Hi Hce Hall Hmarked.
  set (c := seqNum - size bb / 2 + i) in *.
  set (e := s + Z.of_nat (length pkts) - 1) in *.
  assert (Hb : well_formed bb) by apply Hall.
  assert (Hsz : 0 < size bb <= 2048) by apply Hb.
  assert (Hpos : (0 < length pkts)%nat).
  { destruct Hf as [Hne _]. destruct pkts; [congruence|cbn; lia]. }
  destruct (scan_window_safe (size bb) seqNum i Hsz Hsafe Hi) as [Hw Hc].
  fold c in Hw, Hc.
  destruct (Z_lt_le_dec c s) as [Hcs|Hsc].
  - (* below the frame: nothing stored under this number *)
    rewrite findFrames_step_idle.
    2:{ intros x Hx. fold c. rewrite Hw.
        destruct Hall as (_ & _ & Hinv).
        destruct (Hinv _ _ Hx) as (j & q & Hq & _ & Hs).
        destruct (same_packet_fields _ _ Hs) as (<- & _).
        destruct Hf as [_ Hp]. destruct (Hp j q Hq) as (-> & _). lia. }
    cbn [fst snd]. split; [reflexivity|].
    split; [|intros E; exfalso; unfold e in *; lia].
    intros _. split; [reflexivity|]. split; [exact Hall|].
    intros j q Hq Hlt. lia.
  - assert (Hj : exists j : nat, c = s + Z.of_nat j /\ (j < length pkts)%nat).
    { exists (Z.to_nat (c - s)). unfold e in Hce. lia. }
    destruct Hj as (j & Ecj & Hj).
    assert (Hq : is_Some (pkts !! j)) by now apply lookup_lt_is_Some.
    destruct Hq as [q Hq].
    assert (Hall' := Hall). destruct Hall' as (_ & Hfwd & Hinv).
    destruct (Hfwd j q Hq) as (x & Hx & Hs).
    destruct (same_packet_fields _ _ Hs) as (Hs1 & Hs2 & Hs3 & Hs4 & Hs5).
    assert (Hf' := Hf). destruct Hf' as [Hne Hp].
    destruct (Hp j q Hq) as (Hqs & Hqf & Hql & Hqt).
    assert (H0 : is_Some (pkts !! 0%nat)) by (apply lookup_lt_is_Some; lia).
    destruct H0 as [q0 Hq0].
    rewrite Ecj in Hmarked.
    destruct (holds_all_mark s pkts bb j q x Hf Hlen Hall Hmarked Hq Hx Hs)
      as (Hall1 & Hmarked1 & Hsize1).
    rewrite <- Hs5 in Hall1, Hmarked1, Hsize1.
    destruct (Z_lt_le_dec c e) as [Hlt|Hge].
    + (* inside the frame, before its last packet: the packet is marked *)
      rewrite (findFrames_step_marks_at seqNum i c x [] bb Hb Hsafe Hi eq_refl).
      * rewrite Ecj, <- Hs5. cbn [fst snd].
        split; [exact Hsize1|]. split; [|intros E; exfalso; lia].
        intros _. split; [reflexivity|]. split; [exact Hall1|].
        exact Hmarked1.
      * rewrite Ecj. exact Hx.
      * rewrite <- Hs1. lia.
      * rewrite <- Hs4, Hql. apply Nat.eqb_neq. unfold e in *. lia.
      * destruct j as [|j']; [left; now rewrite <- Hs3, Hqf|right].
        assert (Hq' : is_Some (pkts !! j')) by (apply lookup_lt_is_Some; lia).
        destruct Hq' as [q' Hq'].
        exists (setContinuous true q').
        replace (c - 1) with (s + Z.of_nat j') by lia.
        split; [apply Hmarked; [exact Hq'|lia]|].
        destruct (Hp j' q' Hq') as (Hqs' & _ & _ & Hqt').
        split; [exact Hqs'|]. split; [|reflexivity].
        change (Timestamp (setContinuous true q')) with (Timestamp q').
        now rewrite <- Hs2, (Hqt' q0 Hq0), (Hqt q0 Hq0).
    + (* at the frame's last packet: the frame is extracted *)
      assert (Ece : c = e) by lia.
      destruct (findFrames_step_completes_at (size bb) s e q seqNum i [] bb
                  Hsafe Hi)
        as (fr & Estep & _ & Hstored & Hhead & st & Hst & Hmap).
      { now rewrite <- Ece. }
      { lia. }
      { rewrite Hql. apply Nat.eqb_eq. unfold e in *. lia. }
      { unfold e. lia. }
      { unfold e. lia. }
      { intros E. rewrite Hqf. apply Nat.eqb_eq. unfold e in *. lia. }
      { split; [exact Hb|]. split; [reflexivity|]. split.
        - intros k Hk.
          assert (Hm : exists m : nat, k = s + Z.of_nat m /\ (m < j)%nat).
          { exists (Z.to_nat (k - s)). lia. }
          destruct Hm as (m & -> & Hm).
          assert (Hqm : is_Some (pkts !! m)) by (apply lookup_lt_is_Some; lia).
          destruct Hqm as [qm Hqm]. exists (setContinuous true qm).
          destruct (Hp m qm Hqm) as (Hms & Hmf & Hml & Hmt).
          split; [apply Hmarked; [exact Hqm|lia]|].
          split; [exact Hms|]. split; [reflexivity|].
          split.
          { change (isLast (setContinuous true qm)) with (isLast qm).
            rewrite Hml. apply Nat.eqb_neq. lia. }
          split; [now rewrite (Hqt q0 Hq0); apply Hmt|].
          intros E. change (isFirst (setContinuous true qm)) with (isFirst qm).
          rewrite Hmf. apply Nat.eqb_eq. lia.
        - exists x. split; [|exact Hs]. now rewrite Ece, Ecj in *. }
      rewrite Estep. cbn [app fst snd].
      rewrite clearFrame_size. cbn [size setSlot].
      split; [reflexivity|]. split; [intros E; exfalso; lia|]. intros _.
      rewrite <- Ece, Ecj in Hstored |- *.
      set (b1 := setSlot bb (seqNumToIndex bb (s + Z.of_nat j))
                         (Some (setContinuous true q))) in *.
      destruct (whole_frame_extracted s pkts b1 fr st Hf) as [Efr Hempty].
      * exact Hlen.
      * apply Hall1.
      * intros m qm Hqm. apply Hmarked1; [exact Hqm|].
        apply lookup_lt_Some in Hqm. unfold e in *. lia.
      * intros k y Hy. destruct Hall1 as (_ & _ & Hinv1).
        destruct (Hinv1 _ _ Hy) as (m & qm & Hqm & -> & Hsm).
        exists m, qm. split; [exact Hqm|]. split; [reflexivity|].
        rewrite Hmarked1 in Hy; [injection Hy as <-; reflexivity|exact Hqm|].
        apply lookup_lt_Some in Hqm. unfold e in *. lia.
      * exact Hstored.
      * exact Hhead.
      * unfold e in *. lia.
      * rewrite Hmap. f_equal. unfold e. lia.
      * rewrite <- Efr. now split.
Qed.

(** The call that delivers the last missing packet of a frame returns the
    frame and leaves the buffer empty. *)
Lemma InsertPacket_reordered_completes s pkts D b p :
  in_order_frame s pkts ->
  int64_min + 2 ^ 17 <= s -> s + Z.of_nat (length pkts) <= int64_max - 2 ^ 17 ->
  2 * Z.of_nat (length pkts) <= size b ->
  holds_set D b -> Permutation (p :: D) pkts ->
  exists b', InsertPacket b p
             = (mkResult [map (setContinuous true) pkts], b') /\
             size b' = size b /\ empty_buffer b'.
Proof.
  intros Hf Hlo Hhi Hlen Hhold Hperm.
  assert (Hb : well_formed b) by apply Hhold.
  assert (Hsz : 0 < size b <= 2048) by apply Hb.
  assert (Hnd : NoDup (p :: D)).
  { rewrite Hperm. now apply (in_order_frame_NoDup s). }
  assert (Hp : In p pkts) by (eapply Permutation_in; [exact Hperm|now left]).
  assert (Hincl : incl D pkts).
  { intros q Hq. eapply Permutation_in; [exact Hperm|now right]. }
  assert (Hnp : ~ In p D).
  { apply NoDup_cons in Hnd. destruct Hnd as [Hn _].
    intros Hin. apply Hn. now apply list_elem_of_In. }
  pose proof (holds_set_free s pkts D b p Hf ltac:(lia) Hhold Hincl Hp Hnp)
    as Hfree.
  destruct (in_order_frame_member s pkts p Hf Hp) as (jp & _ & Hs & Hjp).
  unfold InsertPacket. rewrite Hfree.
  pose proof (holds_set_all s pkts (p :: D) _ Hf
                (holds_set_insert D b p Hhold Hfree) Hperm) as Hall2.
  set (b2 := setSlot b (seqNumToIndex b (SequenceNumber p))
                     (Some (setContinuous false p))) in *.
  assert (Hsafe : insertable_seq (SequenceNumber p))
    by (unfold insertable_seq; lia).
  assert (Hh : Z.of_nat (length pkts) <= size b2 / 2).
  { apply Z.div_le_lower_bound; [lia|]. change (size b2) with (size b). lia. }
  assert (Hh2 : size b2 / 2 <= size b2 - Z.of_nat (length pkts)).
  { assert (size b2 / 2 * 2 <= size b2)
      by (rewrite Z.mul_comm; apply Z.mul_div_le; lia).
    change (size b2) with (size b) in *. lia. }
  set (e := s + Z.of_nat (length pkts) - 1).
  set (F := map (setContinuous true) pkts).
  pose (P := fun (i : Z) (acc : list (list BufferedPacket) * VideoPacketBuffer) =>
               size (snd acc) = size b2 /\
               (SequenceNumber p - size b2 / 2 + i <= e ->
                fst acc = [] /\ holds_all s pkts (snd acc) /\
                marked_below s pkts (SequenceNumber p - size b2 / 2 + i) (snd acc)) /\
               (e < SequenceNumber p - size b2 / 2 + i ->
                fst acc = [F] /\ empty_buffer (snd acc))).
  assert (HP : P (size b2) (findFrames b2 (SequenceNumber p))).
  { unfold findFrames.
    apply (scan_invariant_bounded P (findFrames_step (SequenceNumber p)) (size b2)).
    - intros i [result bb] Hi (Hsize & Hbefore & Hafter). cbn [fst snd] in *.
      rewrite <- Hsize in Hi.
      destruct (Z_le_gt_dec (SequenceNumber p - size b2 / 2 + i) e) as [Hle|Hgt].
      + destruct (Hbefore Hle) as (-> & Hall & Hmarked).
        rewrite <- Hsize in Hle, Hmarked.
        destruct (scan_reordered_step s pkts (SequenceNumber p) i bb Hf
                    ltac:(change (size b2) with (size b) in Hsize; lia)
                    Hsafe Hi Hle Hall Hmarked) as (S1 & S2 & S3).
        rewrite Hsize in S1, S2, S3, Hle.
        unfold P. split; [exact S1|]. split.
        * intros Hnext.
          replace (SequenceNumber p - size b2 / 2 + (i + 1))
            with (SequenceNumber p - size b2 / 2 + i + 1) by lia.
          apply S2. unfold e in *. lia.
        * intros Hnext. apply S3. unfold e in *. lia.
      + destruct (Hafter ltac:(lia)) as (-> & Hempty).
        rewrite findFrames_step_idle.
        2:{ intros x Hx. destruct Hempty as [_ Hnone].
            rewrite Hnone in Hx. discriminate. }
        unfold P. cbn [fst snd]. split; [exact Hsize|]. split; [lia|].
        intros _. now split.
    - unfold P. cbn [fst snd]. split; [reflexivity|]. split.
      + intros _. split; [reflexivity|]. split; [exact Hall2|].
        intros j q Hq Hlt. apply lookup_lt_Some in Hq. lia.
      + intros Hgt. exfalso. unfold e in Hgt. lia.
    - change (size b2) with (size b). lia. }
  destruct HP as (Hsize & _ & Hafter).
  destruct Hafter as [E1 E2]; [unfold e; lia|].
  destruct (findFrames b2 (SequenceNumber p)) as [frames b3].
  cbn [fst snd] in *. subst frames. exists b3.
  split; [reflexivity|]. split; [exact Hsize|exact E2].
Qed.

Lemma insertAll_reordered s pkts :
  in_order_frame s pkts ->
  int64_min + 2 ^ 17 <= s -> s + Z.of_nat (length pkts) <= int64_max - 2 ^ 17 ->
  forall rest D b,
    2 * Z.of_nat (length pkts) <= size b ->
    Permutation (D ++ rest) pkts -> rest <> [] -> holds_set D b ->
    exists b',
      insertAll b rest
      = (replicate (length rest - 1) [] ++ [[map (setContinuous true) pkts]], b') /\
      size b' = size b /\ empty_buffer b'.
Proof.
  intros Hf Hlo Hhi rest.
  induction rest as [|p rest IH]; intros D b Hlen Hperm Hne Hhold;
    [congruence|].
  assert (Hnd : NoDup (D ++ p :: rest)).
  { rewrite Hperm. now apply (in_order_frame_NoDup s). }
  cbn [insertAll]. destruct rest as [|m rest'].
  - destruct (InsertPacket_reordered_completes s pkts D b p Hf Hlo Hhi Hlen Hhold)
      as (b' & -> & Hsz & Hempty).
    { etransitivity; [|exact Hperm]. apply Permutation_cons_append. }
    exists b'. cbn. split; [reflexivity|]. split; [exact Hsz|exact Hempty].
  - assert (Hin : forall q, In q (D ++ p :: m :: rest') -> In q pkts)
      by (intros q Hq; eapply Permutation_in; eassumption).
    apply NoDup_app in Hnd. destruct Hnd as (_ & Hdisj & Hnd2).
    apply NoDup_cons in Hnd2. destruct Hnd2 as [Hpm _].
    destruct (InsertPacket_reordered_waiting s pkts D m b p Hf Hlo Hhi)
      as (b1 & -> & Hsz1 & Hhold1); try assumption.
    + lia.
    + intros q Hq. apply Hin, in_or_app. now left.
    + apply Hin, in_or_app. right. now left.
    + intros Hq. apply (Hdisj p); [now apply list_elem_of_In|]. now left.
    + apply Hin, in_or_app. right. right. now left.
    + intros [E|Hq].
      * apply Hpm. subst m. now left.
      * apply (Hdisj m); [now apply list_elem_of_In|]. right. now left.
    + destruct (IH (p :: D) b1) as (b' & -> & Hsz & Hempty).
      * lia.
      * etransitivity; [|exact Hperm]. apply Permutation_middle.
      * discriminate.
      * exact Hhold1.
      * exists b'. cbn [Frames length]. split.
        { replace (S (S (length rest')) - 1)%nat with (S (length rest')) by lia.
          replace (S (length rest') - 1)%nat with (length rest') by lia.
          reflexivity. }
        split; [lia|exact Hempty].
Qed.

(** The packets of a frame may arrive in any order.  Insert the packets of
    one frame (consecutive sequence numbers, one timestamp, the first packet
    and no other flagged first, the last packet and no other flagged last,
    at most half as many packets as the buffer has slots) into an empty
    buffer in an arbitrary order: every call returns nothing until the
    last missing packet arrives, that call returns exactly the frame, its
    packets in sequence order and marked continuous, and the buffer is
    empty again. *)
Theorem reordered_frame_is_returned
        (b : VideoPacketBuffer) (s : Z) (pkts order : list BufferedPacket) :
  empty_buffer b -> in_order_frame s pkts ->
  int64_min + 2 ^ 17 <= s -> s + Z.of_nat (length pkts) <= int64_max - 2 ^ 17 ->
  2 * Z.of_nat (length pkts) <= size b ->
  Permutation order pkts ->
  fst (insertAll b order) = in_order_results pkts /\
  emitted b order = [map (setContinuous true) pkts] /\
  empty_buffer (snd (insertAll b order)).
Proof.
  intros [Hb Hnone] Hf Hlo Hhi Hlen Hperm.
  assert (Hne : order <> []).
  { intros ->. apply Permutation_nil in Hperm. destruct Hf as [Hf _]. congruence. }
  destruct (insertAll_reordered s pkts Hf Hlo Hhi order [] b Hlen Hperm Hne)
    as (b' & E & _ & Hempty).
  { split; [exact Hb|]. split.
    - intros q [].
    - intros i x Hx. rewrite Hnone in Hx. discriminate. }
  unfold emitted. rewrite E. cbn [fst snd].
  unfold in_order_results. rewrite (Permutation_length Hperm).
  split; [reflexivity|]. split; [|exact Hempty].
  rewrite concat_app. cbn [concat]. rewrite app_nil_r.
  assert (E0 : forall k, concat (replicate k ([] : list (list BufferedPacket))) = []).
  { intros k. induction k as [|k IHk]; [reflexivity|exact IHk]. }
  now rewrite E0.
Qed.

Lemma reordered_frame_is_returned_witness :
  (empty_buffer empty64 /\ in_order_frame 10 three_packets /\
   int64_min + 2 ^ 17 <= 10 /\
   10 + Z.of_nat (length three_packets) <= int64_max - 2 ^ 17 /\
   2 * Z.of_nat (length three_packets) <= size empty64 /\
   Permutation three_packets_reordered three_packets) /\
  fst (insertAll empty64 three_packets_reordered)
  = [[]; []; [map (setContinuous true) three_packets]] /\
  emitted empty64 three_packets_reordered
  = [map (setContinuous true) three_packets].
Proof.
  assert (H2 : in_order_frame 10 three_packets).
  { split; [discriminate|].
    intros [|[|[|i]]] p; cbn; intros [= <-];
      (split; [reflexivity|split; [reflexivity|split; [reflexivity|]]]);
      intros q [= <-]; reflexivity. }
  assert (H3 : int64_min + 2 ^ 17 <= 10) by (unfold int64_min; lia).
  assert (H4 : 10 + Z.of_nat (length three_packets) <= int64_max - 2 ^ 17)
    by (unfold int64_max; cbn; lia).
  assert (H5 : 2 * Z.of_nat (length three_packets) <= size empty64)
    by (cbn; lia).
  assert (H6 : Permutation three_packets_reordered three_packets).
  { exact (Permutation_cons_append
             [packet 10 100 true false; packet 11 100 false false]
             (packet 12 100 false true)). }
  split; [exact (conj empty64_empty (conj H2 (conj H3 (conj H4 (conj H5 H6)))))|].
  destruct (reordered_frame_is_returned empty64 10 three_packets
              three_packets_reordered empty64_empty H2 H3 H4 H5 H6)
    as (E1 & E2 & _).
  split; [exact E1|exact E2].
Defined.

End PacketBuffer.

(** ** Encoded frames and the frame assembler (video_frame_assembler.go) *)

(** [References [5]int64]: a fixed array of five entries. *)
Record References5 : Type := mkRefs {
  ref0 : Z; ref1 : Z; ref2 : Z; ref3 : Z; ref4 : Z
}.

Definition noRefs : References5 := mkRefs 0 0 0 0 0.

(** [refs[i]] for an index inside the array. *)
Definition getRef (i : nat) (r : References5) : Z :=
  match i with
  | 0%nat => ref0 r
  | 1%nat => ref1 r
  | 2%nat => ref2 r
  | 3%nat => ref3 r
  | _ => ref4 r
  end.

(** [refs[i] = x] for an index inside the array. *)
Definition setRef (i : nat) (x : Z) (r : References5) : References5 :=
  match i with
  | 0%nat => mkRefs x (ref1 r) (ref2 r) (ref3 r) (ref4 r)
  | 1%nat => mkRefs (ref0 r) x (ref2 r) (ref3 r) (ref4 r)
  | 2%nat => mkRefs (ref0 r) (ref1 r) x (ref3 r) (ref4 r)
  | 3%nat => mkRefs (ref0 r) (ref1 r) (ref2 r) x (ref4 r)
  | _ => mkRefs (ref0 r) (ref1 r) (ref2 r) (ref3 r) x
  end.

(** [EncodedFrame].  The fields [Timestamp] and [FrameType] are
    [frameTimestamp] and [frameType] here.

    Modelled from the spec: the fields [FirstSeqNumUnwrapped] and
    [LastSeqNumUnwrapped] (spec, data model: "first_seq_num_unwrapped,
    last_seq_num_unwrapped: i64"), which the sequence-number reference finder
    and its tests read and which the struct declaration at hand lacks. *)
Record EncodedFrame : Type := mkFrame {
  ID : Z;                        (* int64 *)
  FirstSeqNum : Z;               (* uint16 *)
  LastSeqNum : Z;                (* uint16 *)
  FirstSeqNumUnwrapped : Z;      (* int64 *)
  LastSeqNumUnwrapped : Z;       (* int64 *)
  frameTimestamp : Z;            (* uint32 *)
  frameType : FrameType;
  Data : list Byte.byte;
  Width : Z;
  Height : Z;
  NumReferences : Z;             (* int *)
  References : References5
}.

(** [frame.ID = id] *)
Definition setID (id : Z) (fr : EncodedFrame) : EncodedFrame :=
  mkFrame id (FirstSeqNum fr) (LastSeqNum fr) (FirstSeqNumUnwrapped fr)
          (LastSeqNumUnwrapped fr) (frameTimestamp fr) (frameType fr) (Data fr)
          (Width fr) (Height fr) (NumReferences fr) (References fr).

(** [frame.NumReferences = n] *)
Definition setNumReferences (n : Z) (fr : EncodedFrame) : EncodedFrame :=
  mkFrame (ID fr) (FirstSeqNum fr) (LastSeqNum fr) (FirstSeqNumUnwrapped fr)
          (LastSeqNumUnwrapped fr) (frameTimestamp fr) (frameType fr) (Data fr)
          (Width fr) (Height fr) n (References fr).

(** [frame.References[i] = x] *)
Definition setReference (i : nat) (x : Z) (fr : EncodedFrame) : EncodedFrame :=
  mkFrame (ID fr) (FirstSeqNum fr) (LastSeqNum fr) (FirstSeqNumUnwrapped fr)
          (LastSeqNumUnwrapped fr) (frameTimestamp fr) (frameType fr) (Data fr)
          (Width fr) (Height fr) (NumReferences fr) (setRef i x (References fr)).

Definition isKey (fr : EncodedFrame) : bool :=
  FrameType_eqb (frameType fr) FrameTypeKey.

(** The property of an emitted frame that the reference finders promise:
    a key frame has no reference; every reference of a delta frame is below
    the frame's own id. *)
Definition references_resolved (fr : EncodedFrame) : Prop :=
  (frameType fr = FrameTypeKey -> NumReferences fr = 0) /\
  (frameType fr = FrameTypeDelta ->
   forall i : nat, Z.of_nat i < NumReferences fr ->
                   getRef i (References fr) < ID fr).

Module Assembler.

Record VideoFrameAssembler : Type := mkAssembler {
  frameIDCounter : Z               (* atomic.Int64 *)
}.

Definition NewVideoFrameAssembler : VideoFrameAssembler := mkAssembler 0.

(** The loop [for _, pkt := range packets { data = append(data, pkt.Payload...) }] *)
Definition appendPayloads (packets : list BufferedPacket) : list Byte.byte :=
  fold_left (fun data pkt => data ++ Payload pkt) packets [].

(** [AssembleFrame]; [None] is the [nil] frame.  The fields the composite
    literal leaves out keep their zero values. *)
Definition AssembleFrame (a : VideoFrameAssembler) (packets : list BufferedPacket)
  : option EncodedFrame * VideoFrameAssembler :=
  match packets with
  | [] => (None, a)
  | firstPkt :: _ =>
    let data := appendPayloads packets in
    let lastPkt := List.last packets firstPkt in
    let counter := wrap64 (frameIDCounter a + 1) in
    let frameID := wrap64 (counter - 1) in
    let ftype :=
      match VideoHeader firstPkt with
      | Some h => hdrFrameType h
      | None => FrameTypeKey
      end in
    (Some (mkFrame frameID
                   (Z.land (SequenceNumber firstPkt) 65535)
                   (Z.land (SequenceNumber lastPkt) 65535)
                   0 0
                   (Timestamp firstPkt)
                   ftype
                   data
                   0 0 0 noRefs),
     mkAssembler counter)
  end.

(** The assembler called on one packet list after the other, as the
    receiver does for the frames of a stream: the frames it returns, the
    [nil] results left out, and the assembler afterwards. *)
Fixpoint assembleAll (a : VideoFrameAssembler) (ls : list (list BufferedPacket))
  : list EncodedFrame * VideoFrameAssembler :=
  match ls with
  | [] => ([], a)
  | packets :: rest =>
    let '(fr, a1) := AssembleFrame a packets in
    let '(frs, a2) := assembleAll a1 rest in
    (match fr with Some x => x :: frs | None => frs end, a2)
  end.

Lemma appendPayloads_from acc packets :
  fold_left (fun data pkt => data ++ Payload pkt) packets acc
  = acc ++ concat (map Payload packets).
Proof.
  revert acc. induction packets as [|p ps IH]; intros acc; cbn.
  - now rewrite app_nil_r.
  - rewrite IH. now rewrite <- app_assoc.
Qed.

Lemma appendPayloads_concat packets :
  appendPayloads packets = concat (map Payload packets).
Proof. unfold appendPayloads. now rewrite appendPayloads_from. Qed.

Lemma wrap64_succ_pred c : in_int64 c -> wrap64 (wrap64 (c + 1) - 1) = c.
Proof.
  unfold in_int64, int64_min, int64_max. intros Hc.
  destruct (Z.eq_dec c (2 ^ 63 - 1)) as [->|Hne].
  - vm_compute. reflexivity.
  - rewrite (wrap64_id (c + 1)) by (unfold in_int64, int64_min, int64_max; lia).
    replace (c + 1 - 1) with c by lia.
    apply wrap64_id. unfold in_int64, int64_min, int64_max. lia.
Qed.

(** C8: for a non-empty packet list the frame's data is the concatenation of
    the payloads in list order; timestamp and frame type come from the first
    packet (the type from its video header; a first packet without a header
    leaves Go's zero value, the key-frame type); the 16-bit first and last
    sequence numbers come from the first and the last packet; the id is the
    counter's value, and the counter moves on by one.  For the empty (or nil)
    list the result is nil and the counter does not move. *)
Theorem AssembleFrame_spec (a : VideoFrameAssembler)
        (firstPkt : BufferedPacket) (rest : list BufferedPacket) :
  0 <= frameIDCounter a < int64_max ->
  AssembleFrame a [] = (None, a) /\
  exists fr,
    AssembleFrame a (firstPkt :: rest)
    = (Some fr, mkAssembler (frameIDCounter a + 1)) /\
    Data fr = concat (map Payload (firstPkt :: rest)) /\
    frameTimestamp fr = Timestamp firstPkt /\
    frameType fr = match VideoHeader firstPkt with
                   | Some h => hdrFrameType h
                   | None => FrameTypeKey
                   end /\
    FirstSeqNum fr = SequenceNumber firstPkt mod 2 ^ 16 /\
    LastSeqNum fr
    = SequenceNumber (List.last (firstPkt :: rest) firstPkt) mod 2 ^ 16 /\
    ID fr = frameIDCounter a /\
    NumReferences fr = 0.
Proof.
  intros Hc. split; [reflexivity|].
  unfold AssembleFrame.
  assert (Hin : in_int64 (frameIDCounter a))
    by (unfold in_int64, int64_min, int64_max in *; lia).
  assert (Hs : wrap64 (frameIDCounter a + 1) = frameIDCounter a + 1)
    by (apply wrap64_id; unfold in_int64, int64_min, int64_max in *; lia).
  eexists. split.
  - rewrite wrap64_succ_pred by exact Hin. rewrite Hs. reflexivity.
  - cbn [Data frameTimestamp frameType FirstSeqNum LastSeqNum ID NumReferences].
    rewrite appendPayloads_concat, !SeqUnwrapper.land_low16.
    repeat split; reflexivity.
Qed.

Lemma AssembleFrame_spec_witness :
  0 <= frameIDCounter NewVideoFrameAssembler < int64_max /\
  exists fr,
    AssembleFrame NewVideoFrameAssembler
                  [PacketBuffer.packet 65535 90000 true false;
                   PacketBuffer.packet 65536 90000 false true]
    = (Some fr, mkAssembler 1) /\
    ID fr = 0 /\ FirstSeqNum fr = 65535 /\ LastSeqNum fr = 0.
Proof.
  assert (H : 0 <= frameIDCounter NewVideoFrameAssembler < int64_max).
  { unfold int64_max. cbn. lia. }
  split; [exact H|].
  destruct (proj2 (AssembleFrame_spec NewVideoFrameAssembler
                     (PacketBuffer.packet 65535 90000 true false)
                     [PacketBuffer.packet 65536 90000 false true] H))
    as (fr & E & _ & _ & _ & Hf & Hl & Hi & _).
  exists fr. repeat split; assumption.
Defined.

(** *** The frame type of an assembled frame *)

(** For a frame whose first packet is built by the receiver from a parsed
    VP8 packet: when the descriptor marks the packet as the start of the
    frame ([S = 1] and [PID = 0]) the frame's type is read off the first
    payload byte, key for an even byte and delta for an odd byte or an empty
    payload, and for a non-empty payload that byte is the first byte of the
    frame's data; when the descriptor does not mark the start of a frame the
    type is left at Go's zero value, the key-frame type. *)
Theorem assembled_frame_type_from_payload (a : VideoFrameAssembler)
        (seq ts : Z) (marker : bool) (vp8 : RtpHeader.VP8Packet.t)
        (rest : list BufferedPacket) :
  exists fr a',
    AssembleFrame a (RtpHeader.bufferedPacketOf seq ts marker vp8 :: rest)
    = (Some fr, a') /\
    frameType fr
    = (if (RtpHeader.VP8Packet.S vp8 =? 1) && (RtpHeader.VP8Packet.PID vp8 =? 0)
       then RtpHeader.DetectVP8FrameType (RtpHeader.VP8Packet.Payload vp8)
       else FrameTypeKey) /\
    (RtpHeader.VP8Packet.S vp8 = 1 -> RtpHeader.VP8Packet.PID vp8 = 0 ->
     (RtpHeader.VP8Packet.Payload vp8 = [] -> frameType fr = FrameTypeDelta) /\
     (RtpHeader.VP8Packet.Payload vp8 <> [] ->
      frameType fr = RtpHeader.DetectVP8FrameType (Data fr))).
Proof.
  unfold AssembleFrame, RtpHeader.bufferedPacketOf.
  eexists _, _. split; [reflexivity|].
  cbn [frameType Data VideoHeader hdrFrameType
       RtpHeader.NewRTPVideoHeaderFromVP8].
  split; [reflexivity|].
  intros HS HP. rewrite HS, HP. cbn [Z.eqb Pos.eqb andb]. split.
  - now intros ->.
  - intros Hne. rewrite appendPayloads_concat. cbn [map concat Payload].
    destruct (RtpHeader.VP8Packet.Payload vp8) as [|b bs]; [congruence|].
    reflexivity.
Qed.

(** *** Frame ids over a run of calls *)

Lemma assembleAll_ids ls a :
  0 <= frameIDCounter a ->
  frameIDCounter a + Z.of_nat (length ls) < int64_max ->
  map ID (fst (assembleAll a ls))
  = seqZ (frameIDCounter a) (Z.of_nat (length (fst (assembleAll a ls)))) /\
  frameIDCounter (snd (assembleAll a ls))
  = frameIDCounter a + Z.of_nat (length (fst (assembleAll a ls))) /\
  length (fst (assembleAll a ls))
  = length (List.filter (fun l => negb (Nat.eqb (length l) 0)) ls).
Proof.
  revert a. induction ls as [|packets rest IH]; intros a H0 Hmax.
  - cbn. split; [reflexivity|]. split; [lia|reflexivity].
  - cbn [assembleAll length] in *.
    destruct packets as [|firstPkt more].
    + cbn [AssembleFrame List.filter length Nat.eqb negb].
      destruct (IH a H0 ltac:(lia)) as (I1 & I2 & I3).
      destruct (assembleAll a rest) as [frs a2]. cbn [fst snd] in *.
      now repeat split.
    + unfold AssembleFrame.
      assert (Hin : in_int64 (frameIDCounter a))
        by (unfold in_int64, int64_min, int64_max in *; lia).
      assert (Hs : wrap64 (frameIDCounter a + 1) = frameIDCounter a + 1)
        by (apply wrap64_id; unfold in_int64, int64_min, int64_max in *; lia).
      rewrite wrap64_succ_pred by exact Hin. rewrite Hs.
      destruct (IH (mkAssembler (frameIDCounter a + 1))) as (I1 & I2 & I3);
        [cbn; lia|cbn; lia|].
      destruct (assembleAll (mkAssembler (frameIDCounter a + 1)) rest)
        as [frs a2].
      cbn [fst snd frameIDCounter map ID length List.filter Nat.eqb negb] in *.
      split; [|split; [lia|now rewrite I3]].
      rewrite (seqZ_cons (frameIDCounter a)) by lia.
      rewrite I1. f_equal. f_equal; lia.
Qed.

(** Over a run of calls the assembler numbers the frames it returns
    consecutively from its counter: an empty packet list gives no frame and
    uses up no id, so the ids have no gap and no repetition, and there is one
    frame for each non-empty list. *)
Theorem assembled_ids_consecutive (ls : list (list BufferedPacket)) :
  Z.of_nat (length ls) < int64_max ->
  map ID (fst (assembleAll NewVideoFrameAssembler ls))
  = seqZ 0 (Z.of_nat (length (fst (assembleAll NewVideoFrameAssembler ls)))) /\
  length (fst (assembleAll NewVideoFrameAssembler ls))
  = length (List.filter (fun l => negb (Nat.eqb (length l) 0)) ls).
Proof.
  intros Hlen.
  destruct (assembleAll_ids ls NewVideoFrameAssembler) as (H1 & _ & H3);
    [cbn; lia|cbn; lia|].
  split; [exact H1|exact H3].
Qed.

Lemma assembled_ids_consecutive_witness :
  Z.of_nat (length [[PacketBuffer.packet 1 10 true true]; [];
                    [PacketBuffer.packet 2 20 true true]]) < int64_max /\
  map ID (fst (assembleAll NewVideoFrameAssembler
                           [[PacketBuffer.packet 1 10 true true]; [];
                            [PacketBuffer.packet 2 20 true true]]))
  = [0; 1].
Proof.
  assert (H : Z.of_nat (length [[PacketBuffer.packet 1 10 true true]; [];
                                [PacketBuffer.packet 2 20 true true]])
              < int64_max) by (unfold int64_max; cbn; lia).
  split; [exact H|].
  exact (proj1 (assembled_ids_consecutive _ H)).
Defined.

End Assembler.

(** ** The FrameIdOnly reference finder (frame_id_only_ref_finder.go) *)

Module FrameIdOnly.

Record pictureIDUnwrapper : Type := mkPidUnwrapper {
  lastUnwrapped : Z;
  initialized : bool
}.

Definition pictureIDModulus : Z := 2 ^ 15.

(** [Unwrap]; the argument is an [int32]. *)
Definition Unwrap (u : pictureIDUnwrapper) (pictureID : Z)
  : Z * pictureIDUnwrapper :=
  if pictureID <? 0 then (-1, u)
  else
    let pid := Z.land pictureID (pictureIDModulus - 1) in
    if negb (initialized u) then (pid, mkPidUnwrapper pid true)
    else
      let lastWrapped := Z.land (lastUnwrapped u) (pictureIDModulus - 1) in
      let diff := pid - lastWrapped in
      let diff :=
        if diff >? pictureIDModulus / 2 then diff - pictureIDModulus
        else if diff <? - pictureIDModulus / 2 then diff + pictureIDModulus
        else diff in
      let last := wrap64 (lastUnwrapped u + diff) in
      (last, mkPidUnwrapper last true).

Record FrameIdOnlyRefFinder : Type := mkFinder {
  unwrapper : pictureIDUnwrapper
}.

Definition NewFrameIdOnlyRefFinder : FrameIdOnlyRefFinder :=
  mkFinder (mkPidUnwrapper 0 false).

(** [ManageFrame]; the empty list is the [nil] result. *)
Definition ManageFrame (f : FrameIdOnlyRefFinder)
           (frame : option EncodedFrame) (header : option RTPVideoHeader)
  : list EncodedFrame * FrameIdOnlyRefFinder :=
  match frame, header with
  | Some frame, Some header =>
    if PictureID header =? NoPictureID then ([frame], f)
    else
      let '(unwrappedPID, u) := Unwrap (unwrapper f) (PictureID header) in
      if unwrappedPID <? 0 then ([], mkFinder u)
      else
        let frame := setID unwrappedPID frame in
        let frame :=
          if isKey frame then setNumReferences 0 frame
          else setReference 0 (wrap64 (ID frame - 1)) (setNumReferences 1 frame) in
        ([frame], mkFinder u)
  | _, _ => ([], f)
  end.

(** [ClearTo] does nothing. *)
Definition ClearTo (f : FrameIdOnlyRefFinder) (pictureID : Z)
  : FrameIdOnlyRefFinder := f.

(** A stream of frames through one finder: what each call emits. *)
Fixpoint manageAll (f : FrameIdOnlyRefFinder)
         (inputs : list (EncodedFrame * RTPVideoHeader))
  : list (list EncodedFrame) :=
  match inputs with
  | [] => []
  | (fr, h) :: rest =>
    let '(out, f') := ManageFrame f (Some fr) (Some h) in
    out :: manageAll f' rest
  end.

(** Two picture numbers less than a quarter of the 15-bit range apart. *)
Definition near (a b : Z) : Prop := Z.abs (b - a) < 2 ^ 14.

(** What the finder makes of the frame [fr] when it gives it the id [n]. *)
Definition emitted_as (n : Z) (fr fr' : EncodedFrame) : Prop :=
  ID fr' = n /\ frameType fr' = frameType fr /\ Data fr' = Data fr /\
  frameTimestamp fr' = frameTimestamp fr /\
  (frameType fr = FrameTypeKey -> NumReferences fr' = 0) /\
  (frameType fr = FrameTypeDelta ->
   NumReferences fr' = 1 /\ getRef 0 (References fr') = n - 1).

(** A stream of frames, each with its header and its true (unbounded)
    picture number. *)
Definition pid_stream_inputs (stream : list (EncodedFrame * RTPVideoHeader * Z))
  : list (EncodedFrame * RTPVideoHeader) :=
  map fst stream.

(** A key frame with picture id 32767 followed by a delta frame with
    picture id 0: the 15-bit id wraps between them. *)
Definition wrapping_first : EncodedFrame * RTPVideoHeader * Z :=
  (mkFrame 0 0 0 0 0 0 FrameTypeKey [] 0 0 0 noRefs,
   mkHeader FrameTypeKey true true 32767 (-1) (-1), 32767).

Definition wrapping_rest : list (EncodedFrame * RTPVideoHeader * Z) :=
  [(mkFrame 0 0 0 0 0 0 FrameTypeDelta [] 0 0 0 noRefs,
    mkHeader FrameTypeDelta true true 0 (-1) (-1), 32768)].

Lemma Unwrap_in_int64 u x : in_int64 (fst (Unwrap u x)).
Proof.
  unfold Unwrap. destruct (x <? 0).
  - cbn. unfold in_int64, int64_min, int64_max. lia.
  - assert (Hl : in_int64 (Z.land x (pictureIDModulus - 1))).
    { change (pictureIDModulus - 1) with (Z.ones 15).
      rewrite Z.land_ones by lia.
      pose proof (Z.mod_pos_bound x (2 ^ 15) ltac:(lia)).
      unfold in_int64, int64_min, int64_max. lia. }
    destruct (negb (initialized u)); cbn [fst]; [exact Hl|apply wrap64_range].
Qed.

(** A frame fresh from the assembler (no reference yet) comes out of
    [ManageFrame] with resolved references. *)
Lemma FrameIdOnly_ManageFrame_resolved f fr h :
  NumReferences fr = 0 ->
  Forall references_resolved (fst (ManageFrame f (Some fr) (Some h))).
Proof.
  intros Hn. unfold ManageFrame.
  destruct (PictureID h =? NoPictureID).
  - cbn. constructor; [|constructor]. split; [now intros _|].
    intros _ i Hi. lia.
  - pose proof (Unwrap_in_int64 (unwrapper f) (PictureID h)) as Hp.
    destruct (Unwrap (unwrapper f) (PictureID h)) as [pid u]. cbn [fst] in Hp.
    destruct (Z.ltb_spec pid 0) as [|Hpid]; [constructor|].
    cbn [fst]. constructor; [|constructor].
    unfold isKey. cbn [setID frameType].
    destruct (frameType fr) eqn:Et; cbn [FrameType_eqb].
    + split; [reflexivity|]. cbn. rewrite Et. discriminate.
    + split; [cbn; rewrite Et; discriminate|].
      intros _ i Hi. cbn in Hi. assert (i = 0%nat) as -> by lia. cbn.
      unfold in_int64, int64_min, int64_max in Hp.
      rewrite wrap64_id; [lia|].
      unfold in_int64, int64_min, int64_max. lia.
Qed.

Lemma FrameIdOnly_manageAll_resolved inputs f :
  Forall (fun x => NumReferences (fst x) = 0) inputs ->
  Forall (Forall references_resolved) (manageAll f inputs).
Proof.
  revert f. induction inputs as [|[fr h] rest IH]; intros f Hin;
    cbn [manageAll].
  - constructor.
  - inversion Hin as [|? ? H1 H2]; subst. cbn [fst] in H1.
    pose proof (FrameIdOnly_ManageFrame_resolved f fr h H1) as Hr.
    destruct (ManageFrame f (Some fr) (Some h)) as [out f'].
    constructor; [exact Hr|]. now apply IH.
Qed.

(** *** Further properties of the picture-id unwrapper and its finder *)

Lemma land_low15 z : Z.land z (pictureIDModulus - 1) = z mod 2 ^ 15.
Proof. change (pictureIDModulus - 1) with (Z.ones 15). apply Z.land_ones. lia. Qed.

(** One step of the unwrapper from an initialised state. *)
Lemma Unwrap_step last pid :
  int64_min + 2 ^ 15 <= last <= int64_max - 2 ^ 15 -> 0 <= pid ->
  exists d,
    Unwrap (mkPidUnwrapper last true) pid
    = (last + d, mkPidUnwrapper (last + d) true) /\
    - 2 ^ 14 <= d <= 2 ^ 14 /\
    (last + d) mod 2 ^ 15 = pid mod 2 ^ 15 /\
    (d = pid mod 2 ^ 15 - last mod 2 ^ 15 \/
     d = pid mod 2 ^ 15 - last mod 2 ^ 15 - 2 ^ 15 \/
     d = pid mod 2 ^ 15 - last mod 2 ^ 15 + 2 ^ 15).
Proof.
  intros Hl Hp. unfold Unwrap. rewrite (proj2 (Z.ltb_ge _ _) Hp).
  cbn [initialized lastUnwrapped negb]. rewrite !land_low15.
  unfold int64_min, int64_max in Hl.
  pose proof (Z.mod_pos_bound last (2 ^ 15) ltac:(lia)) as Hm.
  pose proof (Z.mod_pos_bound pid (2 ^ 15) ltac:(lia)) as Hpm.
  pose proof (Z.div_mod last (2 ^ 15) ltac:(lia)) as Hq.
  set (m := last mod 2 ^ 15) in *. set (q := last / 2 ^ 15) in *.
  set (p := pid mod 2 ^ 15) in *.
  change (pictureIDModulus / 2) with 16384.
  change (- pictureIDModulus / 2) with (-16384).
  change pictureIDModulus with 32768.
  change (2 ^ 15) with 32768 in *. change (2 ^ 14) with 16384 in *.
  assert (Hd : exists k, -1 <= k <= 1 /\
             (if p - m >? 16384 then p - m - 32768
              else if p - m <? -16384 then p - m + 32768 else p - m)
             = p - m + 32768 * k /\
             -16384 <= p - m + 32768 * k <= 16384).
  { destruct (Z.gtb_spec (p - m) 16384); [exists (-1); lia|].
    destruct (Z.ltb_spec (p - m) (-16384)); [exists 1; lia|exists 0; lia]. }
  destruct Hd as (k & Hk & -> & Hb).
  exists (p - m + 32768 * k).
  rewrite wrap64_id by (unfold in_int64, int64_min, int64_max; lia).
  split; [reflexivity|]. split; [lia|]. split.
  - symmetry. apply (Z.mod_unique_pos _ _ (q + k)); lia.
  - assert (Hk' : k = 0 \/ k = -1 \/ k = 1) by lia.
    destruct Hk' as [E|[E|E]]; subst k; lia.
Qed.

(** The unwrapper answers -1 to a negative picture id and leaves its state
    alone.  For any other id the value it returns is congruent to the id
    modulo 2^15 and becomes the new state; the first value is the id's low
    15 bits, and every later value lies within 2^14 of the previous one:
    it is the nearest number with these low bits. *)
Theorem picture_id_unwrap_nearest (u : pictureIDUnwrapper) (pid : Z) :
  (initialized u = true ->
   int64_min + 2 ^ 15 <= lastUnwrapped u <= int64_max - 2 ^ 15) ->
  (pid < 0 -> Unwrap u pid = (-1, u)) /\
  (0 <= pid ->
   fst (Unwrap u pid) mod 2 ^ 15 = pid mod 2 ^ 15 /\
   snd (Unwrap u pid) = mkPidUnwrapper (fst (Unwrap u pid)) true /\
   (initialized u = false -> fst (Unwrap u pid) = pid mod 2 ^ 15) /\
   (initialized u = true ->
    - 2 ^ 14 <= fst (Unwrap u pid) - lastUnwrapped u <= 2 ^ 14)).
Proof.
  intros Hh. split.
  - intros Hneg. unfold Unwrap. now rewrite (proj2 (Z.ltb_lt _ _) Hneg).
  - intros Hp. destruct u as [last [|]]; cbn [initialized lastUnwrapped] in *.
    + destruct (Unwrap_step last pid (Hh eq_refl) Hp) as (d & -> & Hd & Hm & _).
      cbn [fst snd]. split; [exact Hm|]. split; [reflexivity|].
      split; [discriminate|]. intros _. lia.
    + unfold Unwrap. rewrite (proj2 (Z.ltb_ge _ _) Hp).
      cbn [initialized negb fst snd]. rewrite land_low15.
      split; [apply Z.mod_mod; lia|]. split; [reflexivity|].
      split; [reflexivity|discriminate].
Qed.

Lemma picture_id_unwrap_nearest_witness :
  (initialized (mkPidUnwrapper 32767 true) = true ->
   int64_min + 2 ^ 15 <= lastUnwrapped (mkPidUnwrapper 32767 true)
   <= int64_max - 2 ^ 15) /\
  (0 <= 1 -> fst (Unwrap (mkPidUnwrapper 32767 true) 1) mod 2 ^ 15 = 1 mod 2 ^ 15) /\
  fst (Unwrap (mkPidUnwrapper 32767 true) 1) = 32769.
Proof.
  assert (H : initialized (mkPidUnwrapper 32767 true) = true ->
              int64_min + 2 ^ 15 <= lastUnwrapped (mkPidUnwrapper 32767 true)
              <= int64_max - 2 ^ 15).
  { intros _. unfold int64_min, int64_max. cbn [lastUnwrapped]. lia. }
  split; [exact H|]. split; [|reflexivity].
  intros Hp.
  exact (proj1 (proj2 (picture_id_unwrap_nearest (mkPidUnwrapper 32767 true) 1 H) Hp)).
Defined.

(** One step of the unwrapper on a stream of true picture numbers. *)
Lemma Unwrap_tracks n_prev n :
  0 <= n_prev < int64_max - 2 ^ 15 -> 0 <= n < int64_max - 2 ^ 15 ->
  near n_prev n ->
  Unwrap (mkPidUnwrapper n_prev true) (n mod 2 ^ 15)
  = (n, mkPidUnwrapper n true).
Proof.
  intros Hprev Hn Hnear. unfold near in Hnear.
  pose proof (Z.mod_pos_bound n (2 ^ 15) ltac:(lia)) as Hm.
  assert (Hl : int64_min + 2 ^ 15 <= n_prev <= int64_max - 2 ^ 15)
    by (unfold int64_min, int64_max in *; lia).
  destruct (Unwrap_step n_prev (n mod 2 ^ 15) Hl ltac:(lia))
    as (d & E & Hd & Hmod & _).
  assert (Hnd : n_prev + d = n).
  { rewrite Z.mod_mod in Hmod by lia.
    assert (Hz : (n_prev + d - n) mod 2 ^ 15 = 0).
    { rewrite Zminus_mod, Hmod, Z.sub_diag. apply Z.mod_0_l. lia. }
    apply Z.mod_divide in Hz; [|lia]. destruct Hz as [k Hk].
    change (2 ^ 15) with 32768 in *. change (2 ^ 14) with 16384 in *. lia. }
  now rewrite Hnd in E.
Qed.

(** One call of the finder on a stream that is being tracked. *)
Lemma ManageFrame_tracks n_prev n fr h :
  0 <= n_prev < int64_max - 2 ^ 15 -> 0 <= n < int64_max - 2 ^ 15 ->
  near n_prev n -> PictureID h = n mod 2 ^ 15 ->
  exists fr',
    ManageFrame (mkFinder (mkPidUnwrapper n_prev true)) (Some fr) (Some h)
    = ([fr'], mkFinder (mkPidUnwrapper n true)) /\
    emitted_as n fr fr'.
Proof.
  intros Hprev Hn Hnear Hpid. unfold near in Hnear.
  pose proof (Z.mod_pos_bound n (2 ^ 15) ltac:(lia)) as Hm.
  assert (Hl : int64_min + 2 ^ 15 <= n_prev <= int64_max - 2 ^ 15)
    by (unfold int64_min, int64_max in *; lia).
  destruct (Unwrap_step n_prev (PictureID h) Hl ltac:(lia))
    as (d & E & Hd & Hmod & _).
  assert (Hnd : n_prev + d = n).
  { rewrite Hpid, Z.mod_mod in Hmod by lia.
    assert (Hz : (n_prev + d - n) mod 2 ^ 15 = 0).
    { rewrite Zminus_mod, Hmod, Z.sub_diag. apply Z.mod_0_l. lia. }
    apply Z.mod_divide in Hz; [|lia]. destruct Hz as [k Hk].
    change (2 ^ 15) with 32768 in *. change (2 ^ 14) with 16384 in *. lia. }
  rewrite Hnd in E. unfold ManageFrame.
  assert (Hno : (PictureID h =? NoPictureID) = false).
  { apply Z.eqb_neq. unfold NoPictureID. lia. }
  rewrite Hno. cbn [unwrapper]. rewrite E.
  rewrite (proj2 (Z.ltb_ge _ _) (proj1 Hn)).
  eexists. split; [reflexivity|].
  unfold isKey. cbn [setID frameType].
  assert (Hw : wrap64 (n - 1) = n - 1).
  { apply wrap64_id. unfold in_int64, int64_min, int64_max in *. lia. }
  destruct (frameType fr) eqn:Et; cbn [FrameType_eqb].
  - repeat split; try reflexivity; try (cbn; congruence); try (intros [=]).
  - repeat split; try reflexivity; try (cbn; congruence); try (intros [=]).
Qed.

Lemma manageAll_tracks n_prev (stream : list (EncodedFrame * RTPVideoHeader * Z)) :
  0 <= n_prev < int64_max - 2 ^ 15 ->
  SeqUnwrapper.chain near n_prev (map snd stream) ->
  Forall (fun x => 0 <= snd x < int64_max - 2 ^ 15 /\
                   PictureID (snd (fst x)) = snd x mod 2 ^ 15) stream ->
  Forall2 (fun x out => exists fr', out = [fr'] /\
                                    emitted_as (snd x) (fst (fst x)) fr')
          stream
          (manageAll (mkFinder (mkPidUnwrapper n_prev true))
                     (pid_stream_inputs stream)).
Proof.
  revert n_prev. induction stream as [|[[fr h] n] rest IH];
    intros n_prev Hprev Hc Hall; cbn [pid_stream_inputs map manageAll fst].
  - constructor.
  - destruct Hc as [Hnear Hc]. inversion Hall as [|? ? [Hn Hp] Hrest]; subst.
    cbn [fst snd] in *.
    destruct (ManageFrame_tracks n_prev n fr h Hprev Hn Hnear Hp)
      as (fr' & -> & Hem).
    constructor; [now exists fr'|]. now apply IH.
Qed.

(** The first call of a new finder, on a picture number inside [0, 2^15). *)
Lemma ManageFrame_first n fr h :
  0 <= n < 2 ^ 15 -> PictureID h = n mod 2 ^ 15 ->
  exists fr',
    ManageFrame NewFrameIdOnlyRefFinder (Some fr) (Some h)
    = ([fr'], mkFinder (mkPidUnwrapper n true)) /\
    emitted_as n fr fr'.
Proof.
  intros Hn Hp. unfold ManageFrame, NewFrameIdOnlyRefFinder.
  assert (Hno : (PictureID h =? NoPictureID) = false).
  { apply Z.eqb_neq. unfold NoPictureID. rewrite Hp, Z.mod_small; lia. }
  rewrite Hno. cbn [unwrapper]. unfold Unwrap.
  rewrite Hp, Z.mod_small by lia.
  rewrite (proj2 (Z.ltb_ge _ _) (proj1 Hn)).
  cbn [initialized negb]. rewrite land_low15, Z.mod_small by lia.
  rewrite (proj2 (Z.ltb_ge _ _) (proj1 Hn)).
  eexists. split; [reflexivity|].
  unfold isKey. cbn [setID frameType].
  assert (Hw : wrap64 (n - 1) = n - 1).
  { apply wrap64_id. unfold in_int64, int64_min, int64_max in *. lia. }
  destruct (frameType fr) eqn:Et; cbn [FrameType_eqb].
  - repeat split; try reflexivity; try (cbn; congruence); try (intros [=]).
  - repeat split; try reflexivity; try (cbn; congruence); try (intros [=]).
Qed.

(** On a stream whose true picture numbers start inside [0, 2^15), never
    go negative and move by less than 2^14 from one frame to the next, the
    finder gives every frame its true picture number as id, however often the
    15-bit picture id wraps: each call returns exactly one frame, a key frame
    without reference and a delta frame with the one reference [id - 1];
    type, data and timestamp are untouched. *)
Theorem FrameIdOnly_tracks_picture_numbers
        (first : EncodedFrame * RTPVideoHeader * Z)
        (rest : list (EncodedFrame * RTPVideoHeader * Z)) :
  0 <= snd first < 2 ^ 15 ->
  SeqUnwrapper.chain near (snd first) (map snd rest) ->
  Forall (fun x => 0 <= snd x < int64_max - 2 ^ 15 /\
                   PictureID (snd (fst x)) = snd x mod 2 ^ 15)
         (first :: rest) ->
  Forall2 (fun x out => exists fr', out = [fr'] /\
                                    emitted_as (snd x) (fst (fst x)) fr')
          (first :: rest)
          (manageAll NewFrameIdOnlyRefFinder (pid_stream_inputs (first :: rest))).
Proof.
  destruct first as [[fr h] n]. cbn [fst snd]. intros Hn Hc Hall.
  inversion Hall as [|? ? [Hn' Hp] Hrest]; subst. cbn [fst snd] in *.
  cbn [pid_stream_inputs map manageAll fst].
  destruct (ManageFrame_first n fr h Hn Hp) as (fr' & E & Hem). rewrite E.
  constructor; [now exists fr'|].
  apply manageAll_tracks; assumption.
Qed.

Lemma FrameIdOnly_tracks_picture_numbers_witness :
  (0 <= snd wrapping_first < 2 ^ 15 /\
   SeqUnwrapper.chain near (snd wrapping_first) (map snd wrapping_rest) /\
   Forall (fun x => 0 <= snd x < int64_max - 2 ^ 15 /\
                    PictureID (snd (fst x)) = snd x mod 2 ^ 15)
          (wrapping_first :: wrapping_rest)) /\
  Forall2 (fun x out => exists fr', out = [fr'] /\
                                    emitted_as (snd x) (fst (fst x)) fr')
          (wrapping_first :: wrapping_rest)
          (manageAll NewFrameIdOnlyRefFinder
                     (pid_stream_inputs (wrapping_first :: wrapping_rest))).
Proof.
  assert (H1 : 0 <= snd wrapping_first < 2 ^ 15) by (cbn; lia).
  assert (H2 : SeqUnwrapper.chain near (snd wrapping_first)
                                  (map snd wrapping_rest)).
  { cbn. unfold near. split; [lia|exact I]. }
  assert (H3 : Forall (fun x => 0 <= snd x < int64_max - 2 ^ 15 /\
                               PictureID (snd (fst x)) = snd x mod 2 ^ 15)
                      (wrapping_first :: wrapping_rest)).
  { unfold int64_max.
    repeat constructor; cbn [snd wrapping_first]; try lia; reflexivity. }
  split; [exact (conj H1 (conj H2 H3))|].
  exact (FrameIdOnly_tracks_picture_numbers wrapping_first wrapping_rest H1 H2 H3).
Defined.

End FrameIdOnly.

(** ** The SeqNumOnly reference finder (seq_num_only_ref_finder.go) *)

Module SeqNumOnly.

(** [maxStashedFrames] (ref_finder.go) *)
Definition maxStashedFrames : nat := 100.

Record stashedSeqNumFrame : Type := mkStashed {
  stashedFrame : EncodedFrame;               (* frame *)
  stashedHeader : option RTPVideoHeader      (* header *)
}.

Record SeqNumOnlyRefFinder : Type := mkFinder {
  lastSeqNumGOP : Z;
  lastFrameFirstSeqNum : Z;
  lastFrameLastSeqNum : Z;
  gotInitialFrame : bool;
  stashedFrames : list stashedSeqNumFrame
}.

Definition NewSeqNumOnlyRefFinder : SeqNumOnlyRefFinder :=
  mkFinder (-1) (-1) (-1) false [].

Definition setStashedFrames (l : list stashedSeqNumFrame)
           (f : SeqNumOnlyRefFinder) : SeqNumOnlyRefFinder :=
  mkFinder (lastSeqNumGOP f) (lastFrameFirstSeqNum f) (lastFrameLastSeqNum f)
           (gotInitialFrame f) l.

(** The inner [for i := 0; i < len(f.stashedFrames); i++] of
    [tryResolveStashedFrames], up to its [break]: the first stashed frame
    whose first sequence number is the expected one, with the entries before
    and after it. *)
Fixpoint findContinuous (expected : Z) (l : list stashedSeqNumFrame)
  : option (list stashedSeqNumFrame * stashedSeqNumFrame
            * list stashedSeqNumFrame) :=
  match l with
  | [] => None
  | s :: rest =>
    if FirstSeqNumUnwrapped (stashedFrame s) =? expected then Some ([], s, rest)
    else
      match findContinuous expected rest with
      | Some (pre, x, post) => Some (s :: pre, x, post)
      | None => None
      end
  end.

(** The outer [for] of [tryResolveStashedFrames]: every round that resolves
    a frame removes it from the stash, so [length stashedFrames] rounds are
    enough; [fuel] makes that bound structural. *)
Fixpoint resolveLoop (fuel : nat) (f : SeqNumOnlyRefFinder)
  : list EncodedFrame * SeqNumOnlyRefFinder :=
  match findContinuous (wrap64 (lastFrameLastSeqNum f + 1)) (stashedFrames f) with
  | None => ([], f)
  | Some (pre, stashed, post) =>
    match fuel with
    | O => ([], f)
    | S fuel =>
      let frame := stashedFrame stashed in
      let frame := setID (FirstSeqNumUnwrapped frame) frame in
      let frame := setNumReferences 1 frame in
      let frame := setReference 0 (lastFrameFirstSeqNum f) frame in
      let f := mkFinder (lastSeqNumGOP f)
                        (FirstSeqNumUnwrapped frame)
                        (LastSeqNumUnwrapped frame)
                        (gotInitialFrame f)
                        (pre ++ post) in
      let '(result, f) := resolveLoop fuel f in
      (frame :: result, f)
    end
  end.

Definition tryResolveStashedFrames (f : SeqNumOnlyRefFinder)
  : list EncodedFrame * SeqNumOnlyRefFinder :=
  resolveLoop (length (stashedFrames f)) f.

Definition clearStashedFramesBefore (f : SeqNumOnlyRefFinder) (seqNum : Z)
  : SeqNumOnlyRefFinder :=
  setStashedFrames
    (List.filter (fun s => FirstSeqNumUnwrapped (stashedFrame s) >=? seqNum)
                 (stashedFrames f))
    f.

Definition ClearTo (f : SeqNumOnlyRefFinder) (seqNum : Z) : SeqNumOnlyRefFinder :=
  clearStashedFramesBefore f seqNum.

(** A concrete [sort.Slice] to run the finder with: stdpp's merge sort on
    "not greater". *)
Definition mergeSortSlice (A : Type) (less : A -> A -> bool) (l : list A)
  : list A :=
  merge_sort (fun a b => Is_true (negb (less b a))) l.

(** A frame with the given unwrapped first and last sequence numbers. *)
Definition frame_of (first last : Z) (t : FrameType) : EncodedFrame :=
  mkFrame 0 (Z.land first 65535) (Z.land last 65535) first last 0 t [] 0 0 0
          noRefs.

(** The frame [b] can be decoded after [prev]: its id is its first sequence
    number, and it is a key frame without reference, or a delta frame whose
    one reference is the id of the frame emitted just before it and whose
    packets follow that frame's packets. *)
Definition link (prev : option EncodedFrame) (b : EncodedFrame) : Prop :=
  ID b = FirstSeqNumUnwrapped b /\
  ((frameType b = FrameTypeKey /\ NumReferences b = 0) \/
   (frameType b = FrameTypeDelta /\
    exists a, prev = Some a /\ NumReferences b = 1 /\
              getRef 0 (References b) = ID a /\
              FirstSeqNumUnwrapped b = wrap64 (LastSeqNumUnwrapped a + 1))).

Fixpoint linked (prev : option EncodedFrame) (l : list EncodedFrame) : Prop :=
  match l with
  | [] => True
  | b :: rest => link prev b /\ linked (Some b) rest
  end.

(** The last frame emitted so far. *)
Definition last_of (prev : option EncodedFrame) (l : list EncodedFrame)
  : option EncodedFrame :=
  match last l with
  | Some x => Some x
  | None => prev
  end.

(** The finder's last-frame fields describe the frame emitted last, and
    only delta frames wait in the stash. *)
Definition tracks (f : SeqNumOnlyRefFinder) (prev : option EncodedFrame) : Prop :=
  Forall (fun s => frameType (stashedFrame s) = FrameTypeDelta) (stashedFrames f) /\
  (gotInitialFrame f = true ->
   exists a, prev = Some a /\ lastFrameFirstSeqNum f = ID a /\
             lastFrameLastSeqNum f = LastSeqNumUnwrapped a).

Section Finder.

(** Go's [sort.Slice]: it rearranges the slice by swaps according to [less];
    which of two entries with equal keys comes first is not specified. *)
Variable sortSlice : forall A : Type, (A -> A -> bool) -> list A -> list A.

Hypothesis sortSlice_permutation :
  forall (A : Type) (less : A -> A -> bool) (l : list A),
    Permutation l (sortSlice A less l).

Definition stashFrame (f : SeqNumOnlyRefFinder) (frame : EncodedFrame)
           (header : option RTPVideoHeader) : SeqNumOnlyRefFinder :=
  let stash :=
    if (maxStashedFrames <=? length (stashedFrames f))%nat
    then drop 1 (stashedFrames f)
    else stashedFrames f in
  let stash := stash ++ [mkStashed frame header] in
  let stash :=
    sortSlice _ (fun a b => FirstSeqNumUnwrapped (stashedFrame a)
                            <? FirstSeqNumUnwrapped (stashedFrame b)) stash in
  setStashedFrames stash f.

Definition handleKeyframe (f : SeqNumOnlyRefFinder) (frame : EncodedFrame)
           (header : option RTPVideoHeader)
  : list EncodedFrame * SeqNumOnlyRefFinder :=
  let frame := setID (FirstSeqNumUnwrapped frame) frame in
  let frame := setNumReferences 0 frame in
  let f := mkFinder (FirstSeqNumUnwrapped frame)
                    (FirstSeqNumUnwrapped frame)
                    (LastSeqNumUnwrapped frame)
                    true
                    (stashedFrames f) in
  let f := clearStashedFramesBefore f (FirstSeqNumUnwrapped frame) in
  let '(resolved, f) := tryResolveStashedFrames f in
  (frame :: resolved, f).

Definition handleDeltaFrame (f : SeqNumOnlyRefFinder) (frame : EncodedFrame)
           (header : option RTPVideoHeader)
  : list EncodedFrame * SeqNumOnlyRefFinder :=
  if negb (gotInitialFrame f) then ([], stashFrame f frame header)
  else
    let expectedFirstSeqNum := wrap64 (lastFrameLastSeqNum f + 1) in
    if FirstSeqNumUnwrapped frame =? expectedFirstSeqNum then
      let frame := setID (FirstSeqNumUnwrapped frame) frame in
      let frame := setNumReferences 1 frame in
      let frame := setReference 0 (lastFrameFirstSeqNum f) frame in
      let f := mkFinder (lastSeqNumGOP f)
                        (FirstSeqNumUnwrapped frame)
                        (LastSeqNumUnwrapped frame)
                        (gotInitialFrame f)
                        (stashedFrames f) in
      let '(resolved, f) := tryResolveStashedFrames f in
      (frame :: resolved, f)
    else if FirstSeqNumUnwrapped frame <? lastSeqNumGOP f then ([], f)
    else ([], stashFrame f frame header).

(** [ManageFrame]; the empty list is the [nil] result. *)
Definition ManageFrame (f : SeqNumOnlyRefFinder) (frame : option EncodedFrame)
           (header : option RTPVideoHeader)
  : list EncodedFrame * SeqNumOnlyRefFinder :=
  match frame with
  | None => ([], f)
  | Some frame =>
    if isKey frame then handleKeyframe f frame header
    else handleDeltaFrame f frame header
  end.

(** A stream of frames through one finder: what each call emits. *)
Fixpoint manageAll (f : SeqNumOnlyRefFinder)
         (inputs : list (EncodedFrame * option RTPVideoHeader))
  : list (list EncodedFrame) :=
  match inputs with
  | [] => []
  | (fr, h) :: rest =>
    let '(out, f') := ManageFrame f (Some fr) h in
    out :: manageAll f' rest
  end.

(** *** Invariants *)

(** A frame whose packets are in sequence order. *)
Definition ordered_frame (fr : EncodedFrame) : Prop :=
  FirstSeqNumUnwrapped fr <= LastSeqNumUnwrapped fr /\
  in_int64 (LastSeqNumUnwrapped fr) /\
  LastSeqNumUnwrapped fr < int64_max.

Definition stash_inv (l : list stashedSeqNumFrame) : Prop :=
  Forall (fun s => frameType (stashedFrame s) = FrameTypeDelta /\
                   ordered_frame (stashedFrame s)) l.

Definition finder_inv (f : SeqNumOnlyRefFinder) : Prop :=
  (gotInitialFrame f = true ->
   lastFrameFirstSeqNum f <= lastFrameLastSeqNum f /\
   in_int64 (lastFrameLastSeqNum f) /\
   lastFrameLastSeqNum f < int64_max) /\
  stash_inv (stashedFrames f).

(** *** The stash-resolution loop *)

Lemma findContinuous_split expected l pre s post :
  findContinuous expected l = Some (pre, s, post) ->
  l = pre ++ s :: post /\
  FirstSeqNumUnwrapped (stashedFrame s) = expected.
Proof.
  revert pre. induction l as [|x l IH]; intros pre; cbn; [discriminate|].
  destruct (Z.eqb_spec (FirstSeqNumUnwrapped (stashedFrame x)) expected) as [E|].
  - intros [= <- <- <-]. now split.
  - destruct (findContinuous expected l) as [[[pre' s'] post']|]; [|discriminate].
    intros [= <- <- <-]. destruct (IH pre' eq_refl) as [-> E]. now split.
Qed.

(** More fuel than the length of the stash changes nothing: the loop never
    stops for lack of fuel. *)
Lemma resolveLoop_fuel fuel m f :
  (length (stashedFrames f) <= fuel)%nat ->
  resolveLoop (fuel + m) f = resolveLoop fuel f.
Proof.
  revert f. induction fuel as [|fuel IH]; intros f Hlen.
  - destruct (stashedFrames f) as [|x l] eqn:El; [|cbn in Hlen; lia].
    destruct m; cbn; now rewrite El.
  - cbn.
    destruct (findContinuous _ (stashedFrames f)) as [[[pre s] post]|] eqn:Ef;
      [|reflexivity].
    apply findContinuous_split in Ef. destruct Ef as [El _].
    rewrite IH; [reflexivity|]. cbn [stashedFrames].
    rewrite El, length_app in Hlen. cbn in Hlen. rewrite length_app. lia.
Qed.

(** *** Delta frames (C4) *)

Lemma stashFrame_stashed f frame header :
  In (mkStashed frame header) (stashedFrames (stashFrame f frame header)).
Proof.
  unfold stashFrame. cbn [setStashedFrames stashedFrames].
  eapply Permutation_in; [apply sortSlice_permutation|].
  apply in_or_app. right. now left.
Qed.

(** C4: a delta frame is stashed, nothing emitted, while no key frame has
    been seen; else, when its first sequence number is the last processed
    frame's last one plus one, it is emitted with [ID] its first sequence
    number, one reference, namely the previous frame's first sequence number,
    and the last-frame fields advance to this frame (from where the stash
    resolution carries on); otherwise it is dropped when it starts below the
    current GOP and stashed in every remaining case. *)
Theorem delta_frame_handling (f : SeqNumOnlyRefFinder) (fr : EncodedFrame)
        (h : option RTPVideoHeader) :
  frameType fr = FrameTypeDelta ->
  lastFrameLastSeqNum f < int64_max ->
  in_int64 (lastFrameLastSeqNum f) ->
  (gotInitialFrame f = false ->
   ManageFrame f (Some fr) h = ([], stashFrame f fr h)) /\
  (gotInitialFrame f = true ->
   FirstSeqNumUnwrapped fr = lastFrameLastSeqNum f + 1 ->
   exists fr',
     ID fr' = FirstSeqNumUnwrapped fr /\
     NumReferences fr' = 1 /\
     getRef 0 (References fr') = lastFrameFirstSeqNum f /\
     Data fr' = Data fr /\ frameType fr' = frameType fr /\
     FirstSeqNumUnwrapped fr' = FirstSeqNumUnwrapped fr /\
     LastSeqNumUnwrapped fr' = LastSeqNumUnwrapped fr /\
     ManageFrame f (Some fr) h
     = (fr' :: fst (tryResolveStashedFrames
                      (mkFinder (lastSeqNumGOP f) (FirstSeqNumUnwrapped fr)
                                (LastSeqNumUnwrapped fr) true (stashedFrames f))),
        snd (tryResolveStashedFrames
               (mkFinder (lastSeqNumGOP f) (FirstSeqNumUnwrapped fr)
                         (LastSeqNumUnwrapped fr) true (stashedFrames f))))) /\
  (gotInitialFrame f = true ->
   FirstSeqNumUnwrapped fr <> lastFrameLastSeqNum f + 1 ->
   FirstSeqNumUnwrapped fr < lastSeqNumGOP f ->
   ManageFrame f (Some fr) h = ([], f)) /\
  (gotInitialFrame f = true ->
   FirstSeqNumUnwrapped fr <> lastFrameLastSeqNum f + 1 ->
   lastSeqNumGOP f <= FirstSeqNumUnwrapped fr ->
   ManageFrame f (Some fr) h = ([], stashFrame f fr h)) /\
  In (mkStashed fr h) (stashedFrames (stashFrame f fr h)).
Proof.
  intros Hd Hmax Hin.
  assert (Hw : wrap64 (lastFrameLastSeqNum f + 1) = lastFrameLastSeqNum f + 1).
  { apply wrap64_id. unfold in_int64, int64_min, int64_max in *. lia. }
  assert (Hk : isKey fr = false) by (unfold isKey; now rewrite Hd).
  unfold ManageFrame, handleDeltaFrame. rewrite Hk, Hw.
  split; [|split; [|split; [|split]]].
  - intros ->. reflexivity.
  - intros Hg E. rewrite Hg, (proj2 (Z.eqb_eq _ _) E). cbn [negb].
    exists (setReference 0 (lastFrameFirstSeqNum f)
              (setNumReferences 1 (setID (FirstSeqNumUnwrapped fr) fr))).
    repeat (split; [reflexivity|]).
    cbn [setReference setNumReferences setID FirstSeqNumUnwrapped
         LastSeqNumUnwrapped].
    match goal with |- context [tryResolveStashedFrames ?f1] =>
      destruct (tryResolveStashedFrames f1) as [resolved f'] end.
    reflexivity.
  - intros -> Hne Hlt. cbn [negb].
    rewrite (proj2 (Z.eqb_neq _ _) Hne), (proj2 (Z.ltb_lt _ _) Hlt).
    reflexivity.
  - intros -> Hne Hge. cbn [negb].
    rewrite (proj2 (Z.eqb_neq _ _) Hne), (proj2 (Z.ltb_ge _ _) Hge).
    reflexivity.
  - apply stashFrame_stashed.
Qed.

(** *** Emitted references point backwards (C5) *)

Lemma resolved_continuous (prevFirst prevLast : Z) (fr : EncodedFrame) :
  prevFirst <= prevLast ->
  FirstSeqNumUnwrapped fr = prevLast + 1 ->
  frameType fr = FrameTypeDelta ->
  references_resolved
    (setReference 0 prevFirst
       (setNumReferences 1 (setID (FirstSeqNumUnwrapped fr) fr))).
Proof.
  intros Hp Hf Hd. split; cbn.
  - rewrite Hd. discriminate.
  - intros _ i Hi. assert (i = 0%nat) as -> by lia. cbn. lia.
Qed.

Lemma resolveLoop_inv fuel f :
  gotInitialFrame f = true -> finder_inv f ->
  Forall references_resolved (fst (resolveLoop fuel f)) /\
  finder_inv (snd (resolveLoop fuel f)).
Proof.
  revert f. induction fuel as [|fuel IH]; intros f Hg Hinv; cbn.
  - destruct (findContinuous _ _) as [[[pre s] post]|]; cbn; now split.
  - destruct (findContinuous _ _) as [[[pre s] post]|] eqn:Ef; cbn;
      [|now split].
    destruct Hinv as [Hlast Hst]. destruct (Hlast Hg) as (Hle & Hin & Hmax).
    apply findContinuous_split in Ef. destruct Ef as [El Eexp].
    rewrite wrap64_id in Eexp
      by (unfold in_int64, int64_min, int64_max in *; lia).
    unfold stash_inv in Hst. rewrite El in Hst.
    apply Forall_app in Hst. destruct Hst as [Hpre Hs].
    inversion Hs as [|? ? [Hsd Hso] Hpost]; subst.
    match goal with |- context [resolveLoop fuel ?f1] =>
      destruct (IH f1) as [IH1 IH2] end.
    + exact Hg.
    + split; [|apply Forall_app; now split].
      intros _. cbn. exact Hso.
    + match goal with |- context [resolveLoop fuel ?f1] =>
        destruct (resolveLoop fuel f1) as [result f2] end.
      cbn [fst snd] in *. split; [|exact IH2].
      constructor; [|exact IH1].
      now apply (resolved_continuous _ (lastFrameLastSeqNum f)).
Qed.

Lemma Forall_list_filter {A} (P : A -> Prop) (keep : A -> bool) (l : list A) :
  Forall P l -> Forall P (List.filter keep l).
Proof.
  rewrite !Forall_forall. intros H x Hx. apply H.
  apply list_elem_of_In in Hx. apply filter_In in Hx.
  apply list_elem_of_In. tauto.
Qed.

Lemma stashFrame_inv f fr h :
  finder_inv f -> frameType fr = FrameTypeDelta -> ordered_frame fr ->
  finder_inv (stashFrame f fr h).
Proof.
  intros [Hlast Hst] Hd Ho. split; [exact Hlast|].
  unfold stashFrame, stash_inv. cbn [setStashedFrames stashedFrames].
  eapply Permutation_Forall; [apply sortSlice_permutation|].
  apply Forall_app. split.
  - destruct (_ <=? _)%nat; [|exact Hst]. now apply Forall_drop.
  - constructor; [now split|constructor].
Qed.

Lemma ManageFrame_inv f fr h :
  finder_inv f -> ordered_frame fr ->
  Forall references_resolved (fst (ManageFrame f (Some fr) h)) /\
  finder_inv (snd (ManageFrame f (Some fr) h)).
Proof.
  intros Hinv Ho. unfold ManageFrame, isKey.
  destruct (frameType fr) eqn:Et; cbn [FrameType_eqb].
  - unfold handleKeyframe, tryResolveStashedFrames.
    match goal with |- context [resolveLoop ?n ?f1] =>
      destruct (resolveLoop_inv n f1) as [R1 R2] end.
    + reflexivity.
    + split; [intros _; exact Ho|].
      cbn. apply Forall_list_filter. apply Hinv.
    + match goal with |- context [resolveLoop ?n ?f1] =>
        destruct (resolveLoop n f1) as [resolved f2] end.
      cbn [fst snd] in *. split; [|exact R2].
      constructor; [|exact R1]. split; cbn; [reflexivity|].
      rewrite Et. discriminate.
  - unfold handleDeltaFrame.
    destruct (gotInitialFrame f) eqn:Eg; cbn [negb].
    + destruct Hinv as [Hlast Hst]. destruct (Hlast Eg) as (Hle & Hin & Hmax).
      rewrite wrap64_id by (unfold in_int64, int64_min, int64_max in *; lia).
      destruct (Z.eqb_spec (FirstSeqNumUnwrapped fr) (lastFrameLastSeqNum f + 1))
        as [E|Hne].
      * unfold tryResolveStashedFrames.
        match goal with |- context [resolveLoop ?n ?f1] =>
          destruct (resolveLoop_inv n f1) as [R1 R2] end.
        -- reflexivity.
        -- split; [intros _; exact Ho|exact Hst].
        -- match goal with |- context [resolveLoop ?n ?f1] =>
             destruct (resolveLoop n f1) as [resolved f2] end.
           cbn [fst snd] in *. split; [|exact R2].
           constructor; [|exact R1].
           now apply (resolved_continuous _ (lastFrameLastSeqNum f)).
      * destruct (_ <? _); cbn [fst snd].
        -- split; [constructor|]. split; [now rewrite Eg|exact Hst].
        -- split; [constructor|]. apply stashFrame_inv; try assumption.
           split; [now rewrite Eg|exact Hst].
    + cbn [fst snd]. split; [constructor|]. now apply stashFrame_inv.
Qed.

Lemma SeqNumOnly_manageAll_resolved inputs f :
  finder_inv f ->
  Forall (fun x => ordered_frame (fst x)) inputs ->
  Forall (Forall references_resolved) (manageAll f inputs).
Proof.
  revert f. induction inputs as [|[fr h] rest IH]; intros f Hinv Hin;
    cbn [manageAll].
  - constructor.
  - inversion Hin as [|? ? H1 H2]; subst. cbn [fst] in H1.
    destruct (ManageFrame_inv f fr h Hinv H1) as [Hr Hinv'].
    destruct (ManageFrame f (Some fr) h) as [out f'].
    constructor; [exact Hr|]. now apply IH.
Qed.

Lemma NewSeqNumOnlyRefFinder_inv : finder_inv NewSeqNumOnlyRefFinder.
Proof. split; [discriminate|constructor]. Qed.

(** *** The emitted frames form a decodable chain *)

Lemma last_of_cons prev x l : last_of prev (x :: l) = last_of (Some x) l.
Proof.
  unfold last_of. destruct l as [|y l]; [reflexivity|].
  change (last (x :: y :: l)) with (last (y :: l)).
  destruct (last (y :: l)) eqn:E; [reflexivity|].
  apply last_None in E. discriminate.
Qed.

Lemma last_of_app prev l1 l2 :
  last_of prev (l1 ++ l2) = last_of (last_of prev l1) l2.
Proof.
  revert prev. induction l1 as [|x l1 IH]; intros prev; [reflexivity|].
  cbn [app]. now rewrite !last_of_cons, IH.
Qed.

Lemma linked_app prev l1 l2 :
  linked prev l1 -> linked (last_of prev l1) l2 -> linked prev (l1 ++ l2).
Proof.
  revert prev. induction l1 as [|x l1 IH]; intros prev H1 H2; [exact H2|].
  destruct H1 as [Hx H1]. cbn [app linked]. split; [exact Hx|].
  apply IH; [exact H1|]. now rewrite <- last_of_cons with (prev := prev).
Qed.

(** A stashed frame that continues the last emitted frame. *)
Lemma link_continuous f prev (fr : EncodedFrame) :
  gotInitialFrame f = true -> tracks f prev ->
  frameType fr = FrameTypeDelta ->
  FirstSeqNumUnwrapped fr = wrap64 (lastFrameLastSeqNum f + 1) ->
  link prev (setReference 0 (lastFrameFirstSeqNum f)
               (setNumReferences 1 (setID (FirstSeqNumUnwrapped fr) fr))).
Proof.
  intros Hg [_ Ht] Hd Hf. destruct (Ht Hg) as (a & -> & Ha1 & Ha2).
  split; [reflexivity|]. right. split; [exact Hd|].
  exists a. cbn. rewrite <- Ha2. now repeat split.
Qed.

Lemma resolveLoop_linked fuel f prev :
  gotInitialFrame f = true -> tracks f prev ->
  linked prev (fst (resolveLoop fuel f)) /\
  tracks (snd (resolveLoop fuel f)) (last_of prev (fst (resolveLoop fuel f))) /\
  gotInitialFrame (snd (resolveLoop fuel f)) = true.
Proof.
  revert f prev. induction fuel as [|fuel IH]; intros f prev Hg Ht; cbn.
  - destruct (findContinuous _ _) as [[[pre s] post]|]; cbn;
      exact (conj I (conj Ht Hg)).
  - destruct (findContinuous _ _) as [[[pre s] post]|] eqn:Ef; cbn;
      [|exact (conj I (conj Ht Hg))].
    apply findContinuous_split in Ef. destruct Ef as [El Eexp].
    assert (Hall := proj1 Ht). rewrite El in Hall.
    apply Forall_app in Hall. destruct Hall as [Hpre Hs].
    inversion Hs as [|? ? Hsd Hpost]; subst.
    pose proof (link_continuous f prev (stashedFrame s) Hg Ht Hsd Eexp) as Hl.
    set (fr' := setReference 0 (lastFrameFirstSeqNum f)
                  (setNumReferences 1
                     (setID (FirstSeqNumUnwrapped (stashedFrame s))
                            (stashedFrame s)))) in *.
    match goal with |- context [resolveLoop fuel ?f1] =>
      destruct (IH f1 (Some fr')) as (I1 & I2 & I3) end.
    + exact Hg.
    + split; [cbn; apply Forall_app; now split|].
      intros _. exists fr'. now repeat split.
    + match goal with |- context [resolveLoop fuel ?f1] =>
        destruct (resolveLoop fuel f1) as [result f2] end.
      cbn [fst snd] in *. rewrite last_of_cons.
      exact (conj (conj Hl I1) (conj I2 I3)).
Qed.

Lemma stashFrame_tracks f fr h prev :
  tracks f prev -> frameType fr = FrameTypeDelta ->
  tracks (stashFrame f fr h) prev.
Proof.
  intros [Hall Ht] Hd. split; [|exact Ht].
  unfold stashFrame. cbn [setStashedFrames stashedFrames].
  eapply Permutation_Forall; [apply sortSlice_permutation|].
  apply Forall_app. split.
  - destruct (_ <=? _)%nat; [|exact Hall]. now apply Forall_drop.
  - constructor; [exact Hd|constructor].
Qed.

Lemma ManageFrame_linked f fr h prev :
  tracks f prev ->
  linked prev (fst (ManageFrame f (Some fr) h)) /\
  tracks (snd (ManageFrame f (Some fr) h))
         (last_of prev (fst (ManageFrame f (Some fr) h))).
Proof.
  intros Ht. unfold ManageFrame, isKey.
  destruct (frameType fr) eqn:Et; cbn [FrameType_eqb].
  - unfold handleKeyframe, tryResolveStashedFrames.
    set (fr' := setNumReferences 0 (setID (FirstSeqNumUnwrapped fr) fr)).
    match goal with |- context [resolveLoop ?n ?f1] =>
      destruct (resolveLoop_linked n f1 (Some fr')) as (R1 & R2 & _) end.
    + reflexivity.
    + split; [cbn; apply Forall_list_filter; apply Ht|].
      intros _. exists fr'. now repeat split.
    + match goal with |- context [resolveLoop ?n ?f1] =>
        destruct (resolveLoop n f1) as [resolved f2] end.
      cbn [fst snd] in *. rewrite last_of_cons. split; [|exact R2].
      split; [|exact R1]. split; [reflexivity|]. left.
      split; [exact Et|reflexivity].
  - unfold handleDeltaFrame.
    destruct (gotInitialFrame f) eqn:Eg; cbn [negb].
    + destruct (Z.eqb_spec (FirstSeqNumUnwrapped fr)
                           (wrap64 (lastFrameLastSeqNum f + 1))) as [E|Hne].
      * unfold tryResolveStashedFrames.
        pose proof (link_continuous f prev fr Eg Ht Et E) as Hl.
        set (fr' := setReference 0 (lastFrameFirstSeqNum f)
                      (setNumReferences 1 (setID (FirstSeqNumUnwrapped fr) fr)))
          in *.
        match goal with |- context [resolveLoop ?n ?f1] =>
          destruct (resolveLoop_linked n f1 (Some fr')) as (R1 & R2 & _) end.
        -- reflexivity.
        -- split; [exact (proj1 Ht)|]. intros _. exists fr'. now repeat split.
        -- match goal with |- context [resolveLoop ?n ?f1] =>
             destruct (resolveLoop n f1) as [resolved f2] end.
           cbn [fst snd] in *. rewrite last_of_cons.
           exact (conj (conj Hl R1) R2).
      * destruct (_ <? _); cbn [fst snd linked]; (split; [exact I|]).
        -- exact Ht.
        -- now apply stashFrame_tracks.
    + cbn [fst snd linked]. split; [exact I|]. now apply stashFrame_tracks.
Qed.

Lemma manageAll_linked inputs f prev :
  tracks f prev -> linked prev (concat (manageAll f inputs)).
Proof.
  revert f prev. induction inputs as [|[fr h] rest IH]; intros f prev Ht;
    cbn [manageAll].
  - exact I.
  - destruct (ManageFrame_linked f fr h prev Ht) as [H1 H2].
    destruct (ManageFrame f (Some fr) h) as [out f'].
    cbn [fst snd concat] in *. apply linked_app; [exact H1|]. now apply IH.
Qed.

(** Whatever frames a new finder is fed, in whatever order, what it emits
    can be decoded in the order of emission: every emitted frame has its
    first sequence number as id; the first one is a key frame; a key frame
    has no reference; and a delta frame has exactly one reference, the id of
    the frame emitted immediately before it, whose last packet its first
    packet follows. *)
Theorem SeqNumOnly_emits_decodable_chain
        (inputs : list (EncodedFrame * option RTPVideoHeader)) :
  linked None (concat (manageAll NewSeqNumOnlyRefFinder inputs)).
Proof.
  apply manageAll_linked. split; [constructor|discriminate].
Qed.

(** *** The stash stays bounded *)

Lemma resolveLoop_stash fuel f :
  (length (fst (resolveLoop fuel f))
   + length (stashedFrames (snd (resolveLoop fuel f))))%nat
  = length (stashedFrames f) /\
  gotInitialFrame (snd (resolveLoop fuel f)) = gotInitialFrame f /\
  lastSeqNumGOP (snd (resolveLoop fuel f)) = lastSeqNumGOP f /\
  (forall s, In s (stashedFrames (snd (resolveLoop fuel f))) ->
             In s (stashedFrames f)) /\
  ((length (stashedFrames f) <= fuel)%nat ->
   findContinuous (wrap64 (lastFrameLastSeqNum (snd (resolveLoop fuel f)) + 1))
                  (stashedFrames (snd (resolveLoop fuel f))) = None).
Proof.
  revert f. induction fuel as [|fuel IH]; intros f; cbn.
  - destruct (findContinuous _ _) as [[[pre s] post]|] eqn:Ef; cbn.
    + repeat split; try tauto. intros Hlen.
      apply findContinuous_split in Ef. destruct Ef as [El _].
      rewrite El, length_app in Hlen. cbn in Hlen. lia.
    + repeat split; try tauto.
  - destruct (findContinuous _ _) as [[[pre s] post]|] eqn:Ef; cbn;
      [|repeat split; tauto].
    apply findContinuous_split in Ef. destruct Ef as [El _].
    match goal with |- context [resolveLoop fuel ?f1] =>
      destruct (IH f1) as (I1 & I2 & I3 & I4 & I5);
      destruct (resolveLoop fuel f1) as [result f2] end.
    cbn [fst snd stashedFrames gotInitialFrame lastSeqNumGOP length] in *.
    rewrite El. rewrite length_app in *. cbn [length] in *.
    split; [lia|]. split; [exact I2|]. split; [exact I3|]. split.
    + intros x Hx. specialize (I4 x Hx). apply in_app_or in I4.
      apply in_or_app. destruct I4; [now left|right; now right].
    + intros Hlen. apply I5. lia.
Qed.

Lemma stashFrame_length f fr h :
  (length (stashedFrames f) <= maxStashedFrames)%nat ->
  (length (stashedFrames (stashFrame f fr h)) <= maxStashedFrames)%nat.
Proof.
  intros Hlen. unfold stashFrame. cbn [setStashedFrames stashedFrames].
  rewrite <- (Permutation_length (sortSlice_permutation _ _ _)).
  rewrite length_app. cbn [length].
  destruct (Nat.leb_spec maxStashedFrames (length (stashedFrames f))).
  - rewrite length_drop. unfold maxStashedFrames in *. lia.
  - lia.
Qed.

(** The stash never holds more than [maxStashedFrames] = 100 frames: a
    call of [ManageFrame] on a finder within the bound leaves it within the
    bound. *)
Theorem SeqNumOnly_stash_bounded (f : SeqNumOnlyRefFinder)
        (frame : option EncodedFrame) (h : option RTPVideoHeader) :
  (length (stashedFrames f) <= maxStashedFrames)%nat ->
  (length (stashedFrames (snd (ManageFrame f frame h))) <= maxStashedFrames)%nat.
Proof.
  intros Hlen. unfold ManageFrame. destruct frame as [fr|]; [|exact Hlen].
  destruct (isKey fr).
  - unfold handleKeyframe, tryResolveStashedFrames.
    match goal with |- context [resolveLoop ?n ?f1] =>
      destruct (resolveLoop_stash n f1) as (R1 & _);
      destruct (resolveLoop n f1) as [resolved f2] end.
    cbn [fst snd stashedFrames clearStashedFramesBefore setStashedFrames] in *.
    pose proof (filter_length_le
                  (fun s => FirstSeqNumUnwrapped (stashedFrame s)
                            >=? FirstSeqNumUnwrapped fr) (stashedFrames f)).
    cbn [setID setNumReferences FirstSeqNumUnwrapped] in R1. lia.
  - unfold handleDeltaFrame. destruct (negb _); cbn [snd].
    { now apply stashFrame_length. }
    destruct (_ =? _).
    + unfold tryResolveStashedFrames.
      match goal with |- context [resolveLoop ?n ?f1] =>
        destruct (resolveLoop_stash n f1) as (R1 & _);
        destruct (resolveLoop n f1) as [resolved f2] end.
      cbn [fst snd stashedFrames] in *. lia.
    + destruct (_ <? _); cbn [snd]; [exact Hlen|now apply stashFrame_length].
Qed.

(** *** Key frames *)

(** A key frame is emitted at once whatever the state of the finder, with
    its first sequence number as id and no reference; it starts a new group
    of pictures there, and every frame still stashed afterwards was stashed
    before and does not start below the key frame.  The frames emitted after
    it in the same call come from the stash. *)
Theorem key_frame_starts_new_group (f : SeqNumOnlyRefFinder)
        (fr : EncodedFrame) (h : option RTPVideoHeader) :
  frameType fr = FrameTypeKey ->
  exists resolved f',
    ManageFrame f (Some fr) h
    = (setNumReferences 0 (setID (FirstSeqNumUnwrapped fr) fr) :: resolved, f') /\
    gotInitialFrame f' = true /\
    lastSeqNumGOP f' = FirstSeqNumUnwrapped fr /\
    (forall s, In s (stashedFrames f') ->
               In s (stashedFrames f) /\
               FirstSeqNumUnwrapped fr <= FirstSeqNumUnwrapped (stashedFrame s)) /\
    (length resolved + length (stashedFrames f') <= length (stashedFrames f))%nat.
Proof.
  intros Hk. unfold ManageFrame, isKey. rewrite Hk. cbn [FrameType_eqb].
  unfold handleKeyframe, tryResolveStashedFrames.
  match goal with |- context [resolveLoop ?n ?f1] =>
    destruct (resolveLoop_stash n f1) as (R1 & R2 & R3 & R4 & _);
    destruct (resolveLoop n f1) as [resolved f2] end.
  cbn [fst snd stashedFrames gotInitialFrame lastSeqNumGOP
       clearStashedFramesBefore setStashedFrames setID setNumReferences
       FirstSeqNumUnwrapped] in *.
  exists resolved, f2. split; [reflexivity|]. split; [exact R2|].
  split; [exact R3|]. split.
  - intros s Hs. apply R4, filter_In in Hs. destruct Hs as [Hin Hge].
    split; [exact Hin|]. apply Z.geb_le in Hge. lia.
  - pose proof (filter_length_le
                  (fun s => FirstSeqNumUnwrapped (stashedFrame s)
                            >=? FirstSeqNumUnwrapped fr) (stashedFrames f)).
    lia.
Qed.


(** *** The stash-resolution loop runs to completion *)

(** After [tryResolveStashedFrames] no stashed frame is left that continues
    the last emitted frame (the loop is never cut short), and every stashed
    frame was either emitted or kept: the number of emitted frames plus the
    size of the stash is the size of the stash before, and what is kept was
    stashed before. *)
Theorem stash_resolution_complete (f : SeqNumOnlyRefFinder) :
  findContinuous
    (wrap64 (lastFrameLastSeqNum (snd (tryResolveStashedFrames f)) + 1))
    (stashedFrames (snd (tryResolveStashedFrames f))) = None /\
  (length (fst (tryResolveStashedFrames f))
   + length (stashedFrames (snd (tryResolveStashedFrames f))))%nat
  = length (stashedFrames f) /\
  (forall s, In s (stashedFrames (snd (tryResolveStashedFrames f))) ->
             In s (stashedFrames f)).
Proof.
  unfold tryResolveStashedFrames.
  destruct (resolveLoop_stash (length (stashedFrames f)) f)
    as (R1 & _ & _ & R4 & R5).
  split; [apply R5; lia|]. split; [exact R1|exact R4].
Qed.

End Finder.

Lemma mergeSortSlice_permutation (A : Type) (less : A -> A -> bool) (l : list A) :
  Permutation l (mergeSortSlice A less l).
Proof. unfold mergeSortSlice. symmetry. apply merge_sort_Permutation. Qed.

Lemma SeqNumOnly_emits_decodable_chain_witness :
  linked None
         (concat (manageAll mergeSortSlice NewSeqNumOnlyRefFinder
                            [(frame_of 1002 1003 FrameTypeDelta, None);
                             (frame_of 1000 1000 FrameTypeKey, None);
                             (frame_of 1001 1001 FrameTypeDelta, None)])) /\
  map ID (concat (manageAll mergeSortSlice NewSeqNumOnlyRefFinder
                            [(frame_of 1002 1003 FrameTypeDelta, None);
                             (frame_of 1000 1000 FrameTypeKey, None);
                             (frame_of 1001 1001 FrameTypeDelta, None)]))
  = [1000; 1001; 1002].
Proof.
  split; [|vm_compute; reflexivity].
  exact (SeqNumOnly_emits_decodable_chain mergeSortSlice
           mergeSortSlice_permutation _).
Defined.

Lemma SeqNumOnly_stash_bounded_witness :
  (length (stashedFrames NewSeqNumOnlyRefFinder) <= maxStashedFrames)%nat /\
  (length (stashedFrames
             (snd (ManageFrame mergeSortSlice NewSeqNumOnlyRefFinder
                               (Some (frame_of 1002 1003 FrameTypeDelta)) None)))
   <= maxStashedFrames)%nat.
Proof.
  assert (H : (length (stashedFrames NewSeqNumOnlyRefFinder)
               <= maxStashedFrames)%nat) by (cbn; lia).
  split; [exact H|].
  exact (SeqNumOnly_stash_bounded mergeSortSlice mergeSortSlice_permutation
           NewSeqNumOnlyRefFinder _ None H).
Defined.

Lemma key_frame_starts_new_group_witness :
  frameType (frame_of 1000 1000 FrameTypeKey) = FrameTypeKey /\
  exists resolved f',
    ManageFrame mergeSortSlice
                (mkFinder 0 0 0 false
                          [mkStashed (frame_of 990 991 FrameTypeDelta) None;
                           mkStashed (frame_of 1001 1001 FrameTypeDelta) None])
                (Some (frame_of 1000 1000 FrameTypeKey)) None
    = (setNumReferences 0 (setID 1000 (frame_of 1000 1000 FrameTypeKey))
         :: resolved, f') /\
    gotInitialFrame f' = true /\ lastSeqNumGOP f' = 1000.
Proof.
  split; [reflexivity|].
  destruct (key_frame_starts_new_group mergeSortSlice
              (mkFinder 0 0 0 false
                        [mkStashed (frame_of 990 991 FrameTypeDelta) None;
                         mkStashed (frame_of 1001 1001 FrameTypeDelta) None])
              (frame_of 1000 1000 FrameTypeKey) None eq_refl)
    as (resolved & f' & E & Hg & Hgop & _).
  exists resolved, f'. split; [exact E|]. split; [exact Hg|exact Hgop].
Defined.

Lemma delta_frame_handling_witness :
  (frameType (frame_of 1002 1003 FrameTypeDelta) = FrameTypeDelta /\
   lastFrameLastSeqNum (mkFinder 1000 1000 1001 true []) < int64_max /\
   in_int64 (lastFrameLastSeqNum (mkFinder 1000 1000 1001 true []))) /\
  exists fr',
    ID fr' = 1002 /\ NumReferences fr' = 1 /\
    getRef 0 (References fr') = 1000 /\
    ManageFrame mergeSortSlice (mkFinder 1000 1000 1001 true [])
                (Some (frame_of 1002 1003 FrameTypeDelta)) None
    = ([fr'], mkFinder 1000 1002 1003 true []).
Proof.
  assert (H1 : frameType (frame_of 1002 1003 FrameTypeDelta) = FrameTypeDelta)
    by reflexivity.
  assert (H2 : lastFrameLastSeqNum (mkFinder 1000 1000 1001 true []) < int64_max)
    by (unfold int64_max; cbn; lia).
  assert (H3 : in_int64 (lastFrameLastSeqNum (mkFinder 1000 1000 1001 true [])))
    by (unfold in_int64, int64_min, int64_max; cbn; lia).
  split; [split; [exact H1|split; [exact H2|exact H3]]|].
  destruct (delta_frame_handling mergeSortSlice mergeSortSlice_permutation
              (mkFinder 1000 1000 1001 true [])
              (frame_of 1002 1003 FrameTypeDelta) None H1 H2 H3)
    as (_ & Hcont & _).
  destruct (Hcont eq_refl eq_refl) as (fr' & Hid & Hn & Hr & _ & _ & _ & _ & E).
  exists fr'. split; [exact Hid|]. split; [exact Hn|]. split; [exact Hr|exact E].
Defined.

End SeqNumOnly.

(** ** Reference monotonicity of the two simple finders *)

(** Key frame 1000, then delta 1002..1003 ahead of delta 1001: the second
    call stashes, the third emits 1001 and 1002. *)
Definition seq_inputs : list (EncodedFrame * option RTPVideoHeader) :=
  [(SeqNumOnly.frame_of 1000 1000 FrameTypeKey, None);
   (SeqNumOnly.frame_of 1002 1003 FrameTypeDelta, None);
   (SeqNumOnly.frame_of 1001 1001 FrameTypeDelta, None)].

Definition pid_inputs : list (EncodedFrame * RTPVideoHeader) :=
  [(SeqNumOnly.frame_of 1000 1000 FrameTypeKey,
    mkHeader FrameTypeKey true true 32767 (-1) (-1));
   (SeqNumOnly.frame_of 1001 1001 FrameTypeDelta,
    mkHeader FrameTypeDelta true true 0 (-1) (-1))].

(** C5: every frame that the SeqNumOnly finder emits for frames whose packets
    are in sequence order, and every frame that the FrameIdOnly finder emits
    for frames that come from the assembler (no reference set yet), has its
    references resolved: no reference for a key frame, and each of the
    [NumReferences] references of a delta frame strictly below the frame's
    id. *)
Theorem emitted_references_resolved :
  (forall (sortSlice : forall A : Type, (A -> A -> bool) -> list A -> list A),
      (forall (A : Type) (less : A -> A -> bool) (l : list A),
          Permutation l (sortSlice A less l)) ->
      forall inputs,
        Forall (fun x => SeqNumOnly.ordered_frame (fst x)) inputs ->
        Forall (Forall references_resolved)
               (SeqNumOnly.manageAll sortSlice SeqNumOnly.NewSeqNumOnlyRefFinder
                                     inputs)) /\
  (forall inputs,
      Forall (fun x => NumReferences (fst x) = 0) inputs ->
      Forall (Forall references_resolved)
             (FrameIdOnly.manageAll FrameIdOnly.NewFrameIdOnlyRefFinder inputs)).
Proof.
  split.
  - intros sortSlice Hperm inputs Hin.
    apply SeqNumOnly.SeqNumOnly_manageAll_resolved; try assumption.
    apply SeqNumOnly.NewSeqNumOnlyRefFinder_inv.
  - intros inputs Hin. now apply FrameIdOnly.FrameIdOnly_manageAll_resolved.
Qed.

Lemma emitted_references_resolved_witness :
  (Forall (fun x => SeqNumOnly.ordered_frame (fst x)) seq_inputs /\
   Forall (fun x => NumReferences (fst x) = 0) pid_inputs) /\
  Forall (Forall references_resolved)
         (SeqNumOnly.manageAll SeqNumOnly.mergeSortSlice
                               SeqNumOnly.NewSeqNumOnlyRefFinder seq_inputs) /\
  Forall (Forall references_resolved)
         (FrameIdOnly.manageAll FrameIdOnly.NewFrameIdOnlyRefFinder pid_inputs).
Proof.
  assert (H1 : Forall (fun x => SeqNumOnly.ordered_frame (fst x)) seq_inputs).
  { repeat constructor; cbn; try lia; vm_compute; discriminate. }
  assert (H2 : Forall (fun x => NumReferences (fst x) = 0) pid_inputs).
  { repeat constructor. }
  split; [split; assumption|]. split.
  - exact (proj1 emitted_references_resolved SeqNumOnly.mergeSortSlice
             SeqNumOnly.mergeSortSlice_permutation seq_inputs H1).
  - exact (proj2 emitted_references_resolved pid_inputs H2).
Defined.

(** ** The VP8 reference finder (vp8_ref_finder.go) *)

Module VP8.

(** A result of code that can stop with a run-time panic (an array index
    out of range): [None] is the panic. *)
Definition orPanic (A : Type) : Type := option A.

Record tl0PicIdxUnwrapper : Type := mkTl0Unwrapper {
  lastUnwrapped : Z;
  initialized : bool
}.

Definition tl0PicIdxModulus : Z := 2 ^ 8.
Definition maxTemporalLayers : Z := 4.
Definition maxStashedFrames : nat := 100.

(** [tl0PicIdxUnwrapper.Unwrap]; the argument is an [int16]. *)
Definition UnwrapTL0 (u : tl0PicIdxUnwrapper) (tl0PicIdx : Z)
  : Z * tl0PicIdxUnwrapper :=
  if tl0PicIdx <? 0 then (-1, u)
  else
    let idx := Z.land tl0PicIdx (tl0PicIdxModulus - 1) in
    if negb (initialized u) then (idx, mkTl0Unwrapper idx true)
    else
      let lastWrapped := Z.land (lastUnwrapped u) (tl0PicIdxModulus - 1) in
      let diff := idx - lastWrapped in
      let diff :=
        if diff >? tl0PicIdxModulus / 2 then diff - tl0PicIdxModulus
        else if diff <? - tl0PicIdxModulus / 2 then diff + tl0PicIdxModulus
        else diff in
      let last := wrap64 (lastUnwrapped u + diff) in
      (last, mkTl0Unwrapper last true).

(** [[maxTemporalLayers]int64] *)
Record LayerInfo : Type := mkLayers {
  layer0 : Z; layer1 : Z; layer2 : Z; layer3 : Z
}.

Definition zeroLayers : LayerInfo := mkLayers 0 0 0 0.

(** [info[t]] for an index inside the array (the scans below never leave
    it: they start at most at the clamped temporal index 3). *)
Definition getLayer (t : nat) (info : LayerInfo) : Z :=
  match t with
  | 0%nat => layer0 info
  | 1%nat => layer1 info
  | 2%nat => layer2 info
  | _ => layer3 info
  end.

(** [info[tid] = v]; a negative index panics. *)
Definition setLayer (tid : Z) (v : Z) (info : LayerInfo) : orPanic LayerInfo :=
  if tid =? 0 then Some (mkLayers v (layer1 info) (layer2 info) (layer3 info))
  else if tid =? 1 then Some (mkLayers (layer0 info) v (layer2 info) (layer3 info))
  else if tid =? 2 then Some (mkLayers (layer0 info) (layer1 info) v (layer3 info))
  else if tid =? 3 then Some (mkLayers (layer0 info) (layer1 info) (layer2 info) v)
  else None.

Record stashedVP8Frame : Type := mkStashed {
  stashedFrame : EncodedFrame;        (* frame *)
  stashedHeader : RTPVideoHeader;     (* header, never nil here *)
  unwrappedPID : Z;
  unwrappedTL0 : Z
}.

Record VP8RefFinder : Type := mkFinder {
  pictureIDUnwrapper : FrameIdOnly.pictureIDUnwrapper;
  tl0Unwrapper : tl0PicIdxUnwrapper;
  layerInfo : gmap Z LayerInfo;
  lastPictureID : Z;
  gotInitialFrame : bool;
  stashedFrames : list stashedVP8Frame
}.

Definition NewVP8RefFinder : VP8RefFinder :=
  mkFinder (FrameIdOnly.mkPidUnwrapper 0 false) (mkTl0Unwrapper 0 false)
           ∅ (-1) false [].

Definition setUnwrappers (pu : FrameIdOnly.pictureIDUnwrapper)
           (tu : tl0PicIdxUnwrapper) (f : VP8RefFinder) : VP8RefFinder :=
  mkFinder pu tu (layerInfo f) (lastPictureID f) (gotInitialFrame f)
           (stashedFrames f).

Definition setStashedFrames (l : list stashedVP8Frame) (f : VP8RefFinder)
  : VP8RefFinder :=
  mkFinder (pictureIDUnwrapper f) (tl0Unwrapper f) (layerInfo f)
           (lastPictureID f) (gotInitialFrame f) l.

(** [tid := int(header.TemporalIdx); if tid >= maxTemporalLayers { tid = 3 }] *)
Definition clampTid (temporalIdx : Z) : Z :=
  if temporalIdx >=? maxTemporalLayers then maxTemporalLayers - 1
  else temporalIdx.

(** [for t := n-1; t >= 0; t-- { if info[t] != 0 { append; break } }] *)
Fixpoint scanDown (n : nat) (info : LayerInfo) : list Z :=
  match n with
  | O => []
  | S t =>
    if negb (getLayer t info =? 0) then [wrap64 (getLayer t info - 1)]
    else scanDown t info
  end.

(** [for i, ref := range refs { if i < 5 { frame.References[i] = ref } }] *)
Definition writeReferences (refs : list Z) (fr : EncodedFrame) : EncodedFrame :=
  fold_left (fun fr ir => if (fst ir <? 5)%nat
                          then setReference (fst ir) (snd ir) fr else fr)
            (imap (fun i r => (i, r)) refs) fr.

(** [initLayerInfo] *)
Definition initLayerInfo (m : gmap Z LayerInfo) (tl0 pid : Z) : gmap Z LayerInfo :=
  <[tl0 := mkLayers (wrap64 (pid + 1)) 0 0 0]> m.

(** [updateLayerInfo]; reading a missing key gives the zero array. *)
Definition updateLayerInfo (m : gmap Z LayerInfo) (tl0 tid pid : Z)
  : orPanic (gmap Z LayerInfo) :=
  match setLayer tid (wrap64 (pid + 1)) (default zeroLayers (m !! tl0)) with
  | Some info => Some (<[tl0 := info]> m)
  | None => None
  end.

(** A concrete visiting order to run the finder with: ascending keys. *)
Definition keyOrder (m : gmap Z LayerInfo) : list (Z * LayerInfo) :=
  map_to_list m.

(** A header whose temporal index is absent (-1) or a layer number. *)
Definition temporal_ok (h : RTPVideoHeader) : Prop := -1 <= TemporalIdx h.

Definition stash_temporal_ok (f : VP8RefFinder) : Prop :=
  Forall (fun s => temporal_ok (stashedHeader s)) (stashedFrames f).

(** A frame with no reference or with one. *)
Definition at_most_one_reference (fr : EncodedFrame) : Prop :=
  NumReferences fr = 0 \/ NumReferences fr = 1.

(** A frame as the assembler hands it over, and a VP8 header with picture
    id, temporal index and TL0PICIDX. *)
Definition vp8_frame (t : FrameType) : EncodedFrame :=
  mkFrame 0 0 0 0 0 0 t [] 0 0 0 noRefs.

Definition vp8_header (t : FrameType) (pid tid tl0 : Z) : RTPVideoHeader :=
  mkHeader t true true pid tid tl0.

(** The first of the emitted frames, if there is one, is a key frame
    without reference. *)
Definition starts_with_key (frames : list EncodedFrame) : Prop :=
  match frames with
  | [] => True
  | fr :: _ => frameType fr = FrameTypeKey /\ NumReferences fr = 0
  end.

(** The input frames that [selectRefFinderForFrame] hands to this finder,
    with a temporal index that is a layer number. *)
Definition routed_here (x : EncodedFrame * RTPVideoHeader) : Prop :=
  RtpHeader.SelectRefFinderType (Some (snd x)) = RtpHeader.RefFinderVP8 /\
  temporal_ok (snd x).

(** The stash records of the frames that the finder holds back while it
    waits for a key frame: every frame whose unwrapped picture id and
    TL0PICIDX are not negative, with its header, the picture id as its id. *)
Fixpoint held_back (pu : FrameIdOnly.pictureIDUnwrapper)
         (tu : tl0PicIdxUnwrapper)
         (inputs : list (EncodedFrame * RTPVideoHeader))
  : list stashedVP8Frame :=
  match inputs with
  | [] => []
  | (fr, h) :: rest =>
    let '(pid, pu') := FrameIdOnly.Unwrap pu (PictureID h) in
    let '(tl0, tu') := UnwrapTL0 tu (TL0PicIdx h) in
    (if (pid <? 0) || (tl0 <? 0) then []
     else [mkStashed (setID pid fr) h pid tl0])
    ++ held_back pu' tu' rest
  end.

(** Delta frames that arrive before the key frame they depend on. *)
Definition early_deltas : list (EncodedFrame * RTPVideoHeader) :=
  [(vp8_frame FrameTypeDelta, vp8_header FrameTypeDelta 11 1 7);
   (vp8_frame FrameTypeDelta, vp8_header FrameTypeDelta 12 0 8);
   (vp8_frame FrameTypeKey, vp8_header FrameTypeKey 10 0 7)].

(** *** In-order streams with temporal layers *)

(** The frames a stream has delivered so far, most recent first, each as
    (temporal layer, picture number): the picture number of the most recent
    frame on the layer [t]. *)
Definition latest_on (t : Z) (hist : list (Z * Z)) : option Z :=
  snd <$> List.find (fun e => fst e =? t) hist.

(** The frames since the most recent base-layer frame, that frame
    included. *)
Fixpoint current_group (hist : list (Z * Z)) : list (Z * Z) :=
  match hist with
  | [] => []
  | e :: rest => if fst e =? 0 then [e] else e :: current_group rest
  end.

(** The most recent frame on the highest layer below [t] that has a frame
    in the group. *)
Fixpoint highest_below (t : nat) (group : list (Z * Z)) : option Z :=
  match t with
  | O => None
  | S t' =>
    match latest_on (Z.of_nat t') group with
    | Some n => Some n
    | None => highest_below t' group
    end
  end.

(** The frame a frame on the layer [tid] depends on: for a base-layer
    frame the previous base-layer frame, for any other frame the most recent
    frame of the highest lower layer present in its group. *)
Definition expected_reference (hist : list (Z * Z)) (tid : Z) : option Z :=
  if tid =? 0 then latest_on 0 hist
  else highest_below (Z.to_nat tid) (current_group hist).

(** What the finder makes of the frame [fr] on the layer [tid] with the
    picture number [n] after the frames of [hist]. *)
Definition layered_emitted (hist : list (Z * Z)) (fr : EncodedFrame)
           (tid n : Z) (fr' : EncodedFrame) : Prop :=
  ID fr' = n /\ frameType fr' = frameType fr /\ Data fr' = Data fr /\
  frameTimestamp fr' = frameTimestamp fr /\
  if isKey fr && (tid =? 0) then NumReferences fr' = 0
  else exists r, expected_reference hist tid = Some r /\
                 NumReferences fr' = 1 /\ getRef 0 (References fr') = r.

(** A stream in order after a frame with the (unbounded) TL0PICIDX [m] and
    the picture number [prev]: every frame, given with its header and its
    true picture number, is on a layer 0..3; a base-layer frame carries the
    next TL0PICIDX and any other frame the current one, modulo 2^8; the
    picture id is the picture number modulo 2^15, and picture numbers move by
    less than 2^14. *)
Fixpoint layered_stream (m prev : Z)
         (stream : list (EncodedFrame * RTPVideoHeader * Z)) : Prop :=
  match stream with
  | [] => True
  | (fr, h, n) :: rest =>
    let m' := if TemporalIdx h =? 0 then m + 1 else m in
    0 <= TemporalIdx h <= 3 /\
    TL0PicIdx h = m' mod 2 ^ 8 /\
    PictureID h = n mod 2 ^ 15 /\
    FrameIdOnly.near prev n /\
    0 <= n < int64_max - 2 ^ 15 /\
    layered_stream m' n rest
  end.

(** Every call returns exactly one frame, the one expected after the
    frames before it. *)
Fixpoint layered_outputs (hist : list (Z * Z))
         (stream : list (EncodedFrame * RTPVideoHeader * Z))
         (outs : list (list EncodedFrame)) : Prop :=
  match stream, outs with
  | [], [] => True
  | (fr, h, n) :: rest, out :: outs =>
    (exists fr', out = [fr'] /\ layered_emitted hist fr (TemporalIdx h) n fr') /\
    layered_outputs ((TemporalIdx h, n) :: hist) rest outs
  | _, _ => False
  end.

(** The layer array holds, for each layer, the picture number plus one of
    the most recent frame of the group on that layer, or zero. *)
Definition layers_of (group : list (Z * Z)) (info : LayerInfo) : Prop :=
  forall t : nat,
    (t <= 3)%nat ->
    match latest_on (Z.of_nat t) group with
    | Some n => getLayer t info = n + 1 /\ 0 <= n < int64_max - 2 ^ 15
    | None => getLayer t info = 0
    end.

(** A finder that follows an in-order stream: both unwrappers at the true
    numbers, nothing stashed, the layer array of the current TL0PICIDX that
    of the current group, and no entry for a later TL0PICIDX. *)
Definition tracking (m prev : Z) (hist : list (Z * Z)) (f : VP8RefFinder)
  : Prop :=
  pictureIDUnwrapper f = FrameIdOnly.mkPidUnwrapper prev true /\
  tl0Unwrapper f = mkTl0Unwrapper m true /\
  gotInitialFrame f = true /\
  stashedFrames f = [] /\
  (exists info, layerInfo f !! m = Some info /\
                layers_of (current_group hist) info) /\
  (forall k, m < k -> layerInfo f !! k = None) /\
  (exists nb, latest_on 0 (current_group hist) = Some nb).

(** A stream with three temporal layers: a key frame, then frames on the
    layers 2, 1, 2 of its group, then the next base-layer frame; the picture
    id and the TL0PICIDX wrap on the way. *)
Definition layered_example : list (EncodedFrame * RTPVideoHeader * Z) :=
  [(vp8_frame FrameTypeKey, vp8_header FrameTypeKey 32767 0 255, 32767);
   (vp8_frame FrameTypeDelta, vp8_header FrameTypeDelta 0 2 255, 32768);
   (vp8_frame FrameTypeDelta, vp8_header FrameTypeDelta 1 1 255, 32769);
   (vp8_frame FrameTypeDelta, vp8_header FrameTypeDelta 2 2 255, 32770);
   (vp8_frame FrameTypeDelta, vp8_header FrameTypeDelta 3 0 0, 32771)].

Section Finder.

(** Go's [sort.Slice] (see the SeqNumOnly finder). *)
Variable sortSlice : forall A : Type, (A -> A -> bool) -> list A -> list A.

(** The order in which [for _, info := range f.layerInfo] visits the map:
    Go leaves it unspecified. *)
Variable rangeOrder : gmap Z LayerInfo -> list (Z * LayerInfo).

(** [getReferences]; [None] is the result [(nil, false)]. *)
Definition getReferences (f : VP8RefFinder) (pid tl0 prevTL0 tid : Z)
  : option (list Z) :=
  let refs :=
    if tid =? 0 then
      match layerInfo f !! prevTL0 with
      | Some info =>
        if layer0 info =? 0 then None else Some [wrap64 (layer0 info - 1)]
      | None => None
      end
    else
      let refs :=
        match layerInfo f !! tl0 with
        | Some info => scanDown (Z.to_nat tid) info
        | None => []
        end in
      let refs :=
        match refs with
        | [] =>
          match layerInfo f !! prevTL0 with
          | Some info => scanDown (Z.to_nat (tid + 1)) info
          | None => []
          end
        | _ => refs
        end in
      let refs :=
        match refs with
        | [] =>
          match List.find (fun kv => negb (layer0 (snd kv) =? 0))
                          (rangeOrder (layerInfo f)) with
          | Some kv => [wrap64 (layer0 (snd kv) - 1)]
          | None => []
          end
        | _ => refs
        end in
      Some refs in
  match refs with
  | Some (r :: rs) => Some (r :: rs)
  | _ => None
  end.

(** [clearOldState] *)
Definition clearOldState (f : VP8RefFinder) (currentTL0 : Z) : VP8RefFinder :=
  mkFinder (pictureIDUnwrapper f) (tl0Unwrapper f)
           (filter (fun kv : Z * LayerInfo => wrap64 (currentTL0 - kv.1) <= 10)
                   (layerInfo f))
           (lastPictureID f) (gotInitialFrame f)
           (List.filter (fun s => wrap64 (lastPictureID f - unwrappedPID s) <? 100)
                        (stashedFrames f)).

Definition stashFrame (f : VP8RefFinder) (frame : EncodedFrame)
           (header : RTPVideoHeader) (pid tl0 : Z) : VP8RefFinder :=
  let stash :=
    if (maxStashedFrames <=? length (stashedFrames f))%nat
    then drop 1 (stashedFrames f)
    else stashedFrames f in
  let stash := stash ++ [mkStashed frame header pid tl0] in
  let stash :=
    sortSlice _ (fun a b => unwrappedPID a <? unwrappedPID b) stash in
  setStashedFrames stash f.

(** [tryProcessStashedFrame]; an empty frame list is the [nil] result, which
    leaves the finder as it was. *)
Definition tryProcessStashedFrame (f : VP8RefFinder) (stashed : stashedVP8Frame)
  : orPanic (list EncodedFrame * VP8RefFinder) :=
  let header := stashedHeader stashed in
  let frame := stashedFrame stashed in
  if (TemporalIdx header =? NoTemporalIdx) || (TL0PicIdx header =? NoTL0PicIdx)
     || (PictureID header =? NoPictureID)
  then Some ([], f)
  else
    let pid := unwrappedPID stashed in
    let tl0 := unwrappedTL0 stashed in
    let tid := clampTid (TemporalIdx header) in
    let prevTL0 := if tid =? 0 then wrap64 (tl0 - 1) else tl0 in
    match getReferences f pid tl0 prevTL0 tid with
    | None => Some ([], f)
    | Some refs =>
      let frame := setID pid frame in
      let frame := setNumReferences (Z.of_nat (length refs)) frame in
      let frame := writeReferences refs frame in
      match updateLayerInfo (layerInfo f) tl0 tid pid with
      | None => None
      | Some li =>
        Some ([frame],
              mkFinder (pictureIDUnwrapper f) (tl0Unwrapper f) li pid
                       (gotInitialFrame f) (stashedFrames f))
      end
    end.

(** The inner loop of [tryResolveStashedFrames] up to its [break]: the first
    stashed frame that can be processed, the frames it gives, the finder
    after it, and the stash without it. *)
Fixpoint firstProcessable (f : VP8RefFinder)
         (pre l : list stashedVP8Frame)
  : orPanic (option (list EncodedFrame * VP8RefFinder)) :=
  match l with
  | [] => Some None
  | s :: rest =>
    match tryProcessStashedFrame f s with
    | None => None
    | Some ([], _) => firstProcessable f (pre ++ [s]) rest
    | Some (frames, f') => Some (Some (frames, setStashedFrames (pre ++ rest) f'))
    end
  end.

(** The outer loop: every successful round shortens the stash. *)
Fixpoint resolveLoop (fuel : nat) (f : VP8RefFinder)
  : orPanic (list EncodedFrame * VP8RefFinder) :=
  match firstProcessable f [] (stashedFrames f) with
  | None => None
  | Some None => Some ([], f)
  | Some (Some (frames, f')) =>
    match fuel with
    | O => Some ([], f)
    | S fuel =>
      match resolveLoop fuel f' with
      | None => None
      | Some (result, f'') => Some (frames ++ result, f'')
      end
    end
  end.

Definition tryResolveStashedFrames (f : VP8RefFinder)
  : orPanic (list EncodedFrame * VP8RefFinder) :=
  resolveLoop (length (stashedFrames f)) f.

Definition handleKeyframe (f : VP8RefFinder) (frame : EncodedFrame)
           (header : RTPVideoHeader) (pid tl0 tid : Z)
  : orPanic (list EncodedFrame * VP8RefFinder) :=
  let frame := setNumReferences 0 frame in
  let f := mkFinder (pictureIDUnwrapper f) (tl0Unwrapper f)
                    (initLayerInfo (layerInfo f) tl0 pid)
                    pid true (stashedFrames f) in
  let f := clearOldState f tl0 in
  match tryResolveStashedFrames f with
  | None => None
  | Some (resolved, f) => Some (frame :: resolved, f)
  end.

Definition handleDeltaFrame (f : VP8RefFinder) (frame : EncodedFrame)
           (header : RTPVideoHeader) (pid tl0 tid : Z)
  : orPanic (list EncodedFrame * VP8RefFinder) :=
  if negb (gotInitialFrame f) then Some ([], stashFrame f frame header pid tl0)
  else
    let prevTL0 := if tid =? 0 then wrap64 (tl0 - 1) else tl0 in
    match getReferences f pid tl0 prevTL0 tid with
    | None => Some ([], stashFrame f frame header pid tl0)
    | Some refs =>
      let frame := setNumReferences (Z.of_nat (length refs)) frame in
      let frame := writeReferences refs frame in
      match updateLayerInfo (layerInfo f) tl0 tid pid with
      | None => None
      | Some li =>
        let f := mkFinder (pictureIDUnwrapper f) (tl0Unwrapper f) li pid
                          (gotInitialFrame f) (stashedFrames f) in
        match tryResolveStashedFrames f with
        | None => None
        | Some (resolved, f) => Some (frame :: resolved, f)
        end
      end
    end.

Definition fallbackManageFrame (f : VP8RefFinder) (frame : EncodedFrame)
           (header : RTPVideoHeader) : list EncodedFrame * VP8RefFinder :=
  if negb (PictureID header =? NoPictureID) then
    let '(pid, pu) := FrameIdOnly.Unwrap (pictureIDUnwrapper f) (PictureID header) in
    let frame := setID pid frame in
    let frame :=
      if isKey frame then setNumReferences 0 frame
      else setReference 0 (wrap64 (ID frame - 1)) (setNumReferences 1 frame) in
    ([frame], setUnwrappers pu (tl0Unwrapper f) f)
  else
    let frame :=
      if isKey frame then setNumReferences 0 frame
      else setReference 0 (wrap64 (ID frame - 1)) (setNumReferences 1 frame) in
    ([frame], f).

(** [ManageFrame]; the empty list is the [nil] result. *)
Definition ManageFrame (f : VP8RefFinder) (frame : option EncodedFrame)
           (header : option RTPVideoHeader)
  : orPanic (list EncodedFrame * VP8RefFinder) :=
  match frame, header with
  | Some frame, Some header =>
    if (TemporalIdx header =? NoTemporalIdx) || (TL0PicIdx header =? NoTL0PicIdx)
       || (PictureID header =? NoPictureID)
    then Some (fallbackManageFrame f frame header)
    else
      let '(pid, pu) := FrameIdOnly.Unwrap (pictureIDUnwrapper f) (PictureID header) in
      let '(tl0, tu) := UnwrapTL0 (tl0Unwrapper f) (TL0PicIdx header) in
      let f := setUnwrappers pu tu f in
      if (pid <? 0) || (tl0 <? 0) then Some ([], f)
      else
        let frame := setID pid frame in
        let tid := clampTid (TemporalIdx header) in
        if isKey frame && (tid =? 0) then handleKeyframe f frame header pid tl0 tid
        else handleDeltaFrame f frame header pid tl0 tid
  | _, _ => Some ([], f)
  end.

(** [ClearTo] *)
Definition ClearTo (f : VP8RefFinder) (pictureID : Z) : VP8RefFinder :=
  setStashedFrames
    (List.filter (fun s => unwrappedPID s >=? pictureID) (stashedFrames f)) f.

(** Frames through one finder, stopping at a panic. *)
Fixpoint manageAll (f : VP8RefFinder)
         (inputs : list (EncodedFrame * RTPVideoHeader))
  : orPanic (list (list EncodedFrame)) :=
  match inputs with
  | [] => Some []
  | (fr, h) :: rest =>
    match ManageFrame f (Some fr) (Some h) with
    | None => None
    | Some (out, f') =>
      match manageAll f' rest with
      | None => None
      | Some outs => Some (out :: outs)
      end
    end
  end.

(** The finder after these frames. *)
Fixpoint finderAfter (f : VP8RefFinder)
         (inputs : list (EncodedFrame * RTPVideoHeader))
  : orPanic VP8RefFinder :=
  match inputs with
  | [] => Some f
  | (fr, h) :: rest =>
    match ManageFrame f (Some fr) (Some h) with
    | None => None
    | Some (_, f') => finderAfter f' rest
    end
  end.

(** *** The stash-resolution loop never stops for lack of fuel *)

Lemma firstProcessable_length f pre l frames f' :
  firstProcessable f pre l = Some (Some (frames, f')) ->
  S (length (stashedFrames f')) = length (pre ++ l).
Proof.
  revert pre. induction l as [|s rest IH]; intros pre; cbn; [discriminate|].
  destruct (tryProcessStashedFrame f s) as [[[|fr frs] f1]|]; [| |discriminate].
  - intros H. rewrite (IH _ H), <- app_assoc. reflexivity.
  - intros [= <- <-]. cbn. rewrite !length_app. cbn. lia.
Qed.

Lemma VP8_resolveLoop_fuel fuel m f :
  (length (stashedFrames f) <= fuel)%nat ->
  resolveLoop (fuel + m) f = resolveLoop fuel f.
Proof.
  revert f. induction fuel as [|fuel IH]; intros f Hlen.
  - destruct (stashedFrames f) as [|x l] eqn:El; [|cbn in Hlen; lia].
    destruct m; cbn; now rewrite El.
  - cbn.
    destruct (firstProcessable f [] (stashedFrames f)) as [[[frames f']|]|] eqn:Ef;
      try reflexivity.
    apply firstProcessable_length in Ef. cbn in Ef.
    rewrite IH by lia. reflexivity.
Qed.

(** *** References of emitted frames *)

Lemma getReferences_nonempty f pid tl0 prevTL0 tid refs :
  getReferences f pid tl0 prevTL0 tid = Some refs -> refs <> [].
Proof.
  unfold getReferences.
  match goal with |- match ?x with _ => _ end = _ -> _ => destruct x as [[|r rs]|] end;
    try discriminate.
  intros [= <-]. discriminate.
Qed.

Lemma writeReferences_fields refs fr :
  ID (writeReferences refs fr) = ID fr /\
  NumReferences (writeReferences refs fr) = NumReferences fr /\
  frameType (writeReferences refs fr) = frameType fr.
Proof.
  unfold writeReferences.
  generalize (imap (fun (i : nat) (r : Z) => (i, r)) refs). intros l.
  revert fr. induction l as [|x l IH]; intros fr; cbn [fold_left];
    [now repeat split|].
  destruct (IH (if (x.1 <? 5)%nat then setReference x.1 x.2 fr else fr))
    as (H1 & H2 & H3).
  rewrite H1, H2, H3. destruct (x.1 <? 5)%nat; now repeat split.
Qed.

(** *** The emitted frames have at most one reference *)

Lemma scanDown_length n info : (length (scanDown n info) <= 1)%nat.
Proof.
  induction n as [|n IH]; cbn; [lia|].
  destruct (negb _); [cbn; lia|exact IH].
Qed.

Lemma getReferences_single f pid tl0 prevTL0 tid refs :
  getReferences f pid tl0 prevTL0 tid = Some refs -> length refs = 1%nat.
Proof.
  unfold getReferences.
  assert (Hfin : forall o : option (list Z),
             (forall l, o = Some l -> (length l <= 1)%nat) ->
             match o with Some (r :: rs) => Some (r :: rs) | _ => None end
             = Some refs -> length refs = 1%nat).
  { intros [[|r rs]|] Hl; try discriminate. intros [= <-].
    specialize (Hl _ eq_refl). cbn in *. lia. }
  apply Hfin. intros l.
  destruct (tid =? 0).
  - destruct (layerInfo f !! prevTL0) as [info|]; [|discriminate].
    destruct (layer0 info =? 0); [discriminate|]. intros [= <-]. cbn. lia.
  - intros [= <-].
    assert (H1 : (length (match layerInfo f !! tl0 with
                          | Some info => scanDown (Z.to_nat tid) info
                          | None => []
                          end) <= 1)%nat).
    { destruct (layerInfo f !! tl0); [apply scanDown_length|cbn; lia]. }
    destruct (match layerInfo f !! tl0 with
              | Some info => scanDown (Z.to_nat tid) info
              | None => []
              end) as [|r1 l1]; [|exact H1].
    assert (H2 : (length (match layerInfo f !! prevTL0 with
                          | Some info => scanDown (Z.to_nat (tid + 1)) info
                          | None => []
                          end) <= 1)%nat).
    { destruct (layerInfo f !! prevTL0); [apply scanDown_length|cbn; lia]. }
    destruct (match layerInfo f !! prevTL0 with
              | Some info => scanDown (Z.to_nat (tid + 1)) info
              | None => []
              end) as [|r2 l2]; [|exact H2].
    destruct (List.find _ _); cbn; lia.
Qed.

Lemma tryProcessStashedFrame_refs f s frames f' :
  tryProcessStashedFrame f s = Some (frames, f') ->
  Forall at_most_one_reference frames.
Proof.
  unfold tryProcessStashedFrame.
  destruct (_ || _); [intros [= <- <-]; constructor|].
  destruct (getReferences _ _ _ _ _) as [refs|] eqn:Er;
    [|intros [= <- <-]; constructor].
  destruct (updateLayerInfo _ _ _ _); [|discriminate].
  intros [= <- <-]. constructor; [|constructor].
  right. destruct (writeReferences_fields refs
                     (setNumReferences (Z.of_nat (length refs))
                        (setID (unwrappedPID s) (stashedFrame s))))
    as (_ & -> & _).
  cbn. now rewrite (getReferences_single _ _ _ _ _ _ Er).
Qed.

Lemma firstProcessable_refs f pre l frames f' :
  firstProcessable f pre l = Some (Some (frames, f')) ->
  Forall at_most_one_reference frames.
Proof.
  revert pre. induction l as [|s rest IH]; intros pre; cbn; [discriminate|].
  destruct (tryProcessStashedFrame f s) as [[[|fr frs] f1]|] eqn:Et;
    [| |discriminate].
  - apply IH.
  - intros [= <- <-]. exact (tryProcessStashedFrame_refs _ _ _ _ Et).
Qed.

Lemma resolveLoop_refs fuel f out f' :
  resolveLoop fuel f = Some (out, f') -> Forall at_most_one_reference out.
Proof.
  revert f out f'. induction fuel as [|fuel IH]; intros f out f'; cbn.
  - destruct (firstProcessable f [] (stashedFrames f)) as [[[frames f1]|]|];
      try discriminate; intros [= <- <-]; constructor.
  - destruct (firstProcessable f [] (stashedFrames f)) as [[[frames f1]|]|] eqn:Ef;
      try discriminate; [|intros [= <- <-]; constructor].
    destruct (resolveLoop fuel f1) as [[result f2]|] eqn:Er; [|discriminate].
    intros [= <- <-]. apply Forall_app. split.
    + exact (firstProcessable_refs _ _ _ _ _ Ef).
    + exact (IH _ _ _ Er).
Qed.

(** Whatever the state and the input, no frame that [ManageFrame] returns
    has more than one reference: a frame has room for five, yet
    [getReferences] never finds more than one, and the fallback path sets
    none or one. *)
Theorem VP8_emits_at_most_one_reference
        (f : VP8RefFinder) (frame : option EncodedFrame)
        (header : option RTPVideoHeader)
        (out : list EncodedFrame) (f' : VP8RefFinder) :
  ManageFrame f frame header = Some (out, f') ->
  Forall at_most_one_reference out.
Proof.
  unfold ManageFrame.
  destruct frame as [fr|]; [|intros [= <- <-]; constructor].
  destruct header as [h|]; [|intros [= <- <-]; constructor].
  destruct (_ || _).
  - unfold fallbackManageFrame.
    destruct (negb _).
    + destruct (FrameIdOnly.Unwrap _ _) as [pid pu].
      destruct (isKey _); intros [= <- <-]; (constructor; [|constructor]);
        first [left; reflexivity|right; reflexivity].
    + destruct (isKey _); intros [= <- <-]; (constructor; [|constructor]);
        first [left; reflexivity|right; reflexivity].
  - destruct (FrameIdOnly.Unwrap _ _) as [pid pu].
    destruct (UnwrapTL0 _ _) as [tl0 tu].
    destruct (_ || _); [intros [= <- <-]; constructor|].
    destruct (_ && _).
    + unfold handleKeyframe.
      destruct (tryResolveStashedFrames _) as [[resolved f2]|] eqn:Er;
        [|discriminate].
      intros [= <- <-]. constructor; [left; reflexivity|].
      exact (resolveLoop_refs _ _ _ _ Er).
    + unfold handleDeltaFrame.
      destruct (negb _); [intros [= <- <-]; constructor|].
      destruct (getReferences _ _ _ _ _) as [refs|] eqn:Eg;
        [|intros [= <- <-]; constructor].
      destruct (updateLayerInfo _ _ _ _) as [li|]; [|discriminate].
      destruct (tryResolveStashedFrames _) as [[resolved f2]|] eqn:Er;
        [|discriminate].
      intros [= <- <-]. constructor; [|exact (resolveLoop_refs _ _ _ _ Er)].
      right.
      match goal with |- NumReferences (writeReferences refs ?x) = 1 =>
        destruct (writeReferences_fields refs x) as (_ & -> & _) end.
      cbn. now rewrite (getReferences_single _ _ _ _ _ _ Eg).
Qed.

(** *** No run-time panic for temporal indices that are layer numbers *)

Lemma updateLayerInfo_clamped m tl0 t pid :
  0 <= t -> exists li, updateLayerInfo m tl0 (clampTid t) pid = Some li.
Proof.
  intros Ht. unfold updateLayerInfo, clampTid, setLayer, maxTemporalLayers.
  destruct (Z.geb_spec t 4); [cbn; eauto|].
  assert (Hc : t = 0 \/ t = 1 \/ t = 2 \/ t = 3) by lia.
  destruct Hc as [E | [E | [E | E]]]; subst t; cbn; eauto.
Qed.

Lemma tryProcessStashedFrame_total f s :
  temporal_ok (stashedHeader s) ->
  exists frames f1, tryProcessStashedFrame f s = Some (frames, f1).
Proof.
  unfold temporal_ok, tryProcessStashedFrame. intros Ht.
  destruct (Z.eqb_spec (TemporalIdx (stashedHeader s)) NoTemporalIdx) as [|Hne];
    cbn [orb]; [eauto|].
  destruct (_ || _); [eauto|].
  destruct (getReferences _ _ _ _ _); [|eauto].
  destruct (updateLayerInfo_clamped (layerInfo f) (unwrappedTL0 s)
              (TemporalIdx (stashedHeader s)) (unwrappedPID s)) as [li ->];
    [unfold NoTemporalIdx in Hne; lia|eauto].
Qed.

Lemma tryProcessStashedFrame_stash f s frames f1 :
  tryProcessStashedFrame f s = Some (frames, f1) ->
  stashedFrames f1 = stashedFrames f.
Proof.
  unfold tryProcessStashedFrame.
  destruct (_ || _); [now intros [= <- <-]|].
  destruct (getReferences _ _ _ _ _); [|now intros [= <- <-]].
  destruct (updateLayerInfo _ _ _ _); [|discriminate].
  now intros [= <- <-].
Qed.

Lemma firstProcessable_total f pre l :
  Forall (fun s => temporal_ok (stashedHeader s)) pre ->
  Forall (fun s => temporal_ok (stashedHeader s)) l ->
  exists r, firstProcessable f pre l = Some r /\
            forall frames f1, r = Some (frames, f1) -> stash_temporal_ok f1.
Proof.
  revert pre. induction l as [|s rest IH]; intros pre Hpre Hl; cbn.
  - exists None. split; [reflexivity|discriminate].
  - inversion Hl as [|? ? Hs Hrest]; subst.
    destruct (tryProcessStashedFrame_total f s Hs) as (frames & f1 & ->).
    destruct frames as [|fr frs].
    + apply IH; [|exact Hrest]. apply Forall_app. split; [exact Hpre|].
      now constructor.
    + eexists. split; [reflexivity|]. intros frames f2 [= <- <-].
      unfold stash_temporal_ok. cbn. apply Forall_app. now split.
Qed.

Lemma resolveLoop_total fuel f :
  stash_temporal_ok f ->
  exists out f1, resolveLoop fuel f = Some (out, f1) /\ stash_temporal_ok f1.
Proof.
  revert f. induction fuel as [|fuel IH]; intros f Hf; cbn.
  - destruct (firstProcessable_total f [] (stashedFrames f)) as (r & -> & _);
      [constructor|exact Hf|].
    destruct r as [[frames f1]|]; eauto.
  - destruct (firstProcessable_total f [] (stashedFrames f)) as (r & -> & Hr);
      [constructor|exact Hf|].
    destruct r as [[frames f1]|]; [|eauto].
    destruct (IH f1 (Hr _ _ eq_refl)) as (out & f2 & -> & H2). eauto.
Qed.

Section WithSort.

Hypothesis sortSlice_permutation :
  forall (A : Type) (less : A -> A -> bool) (l : list A),
    Permutation l (sortSlice A less l).

(** *** Which path a frame takes (C10) *)

Lemma VP8_stashFrame_stashed f fr h pid tl0 :
  In (mkStashed fr h pid tl0) (stashedFrames (stashFrame f fr h pid tl0)).
Proof.
  unfold stashFrame. cbn [setStashedFrames stashedFrames].
  eapply Permutation_in; [apply sortSlice_permutation|].
  apply in_or_app. right. now left.
Qed.

Lemma updateLayerInfo_keeps m tl0 tid pid li :
  tid <> 0 -> updateLayerInfo m tl0 tid pid = Some li ->
  (forall k, k <> tl0 -> li !! k = m !! k) /\
  exists info,
    li !! tl0 = Some info /\
    layer0 info = layer0 (default zeroLayers (m !! tl0)).
Proof.
  intros Htid. unfold updateLayerInfo.
  destruct (setLayer tid (wrap64 (pid + 1)) (default zeroLayers (m !! tl0)))
    as [info|] eqn:Es; [|discriminate].
  intros [= <-]. split.
  - intros k Hk. now rewrite lookup_insert_ne by congruence.
  - exists info. split; [apply lookup_insert_eq|].
    revert Es. unfold setLayer.
    rewrite (proj2 (Z.eqb_neq _ _) Htid).
    destruct (tid =? 1); [now intros [= <-]|].
    destruct (tid =? 2); [now intros [= <-]|].
    destruct (tid =? 3); [now intros [= <-]|discriminate].
Qed.

(** C10: with the temporal index clamped to [tid], [ManageFrame] takes the
    key-frame path exactly for a key frame with [tid = 0].  A key frame with
    [tid <> 0] goes down the delta path.  Either nothing is emitted and the
    frame is stashed (always so before the first base-layer key frame): it
    is then in the stash with its header, still a key frame with the
    reference count it came with, and the layer map, the initial-frame flag
    and the last picture id are what they were.  Or it is emitted with the
    references [getReferences] finds, at least one, and the layer map is
    updated at [(tl0, tid)] instead of being re-initialised: the entries of
    every other TL0PICIDX and the base-layer entry of this one stay.  A key
    frame with [tid = 0] is emitted with no reference. *)
Theorem key_frame_path_needs_base_layer
        (f : VP8RefFinder) (fr : EncodedFrame) (h : RTPVideoHeader)
        (pid tl0 : Z) (pu : FrameIdOnly.pictureIDUnwrapper)
        (tu : tl0PicIdxUnwrapper) :
  TemporalIdx h <> NoTemporalIdx ->
  TL0PicIdx h <> NoTL0PicIdx ->
  PictureID h <> NoPictureID ->
  FrameIdOnly.Unwrap (pictureIDUnwrapper f) (PictureID h) = (pid, pu) ->
  UnwrapTL0 (tl0Unwrapper f) (TL0PicIdx h) = (tl0, tu) ->
  0 <= pid -> 0 <= tl0 ->
  let tid := clampTid (TemporalIdx h) in
  let f1 := setUnwrappers pu tu f in
  let fr1 := setID pid fr in
  ManageFrame f (Some fr) (Some h)
  = (if isKey fr && (tid =? 0) then handleKeyframe f1 fr1 h pid tl0 tid
     else handleDeltaFrame f1 fr1 h pid tl0 tid) /\
  (frameType fr = FrameTypeKey -> tid <> 0 ->
   (gotInitialFrame f = false ->
    ManageFrame f (Some fr) (Some h) = Some ([], stashFrame f1 fr1 h pid tl0)) /\
   forall out f',
     ManageFrame f (Some fr) (Some h) = Some (out, f') ->
     (out = [] /\ f' = stashFrame f1 fr1 h pid tl0 /\
      In (mkStashed fr1 h pid tl0) (stashedFrames f') /\
      frameType fr1 = FrameTypeKey /\
      NumReferences fr1 = NumReferences fr /\
      layerInfo f' = layerInfo f /\
      gotInitialFrame f' = gotInitialFrame f /\
      lastPictureID f' = lastPictureID f) \/
     (exists fr' rest refs li,
         out = fr' :: rest /\
         getReferences f1 pid tl0 tl0 tid = Some refs /\
         NumReferences fr' = Z.of_nat (length refs) /\
         1 <= NumReferences fr' /\
         ID fr' = pid /\ frameType fr' = FrameTypeKey /\
         updateLayerInfo (layerInfo f) tl0 tid pid = Some li /\
         (forall k, k <> tl0 -> li !! k = layerInfo f !! k) /\
         (exists info,
             li !! tl0 = Some info /\
             layer0 info = layer0 (default zeroLayers (layerInfo f !! tl0))) /\
         tryResolveStashedFrames
           (mkFinder pu tu li pid (gotInitialFrame f) (stashedFrames f))
         = Some (rest, f'))) /\
  (frameType fr = FrameTypeKey -> tid = 0 ->
   forall out f',
     ManageFrame f (Some fr) (Some h) = Some (out, f') ->
     exists fr' rest,
       out = fr' :: rest /\ NumReferences fr' = 0 /\ ID fr' = pid /\
       tryResolveStashedFrames
         (clearOldState
            (mkFinder pu tu (initLayerInfo (layerInfo f) tl0 pid) pid true
                      (stashedFrames f)) tl0)
       = Some (rest, f')).
Proof.
  intros Ht Hl Hp Epid Etl0 Hpid Htl0 tid f1 fr1.
  assert (Edisp : ManageFrame f (Some fr) (Some h)
                  = (if isKey fr && (tid =? 0)
                     then handleKeyframe f1 fr1 h pid tl0 tid
                     else handleDeltaFrame f1 fr1 h pid tl0 tid)).
  { unfold ManageFrame.
    rewrite (proj2 (Z.eqb_neq _ _) Ht), (proj2 (Z.eqb_neq _ _) Hl),
            (proj2 (Z.eqb_neq _ _) Hp).
    cbn [orb]. rewrite Epid, Etl0.
    rewrite (proj2 (Z.ltb_ge _ _) Hpid), (proj2 (Z.ltb_ge _ _) Htl0).
    cbn [orb]. reflexivity. }
  assert (Hstash : forall out f',
             Some (@nil EncodedFrame, stashFrame f1 fr1 h pid tl0)
             = Some (out, f') ->
             frameType fr = FrameTypeKey ->
             out = [] /\ f' = stashFrame f1 fr1 h pid tl0 /\
             In (mkStashed fr1 h pid tl0) (stashedFrames f') /\
             frameType fr1 = FrameTypeKey /\
             NumReferences fr1 = NumReferences fr /\
             layerInfo f' = layerInfo f /\
             gotInitialFrame f' = gotInitialFrame f /\
             lastPictureID f' = lastPictureID f).
  { intros out f' [= <- <-] Hk.
    split; [reflexivity|]. split; [reflexivity|].
    split; [apply VP8_stashFrame_stashed|].
    split; [exact Hk|]. repeat split. }
  split; [exact Edisp|]. split.
  - intros Hk Htid. rewrite Edisp.
    assert (Hkey : isKey fr = true) by (unfold isKey; now rewrite Hk).
    rewrite Hkey, (proj2 (Z.eqb_neq _ _) Htid). cbn [andb].
    unfold handleDeltaFrame. rewrite (proj2 (Z.eqb_neq _ _) Htid).
    change (gotInitialFrame f1) with (gotInitialFrame f).
    change (layerInfo f1) with (layerInfo f).
    change (pictureIDUnwrapper f1) with pu.
    change (tl0Unwrapper f1) with tu.
    change (stashedFrames f1) with (stashedFrames f).
    split; [intros ->; reflexivity|].
    intros out f'. destruct (gotInitialFrame f) eqn:Eg; cbn [negb].
    2:{ intros E. left. now apply Hstash. }
    destruct (getReferences f1 pid tl0 tl0 tid) as [refs|] eqn:Er.
    2:{ intros E. left. now apply Hstash. }
    destruct (updateLayerInfo (layerInfo f) tl0 tid pid) as [li|] eqn:Eu;
      [|intros [=]].
    destruct (tryResolveStashedFrames
                (mkFinder pu tu li pid true (stashedFrames f)))
      as [[resolved f2]|] eqn:Etr; [|intros [=]].
    intros [= <- <-]. right.
    exists (writeReferences refs
              (setNumReferences (Z.of_nat (length refs)) fr1)),
           resolved, refs, li.
    destruct (writeReferences_fields refs
                (setNumReferences (Z.of_nat (length refs)) fr1))
      as (H1 & H2 & H3).
    pose proof (getReferences_nonempty _ _ _ _ _ _ Er) as Hne.
    destruct (updateLayerInfo_keeps _ _ _ _ _ Htid Eu) as [Hother Hbase].
    rewrite H1, H2, H3.
    cbn [NumReferences setNumReferences ID frameType fr1 setID].
    split; [reflexivity|]. split; [reflexivity|]. split; [reflexivity|].
    split; [destruct refs; [congruence|cbn [length]; lia]|].
    split; [reflexivity|]. split; [exact Hk|]. split; [reflexivity|].
    split; [exact Hother|]. split; [exact Hbase|exact Etr].
  - intros Hk Htid out f'. rewrite Edisp.
    assert (Hkey : isKey fr = true) by (unfold isKey; now rewrite Hk).
    rewrite Hkey, Htid. cbn [andb Z.eqb].
    unfold handleKeyframe.
    change (layerInfo f1) with (layerInfo f).
    change (pictureIDUnwrapper f1) with pu.
    change (tl0Unwrapper f1) with tu.
    change (stashedFrames f1) with (stashedFrames f).
    match goal with |- context [tryResolveStashedFrames ?f0] =>
      destruct (tryResolveStashedFrames f0) as [[resolved f2]|] eqn:Etr;
        [|intros [=]] end.
    intros [= <- <-]. exists (setNumReferences 0 fr1), resolved.
    repeat split; assumption.
Qed.

Lemma VP8_stashFrame_temporal_ok f fr h pid tl0 :
  stash_temporal_ok f -> temporal_ok h ->
  stash_temporal_ok (stashFrame f fr h pid tl0).
Proof.
  intros Hf Hh. unfold stash_temporal_ok, stashFrame.
  cbn [setStashedFrames stashedFrames].
  eapply Permutation_Forall; [apply sortSlice_permutation|].
  apply Forall_app. split.
  - destruct (_ <=? _)%nat; [|exact Hf]. now apply Forall_drop.
  - constructor; [exact Hh|constructor].
Qed.

Lemma VP8_ManageFrame_total f fr h :
  stash_temporal_ok f -> temporal_ok h ->
  exists out f1,
    ManageFrame f (Some fr) (Some h) = Some (out, f1) /\ stash_temporal_ok f1.
Proof.
  intros Hf Hh. unfold ManageFrame.
  destruct (Z.eqb_spec (TemporalIdx h) NoTemporalIdx) as [|Hne]; cbn [orb].
  { unfold fallbackManageFrame. destruct (negb _).
    - destruct (FrameIdOnly.Unwrap _ _) as [pid pu]. eauto.
    - eauto. }
  destruct (_ || _).
  { unfold fallbackManageFrame. destruct (negb _).
    - destruct (FrameIdOnly.Unwrap _ _) as [pid pu]. eauto.
    - eauto. }
  destruct (FrameIdOnly.Unwrap _ _) as [pid pu].
  destruct (UnwrapTL0 _ _) as [tl0 tu].
  destruct (_ || _); [eauto|].
  assert (Ht : 0 <= TemporalIdx h)
    by (unfold temporal_ok, NoTemporalIdx in *; lia).
  destruct (_ && _).
  - unfold handleKeyframe.
    match goal with |- context [tryResolveStashedFrames ?f0] =>
      destruct (resolveLoop_total (length (stashedFrames f0)) f0)
        as (out & f1 & E & H1) end.
    { unfold stash_temporal_ok, clearOldState. cbn [stashedFrames].
      apply SeqNumOnly.Forall_list_filter. exact Hf. }
    unfold tryResolveStashedFrames. rewrite E. eauto.
  - unfold handleDeltaFrame.
    destruct (negb _).
    { eexists _, _. split; [reflexivity|].
      now apply VP8_stashFrame_temporal_ok. }
    destruct (getReferences _ _ _ _ _).
    2:{ eexists _, _. split; [reflexivity|].
        now apply VP8_stashFrame_temporal_ok. }
    cbn [layerInfo setUnwrappers].
    destruct (updateLayerInfo_clamped (layerInfo f) tl0 (TemporalIdx h) pid Ht)
      as [li ->].
    match goal with |- context [tryResolveStashedFrames ?f0] =>
      destruct (resolveLoop_total (length (stashedFrames f0)) f0)
        as (out & f1 & E & H1) end.
    { exact Hf. }
    unfold tryResolveStashedFrames. rewrite E. eauto.
Qed.

(** A whole stream of frames goes through the finder without a run-time
    panic when every header's temporal index is absent (-1) or a layer
    number (at least 0): the index into the four-entry layer array is then
    always inside it. *)
Theorem VP8_manageAll_never_panics
        (f : VP8RefFinder) (inputs : list (EncodedFrame * RTPVideoHeader)) :
  stash_temporal_ok f ->
  Forall (fun x => temporal_ok (snd x)) inputs ->
  exists outs, manageAll f inputs = Some outs /\ length outs = length inputs.
Proof.
  revert f. induction inputs as [|[fr h] rest IH]; intros f Hf Hin;
    cbn [manageAll].
  - exists []. now split.
  - inversion Hin as [|? ? Hh Hrest]; subst. cbn [snd] in Hh.
    destruct (VP8_ManageFrame_total f fr h Hf Hh) as (out & f1 & -> & H1).
    destruct (IH f1 H1 Hrest) as (outs & -> & Hlen).
    exists (out :: outs). split; [reflexivity|]. cbn. now rewrite Hlen.
Qed.

(** *** The stash stays bounded *)

Lemma VP8_resolveLoop_stash fuel f out f' :
  resolveLoop fuel f = Some (out, f') ->
  (length (stashedFrames f') <= length (stashedFrames f))%nat.
Proof.
  revert f out f'. induction fuel as [|fuel IH]; intros f out f'; cbn.
  - destruct (firstProcessable f [] (stashedFrames f)) as [[[frames f1]|]|];
      try discriminate; intros [= <- <-]; lia.
  - destruct (firstProcessable f [] (stashedFrames f)) as [[[frames f1]|]|] eqn:Ef;
      try discriminate; [|intros [= <- <-]; lia].
    destruct (resolveLoop fuel f1) as [[result f2]|] eqn:Er; [|discriminate].
    intros [= <- <-]. apply firstProcessable_length in Ef. cbn in Ef.
    specialize (IH _ _ _ Er). lia.
Qed.

Lemma VP8_stashFrame_length f fr h pid tl0 :
  (length (stashedFrames f) <= maxStashedFrames)%nat ->
  (length (stashedFrames (stashFrame f fr h pid tl0)) <= maxStashedFrames)%nat.
Proof.
  intros Hlen. unfold stashFrame. cbn [setStashedFrames stashedFrames].
  rewrite <- (Permutation_length (sortSlice_permutation _ _ _)).
  rewrite length_app. cbn [length].
  destruct (Nat.leb_spec maxStashedFrames (length (stashedFrames f))).
  - rewrite length_drop. unfold maxStashedFrames in *. lia.
  - lia.
Qed.

(** The stash never holds more than [maxStashedFrames] = 100 frames: a
    call of [ManageFrame] that returns, on a finder within the bound, leaves
    it within the bound. *)
Theorem VP8_stash_bounded (f : VP8RefFinder) (frame : option EncodedFrame)
        (header : option RTPVideoHeader)
        (out : list EncodedFrame) (f' : VP8RefFinder) :
  (length (stashedFrames f) <= maxStashedFrames)%nat ->
  ManageFrame f frame header = Some (out, f') ->
  (length (stashedFrames f') <= maxStashedFrames)%nat.
Proof.
  intros Hlen. unfold ManageFrame.
  destruct frame as [fr|]; [|now intros [= <- <-]].
  destruct header as [h|]; [|now intros [= <- <-]].
  destruct (_ || _).
  - unfold fallbackManageFrame. destruct (negb _).
    + destruct (FrameIdOnly.Unwrap _ _) as [pid pu]. now intros [= <- <-].
    + now intros [= <- <-].
  - destruct (FrameIdOnly.Unwrap _ _) as [pid pu].
    destruct (UnwrapTL0 _ _) as [tl0 tu].
    destruct (_ || _); [now intros [= <- <-]|].
    destruct (_ && _).
    + unfold handleKeyframe.
      destruct (tryResolveStashedFrames _) as [[resolved f2]|] eqn:Er;
        [|discriminate].
      intros [= <- <-]. apply VP8_resolveLoop_stash in Er.
      cbn [clearOldState stashedFrames setUnwrappers] in Er.
      match type of Er with
      | (_ <= length (List.filter ?p ?l))%nat =>
        pose proof (filter_length_le p l)
      end.
      lia.
    + unfold handleDeltaFrame.
      destruct (negb _);
        [intros [= <- <-]; now apply VP8_stashFrame_length|].
      destruct (getReferences _ _ _ _ _) as [refs|];
        [|intros [= <- <-]; now apply VP8_stashFrame_length].
      destruct (updateLayerInfo _ _ _ _) as [li|]; [|discriminate].
      destruct (tryResolveStashedFrames _) as [[resolved f2]|] eqn:Er;
        [|discriminate].
      intros [= <- <-]. apply VP8_resolveLoop_stash in Er.
      cbn [stashedFrames setUnwrappers] in Er. lia.
Qed.

(** *** Nothing is emitted before a key frame *)

Lemma ManageFrame_before_key f fr h :
  gotInitialFrame f = false -> stash_temporal_ok f -> routed_here (fr, h) ->
  (exists f', ManageFrame f (Some fr) (Some h) = Some ([], f') /\
              gotInitialFrame f' = false /\ stash_temporal_ok f') \/
  (isKey fr = true /\
   exists fr' resolved f',
     ManageFrame f (Some fr) (Some h) = Some (fr' :: resolved, f') /\
     frameType fr' = FrameTypeKey /\ NumReferences fr' = 0 /\
     stash_temporal_ok f').
Proof.
  intros Hg Hf [Hsel Hh]. cbn [snd] in Hsel, Hh.
  destruct (VP8_ManageFrame_total f fr h Hf Hh) as (out & f1 & E & H1).
  rewrite E. revert E. unfold ManageFrame.
  assert (G : (TemporalIdx h =? NoTemporalIdx) || (TL0PicIdx h =? NoTL0PicIdx)
              || (PictureID h =? NoPictureID) = false).
  { unfold RtpHeader.SelectRefFinderType in Hsel.
    destruct (TemporalIdx h =? NoTemporalIdx), (TL0PicIdx h =? NoTL0PicIdx),
             (PictureID h =? NoPictureID); cbn in Hsel |- *; congruence. }
  rewrite G. clear G.
  destruct (FrameIdOnly.Unwrap _ _) as [pid pu].
  destruct (UnwrapTL0 _ _) as [tl0 tu].
  destruct (_ || _).
  { intros [= <- <-]. left. eexists. split; [reflexivity|].
    split; [exact Hg|exact Hf]. }
  destruct (isKey (setID pid fr) && _) eqn:Ek.
  - apply andb_prop in Ek. destruct Ek as [Ekey _].
    unfold handleKeyframe.
    destruct (tryResolveStashedFrames _) as [[resolved f2]|]; [|discriminate].
    intros [= <- <-]. right. split; [exact Ekey|].
    eexists _, _, _. split; [reflexivity|]. split; [|split; [reflexivity|exact H1]].
    unfold isKey in Ekey. cbn [setID setNumReferences frameType] in *.
    now destruct (frameType fr).
  - unfold handleDeltaFrame. cbn [setUnwrappers gotInitialFrame]. rewrite Hg.
    cbn [negb]. intros [= <- <-]. left. eexists. split; [reflexivity|].
    split; [exact Hg|exact H1].
Qed.

Lemma manageAll_returns inputs :
  forall f,
    stash_temporal_ok f -> Forall routed_here inputs ->
    exists outs, manageAll f inputs = Some outs.
Proof.
  induction inputs as [|[fr h] rest IH]; intros f Hf Hin; cbn [manageAll].
  - now exists [].
  - inversion Hin as [|? ? [_ Hh] Hrest]; subst. cbn [snd] in Hh.
    destruct (VP8_ManageFrame_total f fr h Hf Hh) as (out & f1 & -> & H1).
    destruct (IH f1 H1 Hrest) as (outs & ->). now exists (out :: outs).
Qed.

Lemma manageAll_before_key inputs :
  forall f,
    gotInitialFrame f = false -> stash_temporal_ok f ->
    Forall routed_here inputs ->
    exists outs,
      manageAll f inputs = Some outs /\
      starts_with_key (concat outs) /\
      (Forall (fun x => isKey (fst x) = false) inputs -> concat outs = []).
Proof.
  induction inputs as [|[fr h] rest IH]; intros f Hg Hf Hin; cbn [manageAll].
  - exists []. split; [reflexivity|]. split; [exact I|reflexivity].
  - inversion Hin as [|? ? Hx Hrest]; subst.
    destruct (ManageFrame_before_key f fr h Hg Hf Hx)
      as [(f' & -> & Hg' & Hf') | (Hkey & fr' & resolved & f' & -> & Ht & Hr & Hf')].
    + destruct (IH f' Hg' Hf' Hrest) as (outs & -> & Hfirst & Hnone).
      exists ([] :: outs). split; [reflexivity|]. cbn [concat app].
      split; [exact Hfirst|]. intros Hall. apply Hnone.
      now inversion Hall.
    + destruct (manageAll_returns rest f' Hf' Hrest) as (outs & ->).
      exists ((fr' :: resolved) :: outs). split; [reflexivity|].
      cbn [concat app starts_with_key]. split; [now split|].
      intros Hall. inversion Hall as [|? ? Hnk _]; subst. cbn [fst] in Hnk.
      congruence.
Qed.

Lemma finderAfter_returns inputs :
  forall f,
    stash_temporal_ok f -> Forall routed_here inputs ->
    exists f', finderAfter f inputs = Some f'.
Proof.
  induction inputs as [|[fr h] rest IH]; intros f Hf Hin; cbn [finderAfter].
  - now exists f.
  - inversion Hin as [|? ? [_ Hh] Hrest]; subst. cbn [snd] in Hh.
    destruct (VP8_ManageFrame_total f fr h Hf Hh) as (out & f1 & -> & H1).
    exact (IH f1 H1 Hrest).
Qed.

(** A frame that is not a key frame, before the first key frame: nothing
    is emitted, and the frame goes to the stash unless one of its unwrapped
    numbers is negative. *)
Lemma ManageFrame_held_back f fr h :
  gotInitialFrame f = false -> routed_here (fr, h) -> isKey fr = false ->
  exists f',
    ManageFrame f (Some fr) (Some h) = Some ([], f') /\
    gotInitialFrame f' = false /\
    pictureIDUnwrapper f'
    = snd (FrameIdOnly.Unwrap (pictureIDUnwrapper f) (PictureID h)) /\
    tl0Unwrapper f' = snd (UnwrapTL0 (tl0Unwrapper f) (TL0PicIdx h)) /\
    ((length (stashedFrames f) < maxStashedFrames)%nat ->
     stashedFrames f'
     ≡ₚ stashedFrames f
        ++ held_back (pictureIDUnwrapper f) (tl0Unwrapper f) [(fr, h)]).
Proof.
  intros Hg [Hsel _] Hnk. cbn [snd] in Hsel. unfold ManageFrame.
  assert (G : (TemporalIdx h =? NoTemporalIdx) || (TL0PicIdx h =? NoTL0PicIdx)
              || (PictureID h =? NoPictureID) = false).
  { unfold RtpHeader.SelectRefFinderType in Hsel.
    destruct (TemporalIdx h =? NoTemporalIdx), (TL0PicIdx h =? NoTL0PicIdx),
             (PictureID h =? NoPictureID); cbn in Hsel |- *; congruence. }
  rewrite G. clear G. cbn [held_back].
  destruct (FrameIdOnly.Unwrap _ _) as [pid pu].
  destruct (UnwrapTL0 _ _) as [tl0 tu]. cbn [snd].
  destruct ((pid <? 0) || (tl0 <? 0)).
  { eexists. split; [reflexivity|]. split; [exact Hg|].
    split; [reflexivity|]. split; [reflexivity|].
    intros _. cbn [setUnwrappers stashedFrames app]. now rewrite app_nil_r. }
  unfold isKey in *. cbn [setID frameType]. rewrite Hnk. cbn [andb].
  unfold handleDeltaFrame. cbn [setUnwrappers gotInitialFrame]. rewrite Hg.
  cbn [negb]. eexists. split; [reflexivity|]. split; [exact Hg|].
  split; [reflexivity|]. split; [reflexivity|].
  intros Hlen. unfold stashFrame.
  cbn [setStashedFrames stashedFrames app].
  rewrite <- sortSlice_permutation.
  change (stashedFrames (setUnwrappers pu tu f)) with (stashedFrames f).
  now rewrite (proj2 (Nat.leb_gt _ _) Hlen).
Qed.

Lemma finderAfter_held_back inputs :
  forall f f',
    gotInitialFrame f = false -> Forall routed_here inputs ->
    Forall (fun x => isKey (fst x) = false) inputs ->
    finderAfter f inputs = Some f' ->
    gotInitialFrame f' = false /\
    ((length (stashedFrames f) + length inputs <= maxStashedFrames)%nat ->
     stashedFrames f'
     ≡ₚ stashedFrames f
        ++ held_back (pictureIDUnwrapper f) (tl0Unwrapper f) inputs).
Proof.
  induction inputs as [|[fr h] rest IH]; intros f f' Hg Hin Hnk;
    cbn [finderAfter].
  - intros [= <-]. split; [exact Hg|]. intros _. cbn [held_back].
    now rewrite app_nil_r.
  - inversion Hin as [|? ? Hx Hrest]; subst.
    inversion Hnk as [|? ? Hk Hnk']; subst. cbn [fst] in Hk.
    destruct (ManageFrame_held_back f fr h Hg Hx Hk)
      as (f1 & -> & Hg1 & Epu & Etu & Hstash).
    intros E. destruct (IH f1 f' Hg1 Hrest Hnk' E) as [Hg' Hperm].
    split; [exact Hg'|]. cbn [length]. intros Hlen.
    assert (Hlen1 : (length (stashedFrames f1) + length rest
                     <= maxStashedFrames)%nat).
    { rewrite (Hstash ltac:(lia)), length_app. cbn [held_back].
      destruct (FrameIdOnly.Unwrap _ _) as [pid pu].
      destruct (UnwrapTL0 _ _) as [tl0 tu].
      destruct (_ || _); cbn [length app]; lia. }
    rewrite (Hperm Hlen1), (Hstash ltac:(lia)), Epu, Etu. cbn [held_back].
    destruct (FrameIdOnly.Unwrap _ _) as [pid pu].
    destruct (UnwrapTL0 _ _) as [tl0 tu]. cbn [snd].
    now rewrite app_nil_r, <- app_assoc.
Qed.

(** A new finder holds delta frames back until a key frame has arrived:
    over any sequence of frames with full headers, in any order, the first
    frame it emits is a key frame without reference.  As long as no key frame
    has been put in, nothing comes out, the finder still waits for its first
    key frame, and (up to the capacity of the stash) the stash holds exactly
    the frames put in, each with its header, less those with a negative
    unwrapped picture id or TL0PICIDX. *)
Theorem VP8_starts_with_key_frame
        (inputs : list (EncodedFrame * RTPVideoHeader)) :
  Forall routed_here inputs ->
  exists outs f',
    manageAll NewVP8RefFinder inputs = Some outs /\
    finderAfter NewVP8RefFinder inputs = Some f' /\
    starts_with_key (concat outs) /\
    (Forall (fun x => isKey (fst x) = false) inputs ->
     concat outs = [] /\
     gotInitialFrame f' = false /\
     ((length inputs <= maxStashedFrames)%nat ->
      stashedFrames f'
      ≡ₚ held_back (FrameIdOnly.mkPidUnwrapper 0 false)
                   (mkTl0Unwrapper 0 false) inputs)).
Proof.
  intros Hin.
  destruct (manageAll_before_key inputs NewVP8RefFinder eq_refl
              ltac:(constructor) Hin) as (outs & Eouts & Hfirst & Hnone).
  destruct (finderAfter_returns inputs NewVP8RefFinder ltac:(constructor) Hin)
    as (f' & Ef).
  exists outs, f'. split; [exact Eouts|]. split; [exact Ef|].
  split; [exact Hfirst|]. intros Hnk.
  destruct (finderAfter_held_back inputs NewVP8RefFinder f' eq_refl Hin Hnk Ef)
    as [Hg Hperm].
  split; [now apply Hnone|]. split; [exact Hg|].
  intros Hlen. exact (Hperm Hlen).
Qed.

End WithSort.

End Finder.

(** *** The TL0PICIDX unwrapper *)

Lemma land_low8 z : Z.land z (tl0PicIdxModulus - 1) = z mod 2 ^ 8.
Proof. change (tl0PicIdxModulus - 1) with (Z.ones 8). apply Z.land_ones. lia. Qed.

(** The TL0PICIDX unwrapper answers -1 to a negative index and leaves its
    state alone.  For any other index the value it returns is congruent to
    the index modulo 2^8 and becomes the new state; the first value is the
    index's low 8 bits, and every later value lies within 2^7 of the previous
    one. *)
Theorem tl0_unwrap_nearest (u : tl0PicIdxUnwrapper) (idx : Z) :
  (initialized u = true ->
   int64_min + 2 ^ 8 <= lastUnwrapped u <= int64_max - 2 ^ 8) ->
  (idx < 0 -> UnwrapTL0 u idx = (-1, u)) /\
  (0 <= idx ->
   fst (UnwrapTL0 u idx) mod 2 ^ 8 = idx mod 2 ^ 8 /\
   snd (UnwrapTL0 u idx) = mkTl0Unwrapper (fst (UnwrapTL0 u idx)) true /\
   (initialized u = false -> fst (UnwrapTL0 u idx) = idx mod 2 ^ 8) /\
   (initialized u = true ->
    - 2 ^ 7 <= fst (UnwrapTL0 u idx) - lastUnwrapped u <= 2 ^ 7)).
Proof.
  intros Hh. split.
  - intros Hneg. unfold UnwrapTL0. now rewrite (proj2 (Z.ltb_lt _ _) Hneg).
  - intros Hp. unfold UnwrapTL0. rewrite (proj2 (Z.ltb_ge _ _) Hp).
    destruct u as [last [|]]; cbn [initialized lastUnwrapped negb] in *.
    + specialize (Hh eq_refl). unfold int64_min, int64_max in Hh.
      rewrite !land_low8.
      pose proof (Z.mod_pos_bound last (2 ^ 8) ltac:(lia)) as Hm.
      pose proof (Z.mod_pos_bound idx (2 ^ 8) ltac:(lia)) as Hpm.
      pose proof (Z.div_mod last (2 ^ 8) ltac:(lia)) as Hq.
      set (m := last mod 2 ^ 8) in *. set (q := last / 2 ^ 8) in *.
      set (p := idx mod 2 ^ 8) in *.
      change (tl0PicIdxModulus / 2) with 128.
      change (- tl0PicIdxModulus / 2) with (-128).
      change tl0PicIdxModulus with 256.
      change (2 ^ 8) with 256 in *. change (2 ^ 7) with 128 in *.
      assert (Hd : exists k, -1 <= k <= 1 /\
                 (if p - m >? 128 then p - m - 256
                  else if p - m <? -128 then p - m + 256 else p - m)
                 = p - m + 256 * k /\
                 -128 <= p - m + 256 * k <= 128).
      { destruct (Z.gtb_spec (p - m) 128); [exists (-1); lia|].
        destruct (Z.ltb_spec (p - m) (-128)); [exists 1; lia|exists 0; lia]. }
      destruct Hd as (k & Hk & -> & Hb).
      rewrite wrap64_id by (unfold in_int64, int64_min, int64_max; lia).
      cbn [fst snd]. split.
      { symmetry. apply (Z.mod_unique_pos _ _ (q + k)); lia. }
      split; [reflexivity|]. split; [discriminate|]. intros _. lia.
    + cbn [fst snd]. rewrite land_low8.
      split; [apply Z.mod_mod; lia|]. split; [reflexivity|].
      split; [reflexivity|discriminate].
Qed.

Lemma tl0_unwrap_nearest_witness :
  (initialized (mkTl0Unwrapper 255 true) = true ->
   int64_min + 2 ^ 8 <= lastUnwrapped (mkTl0Unwrapper 255 true)
   <= int64_max - 2 ^ 8) /\
  (0 <= 1 -> fst (UnwrapTL0 (mkTl0Unwrapper 255 true) 1) mod 2 ^ 8 = 1 mod 2 ^ 8) /\
  fst (UnwrapTL0 (mkTl0Unwrapper 255 true) 1) = 257.
Proof.
  assert (H : initialized (mkTl0Unwrapper 255 true) = true ->
              int64_min + 2 ^ 8 <= lastUnwrapped (mkTl0Unwrapper 255 true)
              <= int64_max - 2 ^ 8).
  { intros _. unfold int64_min, int64_max. cbn [lastUnwrapped]. lia. }
  split; [exact H|]. split; [|reflexivity].
  intros Hp.
  exact (proj1 (proj2 (tl0_unwrap_nearest (mkTl0Unwrapper 255 true) 1 H) Hp)).
Defined.

Lemma key_frame_path_needs_base_layer_witness :
  let h := vp8_header FrameTypeKey 5 1 7 in
  let fr := vp8_frame FrameTypeKey in
  (TemporalIdx h <> NoTemporalIdx /\ TL0PicIdx h <> NoTL0PicIdx /\
   PictureID h <> NoPictureID /\
   FrameIdOnly.Unwrap (pictureIDUnwrapper NewVP8RefFinder) (PictureID h)
   = (5, FrameIdOnly.mkPidUnwrapper 5 true) /\
   UnwrapTL0 (tl0Unwrapper NewVP8RefFinder) (TL0PicIdx h)
   = (7, mkTl0Unwrapper 7 true) /\
   0 <= 5 /\ 0 <= 7) /\
  ManageFrame SeqNumOnly.mergeSortSlice keyOrder NewVP8RefFinder
              (Some fr) (Some h)
  = Some ([], stashFrame SeqNumOnly.mergeSortSlice
                (setUnwrappers (FrameIdOnly.mkPidUnwrapper 5 true)
                               (mkTl0Unwrapper 7 true) NewVP8RefFinder)
                (setID 5 fr) h 5 7) /\
  In (mkStashed (setID 5 fr) h 5 7)
     (stashedFrames
        (stashFrame SeqNumOnly.mergeSortSlice
           (setUnwrappers (FrameIdOnly.mkPidUnwrapper 5 true)
                          (mkTl0Unwrapper 7 true) NewVP8RefFinder)
           (setID 5 fr) h 5 7)).
Proof.
  cbv zeta.
  assert (H1 : TemporalIdx (vp8_header FrameTypeKey 5 1 7) <> NoTemporalIdx)
    by (cbn; unfold NoTemporalIdx; lia).
  assert (H2 : TL0PicIdx (vp8_header FrameTypeKey 5 1 7) <> NoTL0PicIdx)
    by (cbn; unfold NoTL0PicIdx; lia).
  assert (H3 : PictureID (vp8_header FrameTypeKey 5 1 7) <> NoPictureID)
    by (cbn; unfold NoPictureID; lia).
  assert (H4 : FrameIdOnly.Unwrap (pictureIDUnwrapper NewVP8RefFinder)
                 (PictureID (vp8_header FrameTypeKey 5 1 7))
               = (5, FrameIdOnly.mkPidUnwrapper 5 true)) by reflexivity.
  assert (H5 : UnwrapTL0 (tl0Unwrapper NewVP8RefFinder)
                 (TL0PicIdx (vp8_header FrameTypeKey 5 1 7))
               = (7, mkTl0Unwrapper 7 true)) by reflexivity.
  assert (H6 : 0 <= 5) by lia.
  assert (H7 : 0 <= 7) by lia.
  split; [repeat split; assumption|].
  destruct (key_frame_path_needs_base_layer SeqNumOnly.mergeSortSlice keyOrder
              SeqNumOnly.mergeSortSlice_permutation
              NewVP8RefFinder (vp8_frame FrameTypeKey)
              (vp8_header FrameTypeKey 5 1 7) 5 7 _ _ H1 H2 H3 H4 H5 H6 H7)
    as (_ & Hdelta & _).
  assert (Htid : clampTid (TemporalIdx (vp8_header FrameTypeKey 5 1 7)) <> 0)
    by (vm_compute; discriminate).
  pose proof (proj1 (Hdelta eq_refl Htid) eq_refl) as E.
  split; [exact E|].
  destruct (proj2 (Hdelta eq_refl Htid) _ _ E)
    as [(_ & _ & Hin & _) | (fr' & rest & refs & li & Hout & _)];
    [exact Hin|discriminate Hout].
Defined.

Lemma VP8_emits_at_most_one_reference_witness :
  ManageFrame SeqNumOnly.mergeSortSlice keyOrder
              (mkFinder (FrameIdOnly.mkPidUnwrapper 5 true) (mkTl0Unwrapper 7 true)
                        (initLayerInfo ∅ 7 5) 5 true [])
              (Some (vp8_frame FrameTypeDelta))
              (Some (vp8_header FrameTypeDelta 6 1 7))
  = Some ([setReference 0 5 (setNumReferences 1 (setID 6 (vp8_frame FrameTypeDelta)))],
          mkFinder (FrameIdOnly.mkPidUnwrapper 6 true) (mkTl0Unwrapper 7 true)
                   (<[7 := mkLayers 6 7 0 0]> (initLayerInfo ∅ 7 5)) 6 true []) /\
  Forall at_most_one_reference
         [setReference 0 5 (setNumReferences 1 (setID 6 (vp8_frame FrameTypeDelta)))].
Proof.
  assert (E : ManageFrame SeqNumOnly.mergeSortSlice keyOrder
              (mkFinder (FrameIdOnly.mkPidUnwrapper 5 true) (mkTl0Unwrapper 7 true)
                        (initLayerInfo ∅ 7 5) 5 true [])
              (Some (vp8_frame FrameTypeDelta))
              (Some (vp8_header FrameTypeDelta 6 1 7))
  = Some ([setReference 0 5 (setNumReferences 1 (setID 6 (vp8_frame FrameTypeDelta)))],
          mkFinder (FrameIdOnly.mkPidUnwrapper 6 true) (mkTl0Unwrapper 7 true)
                   (<[7 := mkLayers 6 7 0 0]> (initLayerInfo ∅ 7 5)) 6 true [])).
  { vm_compute. reflexivity. }
  split; [exact E|].
  exact (VP8_emits_at_most_one_reference SeqNumOnly.mergeSortSlice keyOrder
           _ _ _ _ _ E).
Defined.

Lemma VP8_manageAll_never_panics_witness :
  (stash_temporal_ok NewVP8RefFinder /\
   Forall (fun x => temporal_ok (snd x))
          [(vp8_frame FrameTypeDelta,
            RtpHeader.NewRTPVideoHeaderFromVP8 (RtpHeader.descriptor 1) true);
           (vp8_frame FrameTypeKey,
            RtpHeader.NewRTPVideoHeaderFromVP8 (RtpHeader.descriptor 0) true)]) /\
  exists outs,
    manageAll SeqNumOnly.mergeSortSlice keyOrder NewVP8RefFinder
              [(vp8_frame FrameTypeDelta,
                RtpHeader.NewRTPVideoHeaderFromVP8 (RtpHeader.descriptor 1) true);
               (vp8_frame FrameTypeKey,
                RtpHeader.NewRTPVideoHeaderFromVP8 (RtpHeader.descriptor 0) true)]
    = Some outs /\
    length outs
    = length [(vp8_frame FrameTypeDelta,
               RtpHeader.NewRTPVideoHeaderFromVP8 (RtpHeader.descriptor 1) true);
              (vp8_frame FrameTypeKey,
               RtpHeader.NewRTPVideoHeaderFromVP8 (RtpHeader.descriptor 0) true)].
Proof.
  assert (H1 : stash_temporal_ok NewVP8RefFinder) by constructor.
  assert (H2 : Forall (fun x => temporal_ok (snd x))
                 [(vp8_frame FrameTypeDelta,
                   RtpHeader.NewRTPVideoHeaderFromVP8 (RtpHeader.descriptor 1) true);
                  (vp8_frame FrameTypeKey,
                   RtpHeader.NewRTPVideoHeaderFromVP8 (RtpHeader.descriptor 0) true)]).
  { repeat constructor; unfold temporal_ok; cbn [snd];
      apply RtpHeader.header_temporal_index; cbn; lia. }
  split; [exact (conj H1 H2)|].
  exact (VP8_manageAll_never_panics SeqNumOnly.mergeSortSlice keyOrder
           SeqNumOnly.mergeSortSlice_permutation NewVP8RefFinder _ H1 H2).
Defined.

Lemma VP8_stash_bounded_witness :
  ((length (stashedFrames NewVP8RefFinder) <= maxStashedFrames)%nat /\
   ManageFrame SeqNumOnly.mergeSortSlice keyOrder NewVP8RefFinder
               (Some (vp8_frame FrameTypeDelta))
               (Some (vp8_header FrameTypeDelta 6 1 7))
   = Some ([], stashFrame SeqNumOnly.mergeSortSlice
                 (setUnwrappers (FrameIdOnly.mkPidUnwrapper 6 true)
                                (mkTl0Unwrapper 7 true) NewVP8RefFinder)
                 (setID 6 (vp8_frame FrameTypeDelta))
                 (vp8_header FrameTypeDelta 6 1 7) 6 7)) /\
  (length (stashedFrames
             (stashFrame SeqNumOnly.mergeSortSlice
                 (setUnwrappers (FrameIdOnly.mkPidUnwrapper 6 true)
                                (mkTl0Unwrapper 7 true) NewVP8RefFinder)
                 (setID 6 (vp8_frame FrameTypeDelta))
                 (vp8_header FrameTypeDelta 6 1 7) 6 7))
   <= maxStashedFrames)%nat.
Proof.
  assert (H1 : (length (stashedFrames NewVP8RefFinder)
                <= maxStashedFrames)%nat) by (cbn; lia).
  assert (H2 : ManageFrame SeqNumOnly.mergeSortSlice keyOrder NewVP8RefFinder
               (Some (vp8_frame FrameTypeDelta))
               (Some (vp8_header FrameTypeDelta 6 1 7))
   = Some ([], stashFrame SeqNumOnly.mergeSortSlice
                 (setUnwrappers (FrameIdOnly.mkPidUnwrapper 6 true)
                                (mkTl0Unwrapper 7 true) NewVP8RefFinder)
                 (setID 6 (vp8_frame FrameTypeDelta))
                 (vp8_header FrameTypeDelta 6 1 7) 6 7)) by reflexivity.
  split; [exact (conj H1 H2)|].
  exact (VP8_stash_bounded SeqNumOnly.mergeSortSlice keyOrder
           SeqNumOnly.mergeSortSlice_permutation _ _ _ _ _ H1 H2).
Defined.

Lemma VP8_starts_with_key_frame_witness :
  Forall routed_here early_deltas /\
  (exists outs f',
      manageAll SeqNumOnly.mergeSortSlice keyOrder NewVP8RefFinder early_deltas
      = Some outs /\
      finderAfter SeqNumOnly.mergeSortSlice keyOrder NewVP8RefFinder
                  early_deltas = Some f' /\
      starts_with_key (concat outs) /\
      (Forall (fun x => isKey (fst x) = false) early_deltas ->
       concat outs = [] /\
       gotInitialFrame f' = false /\
       ((length early_deltas <= maxStashedFrames)%nat ->
        stashedFrames f'
        ≡ₚ held_back (FrameIdOnly.mkPidUnwrapper 0 false)
                     (mkTl0Unwrapper 0 false) early_deltas))) /\
  option_map (map (map (fun fr => (ID fr, NumReferences fr,
                                   getRef 0 (References fr)))))
             (manageAll SeqNumOnly.mergeSortSlice keyOrder NewVP8RefFinder
                        early_deltas)
  = Some [[]; []; [(10, 0, 0); (11, 1, 10); (12, 1, 10)]] /\
  option_map (fun f => map unwrappedPID (stashedFrames f))
             (finderAfter SeqNumOnly.mergeSortSlice keyOrder NewVP8RefFinder
                          (take 2 early_deltas))
  = Some [11; 12].
Proof.
  assert (H : Forall routed_here early_deltas).
  { unfold early_deltas, routed_here, temporal_ok.
    repeat constructor; cbn; lia. }
  split; [exact H|].
  split; [|split; vm_compute; reflexivity].
  exact (VP8_starts_with_key_frame SeqNumOnly.mergeSortSlice keyOrder
           SeqNumOnly.mergeSortSlice_permutation early_deltas H).
Defined.

(** *** In-order streams with temporal layers *)

(** One step of the TL0PICIDX unwrapper on a stream of true numbers. *)
Lemma UnwrapTL0_tracks m m' :
  0 <= m < int64_max - 2 ^ 8 -> 0 <= m' < int64_max - 2 ^ 8 ->
  Z.abs (m' - m) < 2 ^ 7 ->
  UnwrapTL0 (mkTl0Unwrapper m true) (m' mod 2 ^ 8)
  = (m', mkTl0Unwrapper m' true).
Proof.
  intros Hm Hm' Hnear. unfold UnwrapTL0.
  pose proof (Z.mod_pos_bound m' (2 ^ 8) ltac:(lia)) as B1.
  pose proof (Z.mod_pos_bound m (2 ^ 8) ltac:(lia)) as B2.
  rewrite (proj2 (Z.ltb_ge _ _) (proj1 B1)).
  cbn [initialized lastUnwrapped negb]. rewrite !land_low8.
  rewrite Z.mod_mod by lia.
  pose proof (Z.div_mod m' (2 ^ 8) ltac:(lia)) as E1.
  pose proof (Z.div_mod m (2 ^ 8) ltac:(lia)) as E2.
  set (a1 := m' mod 2 ^ 8) in *. set (a2 := m mod 2 ^ 8) in *.
  set (q1 := m' / 2 ^ 8) in *. set (q2 := m / 2 ^ 8) in *.
  change (tl0PicIdxModulus / 2) with 128.
  change (- tl0PicIdxModulus / 2) with (-128).
  change tl0PicIdxModulus with 256.
  change (2 ^ 8) with 256 in *. change (2 ^ 7) with 128 in *.
  assert (Hd : (if a1 - a2 >? 128 then a1 - a2 - 256
                else if a1 - a2 <? -128 then a1 - a2 + 256
                else a1 - a2) = m' - m).
  { destruct (Z.gtb_spec (a1 - a2) 128); [lia|].
    destruct (Z.ltb_spec (a1 - a2) (-128)); lia. }
  rewrite Hd. replace (m + (m' - m)) with m' by lia.
  rewrite wrap64_id by (unfold in_int64, int64_min, int64_max in *; lia).
  reflexivity.
Qed.

Lemma latest_on_cons t e hist :
  latest_on t (e :: hist)
  = if fst e =? t then Some (snd e) else latest_on t hist.
Proof. unfold latest_on. cbn [List.find]. now destruct (fst e =? t). Qed.

Lemma latest_on_group hist :
  latest_on 0 (current_group hist) = latest_on 0 hist.
Proof.
  induction hist as [|e rest IH]; [reflexivity|]. cbn [current_group].
  destruct (fst e =? 0) eqn:E; rewrite !latest_on_cons, E; [reflexivity|exact IH].
Qed.

(** The downward scan of the layer array finds the frame of the highest
    lower layer present in the group. *)
Lemma scanDown_highest group info (t : nat) :
  layers_of group info -> (t <= 4)%nat ->
  scanDown t info
  = match highest_below t group with Some r => [r] | None => [] end.
Proof.
  intros Hl. induction t as [|t IH]; intros Ht; [reflexivity|].
  cbn [scanDown highest_below]. specialize (Hl t ltac:(lia)).
  destruct (latest_on (Z.of_nat t) group) as [n|].
  - destruct Hl as [-> Hn].
    destruct (Z.eqb_spec (n + 1) 0) as [E|_]; [lia|]. cbn [negb].
    replace (n + 1 - 1) with n by lia.
    rewrite wrap64_id by (unfold in_int64, int64_min, int64_max in *; lia).
    reflexivity.
  - rewrite Hl. cbn [Z.eqb negb]. apply IH. lia.
Qed.

Lemma highest_below_base group nb (t : nat) :
  latest_on 0 group = Some nb -> (0 < t)%nat ->
  exists r, highest_below t group = Some r.
Proof.
  intros Hb. induction t as [|t IH]; intros Ht; [lia|].
  cbn [highest_below]. destruct (latest_on (Z.of_nat t) group) as [n|] eqn:E.
  - now exists n.
  - destruct t as [|t]; [change (Z.of_nat 0) with 0 in E; congruence|].
    apply IH. lia.
Qed.

Section LayeredStream.

Variable sortSlice : forall A : Type, (A -> A -> bool) -> list A -> list A.
Variable rangeOrder : gmap Z LayerInfo -> list (Z * LayerInfo).

Lemma getReferences_base f pid m info group nb :
  layerInfo f !! m = Some info -> layers_of group info ->
  latest_on 0 group = Some nb ->
  getReferences rangeOrder f pid (m + 1) m 0 = Some [nb].
Proof.
  intros Hi Hl Hb. unfold getReferences. cbn [Z.eqb]. rewrite Hi.
  specialize (Hl 0%nat ltac:(lia)). change (Z.of_nat 0) with 0 in Hl.
  rewrite Hb in Hl. destruct Hl as [E Hn]. cbn [getLayer] in E. rewrite E.
  destruct (Z.eqb_spec (nb + 1) 0) as [E0|_]; [lia|].
  replace (nb + 1 - 1) with nb by lia.
  rewrite wrap64_id by (unfold in_int64, int64_min, int64_max in *; lia).
  reflexivity.
Qed.

Lemma getReferences_upper f pid m info group nb tid :
  layerInfo f !! m = Some info -> layers_of group info ->
  latest_on 0 group = Some nb -> 1 <= tid <= 3 ->
  exists r, highest_below (Z.to_nat tid) group = Some r /\
            getReferences rangeOrder f pid m m tid = Some [r].
Proof.
  intros Hi Hl Hb Ht.
  destruct (highest_below_base group nb (Z.to_nat tid) Hb ltac:(lia)) as [r Hr].
  exists r. split; [exact Hr|]. unfold getReferences.
  destruct (Z.eqb_spec tid 0) as [E|_]; [lia|]. rewrite Hi.
  rewrite (scanDown_highest group info (Z.to_nat tid) Hl ltac:(lia)), Hr.
  reflexivity.
Qed.

Lemma updateLayerInfo_layered li m tid n hist info :
  li !! m = Some info -> layers_of (current_group hist) info ->
  (forall k, m < k -> li !! k = None) ->
  0 <= tid <= 3 -> 0 <= n < int64_max - 2 ^ 15 ->
  exists li' info',
    updateLayerInfo li (if tid =? 0 then m + 1 else m) tid n = Some li' /\
    li' !! (if tid =? 0 then m + 1 else m) = Some info' /\
    layers_of (current_group ((tid, n) :: hist)) info' /\
    (forall k, (if tid =? 0 then m + 1 else m) < k -> li' !! k = None).
Proof.
  intros Hi Hl Habove Ht Hn.
  assert (Hw : wrap64 (n + 1) = n + 1).
  { apply wrap64_id. unfold in_int64, int64_min, int64_max in *. lia. }
  assert (Hcases : tid = 0 \/ tid = 1 \/ tid = 2 \/ tid = 3) by lia.
  unfold updateLayerInfo. rewrite Hw.
  destruct Hcases as [E | [E | [E | E]]]; subst tid; cbn [Z.eqb].
  - rewrite (Habove (m + 1)) by lia. cbn [default setLayer Z.eqb zeroLayers
                                          layer0 layer1 layer2 layer3].
    eexists _, _. split; [reflexivity|]. split; [apply lookup_insert_eq|].
    split.
    + cbn [current_group fst Z.eqb]. intros t Hle. rewrite latest_on_cons.
      cbn [fst snd].
      destruct t as [|[|[|[|t]]]]; cbn; try reflexivity; try lia.
      split; [reflexivity|exact Hn].
    + intros k Hk. rewrite lookup_insert_ne by lia. apply Habove. lia.
  - rewrite Hi. cbn [default setLayer Z.eqb].
    eexists _, _. split; [reflexivity|]. split; [apply lookup_insert_eq|].
    split.
    + cbn [current_group fst Z.eqb]. intros t Hle. rewrite latest_on_cons.
      cbn [fst snd]. pose proof (Hl t Hle) as Hlt.
      destruct t as [|[|[|[|t]]]]; cbn in Hlt |- *; try exact Hlt; try lia.
      split; [reflexivity|exact Hn].
    + intros k Hk. rewrite lookup_insert_ne by lia. apply Habove. lia.
  - rewrite Hi. cbn [default setLayer Z.eqb].
    eexists _, _. split; [reflexivity|]. split; [apply lookup_insert_eq|].
    split.
    + cbn [current_group fst Z.eqb]. intros t Hle. rewrite latest_on_cons.
      cbn [fst snd]. pose proof (Hl t Hle) as Hlt.
      destruct t as [|[|[|[|t]]]]; cbn in Hlt |- *; try exact Hlt; try lia.
      split; [reflexivity|exact Hn].
    + intros k Hk. rewrite lookup_insert_ne by lia. apply Habove. lia.
  - rewrite Hi. cbn [default setLayer Z.eqb].
    eexists _, _. split; [reflexivity|]. split; [apply lookup_insert_eq|].
    split.
    + cbn [current_group fst Z.eqb]. intros t Hle. rewrite latest_on_cons.
      cbn [fst snd]. pose proof (Hl t Hle) as Hlt.
      destruct t as [|[|[|[|t]]]]; cbn in Hlt |- *; try exact Hlt; try lia.
      split; [reflexivity|exact Hn].
    + intros k Hk. rewrite lookup_insert_ne by lia. apply Habove. lia.
Qed.

(** A base-layer key frame: emitted without reference, and a new group
    begins. *)
Lemma ManageFrame_layered_key pu tu li lp gi fr h n m' :
  isKey fr = true -> TemporalIdx h = 0 ->
  0 <= TL0PicIdx h -> 0 <= PictureID h ->
  FrameIdOnly.Unwrap pu (PictureID h) = (n, FrameIdOnly.mkPidUnwrapper n true) ->
  UnwrapTL0 tu (TL0PicIdx h) = (m', mkTl0Unwrapper m' true) ->
  0 <= n < int64_max - 2 ^ 15 -> 0 <= m' ->
  (forall k, m' < k -> li !! k = None) ->
  forall hist,
  exists fr' f',
    ManageFrame sortSlice rangeOrder (mkFinder pu tu li lp gi [])
                (Some fr) (Some h)
    = Some ([fr'], f') /\
    layered_emitted hist fr 0 n fr' /\
    tracking m' n ((0, n) :: hist) f'.
Proof.
  intros Hkey Htid Htl0 Hpid Eu Et Hn Hm Habove hist.
  unfold ManageFrame. rewrite Htid.
  assert (G2 : (TL0PicIdx h =? NoTL0PicIdx) = false)
    by (apply Z.eqb_neq; unfold NoTL0PicIdx; lia).
  assert (G3 : (PictureID h =? NoPictureID) = false)
    by (apply Z.eqb_neq; unfold NoPictureID; lia).
  rewrite G2, G3. cbn [Z.eqb NoTemporalIdx orb].
  cbn [pictureIDUnwrapper tl0Unwrapper]. rewrite Eu, Et.
  rewrite (proj2 (Z.ltb_ge n 0) (proj1 Hn)), (proj2 (Z.ltb_ge m' 0) Hm).
  cbn [orb]. unfold isKey in *. cbn [setID frameType]. rewrite Hkey.
  change (clampTid 0 =? 0) with true. cbn [andb].
  unfold handleKeyframe, clearOldState, tryResolveStashedFrames, setUnwrappers.
  cbn [stashedFrames List.filter length resolveLoop firstProcessable
       pictureIDUnwrapper tl0Unwrapper layerInfo lastPictureID gotInitialFrame].
  eexists _, _. split; [reflexivity|].
  assert (Hw : wrap64 (n + 1) = n + 1).
  { apply wrap64_id. unfold in_int64, int64_min, int64_max in *. lia. }
  split.
  - unfold layered_emitted, isKey. rewrite Hkey. cbn. now repeat split.
  - split; [reflexivity|]. split; [reflexivity|]. split; [reflexivity|].
    split; [reflexivity|]. cbn [layerInfo current_group fst Z.eqb].
    split; [|split].
    + exists (mkLayers (n + 1) 0 0 0). split.
      * apply map_lookup_filter_Some_2.
        -- unfold initLayerInfo. rewrite lookup_insert_eq, Hw. reflexivity.
        -- cbn beta. cbn [fst]. rewrite Z.sub_diag.
           rewrite wrap64_id by (unfold in_int64, int64_min, int64_max; lia).
           lia.
      * intros t Ht. rewrite latest_on_cons. cbn [fst snd].
        destruct t as [|[|[|[|t]]]]; cbn; try reflexivity; try lia.
        split; [reflexivity|exact Hn].
    + intros k Hk. apply map_lookup_filter_None_2. left.
      unfold initLayerInfo. rewrite lookup_insert_ne by lia. now apply Habove.
    + exists n. now rewrite latest_on_cons.
Qed.

(** Any other frame: emitted with the one reference expected. *)
Lemma ManageFrame_layered_delta m prev hist f fr h n :
  tracking m prev hist f ->
  isKey fr && (TemporalIdx h =? 0) = false ->
  0 <= TemporalIdx h <= 3 ->
  TL0PicIdx h = (if TemporalIdx h =? 0 then m + 1 else m) mod 2 ^ 8 ->
  PictureID h = n mod 2 ^ 15 ->
  0 <= prev < int64_max - 2 ^ 15 -> FrameIdOnly.near prev n ->
  0 <= n < int64_max - 2 ^ 15 -> 0 <= m < 2 ^ 62 ->
  exists fr' f',
    ManageFrame sortSlice rangeOrder f (Some fr) (Some h) = Some ([fr'], f') /\
    layered_emitted hist fr (TemporalIdx h) n fr' /\
    tracking (if TemporalIdx h =? 0 then m + 1 else m) n
             ((TemporalIdx h, n) :: hist) f'.
Proof.
  intros (Hpu & Htu & Hgi & Hst & (info & Hi & Hl) & Habove & (nb & Hb))
         Hnk Htid Htl0 Hpid Hprev Hnear Hn Hm.
  destruct f as [pu tu li lp gi st].
  cbn [pictureIDUnwrapper tl0Unwrapper gotInitialFrame stashedFrames layerInfo]
    in *.
  subst pu tu gi st.
  destruct (updateLayerInfo_layered li m (TemporalIdx h) n hist info Hi Hl
              Habove Htid Hn) as (li' & info' & Eu & Hi' & Hl' & Habove').
  set (tid := TemporalIdx h) in *.
  set (m' := if tid =? 0 then m + 1 else m) in *.
  assert (Hm' : 0 <= m' < int64_max - 2 ^ 8 /\ Z.abs (m' - m) < 2 ^ 7).
  { unfold m', int64_max. change (2 ^ 62) with 4611686018427387904 in Hm.
    destruct (tid =? 0); lia. }
  pose proof (Z.mod_pos_bound m' (2 ^ 8) ltac:(lia)) as B1.
  pose proof (Z.mod_pos_bound n (2 ^ 15) ltac:(lia)) as B2.
  unfold ManageFrame. fold tid.
  assert (G1 : (tid =? NoTemporalIdx) = false)
    by (apply Z.eqb_neq; unfold NoTemporalIdx; lia).
  assert (G2 : (TL0PicIdx h =? NoTL0PicIdx) = false)
    by (apply Z.eqb_neq; unfold NoTL0PicIdx; lia).
  assert (G3 : (PictureID h =? NoPictureID) = false)
    by (apply Z.eqb_neq; unfold NoPictureID; lia).
  rewrite G1, G2, G3. cbn [orb pictureIDUnwrapper tl0Unwrapper].
  rewrite Hpid, Htl0.
  rewrite (FrameIdOnly.Unwrap_tracks prev n Hprev Hn Hnear).
  rewrite (UnwrapTL0_tracks m m') by (unfold int64_max in *; lia).
  rewrite (proj2 (Z.ltb_ge n 0) (proj1 Hn)),
          (proj2 (Z.ltb_ge m' 0) (proj1 (proj1 Hm'))).
  cbn [orb].
  assert (Hclamp : clampTid tid = tid).
  { unfold clampTid, maxTemporalLayers. rewrite Z.geb_leb.
    now rewrite (proj2 (Z.leb_gt 4 tid)) by lia. }
  rewrite Hclamp. unfold isKey in *. cbn [setID frameType]. rewrite Hnk.
  unfold handleDeltaFrame, setUnwrappers.
  cbn [gotInitialFrame negb pictureIDUnwrapper tl0Unwrapper layerInfo
       lastPictureID stashedFrames].
  match goal with
  | |- context [getReferences rangeOrder ?F ?a ?b ?c ?d] =>
    assert (Hrefs : exists r, expected_reference hist tid = Some r /\
                              getReferences rangeOrder F a b c d = Some [r])
  end.
  { unfold expected_reference, m'.
    destruct (Z.eqb_spec tid 0) as [E0|N0].
    - exists nb. split; [now rewrite <- latest_on_group|].
      replace (m + 1 - 1) with m by lia.
      rewrite wrap64_id by (unfold in_int64, int64_min, int64_max; lia).
      rewrite E0.
      apply (getReferences_base _ n m info (current_group hist) nb);
        [exact Hi|exact Hl|exact Hb].
    - apply (getReferences_upper _ n m info (current_group hist) nb tid);
        [exact Hi|exact Hl|exact Hb|lia]. }
  destruct Hrefs as (r & Hexp & ->).
  cbn [length Z.of_nat Pos.of_succ_nat]. rewrite Eu.
  unfold tryResolveStashedFrames.
  cbn [stashedFrames length resolveLoop firstProcessable].
  eexists _, _. split; [reflexivity|]. split.
  - unfold layered_emitted, isKey. rewrite Hnk. cbn.
    split; [reflexivity|]. split; [reflexivity|]. split; [reflexivity|].
    split; [reflexivity|]. exists r. now split.
  - split; [reflexivity|]. split; [reflexivity|]. split; [reflexivity|].
    split; [reflexivity|]. cbn [layerInfo].
    split; [now exists info'|]. split; [exact Habove'|].
    rewrite latest_on_group, latest_on_cons. cbn [fst snd]. fold tid.
    destruct (tid =? 0); [now exists n|].
    exists nb. now rewrite <- latest_on_group.
Qed.

(** The first call of a new finder on a base-layer key frame. *)
Lemma ManageFrame_layered_first fr h :
  isKey fr = true -> TemporalIdx h = 0 ->
  0 <= TL0PicIdx h < 2 ^ 8 -> 0 <= PictureID h < 2 ^ 15 ->
  exists fr' f',
    ManageFrame sortSlice rangeOrder NewVP8RefFinder (Some fr) (Some h)
    = Some ([fr'], f') /\
    layered_emitted [] fr 0 (PictureID h) fr' /\
    tracking (TL0PicIdx h) (PictureID h) [(0, PictureID h)] f'.
Proof.
  intros Hkey Htid Htl0 Hpid. unfold NewVP8RefFinder.
  apply ManageFrame_layered_key; try assumption; try lia.
  - unfold FrameIdOnly.Unwrap.
    rewrite (proj2 (Z.ltb_ge _ _) (proj1 Hpid)). cbn [FrameIdOnly.initialized negb].
    now rewrite FrameIdOnly.land_low15, Z.mod_small by lia.
  - unfold UnwrapTL0.
    rewrite (proj2 (Z.ltb_ge _ _) (proj1 Htl0)). cbn [initialized negb].
    now rewrite land_low8, Z.mod_small by lia.
  - unfold int64_max. change (2 ^ 15) with 32768 in *. lia.
  - intros k _. apply lookup_empty.
Qed.

(** A stream through a finder that follows it. *)
Lemma manageAll_layered stream :
  forall m prev hist f,
    tracking m prev hist f -> layered_stream m prev stream ->
    0 <= prev < int64_max - 2 ^ 15 ->
    0 <= m -> m + Z.of_nat (length stream) <= 2 ^ 62 ->
    exists outs,
      manageAll sortSlice rangeOrder f (map fst stream) = Some outs /\
      layered_outputs hist stream outs.
Proof.
  induction stream as [|[[fr h] n] rest IH];
    intros m prev hist f Htr Hs Hprev Hm Hlen.
  - exists []. now split.
  - cbn [layered_stream] in Hs.
    destruct Hs as (Htid & Htl0 & Hpid & Hnear & Hn & Hrest).
    cbn [map fst manageAll length] in *.
    assert (Hstep : exists fr' f',
               ManageFrame sortSlice rangeOrder f (Some fr) (Some h)
               = Some ([fr'], f') /\
               layered_emitted hist fr (TemporalIdx h) n fr' /\
               tracking (if TemporalIdx h =? 0 then m + 1 else m) n
                        ((TemporalIdx h, n) :: hist) f').
    { destruct (isKey fr && (TemporalIdx h =? 0)) eqn:Ek.
      - apply andb_prop in Ek. destruct Ek as [Ekey E0].
        apply Z.eqb_eq in E0. rewrite E0 in *. cbn [Z.eqb] in *.
        destruct Htr as (Hpu & Htu & Hgi & Hst & _ & Habove & _).
        destruct f as [pu tu li lp gi st].
        cbn [pictureIDUnwrapper tl0Unwrapper gotInitialFrame stashedFrames
             layerInfo] in *.
        subst pu tu gi st.
        pose proof (Z.mod_pos_bound (m + 1) (2 ^ 8) ltac:(lia)) as B1.
        pose proof (Z.mod_pos_bound n (2 ^ 15) ltac:(lia)) as B2.
        apply ManageFrame_layered_key; try assumption; try lia.
        + rewrite Hpid. now apply FrameIdOnly.Unwrap_tracks.
        + rewrite Htl0. apply UnwrapTL0_tracks;
            unfold int64_max; change (2 ^ 62) with 4611686018427387904 in Hlen;
            lia.
        + intros k Hk. apply Habove. lia.
      - apply (ManageFrame_layered_delta m prev); try assumption.
        change (2 ^ 62) with 4611686018427387904 in *. lia. }
    destruct Hstep as (fr' & f' & -> & Hem & Htr').
    destruct (IH _ n _ f' Htr' Hrest Hn) as (outs & -> & Houts).
    + destruct (TemporalIdx h =? 0); lia.
    + destruct (TemporalIdx h =? 0); lia.
    + exists ([fr'] :: outs). split; [reflexivity|].
      cbn [layered_outputs]. split; [now exists fr'|exact Houts].
Qed.

(** On an in-order stream with temporal layers that starts with a
    base-layer key frame, the finder returns every frame at once, with its
    true picture number as id, however often picture id and TL0PICIDX wrap.
    A key frame on the base layer gets no reference.  Every other frame gets
    exactly one: a base-layer frame the previous base-layer frame, a frame of
    a higher layer the most recent frame of the highest lower layer that has
    a frame in its group (the frames since the last base-layer frame). *)
Theorem VP8_resolves_layered_stream
        (fr0 : EncodedFrame) (h0 : RTPVideoHeader)
        (rest : list (EncodedFrame * RTPVideoHeader * Z)) :
  isKey fr0 = true -> TemporalIdx h0 = 0 ->
  0 <= TL0PicIdx h0 < 2 ^ 8 -> 0 <= PictureID h0 < 2 ^ 15 ->
  layered_stream (TL0PicIdx h0) (PictureID h0) rest ->
  Z.of_nat (length rest) <= 2 ^ 61 ->
  exists outs,
    manageAll sortSlice rangeOrder NewVP8RefFinder ((fr0, h0) :: map fst rest)
    = Some outs /\
    layered_outputs [] ((fr0, h0, PictureID h0) :: rest) outs.
Proof.
  intros Hkey Htid Htl0 Hpid Hrest Hlen. cbn [manageAll].
  destruct (ManageFrame_layered_first fr0 h0 Hkey Htid Htl0 Hpid)
    as (fr' & f' & -> & Hem & Htr).
  destruct (manageAll_layered rest _ _ _ f' Htr Hrest) as (outs & -> & Houts).
  - unfold int64_max. change (2 ^ 15) with 32768 in *. lia.
  - lia.
  - change (2 ^ 62) with 4611686018427387904.
    change (2 ^ 61) with 2305843009213693952 in Hlen.
    change (2 ^ 8) with 256 in Htl0. lia.
  - exists ([fr'] :: outs). split; [reflexivity|].
    cbn [layered_outputs]. rewrite Htid. split; [now exists fr'|].
    exact Houts.
Qed.

End LayeredStream.

Lemma VP8_resolves_layered_stream_witness :
  (isKey (vp8_frame FrameTypeKey) = true /\
   TemporalIdx (vp8_header FrameTypeKey 32767 0 255) = 0 /\
   0 <= TL0PicIdx (vp8_header FrameTypeKey 32767 0 255) < 2 ^ 8 /\
   0 <= PictureID (vp8_header FrameTypeKey 32767 0 255) < 2 ^ 15 /\
   layered_stream 255 32767 (tl layered_example) /\
   Z.of_nat (length (tl layered_example)) <= 2 ^ 61) /\
  (exists outs,
      manageAll SeqNumOnly.mergeSortSlice keyOrder NewVP8RefFinder
                (map fst layered_example) = Some outs /\
      layered_outputs [] layered_example outs) /\
  option_map (map (map (fun fr => (ID fr, NumReferences fr,
                                   getRef 0 (References fr)))))
             (manageAll SeqNumOnly.mergeSortSlice keyOrder NewVP8RefFinder
                        (map fst layered_example))
  = Some [[(32767, 0, 0)]; [(32768, 1, 32767)]; [(32769, 1, 32767)];
          [(32770, 1, 32769)]; [(32771, 1, 32767)]].
Proof.
  assert (H1 : isKey (vp8_frame FrameTypeKey) = true) by reflexivity.
  assert (H2 : TemporalIdx (vp8_header FrameTypeKey 32767 0 255) = 0)
    by reflexivity.
  assert (H3 : 0 <= TL0PicIdx (vp8_header FrameTypeKey 32767 0 255) < 2 ^ 8)
    by (cbn; lia).
  assert (H4 : 0 <= PictureID (vp8_header FrameTypeKey 32767 0 255) < 2 ^ 15)
    by (cbn; lia).
  assert (H5 : layered_stream 255 32767 (tl layered_example)).
  { unfold layered_example, FrameIdOnly.near, int64_max.
    cbn [tl layered_stream vp8_header TemporalIdx TL0PicIdx PictureID Z.eqb].
    repeat split; try reflexivity; lia. }
  assert (H6 : Z.of_nat (length (tl layered_example)) <= 2 ^ 61) by (cbn; lia).
  split; [exact (conj H1 (conj H2 (conj H3 (conj H4 (conj H5 H6)))))|].
  split; [|vm_compute; reflexivity].
  exact (VP8_resolves_layered_stream
           SeqNumOnly.mergeSortSlice keyOrder (vp8_frame FrameTypeKey)
           (vp8_header FrameTypeKey 32767 0 255) (tl layered_example)
           H1 H2 H3 H4 H5 H6).
Defined.

End VP8.

(** ** The receiving path of one stream (receiver_interceptor.go) *)

Module Receiver.

Import RtpHeader.

(** [streamState]; a reference finder that has not been created yet is
    [None]. *)
Record streamState : Type := mkStream {
  packetBuffer : PacketBuffer.VideoPacketBuffer;
  frameAssembler : Assembler.VideoFrameAssembler;
  seqUnwrapper : SeqUnwrapper.sequenceUnwrapper;
  seqNumOnlyRefFinder : option SeqNumOnly.SeqNumOnlyRefFinder;
  frameIdOnlyRefFinder : option FrameIdOnly.FrameIdOnlyRefFinder;
  vp8RefFinder : option VP8.VP8RefFinder
}.

(** The state [getOrCreateStreamState] creates for a new SSRC; [None] is
    the error of [NewVideoPacketBuffer]. *)
Definition newStreamState (packetBufferSize : Z) : option streamState :=
  match PacketBuffer.NewVideoPacketBuffer packetBufferSize with
  | None => None
  | Some packetBuffer =>
    Some (mkStream packetBuffer Assembler.NewVideoFrameAssembler
                   SeqUnwrapper.new None None None)
  end.

(** What the reading closure of [BindRemoteStream] takes from a parsed RTP
    packet: sequence number ([uint16]), timestamp, marker bit and the parsed
    VP8 packet. *)
Record RtpPacket : Type := mkRtp {
  rtpSequenceNumber : Z;
  rtpTimestamp : Z;
  rtpMarker : bool;
  rtpVP8 : VP8Packet.t
}.

(** A frame as a sender packetizes it: its picture number (unbounded), its
    timestamp, and the payloads of its packets in order. *)
Record SentFrame : Type := mkSent {
  sentPicture : Z;
  sentTimestamp : Z;
  sentPayloads : list (list Byte.byte)
}.

(** The [i]-th packet of a sent frame whose first packet has the (unbounded)
    sequence number [r]: the descriptor carries the picture id (flag [I]) and
    no temporal-layer fields, marks the start of the frame on the first
    packet, and the marker bit is set on the last packet. *)
Definition sentPacket (r : Z) (f : SentFrame) (i : nat)
           (payload : list Byte.byte) : RtpPacket :=
  mkRtp ((r + Z.of_nat i) mod 2 ^ 16) (sentTimestamp f)
        (Nat.eqb (S i) (length (sentPayloads f)))
        (VP8Packet.mk (if Nat.eqb i 0 then 1 else 0) 0 1 0 0
                      (sentPicture f mod 2 ^ 15) 0 0 payload).

Definition sendFrame (r : Z) (f : SentFrame) : list RtpPacket :=
  imap (sentPacket r f) (sentPayloads f).

Fixpoint sendStream (r : Z) (frames : list SentFrame) : list RtpPacket :=
  match frames with
  | [] => []
  | f :: rest =>
    sendFrame r f ++ sendStream (r + Z.of_nat (length (sentPayloads f))) rest
  end.

(** The encoded frame [fr] is the sent frame [f]. *)
Definition received (f : SentFrame) (fr : EncodedFrame) : Prop :=
  ID fr = sentPicture f /\
  Data fr = concat (sentPayloads f) /\
  frameTimestamp fr = sentTimestamp f /\
  frameType fr = DetectVP8FrameType (hd [] (sentPayloads f)) /\
  (frameType fr = FrameTypeKey -> NumReferences fr = 0) /\
  (frameType fr = FrameTypeDelta ->
   NumReferences fr = 1 /\ getRef 0 (References fr) = sentPicture f - 1).

(** How many frames each call returns while the packets of the frames
    arrive: none until the last packet of a frame, then one. *)
Definition expected_counts (frames : list SentFrame) : list nat :=
  concat (map (fun f => replicate (length (sentPayloads f) - 1) 0%nat ++ [1%nat])
              frames).

(** The packets that the closure hands to the packet buffer for a sent
    frame. *)
Definition builtPackets (r : Z) (f : SentFrame) : list BufferedPacket :=
  imap (fun i payload =>
          bufferedPacketOf (r + Z.of_nat i) (sentTimestamp f)
                           (Nat.eqb (S i) (length (sentPayloads f)))
                           (rtpVP8 (sentPacket r f i payload)))
       (sentPayloads f).

(** The picture-id finder of the stream stands at the picture number
    [prev], or has not been created yet. *)
Definition finder_at (prev : option Z) (state : streamState) : Prop :=
  match prev with
  | Some n =>
    frameIdOnlyRefFinder state
    = Some (FrameIdOnly.mkFinder (FrameIdOnly.mkPidUnwrapper n true))
  | None => frameIdOnlyRefFinder state = None
  end.

(** A stream between two frames: nothing buffered, [k] frames assembled,
    the sequence unwrapper at the number before [r] (or fresh, with [r] a
    wire value), the picture-id finder at [prev]. *)
Definition between_frames (sz r k : Z) (prev : option Z) (state : streamState)
  : Prop :=
  PacketBuffer.empty_buffer (packetBuffer state) /\
  PacketBuffer.size (packetBuffer state) = sz /\
  Assembler.frameIDCounter (frameAssembler state) = k /\
  (seqUnwrapper state = SeqUnwrapper.mkUnwrapper (r - 1) true \/
   SeqUnwrapper.started (seqUnwrapper state) = false /\ 0 <= r < 2 ^ 16) /\
  finder_at prev state.

(** A stream that has taken the first [n] packets of the frame [f]. *)
Definition within_frame (sz r k : Z) (prev : option Z) (f : SentFrame)
           (n : nat) (state : streamState) : Prop :=
  PacketBuffer.holds_prefix r (builtPackets r f) n (packetBuffer state) /\
  PacketBuffer.size (packetBuffer state) = sz /\
  Assembler.frameIDCounter (frameAssembler state) = k /\
  (seqUnwrapper state = SeqUnwrapper.mkUnwrapper (r + Z.of_nat n - 1) true \/
   n = 0%nat /\ SeqUnwrapper.started (seqUnwrapper state) = false /\
   0 <= r < 2 ^ 16) /\
  finder_at prev state.

(** The next frame is one the stream can take: at least one packet and no
    more than the buffer has slots, and a picture number close to the
    previous one (inside [0, 2^15) for the first frame). *)
Definition next_frame_ok (sz : Z) (prev : option Z) (f : SentFrame) : Prop :=
  sentPayloads f <> [] /\
  Z.of_nat (length (sentPayloads f)) <= sz /\
  0 <= sentPicture f < int64_max - 2 ^ 15 /\
  match prev with
  | Some n => 0 <= n < int64_max - 2 ^ 15 /\ FrameIdOnly.near n (sentPicture f)
  | None => sentPicture f < 2 ^ 15
  end.

Fixpoint stream_ok (sz : Z) (prev : option Z) (frames : list SentFrame) : Prop :=
  match frames with
  | [] => True
  | f :: rest =>
    next_frame_ok sz prev f /\ stream_ok sz (Some (sentPicture f)) rest
  end.

(** A new stream with a buffer of 64 slots. *)
Definition fresh64 : streamState :=
  mkStream PacketBuffer.empty64 Assembler.NewVideoFrameAssembler
           SeqUnwrapper.new None None None.

(** A key frame of two packets with the picture number 32767, then a delta
    frame of one packet with the picture number 32768. *)
Definition wrapping_stream : list SentFrame :=
  [mkSent 32767 9000 [[Byte.x10; Byte.x01]; [Byte.x02]];
   mkSent 32768 12000 [[Byte.x01; Byte.x03]]].

(** The temporal index of the packet's header, if it has one, is absent or
    a layer number. *)
Definition header_ok (q : BufferedPacket) : Prop :=
  forall h, VideoHeader q = Some h -> VP8.temporal_ok h.

(** A stream state whose buffered packets and stashed frames all carry
    such headers. *)
Definition stream_safe (state : streamState) : Prop :=
  PacketBuffer.well_formed (packetBuffer state) /\
  (forall j q, PacketBuffer.slotAt (packetBuffer state) j = Some q -> header_ok q) /\
  match vp8RefFinder state with
  | Some f => VP8.stash_temporal_ok f
  | None => True
  end.

(** The [TID] field of the packet's descriptor is below 128. *)
Definition layer_in_range (pkt : RtpPacket) : Prop :=
  0 <= VP8Packet.TID (rtpVP8 pkt) < 2 ^ 7.

(** The two packets of a key frame whose descriptors carry picture id,
    TL0PICIDX and temporal layer, delivered last packet first, then a
    one-packet delta frame with the picture id only. *)
Definition mixed_packets : list RtpPacket :=
  [mkRtp 8 9000 true (VP8Packet.mk 0 0 1 1 1 300 7 0 [Byte.x02]);
   mkRtp 7 9000 false (descriptor 0);
   mkRtp 9 12000 true (VP8Packet.mk 1 0 1 0 0 301 0 0 [Byte.x01])].

Section Receive.

(** Go's [sort.Slice] and the iteration order of a map (see the finders). *)
Variable sortSlice : forall A : Type, (A -> A -> bool) -> list A -> list A.
Variable rangeOrder : gmap Z VP8.LayerInfo -> list (Z * VP8.LayerInfo).

(** [selectRefFinderForFrame] followed by the call of [ManageFrame] on the
    finder it returns: the finder of the selected kind is created on first
    use and kept in the stream state. *)
Definition manageSelected (state : streamState) (frame : EncodedFrame)
           (header : option RTPVideoHeader)
  : VP8.orPanic (list EncodedFrame * streamState) :=
  match SelectRefFinderType header with
  | RefFinderVP8 =>
    let f := default VP8.NewVP8RefFinder (vp8RefFinder state) in
    match VP8.ManageFrame sortSlice rangeOrder f (Some frame) header with
    | None => None
    | Some (resolved, f) =>
      Some (resolved,
            mkStream (packetBuffer state) (frameAssembler state)
                     (seqUnwrapper state) (seqNumOnlyRefFinder state)
                     (frameIdOnlyRefFinder state) (Some f))
    end
  | RefFinderFrameIDOnly =>
    let f := default FrameIdOnly.NewFrameIdOnlyRefFinder
                     (frameIdOnlyRefFinder state) in
    let '(resolved, f) := FrameIdOnly.ManageFrame f (Some frame) header in
    Some (resolved,
          mkStream (packetBuffer state) (frameAssembler state)
                   (seqUnwrapper state) (seqNumOnlyRefFinder state)
                   (Some f) (vp8RefFinder state))
  | RefFinderSeqNumOnly =>
    let f := default SeqNumOnly.NewSeqNumOnlyRefFinder
                     (seqNumOnlyRefFinder state) in
    let '(resolved, f) := SeqNumOnly.ManageFrame sortSlice f (Some frame) header in
    Some (resolved,
          mkStream (packetBuffer state) (frameAssembler state)
                   (seqUnwrapper state) (Some f)
                   (frameIdOnlyRefFinder state) (vp8RefFinder state))
  end.

(** The loop [for _, framePackets := range result.Frames]: assemble each
    completed frame and resolve its references. *)
Fixpoint resolveFrames (state : streamState)
         (frames : list (list BufferedPacket))
  : VP8.orPanic (list EncodedFrame * streamState) :=
  match frames with
  | [] => Some ([], state)
  | framePackets :: rest =>
    let '(frame, a) :=
      Assembler.AssembleFrame (frameAssembler state) framePackets in
    let state :=
      mkStream (packetBuffer state) a (seqUnwrapper state)
               (seqNumOnlyRefFinder state) (frameIdOnlyRefFinder state)
               (vp8RefFinder state) in
    match frame with
    | None => resolveFrames state rest
    | Some frame =>
      let firstHeader :=
        match framePackets with
        | p :: _ => VideoHeader p
        | [] => None
        end in
      match manageSelected state frame firstHeader with
      | None => None
      | Some (resolved, state) =>
        match resolveFrames state rest with
        | None => None
        | Some (more, state) => Some (resolved ++ more, state)
        end
      end
    end
  end.

(** The reading closure of [BindRemoteStream] from the parsed packet on:
    the frames it puts under [EncodedFramesKey] (none when the list is
    empty) and the stream state afterwards. *)
Definition processPacket (state : streamState) (pkt : RtpPacket)
  : VP8.orPanic (list EncodedFrame * streamState) :=
  let videoHeader := NewRTPVideoHeaderFromVP8 (rtpVP8 pkt) (rtpMarker pkt) in
  let '(unwrappedSeq, u) :=
    SeqUnwrapper.unwrap (seqUnwrapper state) (rtpSequenceNumber pkt) in
  let bufferedPkt :=
    mkPacket unwrappedSeq (rtpTimestamp pkt) (VP8Packet.Payload (rtpVP8 pkt))
             (Some videoHeader) false (rtpMarker pkt) in
  let '(result, b) := PacketBuffer.InsertPacket (packetBuffer state) bufferedPkt in
  resolveFrames
    (mkStream b (frameAssembler state) u (seqNumOnlyRefFinder state)
              (frameIdOnlyRefFinder state) (vp8RefFinder state))
    (PacketBuffer.Frames result).

(** The packets of a stream through the closure, one after the other. *)
Fixpoint processAll (state : streamState) (pkts : list RtpPacket)
  : VP8.orPanic (list (list EncodedFrame) * streamState) :=
  match pkts with
  | [] => Some ([], state)
  | pkt :: rest =>
    match processPacket state pkt with
    | None => None
    | Some (out, state) =>
      match processAll state rest with
      | None => None
      | Some (outs, state) => Some (out :: outs, state)
      end
    end
  end.

(** *** An in-order stream through the receiving path *)

Lemma builtPackets_lookup r f i :
  builtPackets r f !! i
  = (fun payload =>
       bufferedPacketOf (r + Z.of_nat i) (sentTimestamp f)
                        (Nat.eqb (S i) (length (sentPayloads f)))
                        (rtpVP8 (sentPacket r f i payload)))
      <$> sentPayloads f !! i.
Proof. unfold builtPackets. apply list_lookup_imap. Qed.

Lemma builtPackets_length r f :
  length (builtPackets r f) = length (sentPayloads f).
Proof. unfold builtPackets. apply length_imap. Qed.

Lemma builtPackets_in_order r f :
  sentPayloads f <> [] -> PacketBuffer.in_order_frame r (builtPackets r f).
Proof.
  intros Hne. split.
  - intros E. apply (f_equal length) in E. rewrite builtPackets_length in E.
    destruct (sentPayloads f); [congruence|discriminate].
  - intros i p. rewrite builtPackets_lookup, builtPackets_length.
    destruct (sentPayloads f !! i) as [payload|] eqn:Ei; [|discriminate].
    cbn. intros [= <-]. split; [reflexivity|]. split.
    { unfold isFirst, bufferedPacketOf, NewRTPVideoHeaderFromVP8.
      cbn. now destruct i. }
    split; [reflexivity|].
    intros q. rewrite builtPackets_lookup.
    destruct (sentPayloads f !! 0%nat) as [payload0|]; [|discriminate].
    cbn. now intros [= <-].
Qed.

Lemma builtPackets_payloads r f :
  map Payload (map (setContinuous true) (builtPackets r f)) = sentPayloads f.
Proof.
  apply list_eq. intros i.
  change (map Payload (map (setContinuous true) (builtPackets r f)))
    with (Payload <$> (setContinuous true <$> builtPackets r f)).
  rewrite !list_lookup_fmap, builtPackets_lookup.
  now destruct (sentPayloads f !! i).
Qed.

(** The first of the packets built for a sent frame. *)
Lemma builtPackets_head r f :
  sentPayloads f <> [] ->
  exists payload0 payloads rest,
    sentPayloads f = payload0 :: payloads /\
    builtPackets r f
    = bufferedPacketOf (r + Z.of_nat 0) (sentTimestamp f)
                       (Nat.eqb 1 (length (sentPayloads f)))
                       (rtpVP8 (sentPacket r f 0 payload0)) :: rest.
Proof.
  intros Hne. pose proof (builtPackets_lookup r f 0) as H.
  pose proof (builtPackets_length r f) as Hl.
  destruct (sentPayloads f) as [|payload0 payloads] eqn:E; [congruence|].
  destruct (builtPackets r f) as [|p rest]; [discriminate|].
  exists payload0, payloads, rest. split; [reflexivity|].
  cbn in H. injection H as ->. reflexivity.
Qed.

(** The sequence unwrapper on the packet at position [n] of a frame. *)
Lemma unwrap_within sz r k prev f n state :
  within_frame sz r k prev f n state ->
  0 <= r -> r + Z.of_nat n <= int64_max ->
  SeqUnwrapper.unwrap (seqUnwrapper state) ((r + Z.of_nat n) mod 2 ^ 16)
  = (r + Z.of_nat n, SeqUnwrapper.mkUnwrapper (r + Z.of_nat n) true).
Proof.
  intros (_ & _ & _ & Hu & _) Hr Hhi. destruct Hu as [E | (En & Es & Hw)].
  - rewrite E.
    pose proof (SeqUnwrapper.unwrap_tracks 0 (r + Z.of_nat n - 1)
                  (r + Z.of_nat n)) as H.
    rewrite !Z.sub_0_r in H. apply H.
    + reflexivity.
    + unfold SeqUnwrapper.close_step. lia.
    + unfold in_int64, int64_min. lia.
  - subst n. rewrite (SeqUnwrapper.unwrap_first _ _ Es).
    change (Z.of_nat 0) with 0. rewrite Z.add_0_r, Z.mod_small by lia.
    reflexivity.
Qed.

(** The closure on a packet of a sent frame. *)
Lemma processPacket_sent state r f n payload :
  processPacket state (sentPacket r f n payload)
  = let '(unwrappedSeq, u) :=
      SeqUnwrapper.unwrap (seqUnwrapper state) ((r + Z.of_nat n) mod 2 ^ 16) in
    let '(result, b) :=
      PacketBuffer.InsertPacket
        (packetBuffer state)
        (bufferedPacketOf unwrappedSeq (sentTimestamp f)
                          (Nat.eqb (S n) (length (sentPayloads f)))
                          (rtpVP8 (sentPacket r f n payload))) in
    resolveFrames
      (mkStream b (frameAssembler state) u (seqNumOnlyRefFinder state)
                (frameIdOnlyRefFinder state) (vp8RefFinder state))
      (PacketBuffer.Frames result).
Proof. reflexivity. Qed.

(** A packet of a frame that is not its last: stored, nothing returned. *)
Lemma processPacket_within sz r k prev f n state payload :
  within_frame sz r k prev f n state ->
  sentPayloads f !! n = Some payload ->
  (S n < length (sentPayloads f))%nat ->
  Z.of_nat (length (sentPayloads f)) <= sz ->
  0 <= r -> r + Z.of_nat (length (sentPayloads f)) <= int64_max - 2 ^ 17 ->
  exists state',
    processPacket state (sentPacket r f n payload) = Some ([], state') /\
    within_frame sz r k prev f (S n) state'.
Proof.
  intros Hin Hn Hlt Hsz Hr Hhi. rewrite processPacket_sent.
  pose proof (lookup_lt_Some _ _ _ Hn) as Hnl.
  rewrite (unwrap_within sz r k prev f n state Hin Hr) by lia.
  destruct Hin as (Hhold & Esz & Ek & _ & Hfinder).
  assert (Hne : sentPayloads f <> []) by (intros E; rewrite E in Hnl; cbn in Hnl; lia).
  assert (Hp : builtPackets r f !! n
               = Some (bufferedPacketOf (r + Z.of_nat n) (sentTimestamp f)
                         (Nat.eqb (S n) (length (sentPayloads f)))
                         (rtpVP8 (sentPacket r f n payload)))).
  { now rewrite builtPackets_lookup, Hn. }
  assert (Hlo' : int64_min + 2 ^ 17 <= r) by (unfold int64_min; lia).
  assert (Hhi' : r + Z.of_nat (length (builtPackets r f)) <= int64_max - 2 ^ 17)
    by (rewrite builtPackets_length; lia).
  assert (Hlen' : Z.of_nat (length (builtPackets r f))
                  <= PacketBuffer.size (packetBuffer state))
    by (rewrite builtPackets_length; lia).
  assert (Hnl' : (S n < length (builtPackets r f))%nat)
    by (rewrite builtPackets_length; lia).
  destruct (PacketBuffer.InsertPacket_in_order_next
              r (builtPackets r f) n (packetBuffer state) _
              (builtPackets_in_order r f Hne) Hlo' Hhi' Hlen' Hhold Hp Hnl')
    as (b' & E & Esz' & Hhold').
  rewrite E. cbn [PacketBuffer.Frames resolveFrames].
  eexists. split; [reflexivity|].
  split; [exact Hhold'|]. split; [cbn; lia|]. split; [exact Ek|].
  split; [|exact Hfinder].
  left. cbn [seqUnwrapper]. f_equal. lia.
Qed.

(** The header of the first packet of a sent frame sends the frame to the
    picture-id finder. *)
Lemma first_header_selects r f payload :
  0 <= sentPicture f ->
  SelectRefFinderType
    (Some (NewRTPVideoHeaderFromVP8 (rtpVP8 (sentPacket r f 0 payload))
                                    (Nat.eqb 1 (length (sentPayloads f)))))
  = RefFinderFrameIDOnly.
Proof.
  intros Hp. unfold SelectRefFinderType, NewRTPVideoHeaderFromVP8.
  cbn -[Z.modulo Z.pow].
  pose proof (Z.mod_pos_bound (sentPicture f) (2 ^ 15) ltac:(lia)) as Hm.
  destruct (Z.eqb_spec (sentPicture f mod 2 ^ 15) NoPictureID) as [E|E];
    [unfold NoPictureID in E; lia|reflexivity].
Qed.

(** The picture-id finder on the frame assembled from a sent frame. *)
Lemma ManageFrame_at prev state n fr h :
  finder_at prev state ->
  0 <= n < int64_max - 2 ^ 15 ->
  match prev with
  | Some m => 0 <= m < int64_max - 2 ^ 15 /\ FrameIdOnly.near m n
  | None => n < 2 ^ 15
  end ->
  PictureID h = n mod 2 ^ 15 ->
  exists fr',
    FrameIdOnly.ManageFrame
      (default FrameIdOnly.NewFrameIdOnlyRefFinder (frameIdOnlyRefFinder state))
      (Some fr) (Some h)
    = ([fr'], FrameIdOnly.mkFinder (FrameIdOnly.mkPidUnwrapper n true)) /\
    FrameIdOnly.emitted_as n fr fr'.
Proof.
  intros Hf Hn Hprev Hh. destruct prev as [m|]; cbn in Hf; rewrite Hf; cbn [default].
  - destruct Hprev as [Hm Hnear].
    exact (FrameIdOnly.ManageFrame_tracks m n fr h Hm Hn Hnear Hh).
  - apply FrameIdOnly.ManageFrame_first; [lia|exact Hh].
Qed.

(** The last packet of a frame: the frame is returned. *)
Lemma processPacket_last sz r k prev f n state payload :
  within_frame sz r k prev f n state ->
  sentPayloads f !! n = Some payload ->
  S n = length (sentPayloads f) ->
  next_frame_ok sz prev f ->
  0 <= r -> r + Z.of_nat (length (sentPayloads f)) <= int64_max - 2 ^ 17 ->
  0 <= k < int64_max ->
  exists fr state',
    processPacket state (sentPacket r f n payload) = Some ([fr], state') /\
    received f fr /\
    between_frames sz (r + Z.of_nat (length (sentPayloads f))) (k + 1)
                   (Some (sentPicture f)) state'.
Proof.
  intros Hin Hn Hlast (Hne & Hsz & Hpic & Hprev) Hr Hhi Hk.
  rewrite processPacket_sent.
  rewrite (unwrap_within sz r k prev f n state Hin Hr) by lia.
  destruct Hin as (Hhold & Esz & Ek & _ & Hfinder).
  assert (Hp : builtPackets r f !! n
               = Some (bufferedPacketOf (r + Z.of_nat n) (sentTimestamp f)
                         (Nat.eqb (S n) (length (sentPayloads f)))
                         (rtpVP8 (sentPacket r f n payload)))).
  { now rewrite builtPackets_lookup, Hn. }
  assert (Hlo' : int64_min + 2 ^ 17 <= r) by (unfold int64_min; lia).
  assert (Hhi' : r + Z.of_nat (length (builtPackets r f)) <= int64_max - 2 ^ 17)
    by (rewrite builtPackets_length; lia).
  assert (Hlen' : Z.of_nat (length (builtPackets r f))
                  <= PacketBuffer.size (packetBuffer state))
    by (rewrite builtPackets_length; lia).
  assert (Hnl' : S n = length (builtPackets r f))
    by (rewrite builtPackets_length; lia).
  destruct (PacketBuffer.InsertPacket_in_order_last
              r (builtPackets r f) n (packetBuffer state) _
              (builtPackets_in_order r f Hne) Hlo' Hhi' Hlen' Hhold Hp Hnl')
    as (b' & E & Esz' & Hempty).
  rewrite E. cbn [PacketBuffer.Frames].
  destruct (builtPackets_head r f Hne) as (payload0 & payloads & rest & Epay & Eb).
  pose proof (builtPackets_payloads r f) as Hpl. rewrite Eb in Hpl |- *.
  cbn [map resolveFrames]. unfold Assembler.AssembleFrame at 1.
  cbn [frameAssembler packetBuffer seqUnwrapper seqNumOnlyRefFinder
       frameIdOnlyRefFinder vp8RefFinder VideoHeader setContinuous
       bufferedPacketOf].
  unfold manageSelected.
  rewrite (first_header_selects r f payload0 (proj1 Hpic)).
  cbn [frameAssembler packetBuffer seqUnwrapper seqNumOnlyRefFinder
       frameIdOnlyRefFinder vp8RefFinder].
  match goal with
  | |- context [FrameIdOnly.ManageFrame _ (Some ?fr) (Some ?h)] =>
    destruct (ManageFrame_at prev state (sentPicture f) fr h Hfinder Hpic Hprev)
      as (fr' & Em & Hem); [reflexivity|]
  end.
  rewrite Em. cbn [resolveFrames app].
  exists fr'. eexists. split; [reflexivity|]. split.
  - destruct Hem as (Hid & Hty & Hdata & Hts & Hkey & Hdelta).
    cbn [frameType Data frameTimestamp] in Hty, Hdata, Hts, Hkey, Hdelta.
    rewrite Assembler.appendPayloads_concat in Hdata.
    change (setContinuous true
              (bufferedPacketOf (r + Z.of_nat 0) (sentTimestamp f)
                 (Nat.eqb 1 (length (sentPayloads f)))
                 (rtpVP8 (sentPacket r f 0 payload0)))
            :: map (setContinuous true) rest)
      with (map (setContinuous true)
                (bufferedPacketOf (r + Z.of_nat 0) (sentTimestamp f)
                   (Nat.eqb 1 (length (sentPayloads f)))
                   (rtpVP8 (sentPacket r f 0 payload0)) :: rest)) in Hdata.
    rewrite Hpl in Hdata.
    split; [exact Hid|]. split; [exact Hdata|].
    split; [exact Hts|].
    assert (Hty' : frameType fr' = DetectVP8FrameType (hd [] (sentPayloads f)))
      by (rewrite Epay; exact Hty).
    split; [exact Hty'|]. rewrite Hty'.
    split; [rewrite Epay; exact Hkey|rewrite Epay; exact Hdelta].
  - split; [exact Hempty|]. split; [cbn; lia|].
    split.
    { cbn [frameAssembler Assembler.frameIDCounter]. rewrite Ek.
      apply wrap64_id. unfold in_int64, int64_min, int64_max in *. lia. }
    split; [|reflexivity].
    left. cbn [seqUnwrapper]. f_equal. cbn [length] in Hlast |- *. lia.
Qed.

Lemma sendFrame_lookup r f n payload :
  sentPayloads f !! n = Some payload ->
  sendFrame r f !! n = Some (sentPacket r f n payload).
Proof. intros H. unfold sendFrame. now rewrite list_lookup_imap, H. Qed.

Lemma sendFrame_length r f : length (sendFrame r f) = length (sentPayloads f).
Proof. unfold sendFrame. apply length_imap. Qed.

(** The packets of a frame from position [n] on. *)
Lemma processAll_from sz r k prev f (j : nat) :
  next_frame_ok sz prev f ->
  0 <= r -> r + Z.of_nat (length (sentPayloads f)) <= int64_max - 2 ^ 17 ->
  0 <= k < int64_max ->
  forall n state,
    length (sentPayloads f) = (n + S j)%nat ->
    within_frame sz r k prev f n state ->
    exists fr state',
      processAll state (drop n (sendFrame r f))
      = Some (replicate j [] ++ [[fr]], state') /\
      received f fr /\
      between_frames sz (r + Z.of_nat (length (sentPayloads f))) (k + 1)
                     (Some (sentPicture f)) state'.
Proof.
  intros Hok Hr Hhi Hk. induction j as [|j IH]; intros n state Hlen Hin.
  - assert (Hp : is_Some (sentPayloads f !! n)) by (apply lookup_lt_is_Some; lia).
    destruct Hp as [payload Hp].
    rewrite (drop_S _ _ _ (sendFrame_lookup r f n payload Hp)).
    rewrite drop_ge by (rewrite sendFrame_length; lia).
    cbn [processAll replicate app].
    destruct (processPacket_last sz r k prev f n state payload Hin Hp
                ltac:(lia) Hok Hr Hhi Hk) as (fr & state' & -> & Hrec & Hbet).
    exists fr, state'. split; [reflexivity|]. split; [exact Hrec|exact Hbet].
  - assert (Hp : is_Some (sentPayloads f !! n)) by (apply lookup_lt_is_Some; lia).
    destruct Hp as [payload Hp].
    rewrite (drop_S _ _ _ (sendFrame_lookup r f n payload Hp)).
    cbn [processAll].
    destruct (processPacket_within sz r k prev f n state payload Hin Hp
                ltac:(lia) (proj1 (proj2 Hok)) Hr Hhi) as (state1 & -> & Hin1).
    destruct (IH (S n) state1 ltac:(lia) Hin1) as (fr & state' & -> & Hrec & Hbet).
    exists fr, state'. cbn [replicate app].
    split; [reflexivity|]. split; [exact Hrec|exact Hbet].
Qed.

(** One frame through a stream that stands between two frames. *)
Lemma processAll_frame sz r k prev f state :
  between_frames sz r k prev state -> next_frame_ok sz prev f ->
  0 <= r -> r + Z.of_nat (length (sentPayloads f)) <= int64_max - 2 ^ 17 ->
  0 <= k < int64_max ->
  exists fr state',
    processAll state (sendFrame r f)
    = Some (replicate (length (sentPayloads f) - 1) [] ++ [[fr]], state') /\
    received f fr /\
    between_frames sz (r + Z.of_nat (length (sentPayloads f))) (k + 1)
                   (Some (sentPicture f)) state'.
Proof.
  intros ([Hb Hnone] & Esz & Ek & Hu & Hfinder) Hok Hr Hhi Hk.
  assert (Hpos : (0 < length (sentPayloads f))%nat).
  { destruct Hok as [Hne _]. destruct (sentPayloads f); [congruence|cbn; lia]. }
  apply (processAll_from sz r k prev f (length (sentPayloads f) - 1) Hok Hr Hhi
           Hk 0%nat state); [lia|].
  split.
  { split; [exact Hb|]. split.
    - intros j q Hj. lia.
    - intros i x Hx. rewrite Hnone in Hx. discriminate. }
  split; [exact Esz|]. split; [exact Ek|]. split; [|exact Hfinder].
  destruct Hu as [E | [Es Hw]].
  - left. rewrite E. f_equal. change (Z.of_nat 0) with 0. lia.
  - right. split; [reflexivity|]. split; [exact Es|exact Hw].
Qed.

Lemma processAll_app state l1 l2 :
  processAll state (l1 ++ l2)
  = match processAll state l1 with
    | None => None
    | Some (outs1, state1) =>
      match processAll state1 l2 with
      | None => None
      | Some (outs2, state2) => Some (outs1 ++ outs2, state2)
      end
    end.
Proof.
  revert state. induction l1 as [|pkt l1 IH]; intros state; cbn [app processAll].
  - now destruct (processAll state l2) as [[outs2 state2]|].
  - destruct (processPacket state pkt) as [[out state1]|]; [|reflexivity].
    rewrite IH. destruct (processAll state1 l1) as [[outs1 state2]|]; [|reflexivity].
    now destruct (processAll state2 l2) as [[outs2 state3]|].
Qed.

Lemma map_length_replicate_nil (A : Type) (m : nat) :
  map (@length A) (replicate m []) = replicate m 0%nat.
Proof. induction m as [|m IH]; cbn; [reflexivity|now rewrite IH]. Qed.

Lemma concat_replicate_nil (A : Type) (m : nat) :
  concat (replicate m (@nil A)) = [].
Proof. induction m as [|m IH]; cbn; [reflexivity|exact IH]. Qed.

(** A whole stream through a stream state that stands between two frames. *)
Lemma processAll_stream sz frames :
  forall r k prev state,
    between_frames sz r k prev state -> stream_ok sz prev frames ->
    0 <= r ->
    r + Z.of_nat (length (sendStream r frames)) <= int64_max - 2 ^ 17 ->
    0 <= k -> k + Z.of_nat (length (sendStream r frames)) < int64_max ->
    exists outs state',
      processAll state (sendStream r frames) = Some (outs, state') /\
      map length outs = expected_counts frames /\
      Forall2 received frames (concat outs).
Proof.
  induction frames as [|f rest IH]; intros r k prev state Hbet Hok Hr Hhi Hk Hkhi.
  - exists [], state. split; [reflexivity|]. split; [reflexivity|constructor].
  - destruct Hok as [Hf Hrest]. cbn [sendStream] in *.
    rewrite length_app, sendFrame_length in Hhi, Hkhi.
    assert (Hpos : (0 < length (sentPayloads f))%nat).
    { destruct Hf as [Hne _]. destruct (sentPayloads f); [congruence|cbn; lia]. }
    destruct (processAll_frame sz r k prev f state Hbet Hf Hr ltac:(lia)
                ltac:(lia)) as (fr & state1 & E1 & Hrec & Hbet1).
    destruct (IH (r + Z.of_nat (length (sentPayloads f))) (k + 1)
                 (Some (sentPicture f)) state1 Hbet1 Hrest
                 ltac:(lia) ltac:(lia) ltac:(lia) ltac:(lia))
      as (outs & state' & E2 & Hcounts & Hall).
    rewrite processAll_app, E1, E2.
    eexists. exists state'. split; [reflexivity|]. split.
    + rewrite !map_app, map_length_replicate_nil, Hcounts.
      unfold expected_counts. cbn [map concat length]. now rewrite <- app_assoc.
    + rewrite !concat_app, concat_replicate_nil. cbn [concat app].
      constructor; [exact Hrec|exact Hall].
Qed.

Lemma newStreamState_between sz r state :
  newStreamState sz = Some state -> 0 <= r < 2 ^ 16 ->
  between_frames sz r 0 None state.
Proof.
  unfold newStreamState. intros H Hr.
  destruct (PacketBuffer.NewVideoPacketBuffer sz) as [b|] eqn:Eb; [|discriminate].
  injection H as <-.
  destruct (PacketBuffer.NewVideoPacketBuffer_well_formed sz b Eb) as [Hb Esz].
  split; [|split; [exact Esz|split; [reflexivity|split; [|reflexivity]]]].
  - split; [exact Hb|]. intros i.
    unfold PacketBuffer.NewVideoPacketBuffer in Eb.
    destruct (_ || _); [discriminate|]. injection Eb as <-.
    unfold PacketBuffer.slotAt. cbn [PacketBuffer.buffer packetBuffer].
    destruct (replicate (Z.to_nat sz) None !! i) as [v|] eqn:E; [|reflexivity].
    apply lookup_replicate in E. now destruct E as [-> _].
  - right. split; [reflexivity|exact Hr].
Qed.

(** A new stream that receives, in order and without loss, the packets of
    a sequence of frames: every frame has at least one packet and at most as
    many as the packet buffer has slots, the descriptors carry the picture
    id and no temporal-layer fields, the picture numbers start inside
    [0, 2^15) and move by less than 2^14 from frame to frame.  Then the
    closure never panics, returns nothing for a packet that is not the last
    of its frame and exactly one frame for each last packet, and the frames
    returned are the frames sent, in order: the id is the picture number
    (however often the 16-bit sequence number and the 15-bit picture id
    wrap), the data are the payloads concatenated, timestamp and frame type
    are those of the frame, a key frame has no reference and a delta frame
    the one reference [id - 1]. *)
Theorem receiver_returns_in_order_stream
        (packetBufferSize r : Z) (state : streamState)
        (frames : list SentFrame) :
  newStreamState packetBufferSize = Some state ->
  0 <= r < 2 ^ 16 ->
  stream_ok packetBufferSize None frames ->
  Z.of_nat (length (sendStream r frames)) <= 2 ^ 62 ->
  exists outs state',
    processAll state (sendStream r frames) = Some (outs, state') /\
    map length outs = expected_counts frames /\
    Forall2 received frames (concat outs).
Proof.
  intros Hnew Hr Hok Hlen.
  apply (processAll_stream packetBufferSize frames r 0 None state);
    [now apply newStreamState_between|exact Hok|lia| |lia|];
    unfold int64_max; change (2 ^ 16) with 65536 in Hr;
    change (2 ^ 62) with 4611686018427387904 in Hlen; lia.
Qed.

(** *** The receiving path never panics *)

Section WithSort.

Hypothesis sortSlice_permutation :
  forall (A : Type) (less : A -> A -> bool) (l : list A),
    Permutation l (sortSlice A less l).

Lemma manageSelected_total state frame header :
  stream_safe state ->
  (forall h, header = Some h -> VP8.temporal_ok h) ->
  exists out state',
    manageSelected state frame header = Some (out, state') /\
    stream_safe state' /\
    packetBuffer state' = packetBuffer state.
Proof.
  intros (Hb & Hslots & Hvp8) Hh. unfold manageSelected.
  destruct (SelectRefFinderType header) eqn:Esel.
  - destruct (SeqNumOnly.ManageFrame _ _ _ _) as [resolved f].
    eexists _, _. split; [reflexivity|]. split; [|reflexivity].
    exact (conj Hb (conj Hslots Hvp8)).
  - destruct (FrameIdOnly.ManageFrame _ _ _) as [resolved f].
    eexists _, _. split; [reflexivity|]. split; [|reflexivity].
    exact (conj Hb (conj Hslots Hvp8)).
  - destruct header as [h|]; [|discriminate].
    assert (Hf : VP8.stash_temporal_ok
                   (default VP8.NewVP8RefFinder (vp8RefFinder state))).
    { destruct (vp8RefFinder state); [exact Hvp8|constructor]. }
    destruct (VP8.VP8_ManageFrame_total sortSlice rangeOrder
                sortSlice_permutation _ frame h Hf (Hh h eq_refl))
      as (out & f1 & E & Hf1).
    cbn zeta. rewrite E.
    eexists _, _. split; [reflexivity|]. split; [|reflexivity].
    exact (conj Hb (conj Hslots Hf1)).
Qed.

Lemma resolveFrames_total frames :
  forall state,
    stream_safe state ->
    Forall (Forall header_ok) frames ->
    exists out state',
      resolveFrames state frames = Some (out, state') /\
      stream_safe state' /\
      packetBuffer state' = packetBuffer state.
Proof.
  induction frames as [|framePackets rest IH]; intros state Hsafe Hall.
  - exists [], state. split; [reflexivity|]. split; [exact Hsafe|reflexivity].
  - inversion Hall as [|? ? Hfr Hrest]; subst. cbn [resolveFrames].
    destruct (Assembler.AssembleFrame (frameAssembler state) framePackets)
      as [[frame|] a].
    + match goal with |- context [manageSelected ?st ?fr ?hd] =>
        destruct (manageSelected_total st fr hd) as (out & state1 & E & H1 & Eb)
      end.
      { exact Hsafe. }
      { destruct framePackets as [|p ps]; [discriminate|].
        inversion Hfr as [|? ? Hp _]; subst. exact Hp. }
      rewrite E.
      destruct (IH state1 H1 Hrest) as (more & state' & E' & H' & Eb').
      rewrite E'. eexists _, _. split; [reflexivity|]. split; [exact H'|].
      rewrite Eb', Eb. reflexivity.
    + match goal with |- context [resolveFrames ?st rest] =>
        destruct (IH st Hsafe Hrest) as (more & state' & E' & H' & Eb')
      end.
      rewrite E'. eexists _, _. split; [reflexivity|]. split; [exact H'|].
      rewrite Eb'. reflexivity.
Qed.

Lemma header_ok_setContinuous c q : header_ok q -> header_ok (setContinuous c q).
Proof. intros H. exact H. Qed.

Lemma processPacket_total state pkt :
  stream_safe state -> layer_in_range pkt ->
  exists out state',
    processPacket state pkt = Some (out, state') /\
    stream_safe state' /\
    PacketBuffer.size (packetBuffer state') = PacketBuffer.size (packetBuffer state).
Proof.
  intros (Hb & Hslots & Hvp8) Hpkt. unfold processPacket.
  destruct (SeqUnwrapper.unwrap _ _) as [unwrappedSeq u].
  match goal with |- context [PacketBuffer.InsertPacket ?b ?p] =>
    pose proof (PacketBuffer.InsertPacket_packets_preserved
                  header_ok b p header_ok_setContinuous Hb) as Hpres;
    pose proof (PacketBuffer.InsertPacket_well_formed b p Hb) as Hb';
    pose proof (PacketBuffer.InsertPacket_size b p Hb) as Esz;
    destruct (PacketBuffer.InsertPacket b p) as [result b']
  end.
  cbn [fst snd] in *.
  destruct Hpres as [Hslots' Hframes]; [|exact Hslots|].
  { intros h [= <-].
    exact (proj2 (header_temporal_index (rtpVP8 pkt) (rtpMarker pkt) Hpkt)). }
  match goal with |- context [resolveFrames ?st ?frs] =>
    destruct (resolveFrames_total frs st) as (out & state' & E & H' & Eb)
  end.
  - exact (conj Hb' (conj Hslots' Hvp8)).
  - apply Forall_forall. intros fr Hfr. apply Forall_forall. intros q Hq.
    apply list_elem_of_In in Hfr, Hq. exact (Hframes fr q Hfr Hq).
  - rewrite E. exists out, state'. split; [reflexivity|]. split; [exact H'|].
    rewrite Eb. exact Esz.
Qed.

(** Whatever packets arrive on a new stream, in whatever order, with
    losses and duplicates, the closure returns for every one of them as long
    as the [TID] field of each descriptor is below 128 (on the wire the field
    has two bits): the layer array of the VP8 finder is never indexed outside
    its bounds.  The packet buffer keeps its size and as many slots, so that
    every slot index stays inside the slice. *)
Theorem receiver_never_panics (packetBufferSize : Z) (state : streamState)
        (pkts : list RtpPacket) :
  newStreamState packetBufferSize = Some state ->
  Forall layer_in_range pkts ->
  exists outs state',
    processAll state pkts = Some (outs, state') /\
    length outs = length pkts /\
    PacketBuffer.well_formed (packetBuffer state') /\
    PacketBuffer.size (packetBuffer state') = packetBufferSize.
Proof.
  intros Hnew Hall.
  assert (Hsafe : stream_safe state /\
                  PacketBuffer.size (packetBuffer state) = packetBufferSize).
  { destruct (newStreamState_between packetBufferSize 0 state Hnew ltac:(lia))
      as ([Hb Hnone] & Esz & _).
    split; [|exact Esz]. split; [exact Hb|]. split.
    - intros j q Hq. rewrite Hnone in Hq. discriminate.
    - unfold newStreamState in Hnew.
      destruct (PacketBuffer.NewVideoPacketBuffer _); [|discriminate].
      injection Hnew as <-. exact I. }
  clear Hnew. destruct Hsafe as [Hsafe Esz]. revert state Hsafe Esz.
  induction Hall as [|pkt rest Hpkt Hrest IH]; intros state Hsafe Esz.
  - exists [], state. split; [reflexivity|]. split; [reflexivity|].
    split; [apply Hsafe|exact Esz].
  - cbn [processAll].
    destruct (processPacket_total state pkt Hsafe Hpkt)
      as (out & state1 & -> & H1 & Esz1).
    destruct (IH state1 H1 ltac:(lia))
      as (outs & state' & -> & Hlen & Hwf & Esz').
    exists (out :: outs), state'. split; [reflexivity|].
    split; [cbn; now rewrite Hlen|]. split; [exact Hwf|exact Esz'].
Qed.

End WithSort.

End Receive.

Lemma receiver_returns_in_order_stream_witness :
  (newStreamState 64 = Some fresh64 /\
   0 <= 65535 < 2 ^ 16 /\
   stream_ok 64 None wrapping_stream /\
   Z.of_nat (length (sendStream 65535 wrapping_stream)) <= 2 ^ 62) /\
  (exists outs state',
      processAll SeqNumOnly.mergeSortSlice VP8.keyOrder fresh64
                 (sendStream 65535 wrapping_stream)
      = Some (outs, state') /\
      map length outs = expected_counts wrapping_stream /\
      Forall2 received wrapping_stream (concat outs)) /\
  option_map (fun x => map (map ID) (fst x))
             (processAll SeqNumOnly.mergeSortSlice VP8.keyOrder fresh64
                         (sendStream 65535 wrapping_stream))
  = Some [[]; [32767]; [32768]].
Proof.
  assert (H1 : newStreamState 64 = Some fresh64) by reflexivity.
  assert (H2 : 0 <= 65535 < 2 ^ 16) by lia.
  assert (H3 : stream_ok 64 None wrapping_stream).
  { unfold wrapping_stream, stream_ok, next_frame_ok, FrameIdOnly.near, int64_max.
    cbn [sentPayloads sentPicture length].
    split; [|split; [|exact I]].
    - split; [discriminate|]. split; [lia|]. split; lia.
    - split; [discriminate|]. split; [lia|]. split; [lia|]. split; lia. }
  assert (H4 : Z.of_nat (length (sendStream 65535 wrapping_stream)) <= 2 ^ 62)
    by (cbn; lia).
  split; [exact (conj H1 (conj H2 (conj H3 H4)))|].
  split; [|vm_compute; reflexivity].
  exact (receiver_returns_in_order_stream
           SeqNumOnly.mergeSortSlice VP8.keyOrder 64 65535 fresh64
           wrapping_stream H1 H2 H3 H4).
Defined.

Lemma receiver_never_panics_witness :
  (newStreamState 64 = Some fresh64 /\ Forall layer_in_range mixed_packets) /\
  (exists outs state',
      processAll SeqNumOnly.mergeSortSlice VP8.keyOrder fresh64 mixed_packets
      = Some (outs, state') /\
      length outs = length mixed_packets /\
      PacketBuffer.well_formed (packetBuffer state') /\
      PacketBuffer.size (packetBuffer state') = 64) /\
  option_map (fun x => map (map ID) (fst x))
             (processAll SeqNumOnly.mergeSortSlice VP8.keyOrder fresh64
                         mixed_packets)
  = Some [[]; [300]; [301]].
Proof.
  assert (H1 : newStreamState 64 = Some fresh64) by reflexivity.
  assert (H2 : Forall layer_in_range mixed_packets).
  { unfold mixed_packets, layer_in_range.
    repeat constructor; cbn; lia. }
  split; [exact (conj H1 H2)|].
  split; [|vm_compute; reflexivity].
  exact (receiver_never_panics
           SeqNumOnly.mergeSortSlice VP8.keyOrder
           SeqNumOnly.mergeSortSlice_permutation 64 fresh64 mixed_packets H1 H2).
Defined.

End Receiver.
